(* ===== verification/_CoqProject ===== *)
-Q . S2P
Prelude.v
Errors.v
ParseContext.v
Views.v
Iterators.v
BackendMessages.v
AnyMessage.v
ParseMessage.v
BackendWire.v
BackendSpec.v
FrontendMessages.v
FrontendSpec.v
Request.v
RequestSpec.v
ReadResponse.v
ReadResponseSpec.v
ReadResponseGrammar.v
Sqlstate.v
ReadBuffer.v
MessagePump.v
Exec.v
ExecSome.v
Base64.v
CommandTag.v
ErrorText.v
Responses.v
Response.v
Resultsets.v
ResultsetIterators.v
Describe.v
ScramMessages.v
Scram.v
Startup.v
StartupSession.v
Connect.v
Connection.v
Streaming.v
ConnectionSession.v
Multiplexer.v
MultiplexerSpec.v
MultiplexerRefine.v
Charconv.v
FieldTypes.v
Statements.v
Json.v
FloatTypes.v
FloatSpec.v
Numeric.v
Digits.v
NumericSpec.v
Datetime.v
DatetimeSpec.v
TimestampSpec.v
IntervalSpec.v
ResultsetCallback.v
NotificationQueue.v
Pool.v
PoolSpec.v
PoolSafety.v
PoolPing.v
MultiplexedConnection.v
SessionAnswers.v
BufferBound.v
QueryRows.v
IoErrors.v
