(* ===== verification/Prelude.v ===== *)
(** * nativepg: a verification library for the PostgreSQL protocol client

    nativepg is a PostgreSQL client written as sans-I/O state machines.  This
    library models the machines and the data they exchange, translated from
    [src/include] and [src/src], and proves them correct.

    ** The program

    A [request] ([include/nativepg/request.hpp]) accumulates serialized frontend
    messages and their types.  [exec_fsm] ([src/exec_fsm.cpp]) checks it, asks for
    its payload to be written, and then turns the bytes the server sends into
    messages: they arrive in a [read_buffer], [parse_message] ([src/messages.cpp])
    cuts and parses one message at a time, and [read_response_fsm]
    ([src/read_response_fsm.cpp]) decides whether the message is allowed and hands
    it to the response handler of the caller.  Errors the server reports carry an
    SQLSTATE ([src/sqlstate.cpp]).

    ** The files

    Shared:
    - [Prelude]: bytes and characters as [Z], machine integers with their
      wrap-around, big-endian encodings, lemmas on lists, tactics and hint
      databases;
    - [Errors]: [std::error_code] as the library uses it.

    Reading messages:
    - [ParseContext] ([src/parse_context.hpp]): the bounds-checked cursor as a
      state monad; [Accepts], the class that relates a parser to the language it
      accepts, with an instance per operation; [Reports], the errors it may give;
    - [Views] ([protocol/views.hpp]): the lazy views over serialized items;
      [ForwardItem] is the contract between the parsers, which validate the bytes,
      and the iterators, which do not; [Iterators]: what a random-access iterator
      is, and the operators of the views;
    - [BackendMessages] ([protocol/*.hpp], the [parse] functions of
      [src/messages.cpp]) and [ParseMessage] (headers, dispatch, [parse_message],
      [message_missing_bytes]); [AnyMessage] ([protocol/any_backend_message.hpp]):
      the tagged union that holds any of them;
    - [BackendWire]: the wire format of every backend message as an inductive
      relation, and each parser against it; [BackendSpec]: the theorems.

    Writing messages:
    - [FrontendMessages] ([protocol/detail/serialization_context.hpp],
      [protocol/bind.hpp], the [serialize] functions of [src/messages.cpp]) and
      [FrontendSpec]: the encoding of every frontend message, and the theorems;
    - [Request] ([request.hpp], [src/request.cpp], [check_request.hpp]) and
      [RequestSpec]: what each builder adds, and which requests pass the check;
    - [Statements] ([request.hpp], [parameter_ref.hpp], [field_traits.hpp]):
      statements with typed parameters over [FieldCodec], the class of what the
      traits of a type promise.

    Executing requests:
    - [ReadResponse] ([src/read_response_fsm.cpp], [responses/response_handler.hpp]):
      the response reader over [ResponseHandler], the class of what it asks of a
      handler; [ReadResponseSpec]: independence of the handler, and safety;
      [ReadResponseGrammar]: the grammar of responses and the equivalence with it;
    - [ReadBuffer] ([protocol/detail/read_buffer.hpp]): the buffer, and its
      refinement to a queue of bytes;
    - [MessagePump] and [Exec] ([src/exec_fsm.cpp], [setup_request]): the message
      loop, the execution machine, and the end-to-end theorems;
    - [ExecSome] ([protocol/detail/exec_some_fsm.hpp], the loops of
      [src/co_connection.cpp] around it): streaming COPY data; [Streaming]: the connection that keeps its machine,
      over a stream that may fail;
    - [Sqlstate] ([sqlstate.hpp], [sqlstate_cond.hpp], [src/sqlstate.cpp]);
      [ErrorText] ([src/error.cpp], [extended_error.hpp]): texts and exceptions.

    Handling responses:
    - [CommandTag] ([parse_command_complete_tag] of [src/messages.cpp]);
    - [Responses] ([src/responses.cpp], [responses/check.hpp],
      [responses/detail/response_utils.hpp]): the checking handlers and the setup
      functions; [ErrorStore], the class of the handlers that keep the first error;
    - [Response] ([responses/response.hpp]): the tuple of handlers;
      [TakesMessage], the class of the handlers it can route to;
    - [Resultsets] ([responses/resultsets.hpp] and its views and handler),
      [ResultsetIterators] (the iterators of the views) and [Describe] ([describe_into], [compute_pos_map]);
    - [ResultsetCallback] ([responses/resultset_callback.hpp],
      [detail/row_traits.hpp]): rows as objects, over the list of the members of
      the row type; [TotalTraits], the class of the field traits that return.

    Connecting:
    - [Base64] ([src/nativepg_internal/base64.cpp]);
    - [ScramMessages] ([src/nativepg_internal/scram_sha256_messages.hpp]) and
      [Scram] ([scram_sha256_crypt.hpp], [src/scram_sha256_fsm.cpp]): the exchange
      of RFC 5802 over [OpenSSL], the class of the primitives;
    - [Startup] ([src/startup_fsm.cpp]): the login machine and its loop over the
      messages; [StartupSession]: the machine run against a server;
    - [Connect] ([src/connect_fsm.cpp]); [Connection] ([connection.hpp],
      [src/co_connection.cpp]): the composed operations and the coroutines that do
      what the machines ask for;
      [ConnectionSession]: a login and an execution on one object; [IoErrors]: what
      a failing operation does; [BufferBound]: how large the buffer grows;
      [QueryRows]: a query from its text to the rows of the user.

    Sharing a connection:
    - [Multiplexer]
      ([src/nativepg_internal/multiplexed_connection/multiplexer.hpp]): the queue
      of requests and the stream of responses; an element's address is a number;
    - [MultiplexerSpec]: no request is lost; [MultiplexerRefine]: the queue of the
      specification and the simulation;
    - [NotificationQueue] ([src/nativepg_internal/notification_queue.hpp]): the
      events a consumer reads, with backpressure;
    - [MultiplexedConnection] ([src/co_multiplexed_connection.cpp]): the reader, the
      writer, [run] and [exec] around the two, as steps of tasks;
      [SessionAnswers]: a session on a server that answers;
    - [Pool] ([src/nativepg_internal/connection_pool/], [co_connection_pool.hpp]):
      the state machine of a pooled connection over [NodeHooks], the class of what
      it asks of its derived class, the tasks of the pool, and its steps;
      [PoolSpec]: the invariant; [PoolSafety]: every step keeps it, and what
      follows; [PoolPing]: the pings, executed.

    Field types:
    - [Charconv]: the functions of [<charconv>] and [<cctype>] that are used;
    - [FieldTypes] ([types/base.hpp], [detail/field_traits_base.hpp],
      [field_traits_nullable.hpp]): the two customisation points as records, with
      a value for every C++ type;
    - [Datetime] ([types/datetime.hpp], [detail/field_traits_datetime.hpp]), and
      what PostgreSQL writes against what is read: [DatetimeSpec] (dates),
      [TimestampSpec] (times, offsets, timestamps), [IntervalSpec];
    - [FloatTypes] ([float] and [double], as the binary floats of the Standard
      Library) and [FloatSpec];
    - [Numeric] ([types/numeric.hpp], [types/decimal.hpp]) over [Number] and
      [DecimalChars], the classes of what is used of the Boost types; [Digits]
      (significant digits) and [NumericSpec], over [ExactNumber], the class of the
      types whose arithmetic is exact;
    - [Json] ([types/json.hpp]) over [JsonLibrary].

    ** How code becomes definitions

    Names are those of the source.  A span, a [string_view] or a vector of bytes
    is a list of [Z] in [0, 256).  Integers are [Z]; [wrapU], [wrapS] and [wrap64]
    write the wrap-around where the code's arithmetic can reach it; sizes and
    offsets of lists that are held in memory are [nat].  A failed [BOOST_ASSERT],
    a read outside a span and an index out of range are [None], so that a theorem
    that a function returns [Some] says that they do not happen.  An exception is
    the [error] it carries, next to the state it leaves behind.  An enumeration
    that may hold any value after a cast is the integer itself.  A coroutine
    written with the macros of [src/coroutine.hpp] is a function on its resume
    point.  A class template over handlers or items is a section over a type
    class.

    Loops whose recursion is not structural take fuel: a number of bytes, as
    every iteration consumes at least one ([fpv_loop], [error_notice_loop],
    [sasl_loop], [interval_loop]; at least five for [pump_loop],
    [drive_loop], [process_batch] and [reader_loop]).  [node_loop] runs twice at most, a reset
    leaving the node idle.  The wrappers
    pass the length plus one, which the theorems show to be enough: they state
    results, never only what holds if a result is returned.

    ** What the theorems show

    - Parsing: a body is accepted exactly when it is in the protocol's grammar;
      a stream exactly when it starts with a complete frame; how much input is
      missing; the views of an accepted message never read outside it, and their
      iterators are positions.
    - Serializing: every serializer appends exactly the protocol encoding, or
      reports that a collection is too big; the builders of [request] append
      the messages they stand for; [check_request] accepts exactly the requests
      made of queries and closed batches, which autosync guarantees; a prepared
      statement declares the types its parameters are then encoded with.
    - Reading responses: on a checked request no assertion fails whatever the
      server sends; the machine completes on exactly the grammar of responses;
      it treats all handlers alike.
    - Executing: for every way of cutting the bytes into reads the response is
      delivered to the handler as the grammar says, and what follows it is kept;
      a streamed response shows its user the COPY data as it came, and leaves the
      connection ready for the next request.
    - Handling: the first server error of a response is what a handler reports;
      the composite response gives every handler the calls of its own range;
      a [resultsets] object, read through its views, shows what the server
      sent; command tags, the setup functions and the mapping of names to
      fields do exactly what their grammars say; the callback for rows gets
      exactly the rows sent, decoded, up to the first error.
    - Connecting: base64 is inverted and accepts exactly base64; the SCRAM
      exchange completes with every server that follows the specification, and
      with no other signature; the login succeeds on exactly the conversations
      that authenticate the client and become ready, and over every cutting of
      the server's bytes; connecting adds the physical connection and the close;
      the two connection objects do the same, and complete once;
      connecting and then executing a request works end to end, and so does a
      query, from [add_query] to the rows or the error that its user gets; an
      operation that fails ends the call with its error; the read buffer is bounded
      by the largest frame that the peer declares.
    - Multiplexing: requests are conserved; on a server that answers, the
      multiplexer refines a queue in which every request written and not
      cancelled is answered, in order; notifications are never lost and their
      queue stays within its limit and two; a session routes every message the
      server sends, once and in order, for every interleaving of its tasks, and
      answers its users when the server does.
    - Pooling: for every interleaving of the tasks no assertion fails, the lists
      and counters are exact, a connection has one user, no request sleeps while a
      connection is idle, and a cancelled pool shuts down; a ping decides if
      a connection is idle again.
    - Field types: integers stay in the range of their type and survive the
      round trip; the text and the binary formats agree, on bytea, dates, times,
      timestamps and intervals as PostgreSQL writes them, with the exact
      exceptions; the loop over the parts of an interval ends.  A [float] read as a
      [double] is the same number.  Numerics are read alike from both formats, and
      safely from any bytes.
    - Divergences: some theorems pin down behaviour that differs from the
      protocol or from a comment (SSLRequest, CancelRequest in a non-empty
      vector, messages longer than an Int32, unknown error fields, parameter
      descriptions, the CopyData type byte, payloads after an exception, base64
      input above 127, a response object used twice, steps skipped after an
      error, mandatory SCRAM extensions, errors with SQLSTATE 00000, messages
      outside any request, empty integers, late dates, infinite dates, offsets
      with seconds, intervals of more than a day, resultsets of several queries in
      the row callback, errors shown as the end of COPY data, bytes of a lost
      connection that the next login reads, a failed stream that stays in progress, a
      failed resolution that completes twice, backward distances of iterators,
      empty JSON).

    ** Parameters

    [Allocator] is [new unsigned char[n]]: [n] bytes of unspecified value.  A
    [parameter_ref] carries its serializers as functions.
    The signedness of [char], which the language leaves open, is an argument of
    the base64 decoder.  [OpenSSL] is HMAC, SHA-256 and [RAND_bytes], each of which
    may fail; [works] says that they do not and that digests have 32 bytes, and the
    server of [scram_handshake] computes with the same functions.  Of
    [std::chrono], [year] holds 16 bits, [month] and [day] 8, and durations 64:
    values that do not fit are truncated, as the implementations do.  [Timer] is
    which waiter [cancel_one] of a timer completes, and [TimerLaws] that it is one
    of them, if there are any.  Of Capy's primitives the steps assume that a stop
    is seen by a connection only after [cancel_ev_] is set; [pool_shuts_down]
    is about pools whose connections have all begun to run when they are cancelled,
    since when [run_async] starts a task is not known here.

    The number, decimal and JSON types of Boost are type classes of operations
    ([Number], [DecimalChars], [JsonLibrary]).  Safety needs no law of them; that the two
    formats agree is stated for types that compute exactly ([ExactNumber],
    [ExactText], [ExactChars]), with rational numbers as an instance.

    ** What is not modelled

    Asynchronous I/O itself is outside: an operation is an event, its error and
    the bytes it brings, in any order the code allows.  Where coroutines share
    state (the pool, the multiplexed connection) they are modelled as tasks that run
    between suspensions.  The coroutine types, [openssl_error.cpp] and the
    construction of the I/O objects are glue.  The addresses that a
    [parameter_ref] or a handler reference holds, and the lifetimes of what they
    point to, are not modelled: the values are.  Running out of memory is not
    modelled.
*)

From stdpp Require Import base list option numbers.
From Stdlib Require Import ZArith Lia Ascii.
From Stdlib Require String.
Export String (string(..)).
Export (notations) String.
Export (notations) Ascii.

#[local] Open Scope Z_scope.

(** ** Notations and rewriting databases *)

Declare Scope pg_scope.
Delimit Scope pg_scope with pg.

Create HintDb pg discriminated.
Create Rewrite HintDb pglen.

(** ** Bytes and characters

    An [unsigned char] is a [Z] in [0, 256); a span, a vector of bytes or a
    [string_view] is a list of them. *)

Abbreviation bytes := (list Z).

Definition is_byte (b : Z) : Prop := 0 <= b < 256.

#[global] Instance is_byte_dec b : Decision (is_byte b).
Proof. unfold is_byte. apply _. Defined.

(** [ch "R"] is the code of the character literal ['R']. *)
Definition ch (c : ascii) : Z := Z.of_N (N_of_ascii c).

(** [str "user"] is the content of a string literal. *)
Fixpoint str (s : string) : bytes :=
  match s with
  | EmptyString => []
  | String c s' => ch c :: str s'
  end.

Arguments ch c%_char_scope.
Arguments str s%_string_scope.

Lemma is_byte_ch c : is_byte (ch c).
Proof.
  unfold is_byte, ch. pose proof (N_ascii_bounded c). lia.
Qed.

Lemma is_byte_str s : Forall is_byte (str s).
Proof. induction s; simpl; constructor; auto using is_byte_ch. Qed.

#[export] Hint Resolve is_byte_ch is_byte_str : pg.

(** ** Machine integers *)

(** [sizeof]-indexed wrap-around: a [n]-byte unsigned and signed integer. *)
Definition wrapU (n : nat) (z : Z) : Z := z mod 2 ^ (8 * Z.of_nat n).
Definition wrapS (n : nat) (z : Z) : Z :=
  let m := 2 ^ (8 * Z.of_nat n) in
  let u := z mod m in
  if u <? m / 2 then u else u - m.

Definition int_ok (n : nat) (z : Z) : Prop :=
  - 2 ^ (8 * Z.of_nat n) <= 2 * z < 2 ^ (8 * Z.of_nat n).

Definition INT16_MAX : Z := 32767.
Definition INT32_MAX : Z := 2147483647.
Definition SIZE_MAX : Z := 18446744073709551615.
Definition wrap64 (z : Z) : Z := z mod 18446744073709551616.

Lemma pow8_pos n : 0 < 2 ^ (8 * Z.of_nat n).
Proof. apply Z.pow_pos_nonneg; lia. Qed.

Lemma pow8_even n : (0 < n)%nat -> 2 ^ (8 * Z.of_nat n) = 2 * (2 ^ (8 * Z.of_nat n) / 2).
Proof.
  intros H. replace (8 * Z.of_nat n) with (Z.succ (8 * Z.of_nat n - 1)) by lia.
  rewrite Z.pow_succ_r by lia. rewrite Z.mul_comm, Z.div_mul by lia. lia.
Qed.

Lemma wrapS_id n z : (0 < n)%nat -> int_ok n z -> wrapS n z = z.
Proof.
  intros Hn [H1 H2]. unfold wrapS. pose proof (pow8_pos n) as Hp.
  pose proof (pow8_even n Hn) as He.
  set (m := 2 ^ (8 * Z.of_nat n)) in *.
  destruct (Z.ltb_spec (z mod m) (m / 2)); destruct (Z.le_gt_cases 0 z).
  - rewrite Z.mod_small; lia.
  - replace (z mod m) with (z + m) in *; [lia|].
    rewrite <- (Z.mod_add z 1 m) by lia. rewrite Z.mod_small; lia.
  - rewrite Z.mod_small in *; lia.
  - rewrite <- (Z.mod_add z 1 m) by lia. rewrite Z.mod_small; lia.
Qed.

Lemma wrapS_ok n z : (0 < n)%nat -> int_ok n (wrapS n z).
Proof.
  intros Hn. unfold wrapS, int_ok. pose proof (pow8_pos n) as Hp.
  pose proof (pow8_even n Hn) as He.
  set (m := 2 ^ (8 * Z.of_nat n)) in *.
  pose proof (Z.mod_pos_bound z m Hp).
  destruct (Z.ltb_spec (z mod m) (m / 2)); lia.
Qed.

Lemma wrapS_mod n z : (0 < n)%nat -> wrapS n z mod 2 ^ (8 * Z.of_nat n) = z mod 2 ^ (8 * Z.of_nat n).
Proof.
  intros Hn. unfold wrapS. pose proof (pow8_pos n) as Hp.
  set (m := 2 ^ (8 * Z.of_nat n)) in *.
  destruct (Z.ltb_spec (z mod m) (m / 2)).
  - apply Z.mod_mod; lia.
  - replace (z mod m - m) with (z mod m + (-1) * m) by lia.
    rewrite Z.mod_add by lia. apply Z.mod_mod; lia.
Qed.

(** ** Big-endian encoding ([boost::endian::endian_load] / [endian_store]) *)

(** The value of a byte string read as an unsigned big-endian number. *)
Fixpoint be_decode_acc (acc : Z) (bs : bytes) : Z :=
  match bs with
  | [] => acc
  | b :: bs' => be_decode_acc (acc * 256 + b) bs'
  end.
Definition be_decode (bs : bytes) : Z := be_decode_acc 0 bs.

(** The [n]-byte big-endian image of [z]. *)
Fixpoint be_encode (n : nat) (z : Z) : bytes :=
  match n with
  | O => []
  | S n' => (z / 2 ^ (8 * Z.of_nat n')) mod 256 :: be_encode n' z
  end.

(** [endian_load<intN_t, n, big>] of exactly [n] bytes. *)
Definition load_big_s (bs : bytes) : Z := wrapS (length bs) (be_decode bs).

Lemma length_be_encode n z : length (be_encode n z) = n.
Proof. induction n; simpl; congruence. Qed.

Lemma is_byte_be_encode n z : Forall is_byte (be_encode n z).
Proof.
  induction n; simpl; constructor; auto.
  unfold is_byte. apply Z.mod_pos_bound. lia.
Qed.

Lemma be_decode_acc_encode n : forall acc z,
  be_decode_acc acc (be_encode n z) =
  acc * 2 ^ (8 * Z.of_nat n) + z mod 2 ^ (8 * Z.of_nat n).
Proof.
  induction n as [|n IH]; intros acc z; cbn [be_encode be_decode_acc].
  - rewrite Z.mul_0_r, Z.pow_0_r, Z.mod_1_r. lia.
  - rewrite IH. pose proof (pow8_pos n) as Hp.
    replace (8 * Z.of_nat (S n)) with (8 * Z.of_nat n + 8) by lia.
    rewrite Z.pow_add_r by lia. change (2 ^ 8) with 256.
    set (m := 2 ^ (8 * Z.of_nat n)) in *.
    rewrite (Z.mul_comm m 256) at 1 2.
    rewrite (Z.mul_comm 256 m) at 2.
    rewrite Z.rem_mul_r by lia. lia.
Qed.

Lemma be_decode_encode n z : be_decode (be_encode n z) = wrapU n z.
Proof. unfold be_decode, wrapU. rewrite be_decode_acc_encode. lia. Qed.

Lemma wrapS_wrapU n z : wrapS n (wrapU n z) = wrapS n z.
Proof.
  unfold wrapS, wrapU. pose proof (pow8_pos n). rewrite Z.mod_mod by lia. reflexivity.
Qed.

Lemma load_big_s_encode n z : (0 < n)%nat -> int_ok n z -> load_big_s (be_encode n z) = z.
Proof.
  intros. unfold load_big_s.
  rewrite length_be_encode, be_decode_encode, wrapS_wrapU. auto using wrapS_id.
Qed.

Lemma load_big_s_ok bs : (0 < length bs)%nat -> int_ok (length bs) (load_big_s bs).
Proof. apply wrapS_ok. Qed.

Lemma be_decode_acc_bound bs : forall acc, Forall is_byte bs ->
  acc * 2 ^ (8 * Z.of_nat (length bs)) <= be_decode_acc acc bs
  < (acc + 1) * 2 ^ (8 * Z.of_nat (length bs)).
Proof.
  induction bs as [|b bs IH]; intros acc H; cbn [be_decode_acc length].
  - rewrite Z.mul_0_r, Z.pow_0_r. lia.
  - inversion_clear H as [|? ? Hb Hbs]. specialize (IH (acc * 256 + b) Hbs).
    replace (8 * Z.of_nat (S (length bs))) with (8 * Z.of_nat (length bs) + 8) by lia.
    rewrite Z.pow_add_r by lia. change (2 ^ 8) with 256.
    pose proof (pow8_pos (length bs)). unfold is_byte in Hb.
    set (m := 2 ^ (8 * Z.of_nat (length bs))) in *. nia.
Qed.

Lemma be_encode_mod n z z' :
  z mod 2 ^ (8 * Z.of_nat n) = z' mod 2 ^ (8 * Z.of_nat n) -> be_encode n z = be_encode n z'.
Proof.
  revert z z'; induction n as [|n IH]; intros z z' H; cbn [be_encode]; [done|].
  pose proof (pow8_pos n) as Hp.
  replace (8 * Z.of_nat (S n)) with (8 * Z.of_nat n + 8) in H by lia.
  rewrite Z.pow_add_r in H by lia. change (2 ^ 8) with 256 in H.
  set (m := 2 ^ (8 * Z.of_nat n)) in *.
  rewrite !Z.rem_mul_r in H by lia.
  pose proof (Z.mod_pos_bound z m Hp). pose proof (Z.mod_pos_bound z' m Hp).
  assert (z mod m = z' mod m /\ (z / m) mod 256 = (z' / m) mod 256) as [Hlo Hhi].
  { pose proof (Z.mod_pos_bound (z / m) 256 ltac:(lia)).
    pose proof (Z.mod_pos_bound (z' / m) 256 ltac:(lia)).
    assert ((z / m) mod 256 = (z' / m) mod 256) by nia. split; [|done]. nia. }
  rewrite Hhi. f_equal. by apply IH.
Qed.

Lemma be_encode_decode_acc bs : forall acc, Forall is_byte bs ->
  be_encode (length bs) (be_decode_acc acc bs) = bs.
Proof.
  induction bs as [|b bs IH]; intros acc H; [done|].
  inversion_clear H as [|? ? Hb Hbs]. cbn [length be_encode be_decode_acc].
  rewrite IH by done. f_equal.
  pose proof (be_decode_acc_bound bs (acc * 256 + b) Hbs) as Hd.
  set (m := 2 ^ (8 * Z.of_nat (length bs))) in *.
  assert (0 < m) by apply pow8_pos.
  assert (be_decode_acc (acc * 256 + b) bs / m = acc * 256 + b) as ->.
  { symmetry. apply (Z.div_unique _ _ _ (be_decode_acc (acc * 256 + b) bs - m * (acc * 256 + b))); lia. }
  rewrite Z.add_comm, Z.mod_add by lia. apply Z.mod_small. exact Hb.
Qed.

(** Loading and storing back is the identity on genuine bytes. *)
Lemma be_encode_load bs : (0 < length bs)%nat -> Forall is_byte bs ->
  be_encode (length bs) (load_big_s bs) = bs.
Proof.
  intros Hl Hb. rewrite <- (be_encode_decode_acc bs 0) at 3 by done.
  apply be_encode_mod. unfold load_big_s. by apply wrapS_mod.
Qed.

#[global] Opaque be_encode load_big_s.

#[export] Hint Resolve is_byte_be_encode : pg.
#[export] Hint Rewrite length_be_encode @length_app @length_drop @length_take : pglen.

(** ** Fixed-width ranges as plain inequalities *)

Lemma int_ok_2 z : int_ok 2 z <-> -32768 <= z <= 32767.
Proof. unfold int_ok. change (2 ^ (8 * Z.of_nat 2)) with 65536. lia. Qed.
Lemma int_ok_4 z : int_ok 4 z <-> -2147483648 <= z <= 2147483647.
Proof. unfold int_ok. change (2 ^ (8 * Z.of_nat 4)) with 4294967296. lia. Qed.

(** ** Lists *)

Lemma take_app_len {A} (l k : list A) n : n = length l -> take n (l ++ k) = l.
Proof. intros ->. apply take_app_length. Qed.
Lemma drop_app_len {A} (l k : list A) n : n = length l -> drop n (l ++ k) = k.
Proof. intros ->. apply drop_app_length. Qed.

Lemma take_drop_len {A} n (l : list A) : take n l ++ drop (length (take n l)) l = l.
Proof.
  rewrite length_take. destruct (Nat.le_ge_cases n (length l)).
  - rewrite Nat.min_l by done. apply take_drop.
  - rewrite Nat.min_r, take_ge, drop_all by done. apply app_nil_r.
Qed.

(** The part of a span between two of its pointers: [b] and [e] are suffixes
    of the same span, [e] not before [b]. *)
Definition span_between (b e : bytes) : bytes := take (length b - length e) b.

Lemma span_between_app b e : span_between (b ++ e) e = b.
Proof. unfold span_between. apply take_app_len. rewrite length_app. lia. Qed.

(** [memcpy] into a vector at an offset inside it. *)
Definition write_at (off : nat) (bs buf : bytes) : bytes :=
  take off buf ++ bs ++ drop (off + length bs) buf.

Lemma write_at_app pre old post new :
  length new = length old ->
  write_at (length pre) new (pre ++ old ++ post) = pre ++ new ++ post.
Proof.
  intros H. unfold write_at. rewrite take_app_length. f_equal. f_equal.
  rewrite H, app_assoc. apply drop_app_len. rewrite length_app. lia.
Qed.

Lemma length_write_at off bs buf :
  (off + length bs <= length buf)%nat -> length (write_at off bs buf) = length buf.
Proof.
  intros H. unfold write_at. rewrite !length_app, length_take, length_drop. lia.
Qed.

(** ** Tactics *)

(** Case analysis on the innermost [if] or [match] scrutinee of the goal. *)
Ltac case_if_goal :=
  match goal with
  | |- context [if ?b then _ else _] => destruct b eqn:?
  end.

(** Turn boolean comparisons in the context into propositions. *)
Ltac bool_prop :=
  repeat match goal with
  | H : (_ <? _) = true |- _ => apply Z.ltb_lt in H
  | H : (_ <? _) = false |- _ => apply Z.ltb_ge in H
  | H : (_ <=? _) = true |- _ => apply Z.leb_le in H
  | H : (_ <=? _) = false |- _ => apply Z.leb_gt in H
  | H : (_ =? _) = true |- _ => apply Z.eqb_eq in H
  | H : (_ =? _) = false |- _ => apply Z.eqb_neq in H
  | H : (_ >? _) = true |- _ => rewrite Z.gtb_ltb in H; apply Z.ltb_lt in H
  | H : (_ >? _) = false |- _ => rewrite Z.gtb_ltb in H; apply Z.ltb_ge in H
  | H : (_ && _) = true |- _ => apply andb_true_iff in H as [? ?]
  | H : (_ || _) = false |- _ => apply orb_false_iff in H as [? ?]
  end.

(** Arithmetic on lengths: normalise [length] and call [lia]. *)
Ltac len := autorewrite with pglen in *; simpl in *; lia.

Lemma app_longer {A} (a b c d : list A) : a ++ b = c ++ d -> (length c <= length a)%nat -> exists u, a = c ++ u /\ u ++ b = d.
Proof.
  intros He Hl. exists (drop (length c) a). assert (take (length c) a = c) as Ht.
  { rewrite <- (take_app_le a b) by done. rewrite He. apply take_app_length. }
  rewrite <- Ht at 1. rewrite take_drop. split; [done|]. rewrite <- drop_app_le, He by done. apply drop_app_length.
Qed.

(** ** Counting, and lists without duplicates *)

Definition count {A} (f : A -> bool) (l : list A) : nat := length (List.filter f l).

Lemma count_app {A} (f : A -> bool) l1 l2 : count f (l1 ++ l2) = (count f l1 + count f l2)%nat.
Proof. unfold count. by rewrite List.filter_app, length_app. Qed.

Lemma count_le {A} (f : A -> bool) l : (count f l <= length l)%nat.
Proof. apply List.filter_length_le. Qed.

Lemma count_mono {A} (f g : A -> bool) l : (forall x, f x = true -> g x = true) -> (count f l <= count g l)%nat.
Proof.
  intros Hfg. unfold count. induction l as [|x l IH]; [done|]. simpl. specialize (Hfg x).
  destruct (f x); [rewrite Hfg by done; simpl; lia|]. destruct (g x); simpl; lia.
Qed.

Lemma count_insert {A} (f : A -> bool) l : forall i x y, l !! i = Some x ->
  (count f (<[i := y]> l) + Nat.b2n (f x) = count f l + Nat.b2n (f y))%nat.
Proof.
  unfold count. induction l as [|z l IH]; intros [|i] x y Hi; try done; simpl in *.
  - injection Hi as ->. destruct (f x), (f y); simpl; lia.
  - specialize (IH i x y Hi). destruct (f z); simpl; lia.
Qed.

Lemma count_iter_app {A} (f : A -> bool) x k l : f x = true ->
  (count f (l ++ replicate k x) = count f l + k)%nat.
Proof. intros Hf. rewrite count_app. f_equal. induction k; [done|]. unfold count in *. simpl. rewrite Hf. simpl. lia. Qed.

Lemma count_iter_skip {A} (f : A -> bool) x k l : f x = false -> count f (l ++ replicate k x) = count f l.
Proof. intros Hf. rewrite count_app. enough (count f (replicate k x) = 0%nat) by lia. induction k; [done|]. unfold count in *. simpl. by rewrite Hf. Qed.

(** Removing the one occurrence of an element. *)
Lemma elem_of_remove (i j : nat) l : i ∈ List.remove Nat.eq_dec j l <-> i ∈ l /\ i <> j.
Proof.
  rewrite !list_elem_of_In. split.
  - apply in_remove.
  - intros [? ?]. by apply in_in_remove.
Qed.

Lemma NoDup_remove_eq (i : nat) l : NoDup l -> NoDup (List.remove Nat.eq_dec i l).
Proof.
  induction 1 as [|j l Hj Hl IH]; [constructor|]. simpl. destruct (Nat.eq_dec i j); [done|].
  constructor; [|done]. by rewrite elem_of_remove; intros [].
Qed.

Lemma remove_permutation (i : nat) l : NoDup l -> i ∈ l -> i :: List.remove Nat.eq_dec i l ≡ₚ l.
Proof.
  intros Hn Hi. apply NoDup_Permutation; [|done|].
  - constructor; [|by apply NoDup_remove_eq]. by rewrite elem_of_remove; intros [].
  - intros j. rewrite elem_of_cons, elem_of_remove. destruct (decide (j = i)) as [->|]; tauto.
Qed.

Lemma length_remove_eq (i : nat) l : NoDup l -> i ∈ l -> S (length (List.remove Nat.eq_dec i l)) = length l.
Proof. intros Hn Hi. by rewrite <- (remove_permutation i l Hn Hi) at 2. Qed.
