(* ===== verification/Errors.v ===== *)
(** * Error codes

    [std::error_code] as the library uses it: the empty code (success), the
    library's own [client_errc] values ([include/nativepg/client_errc.hpp]),
    the few [std::errc] values the standard functions it calls can produce, the
    SQLSTATE codes sent by the server, and the codes of OpenSSL and the system. *)

From stdpp Require Import base decidable tactics.
From Stdlib Require Import ZArith.
From S2P Require Import Prelude.

Inductive client_errc :=
| incomplete_message
| protocol_value_error
| extra_bytes
| value_too_big
| invalid_base64
| invalid_scram_message
| mandatory_scram_extension_not_supported
| scram_mechanisms_unsupported
| scram_invalid_nonce
| scram_invalid_server_signature
| unexpected_message
| incompatible_response_length
| incompatible_response_type
| unexpected_null
| incompatible_field_type
| field_not_found
| auth_kerberos_v5_unsupported
| auth_cleartext_password_unsupported
| auth_md5_password_unsupported
| auth_gss_unsupported
| auth_sspi_unsupported
| empty_request
| request_ends_without_sync
| request_mixes_simple_advanced_protocols
| step_skipped
| unknown_openssl_error
| unmatched_request
| needs_more
| copy_not_allowed.

#[global] Instance client_errc_eq_dec : EqDecision client_errc.
Proof. solve_decision. Defined.

(** The [std::errc] values produced by [from_chars] and by the multiplexer. *)
Inductive errc := invalid_argument | result_out_of_range | operation_canceled.

#[global] Instance errc_eq_dec : EqDecision errc.
Proof. solve_decision. Defined.

Inductive error :=
| client (e : client_errc)
| generic (e : errc)
| sqlstate_error (code : Z)
| external_error (code : Z).

#[global] Instance error_eq_dec : EqDecision error.
Proof. solve_decision. Defined.

(** [std::error_code]: [None] is the empty code. *)
Abbreviation error_code := (option error).

(** [if (!ec_) ec_ = ec;], the rule every context in the library uses. *)
Definition keep_first (old new : error_code) : error_code :=
  match old with None => new | Some _ => old end.

Lemma keep_first_None old new : keep_first old new = None -> old = None /\ new = None.
Proof. destruct old; simpl; [done|auto]. Qed.

(** ** Results that may fail *)

(** An error or a value, or a failed assertion. *)
Abbreviation E A := (option (error + A)).

(** [if (auto ec = m) return ec;] *)
Definition ebind {A B} (m : E A) (k : A -> E B) : E B :=
  match m with
  | None => None
  | Some (inl e) => Some (inl e)
  | Some (inr a) => k a
  end.
Notation "'let!' x := m 'in' k" := (ebind m (fun x => k)) (at level 10, x pattern, m at level 100, k at level 200).

Definition fail {A} (e : client_errc) : E A := Some (inl (client e)).

Lemma ebind_inr {A B} (m : E A) (k : A -> E B) b :
  ebind m k = Some (inr b) <-> exists a, m = Some (inr a) /\ k a = Some (inr b).
Proof. destruct m as [[e|a]|]; simpl; naive_solver. Qed.

Lemma ebind_val {A B} (a : A) (k : A -> E B) : ebind (Some (inr a)) k = k a.
Proof. done. Qed.
