(* ===== verification/ParseContext.v ===== *)
(** * parse_context: reading a message body ([src/src/parse_context.hpp])

    A [parse_context] is the unread part of a message and the first error met.
    The operations are state-passing functions in the monad [P]; the functions
    whose name starts with [unchecked_] perform no check in the source and are
    modelled with an explicit [None] for a read past the end.

    [Accepts m F] states what a parser accepts: it ends without error exactly on
    the inputs [F] describes, and then consumes what [F] says.  The instances
    make the statement compositional, so the message parsers built on top are
    characterised by instance resolution. *)

From stdpp Require Import base list option tactics.
From Stdlib Require Import ZArith Lia.
From S2P Require Import Prelude Errors.

#[local] Open Scope Z_scope.

(** ** Data *)

(** [first_] is the span from the pointer of that name to [last_]. *)
Record parse_context := Ctx { first_ : bytes; ec_ : error_code }.

Definition P (A : Type) : Type := parse_context -> A * parse_context.

#[global] Instance P_ret : MRet P := fun A a c => (a, c).
#[global] Instance P_bind : MBind P := fun A B k m c => let '(a, c') := m c in k a c'.

(** ** Operations *)

Definition size (c : parse_context) : nat := length (first_ c).

Definition advance (by_ : nat) (c : parse_context) : parse_context :=
  Ctx (drop by_ (first_ c)) (ec_ c).

Definition add_error (e : client_errc) : P unit :=
  fun c => (tt, Ctx (first_ c) (keep_first (ec_ c) (Some (client e)))).

(** [ctx.first()] *)
Definition first : P bytes := fun c => (first_ c, c).

Definition get_byte : P Z := fun c =>
  let c := if (size c <? 1)%nat then snd (add_error incomplete_message c) else c in
  match ec_ c, first_ c with
  | None, b :: r => (b, Ctx r None)
  | _, _ => (0, c)
  end.

(** [get_integral<IntType>] with [n = sizeof(IntType)]. *)
Definition get_integral (n : nat) : P Z := fun c =>
  let c := if (size c <? n)%nat then snd (add_error incomplete_message c) else c in
  match ec_ c with
  | Some _ => (0, c)
  | None => (load_big_s (take n (first_ c)), advance n c)
  end.

Definition get_nonnegative_integral (n : nat) : P Z :=
  res ← get_integral n;
  if res <? 0 then add_error protocol_value_error;; mret 0 else mret res.

(** [std::find(first_, last_, 0)]: the bytes before the first NULL and those
    after it. *)
Fixpoint find_null (bs : bytes) : option (bytes * bytes) :=
  match bs with
  | [] => None
  | b :: r =>
      if b =? 0 then Some ([], r)
      else match find_null r with Some (s, r') => Some (b :: s, r') | None => None end
  end.

Definition get_string : P bytes := fun c =>
  match ec_ c with
  | Some _ => ([], c)
  | None =>
      match find_null (first_ c) with
      | None => ([], snd (add_error incomplete_message c))
      | Some (res, _) => (res, advance (length res + 1) c)
      end
  end.

Definition check_size_and_advance (n : nat) : P unit := fun c =>
  if (size c <? n)%nat then add_error incomplete_message c else (tt, advance n c).

Definition get_bytes (n : nat) : P bytes := fun c =>
  let c := if (size c <? n)%nat then snd (add_error incomplete_message c) else c in
  match ec_ c with
  | Some _ => ([], c)
  | None => (take n (first_ c), advance n c)
  end.

Definition get_byte_array (n : nat) : P bytes := fun c =>
  let c := if (size c <? n)%nat then snd (add_error incomplete_message c) else c in
  match ec_ c with
  | Some _ => (replicate n 0, c)
  | None => (take n (first_ c), advance n c)
  end.

Definition check_extra_bytes : P unit := fun c =>
  match first_ c with
  | [] => (tt, c)
  | _ :: _ => add_error extra_bytes c
  end.

(** [ctx.error()] *)
Definition get_error : P error_code := fun c => (ec_ c, c).

Definition check : P error_code := check_extra_bytes;; get_error.

(** [for (i = 0; i < n; ++i) body;] *)
Fixpoint for_n (n : nat) (body : P unit) : P unit :=
  match n with
  | O => mret tt
  | S n' => body;; for_n n' body
  end.

(** A whole [parse] function: construct the context, fill the output, [check()]. *)
Definition run_parse {A} (m : P A) (data : bytes) : error_code * A :=
  let '(a, c) := m (Ctx data None) in
  (fst (check c), a).

(** ** Unchecked reads, used by the views *)

Definition unchecked_get_integral (n : nat) (it : bytes) : option (Z * bytes) :=
  if (length it <? n)%nat then None else Some (load_big_s (take n it), drop n it).

(** [strlen] reads until it meets a NULL. *)
Definition unchecked_get_string (it : bytes) : option (bytes * bytes) := find_null it.

(** ** What a parser accepts *)

(** [F a bs rest]: reading [bs] in front of [rest] yields [a]. *)
Abbreviation fmt A := (A -> bytes -> bytes -> Prop).

Class Accepts {A} (m : P A) (F : fmt A) := {
  accepts_sound : forall r e a c',
    m (Ctx r e) = (a, c') -> ec_ c' = None ->
    e = None /\ exists bs, r = bs ++ first_ c' /\ F a bs (first_ c');
  accepts_complete : forall a bs rest,
    F a bs rest -> m (Ctx (bs ++ rest) None) = (a, Ctx rest None)
}.
#[global] Hint Mode Accepts ! ! - : typeclass_instances.

(** Formats. *)
Definition Fret {A} (x : A) : fmt A := fun a bs _ => a = x /\ bs = [].
Definition Fbind {A B} (F : fmt A) (G : A -> fmt B) : fmt B := fun b bs rest =>
  exists a bs1 bs2, bs = bs1 ++ bs2 /\ F a bs1 (bs2 ++ rest) /\ G a b bs2 rest.
Definition Ffail {A} : fmt A := fun _ _ _ => False.
Definition Fhere : fmt bytes := fun a bs rest => a = rest /\ bs = [].
Definition Fbyte : fmt Z := fun a bs _ => bs = [a].
Definition Fint (n : nat) : fmt Z := fun a bs _ => length bs = n /\ a = load_big_s bs.
Definition Fnonneg (n : nat) : fmt Z := fun a bs _ => length bs = n /\ a = load_big_s bs /\ 0 <= a.
Definition Fstring : fmt bytes := fun a bs _ => bs = a ++ [0] /\ 0 ∉ a.
Definition Fskip (n : nat) : fmt unit := fun _ bs _ => length bs = n.
Definition Fbytes (n : nat) : fmt bytes := fun a bs _ => bs = a /\ length a = n.
Fixpoint Frep (n : nat) (F : fmt unit) : fmt unit :=
  match n with
  | O => Fret tt
  | S n' => Fbind F (fun _ => Frep n' F)
  end.

Lemma find_null_spec bs s r : find_null bs = Some (s, r) <-> bs = s ++ 0 :: r /\ 0 ∉ s.
Proof.
  revert s; induction bs as [|b bs IH]; intros s; simpl.
  - split; [done|]. intros [H _]. by destruct s.
  - destruct (Z.eqb_spec b 0) as [->|Hb].
    + split.
      * intros [= <- <-]. split; [done|]. apply not_elem_of_nil.
      * intros [H Hn]. destruct s as [|x s]; simpl in H; [by inversion H|].
        inversion H; subst. exfalso. apply Hn. by left.
    + destruct (find_null bs) as [[s' r']|] eqn:E.
      * split.
        -- intros [= <- <-]. destruct (proj1 (IH s') eq_refl) as [-> Hn].
           split; [done|]. rewrite not_elem_of_cons. auto.
        -- intros [H Hn]. destruct s as [|x s]; simpl in H; inversion H; subst; [done|].
           apply not_elem_of_cons in Hn as [_ Hn].
           pose proof (proj2 (IH s) (conj eq_refl Hn)) as E'. by inversion E'; subst.
      * split; [done|]. intros [H Hn]. destruct s as [|x s]; simpl in H; inversion H; subst; [done|].
        apply not_elem_of_cons in Hn as [_ Hn]. by pose proof (proj2 (IH s) (conj eq_refl Hn)).
Qed.

Lemma find_null_app s r : 0 ∉ s -> find_null (s ++ 0 :: r) = Some (s, r).
Proof. intros. apply find_null_spec. auto. Qed.

#[local] Ltac acc_start :=
  split; [intros r e a c'; unfold get_byte, get_integral, get_bytes, get_byte_array,
          check_size_and_advance, size, advance, add_error in *; simpl
         |].

#[global] Instance accepts_ret {A} (x : A) : Accepts (mret x : P A) (Fret x).
Proof.
  split.
  - intros r e a c' [= <- <-] He. simpl in *. split; [done|]. exists []. split; done.
  - intros a bs rest [-> ->]. done.
Qed.

#[global] Instance accepts_bind {A B} (m : P A) (k : A -> P B) F G :
  Accepts m F -> (forall a, Accepts (k a) (G a)) -> Accepts (m ≫= k) (Fbind F G).
Proof.
  intros Hm Hk. split.
  - intros r e b c' H He. unfold mbind, P_bind in H.
    destruct (m (Ctx r e)) as [a c1] eqn:E1. destruct c1 as [r1 e1].
    destruct (accepts_sound _ _ _ _ H He) as [-> (bs2 & -> & HG)].
    destruct (accepts_sound _ _ _ _ E1 eq_refl) as [-> (bs1 & -> & HF)]. simpl in *.
    split; [done|]. exists (bs1 ++ bs2). rewrite <- app_assoc. split; [done|].
    exists a, bs1, bs2. done.
  - intros b bs rest (a & bs1 & bs2 & -> & HF & HG).
    unfold mbind, P_bind. rewrite <- app_assoc, (accepts_complete _ _ _ HF).
    apply accepts_complete, HG.
Qed.

#[global] Instance accepts_first : Accepts first Fhere.
Proof.
  split.
  - intros r e a c' [= <- <-] He. simpl in *. split; [done|]. exists []. done.
  - intros a bs rest [-> ->]. done.
Qed.

#[global] Instance accepts_add_error e0 : Accepts (add_error e0) Ffail.
Proof.
  split.
  - intros r e a c' [= <- <-] He. by destruct e.
  - intros ? ? ? [].
Qed.

#[global] Instance accepts_if {A} (b : bool) (m1 m2 : P A) F1 F2 :
  Accepts m1 F1 -> Accepts m2 F2 -> Accepts (if b then m1 else m2) (if b then F1 else F2).
Proof. by destruct b. Qed.

#[global] Instance accepts_get_byte : Accepts get_byte Fbyte.
Proof.
  acc_start.
  - intros H He. destruct r as [|b r]; simpl in H.
    + destruct e; inversion H; subst; done.
    + destruct e; inversion H; subst; [done|]. split; [done|]. by exists [a].
  - intros a bs rest ->. done.
Qed.

(** The shared shape of [get_integral], [get_bytes] and [get_byte_array]. *)
Lemma sized_read {A} n (dflt : A) (f : bytes -> A) r e a c' :
  (let c := if (length r <? n)%nat then Ctx r (keep_first e (Some (client incomplete_message)))
            else Ctx r e in
   match ec_ c with
   | Some _ => (dflt, c)
   | None => (f (take n (first_ c)), Ctx (drop n (first_ c)) (ec_ c))
   end) = (a, c') -> ec_ c' = None ->
  e = None /\ exists bs, r = bs ++ first_ c' /\ length bs = n /\ a = f bs.
Proof.
  destruct (Nat.ltb_spec (length r) n); simpl; destruct e; simpl; intros [= <- <-]; try done.
  intros _. split; [done|]. exists (take n r). simpl.
  rewrite take_drop, length_take. repeat split. lia.
Qed.

Lemma length_app_ltb (bs rest : bytes) n : length bs = n -> (length (bs ++ rest) <? n)%nat = false.
Proof. intros <-. apply Nat.ltb_ge. rewrite length_app. lia. Qed.

#[global] Instance accepts_get_integral n : Accepts (get_integral n) (Fint n).
Proof.
  split.
  - intros r e a c' H He. eapply (sized_read n 0 load_big_s r e); [|done].
    rewrite <- H. unfold get_integral, size, advance, add_error. simpl.
    by destruct (length r <? n)%nat.
  - intros a bs rest [Hl ->]. unfold get_integral, size, advance. simpl.
    rewrite length_app_ltb by done. simpl. by rewrite take_app_len, drop_app_len.
Qed.

#[global] Instance accepts_get_bytes n : Accepts (get_bytes n) (Fbytes n).
Proof.
  split.
  - intros r e a c' H He.
    destruct (sized_read n [] id r e a c') as [-> (bs & -> & Hl & ->)]; [|done|].
    + rewrite <- H. unfold get_bytes, size, advance, add_error. simpl.
      by destruct (length r <? n)%nat.
    + split; [done|]. exists bs. done.
  - intros a bs rest [-> Hl]. unfold get_bytes, size, advance. simpl.
    rewrite length_app_ltb by done. simpl. by rewrite take_app_len, drop_app_len.
Qed.

#[global] Instance accepts_get_byte_array n : Accepts (get_byte_array n) (Fbytes n).
Proof.
  split.
  - intros r e a c' H He.
    destruct (sized_read n (replicate n 0) id r e a c') as [-> (bs & -> & Hl & ->)]; [|done|].
    + rewrite <- H. unfold get_byte_array, size, advance, add_error. simpl.
      by destruct (length r <? n)%nat.
    + split; [done|]. exists bs. done.
  - intros a bs rest [-> Hl]. unfold get_byte_array, size, advance. simpl.
    rewrite length_app_ltb by done. simpl. by rewrite take_app_len, drop_app_len.
Qed.

#[global] Instance accepts_check_size n : Accepts (check_size_and_advance n) (Fskip n).
Proof.
  split.
  - intros r e a c'. unfold check_size_and_advance, size, advance. simpl.
    destruct (Nat.ltb_spec (length r) n); simpl; intros [= <- <-]; simpl; [by destruct e|].
    intros ->. split; [done|]. exists (take n r). simpl. rewrite take_drop. split; [done|].
    unfold Fskip. rewrite length_take. lia.
  - intros [] bs rest Hl. unfold check_size_and_advance, size, advance. simpl.
    rewrite length_app_ltb by done. by rewrite drop_app_len.
Qed.

#[global] Instance accepts_get_string : Accepts get_string Fstring.
Proof.
  split.
  - intros r e a c'. unfold get_string, advance, add_error. simpl. destruct e; simpl.
    { intros [= <- <-]; done. }
    destruct (find_null r) as [[s r']|] eqn:E; intros [= <- <-]; simpl; [|done].
    intros _. split; [done|]. apply find_null_spec in E as [-> Hn].
    exists (s ++ [0]). rewrite <- app_assoc. simpl.
    assert (drop (length s + 1) (s ++ 0 :: r') = r') as ->; [|done].
    change (0 :: r') with ([0] ++ r'). rewrite app_assoc. apply drop_app_len. rewrite length_app. done.
  - intros a bs rest [-> Hn]. unfold get_string, advance. simpl.
    rewrite <- app_assoc. simpl. rewrite find_null_app by done.
    change (0 :: rest) with ([0] ++ rest). rewrite app_assoc, drop_app_len; [done|].
    rewrite length_app. done.
Qed.

Lemma accepts_weaken {A} (m : P A) F G :
  Accepts m F -> (forall a bs rest, F a bs rest <-> G a bs rest) -> Accepts m G.
Proof.
  intros [Hs Hc] HFG. split.
  - intros r e a c' H He. destruct (Hs _ _ _ _ H He) as [-> (bs & -> & HF)].
    split; [done|]. exists bs. split; [done|]. by apply HFG.
  - intros a bs rest HG. apply Hc, HFG, HG.
Qed.

#[global] Instance accepts_get_nonnegative n : Accepts (get_nonnegative_integral n) (Fnonneg n).
Proof.
  unfold get_nonnegative_integral. eapply accepts_weaken; [apply _|].
  intros a bs rest. unfold Fbind, Fint, Fnonneg, Fret, Ffail. split.
  - intros (x & bs1 & bs2 & -> & [Hl ->] & H).
    destruct (Z.ltb_spec (load_big_s bs1) 0); [by destruct H as (? & ? & ? & _ & [] & _)|].
    destruct H as [-> ->]. by rewrite app_nil_r.
  - intros (Hl & -> & Hp). exists (load_big_s bs), bs, []. rewrite app_nil_r.
    split; [done|]. split; [done|]. destruct (Z.ltb_spec (load_big_s bs) 0); [lia|done].
Qed.

#[global] Instance accepts_for_n n body F : Accepts body F -> Accepts (for_n n body) (Frep n F).
Proof. intros H. induction n; simpl; apply _. Qed.

(** ** Whole messages *)

Lemma check_None c : fst (check c) = None <-> first_ c = [] /\ ec_ c = None.
Proof.
  unfold check, get_error, check_extra_bytes, add_error, mbind, P_bind.
  destruct c as [[|b r] e]; simpl.
  - split; [auto|]. by intros [_ ->].
  - split; [by destruct e|]. by intros [[=] _].
Qed.

(** A parse function succeeds with [a] exactly on the whole bodies of format [F]. *)
Lemma run_parse_accepts {A} (m : P A) F `{!Accepts m F} data a :
  run_parse m data = (None, a) <-> F a data [].
Proof.
  unfold run_parse. destruct (m (Ctx data None)) as [x [r e]] eqn:E. split.
  - intros [= Hc <-]. apply check_None in Hc as [Hr He]. simpl in *. subst.
    destruct (accepts_sound _ _ _ _ E eq_refl) as [_ (bs & -> & HF)]. simpl in *.
    by rewrite app_nil_r.
  - intros HF. apply (accepts_complete (m := m)) in HF. rewrite app_nil_r, E in HF.
    inversion HF; subst. done.
Qed.

(** Any failure of a parse function is reported: either the body is of the
    format or the error code is set. *)
Lemma run_parse_reject {A} (m : P A) F `{!Accepts m F} data :
  (forall a, ~ F a data []) -> fst (run_parse m data) <> None.
Proof.
  intros H Hn. destruct (run_parse m data) as [e a] eqn:E. simpl in *. subst.
  apply (H a). by apply (run_parse_accepts m F).
Qed.

(** ** Which errors a parser reports *)

(** The deserialization errors: a parser adds no other. *)
Definition deserialization_error (e : error_code) : Prop :=
  match e with
  | None => True
  | Some e => e = client incomplete_message \/ e = client protocol_value_error \/
              e = client extra_bytes
  end.

Class Reports {A} (m : P A) :=
  reports : forall c, deserialization_error (ec_ c) -> deserialization_error (ec_ (snd (m c))).
#[global] Hint Mode Reports ! ! : typeclass_instances.

#[global] Instance reports_ret {A} (a : A) : Reports (mret a : P A).
Proof. by intros c H. Qed.

#[global] Instance reports_bind {A B} (m : P A) (k : A -> P B) :
  Reports m -> (forall a, Reports (k a)) -> Reports (m ≫= k).
Proof.
  intros Hm Hk c H. unfold mbind, P_bind. specialize (Hm c H).
  destruct (m c) as [a c']. by apply Hk.
Qed.

#[global] Instance reports_if {A} (b : bool) (m1 m2 : P A) :
  Reports m1 -> Reports m2 -> Reports (if b then m1 else m2).
Proof. by destruct b. Qed.

Lemma reports_add_error e : deserialization_error (Some (client e)) -> Reports (add_error e).
Proof. intros He [r [x|]] H; simpl in *; auto. Qed.
#[global] Instance reports_incomplete : Reports (add_error incomplete_message).
Proof. apply reports_add_error. simpl. auto. Qed.
#[global] Instance reports_value : Reports (add_error protocol_value_error).
Proof. apply reports_add_error. simpl. auto. Qed.
#[global] Instance reports_extra : Reports (add_error extra_bytes).
Proof. apply reports_add_error. simpl. auto. Qed.

(** The basic reads only ever add [incomplete_message]. *)
#[local] Ltac reports_read :=
  intros [r [x|]] H; simpl in *; repeat (case_match; simpl in *); simplify_eq; simpl; auto.

#[global] Instance reports_first : Reports first.
Proof. by intros c H. Qed.
#[global] Instance reports_get_byte : Reports get_byte.
Proof. unfold get_byte, size. reports_read. Qed.
#[global] Instance reports_get_integral n : Reports (get_integral n).
Proof. unfold get_integral, size, advance. reports_read. Qed.
#[global] Instance reports_get_string : Reports get_string.
Proof. unfold get_string, advance. reports_read. Qed.
#[global] Instance reports_get_byte_array n : Reports (get_byte_array n).
Proof. unfold get_byte_array, size, advance. reports_read. Qed.
#[global] Instance reports_check_size n : Reports (check_size_and_advance n).
Proof. unfold check_size_and_advance, size, advance, add_error. reports_read. Qed.
#[global] Instance reports_nonneg n : Reports (get_nonnegative_integral n).
Proof. unfold get_nonnegative_integral. apply _. Qed.
#[global] Instance reports_for_n n body : Reports body -> Reports (for_n n body).
Proof. intros H. induction n; simpl; apply _. Qed.
#[global] Instance reports_check_extra_bytes : Reports check_extra_bytes.
Proof. intros [[|b r] e] H; [done|]. by apply reports_extra. Qed.

Lemma run_parse_reports {A} (m : P A) `{!Reports m} data :
  deserialization_error (fst (run_parse m data)).
Proof.
  unfold run_parse. pose proof (reports (m := m) (Ctx data None) I) as H.
  destruct (m (Ctx data None)) as [a c]. simpl in *.
  unfold check, get_error, mbind, P_bind.
  pose proof (reports (m := check_extra_bytes) c H) as H'.
  by destruct (check_extra_bytes c) as [[] c'].
Qed.
