(* ===== verification/Views.v ===== *)
(** * Views over serialized collections ([include/nativepg/protocol/views.hpp])

    A [forward_parsing_view] is a number of items and the bytes holding them,
    one after the other; its iterator decodes an item in place and steps over it
    without any check.  A [random_access_parsing_view] is a pointer to items of
    fixed size and their number.  Reads that leave the span are [None].

    [ForwardItem] is the interface between the parsers, which validate a span,
    and the iterators, which rely on it: an encoding of items that the unchecked
    functions invert.  [range_items] is proved against the interface, and each
    item type of the protocol discharges it. *)

From stdpp Require Import base list option.
From Stdlib Require Import ZArith Lia.
From S2P Require Import Prelude Errors ParseContext.

#[local] Open Scope Z_scope.

(** ** forward_parsing_view *)

(** [detail::forward_traits<T>] *)
Class ForwardTraits (T : Type) := {
  dereference : bytes -> option T;
  advance_item : bytes -> option bytes
}.

Record forward_parsing_view (T : Type) := FPV { fpv_size : nat; fpv_data : bytes }.
Arguments FPV {T} _ _.
Arguments fpv_size {T} _.
Arguments fpv_data {T} _.

Section forward.
Context {T : Type} `{!ForwardTraits T}.

(** An iterator is the span from its pointer to the end of the view: [end()]
is the empty span. *)
Definition fpv_begin (v : forward_parsing_view T) : bytes := fpv_data v.
Definition fpv_empty (v : forward_parsing_view T) : bool := (fpv_size v =? 0)%nat.

(** [for (auto x : view)]: from [begin()] until the iterator equals [end()]. *)
Fixpoint fpv_loop (fuel : nat) (it : bytes) : option (list T) :=
match fuel, it with
| _, [] => Some []
| O, _ => None
| S fuel', _ =>
x ← dereference it;
it' ← advance_item it;
xs ← fpv_loop fuel' it';
Some (x :: xs)
end.

Definition fpv_range (v : forward_parsing_view T) : option (list T) :=
fpv_loop (length (fpv_begin v)) (fpv_begin v).
End forward.

(** What the validated bytes of a view look like. *)
Class ForwardItem (T : Type) `{!ForwardTraits T} := {
  item_wf : T -> Prop;
  item_enc : T -> bytes;
  item_nonempty x : item_wf x -> item_enc x <> [];
  item_dereference x r : item_wf x -> dereference (item_enc x ++ r) = Some x;
  item_advance x r : item_wf x -> advance_item (item_enc x ++ r) = Some r
}.

Definition items_enc {T} `{ForwardItem T} (xs : list T) : bytes := concat (map item_enc xs).

Section forward_items.
Context {T : Type} `{ForwardItem T}.

Lemma items_enc_app xs ys : items_enc (xs ++ ys) = items_enc xs ++ items_enc ys.
Proof. unfold items_enc. by rewrite map_app, concat_app. Qed.

Lemma fpv_loop_items xs : forall fuel,
Forall item_wf xs -> (length (items_enc xs) <= fuel)%nat ->
fpv_loop fuel (items_enc xs) = Some xs.
Proof.
induction xs as [|x xs IH]; intros fuel Hwf Hf; [by destruct fuel|].
inversion_clear Hwf as [|? ? Hx Hxs].
change (items_enc (x :: xs)) with (item_enc x ++ items_enc xs) in *.
pose proof (item_nonempty x Hx) as Hne.
destruct (item_enc x) as [|b bs] eqn:E; [done|]. clear Hne.
destruct fuel as [|fuel]; [simpl in Hf; lia|].
cbn [fpv_loop app]. change (b :: bs ++ items_enc xs) with ((b :: bs) ++ items_enc xs).
rewrite <- E, item_dereference, item_advance by done. cbn [mbind option_bind].
rewrite IH; [done|done|].
rewrite length_app in Hf. simpl in Hf. lia.
Qed.

Lemma range_items n xs : Forall item_wf xs -> fpv_range (FPV n (items_enc xs)) = Some xs.
Proof. intros. by apply fpv_loop_items. Qed.
End forward_items.

(** ** random_access_parsing_view *)

(** [detail::random_access_traits<T>], with [sizeof(T)]. *)
Class RandomAccessTraits (T : Type) := {
  ra_sizeof : nat;
  ra_dereference : bytes -> option T
}.

Record random_access_parsing_view (T : Type) := RAPV { rapv_data : bytes; rapv_size : nat }.
Arguments RAPV {T} _ _.
Arguments rapv_data {T} _.
Arguments rapv_size {T} _.

Section random_access.
Context {T : Type} `{!RandomAccessTraits T}.

Definition unchecked_access (v : random_access_parsing_view T) (i : nat) : option T :=
ra_dereference (drop (ra_sizeof * i) (rapv_data v)).

(** [at(i)]: [inl tt] is the [std::out_of_range] exception. *)
Definition at_ (v : random_access_parsing_view T) (i : nat) : unit + option T :=
if (i <? rapv_size v)%nat then inr (unchecked_access v i) else inl tt.

(** The range from [begin()] to [end()], which is [sizeof(T) * size_] further. *)
Fixpoint rapv_loop (n : nat) (it : bytes) : option (list T) :=
match n with
| O => Some []
| S n' =>
x ← ra_dereference it;
xs ← rapv_loop n' (drop ra_sizeof it);
Some (x :: xs)
end.

Definition rapv_range (v : random_access_parsing_view T) : option (list T) :=
rapv_loop (rapv_size v) (rapv_data v).

Lemma rapv_loop_at n : forall it xs i x,
rapv_loop n it = Some xs -> xs !! i = Some x ->
ra_dereference (drop (ra_sizeof * i) it) = Some x.
Proof.
induction n as [|n IH]; intros it xs i x H Hi; simpl in H; [by inversion H; subst|].
destruct (ra_dereference it) as [y|] eqn:E; [|done]. simpl in H.
destruct (rapv_loop n (drop ra_sizeof it)) as [ys|] eqn:E2; [|done]. simpl in H.
inversion H; subst. destruct i as [|i]; simpl in Hi.
- inversion Hi; subst. by rewrite Nat.mul_0_r.
- replace (ra_sizeof * S i)%nat with (ra_sizeof + ra_sizeof * i)%nat by lia.
rewrite <- drop_drop. eauto.
Qed.

Lemma rapv_loop_length n : forall it xs, rapv_loop n it = Some xs -> length xs = n.
Proof.
induction n as [|n IH]; intros it xs H; simpl in H; [by inversion H|].
destruct (ra_dereference it); [|done]. simpl in H.
destruct (rapv_loop n (drop ra_sizeof it)) eqn:E; [|done]. inversion H; subst. simpl. eauto.
Qed.
End random_access.
