(* ===== verification/Iterators.v ===== *)
(** * Random-access iterators ([include/nativepg/protocol/views.hpp])

    The views give out iterators.  [iterator_ops] has their operations and
    [random_access] is what a client may rely on: the iterators of a range are its
    positions.  Traversals are proved against that interface.  The iterators of the
    parsing views are addresses, moved with the arithmetic of [std::size_t]. *)

From stdpp Require Import base list option.
From Stdlib Require Import ZArith Lia.
From S2P Require Import Prelude Errors ParseContext Views.

#[local] Open Scope Z_scope.

(** ** The interface *)

Record iterator_ops (I T : Type) := {
  it_succ : I -> I;
  it_pred : I -> I;
  it_add : I -> Z -> I;
  it_sub : I -> Z -> I;
  it_diff : I -> I -> Z;
  it_eq : I -> I -> bool;
  it_cmp : I -> I -> comparison;
  it_deref : I -> option T;
  it_at : I -> Z -> option T
}.
Arguments it_succ {I T}.
Arguments it_pred {I T}.
Arguments it_add {I T}.
Arguments it_sub {I T}.
Arguments it_diff {I T}.
Arguments it_eq {I T}.
Arguments it_cmp {I T}.
Arguments it_deref {I T}.
Arguments it_at {I T}.

(** The iterators of a range of [n] items are its positions, from [nth 0], which is
    [begin()], to [nth n], which is [end()]; [get] reads the items. *)
Record random_access {I T} (ops : iterator_ops I T) (nth : Z -> I) (n : nat) (get : nat -> option T) : Prop := {
  ra_succ k : 0 <= k < Z.of_nat n -> it_succ ops (nth k) = nth (k + 1);
  ra_pred k : 0 < k <= Z.of_nat n -> it_pred ops (nth k) = nth (k - 1);
  ra_add k d : 0 <= k <= Z.of_nat n -> 0 <= k + d <= Z.of_nat n -> it_add ops (nth k) d = nth (k + d);
  ra_sub k d : 0 <= k <= Z.of_nat n -> 0 <= k - d <= Z.of_nat n -> it_sub ops (nth k) d = nth (k - d);
  ra_diff k j : 0 <= j <= k -> k <= Z.of_nat n -> it_diff ops (nth k) (nth j) = k - j;
  ra_eq k j : 0 <= k <= Z.of_nat n -> 0 <= j <= Z.of_nat n -> it_eq ops (nth k) (nth j) = (k =? j);
  ra_cmp k j : 0 <= k <= Z.of_nat n -> 0 <= j <= Z.of_nat n -> it_cmp ops (nth k) (nth j) = (k ?= j);
  ra_deref k : 0 <= k < Z.of_nat n -> it_deref ops (nth k) = get (Z.to_nat k);
  ra_at k d : 0 <= k <= Z.of_nat n -> 0 <= k + d < Z.of_nat n -> it_at ops (nth k) d = get (Z.to_nat (k + d))
}.

(** Distances in both directions. *)
Definition full_differences {I T} (ops : iterator_ops I T) (nth : Z -> I) (n : nat) : Prop :=
  forall k j, 0 <= k <= Z.of_nat n -> 0 <= j <= Z.of_nat n -> it_diff ops (nth k) (nth j) = k - j.

(** [for (auto x : range)]: [!=], [*] and [++] from [it] to [last]. *)
Fixpoint forward_loop {I T} (ops : iterator_ops I T) (fuel : nat) (it last : I) : option (list T) :=
  if it_eq ops it last then Some []
  else
    match fuel with
    | O => None
    | S fuel' => x ← it_deref ops it; xs ← forward_loop ops fuel' (it_succ ops it) last; Some (x :: xs)
    end.

(** [while (it != first) { --it; *it; }], as [std::reverse_iterator] does. *)
Fixpoint backward_loop {I T} (ops : iterator_ops I T) (fuel : nat) (it first : I) : option (list T) :=
  if it_eq ops it first then Some []
  else
    match fuel with
    | O => None
    | S fuel' => let it := it_pred ops it in x ← it_deref ops it; xs ← backward_loop ops fuel' it first; Some (x :: xs)
    end.

Section clients.
Context {I T : Type} {ops : iterator_ops I T} {nth : Z -> I} {n : nat} {get : nat -> option T}.
Context (Hra : random_access ops nth n get).

(** The items from position [k] on. *)
Lemma forward_loop_items m : forall k, (k + m = n)%nat ->
forward_loop ops m (nth (Z.of_nat k)) (nth (Z.of_nat n)) = mapM get (seq k m).
Proof.
induction m as [|m IH]; intros k Hk; cbn [forward_loop]; rewrite (ra_eq _ _ _ _ Hra) by lia.
- by rewrite (proj2 (Z.eqb_eq _ _)) by lia.
- rewrite (proj2 (Z.eqb_neq _ _)) by lia. rewrite (ra_deref _ _ _ _ Hra), (ra_succ _ _ _ _ Hra), Nat2Z.id by lia.
replace (Z.of_nat k + 1) with (Z.of_nat (S k)) by lia. rewrite IH by lia. done.
Qed.

(** The range-based loop visits every item, in order. *)
Lemma forward_loop_all : forward_loop ops n (nth 0) (nth (Z.of_nat n)) = mapM get (seq 0 n).
Proof. by apply (forward_loop_items n 0). Qed.

(** The reversed loop visits them in the opposite order. *)
Lemma backward_loop_all m : (m <= n)%nat -> backward_loop ops m (nth (Z.of_nat m)) (nth 0) = mapM get (rev (seq 0 m)).
Proof.
induction m as [|m IH]; intros Hm; cbn [backward_loop]; rewrite (ra_eq _ _ _ _ Hra) by lia; [done|].
rewrite (proj2 (Z.eqb_neq _ _)) by lia. rewrite (ra_pred _ _ _ _ Hra) by lia.
replace (Z.of_nat (S m) - 1) with (Z.of_nat m) by lia. rewrite (ra_deref _ _ _ _ Hra), Nat2Z.id by lia.
rewrite IH by lia. rewrite seq_S, rev_unit. done.
Qed.

(** [std::distance(begin(), end())] is the size. *)
Lemma distance_size : it_diff ops (nth (Z.of_nat n)) (nth 0) = Z.of_nat n.
Proof. rewrite (ra_diff _ _ _ _ Hra) by lia. lia. Qed.
End clients.

(** ** Iterators that are pointers to the elements of a vector

    [it_] is the index of the element; the operations of the iterators of
    [row_view], [field_descriptions_view] and [resultsets] are those. *)

Definition pointer_ops {T} (deref : Z -> option T) : iterator_ops Z T := {|
  it_succ it := it + 1;
  it_pred it := it - 1;
  it_add it n := it + n;
  it_sub it n := it - n;
  it_diff lhs rhs := lhs - rhs;
  it_eq lhs rhs := lhs =? rhs;
  it_cmp lhs rhs := lhs ?= rhs;
  it_deref := deref;
  it_at it n := deref (it + n)
|}.

Lemma pointer_random_access {T} (deref : Z -> option T) n get :
  (forall k, 0 <= k < Z.of_nat n -> deref k = get (Z.to_nat k)) -> random_access (pointer_ops deref) id n get.
Proof. intros H. split; intros; cbn; try done; by apply H. Qed.

Lemma pointer_differences {T} (deref : Z -> option T) n : full_differences (pointer_ops deref) id n.
Proof. done. Qed.

(** ** The iterators of [forward_parsing_view] *)

Section forward.
Context {T : Type} `{!ForwardTraits T}.

Definition fpv_pre_increment (it : bytes) : option bytes := advance_item it.

(** The copy that is returned, and the iterator. *)
Definition fpv_post_increment (it : bytes) : option (bytes * bytes) := it' ← advance_item it; Some (it, it').

Definition fpv_equal (it rhs : bytes) : bool := bool_decide (length it = length rhs).
Definition fpv_not_equal (it rhs : bytes) : bool := negb (fpv_equal it rhs).
Definition fpv_end (v : forward_parsing_view T) : bytes := drop (length (fpv_data v)) (fpv_data v).
End forward.

(** ** The iterators of [random_access_parsing_view]

    An address; [data] are the bytes from the address [base] on. *)

(** The conversion of a [std::size_t] to [std::ptrdiff_t]. *)
Definition to_ptrdiff (z : Z) : Z := wrapS 8 z.

Section random_access_view.
Context {T : Type} `{!RandomAccessTraits T}.
Context (base : Z) (v : random_access_parsing_view T).

Definition sizeof : Z := Z.of_nat (ra_sizeof (T := T)).

(** [data_ += (sizeof(T) * i);], where [i] is converted to [std::size_t]. *)
Definition advance_by (it i : Z) : Z := wrap64 (it + wrap64 (sizeof * wrap64 i)).

(** [forward_traits<T>::dereference(data_)] *)
Definition rapv_deref (it : Z) : option T :=
if base <=? it then ra_dereference (drop (Z.to_nat (it - base)) (rapv_data v)) else None.

(** [(data_ - rhs.data_) / sizeof(T)]: the division is one of [std::size_t]. *)
Definition difference (it rhs : Z) : Z := to_ptrdiff (wrap64 (it - rhs) / sizeof).

Definition rapv_subscript (it i : Z) : option T := rapv_deref (advance_by it i).

Definition view_ops : iterator_ops Z T := {|
it_succ it := advance_by it 1;
it_pred it := advance_by it (-1);
it_add := advance_by;
it_sub it n := advance_by it (- n);
it_diff := difference;
it_eq it rhs := it =? rhs;
it_cmp it rhs := it ?= rhs;
it_deref := rapv_deref;
it_at := rapv_subscript
|}.

(** [it++] and [it--]: the copy that is returned, and the iterator. *)
Definition rapv_post_increment (it : Z) : Z * Z := (it, advance_by it 1).
Definition rapv_post_decrement (it : Z) : Z * Z := (it, advance_by it (-1)).

Definition rapv_empty : bool := (rapv_size v =? 0)%nat.

(** [operator[]], whose index is a [std::size_t]; [None] is the failed assertion too. *)
Definition rapv_index (i : Z) : option T :=
if i <? Z.of_nat (rapv_size v) then unchecked_access v (Z.to_nat i) else None.

Definition rapv_front : option T := rapv_index 0.
Definition rapv_back : option T := rapv_index (wrap64 (Z.of_nat (rapv_size v) - 1)).

Definition rapv_begin : Z := base.
Definition rapv_end : Z := base + sizeof * Z.of_nat (rapv_size v).

(** The item at a position, and the iterator to it. *)
Definition item (k : nat) : option T := unchecked_access v k.
Definition position (k : Z) : Z := base + sizeof * k.

(** An object is smaller than half of the address space, and ends inside of it. *)
Record placed : Prop := {
placed_sizeof : 0 < sizeof;
placed_base : 0 <= base;
placed_size : sizeof * Z.of_nat (rapv_size v) < 2 ^ 63;
placed_end : base + sizeof * Z.of_nat (rapv_size v) < 2 ^ 64
}.

Lemma advance_by_exact it i : advance_by it i = (it + sizeof * i) mod 2 ^ 64.
Proof.
unfold advance_by, wrap64. change 18446744073709551616 with (2 ^ 64).
by rewrite Z.add_mod_idemp_r, (Z.add_mod it), Z.mul_mod_idemp_r, <- Z.add_mod by done.
Qed.

Context (Hplaced : placed).

Lemma advance_by_position k d : 0 <= k + d <= Z.of_nat (rapv_size v) -> advance_by (position k) d = position (k + d).
Proof.
intros Hd. destruct Hplaced as [H1 H2 H3 H4]. rewrite advance_by_exact. unfold position.
replace (base + sizeof * k + sizeof * d) with (base + sizeof * (k + d)) by ring. apply Z.mod_small. nia.
Qed.

Lemma rapv_deref_position k : 0 <= k -> rapv_deref (position k) = item (Z.to_nat k).
Proof.
intros Hk. pose proof (placed_sizeof Hplaced) as Hs. unfold rapv_deref, position, item, unchecked_access.
rewrite (proj2 (Z.leb_le base _)) by nia. do 2 f_equal. unfold sizeof in *. nia.
Qed.

Lemma position_inj k j : position k = position j -> k = j.
Proof. pose proof (placed_sizeof Hplaced). unfold position. nia. Qed.

Lemma difference_position k j : 0 <= j <= k -> k <= Z.of_nat (rapv_size v) -> difference (position k) (position j) = k - j.
Proof.
intros Hj Hk. destruct Hplaced as [H1 H2 H3 H4]. unfold difference, position, wrap64, to_ptrdiff.
replace (base + sizeof * k - (base + sizeof * j)) with ((k - j) * sizeof) by ring.
rewrite Z.mod_small, Z.div_mul by nia. apply wrapS_id; [lia|]. unfold int_ok. cbn. nia.
Qed.

(** The iterators of a parsing view are its positions. *)
Lemma view_random_access : random_access view_ops position (rapv_size v) item.
Proof.
pose proof (placed_sizeof Hplaced) as Hs. split; cbn [it_succ it_pred it_add it_sub it_diff it_eq it_cmp it_deref it_at view_ops].
- intros k Hk. apply advance_by_position. lia.
- intros k Hk. apply advance_by_position. lia.
- intros k d _ Hd. by apply advance_by_position.
- intros k d _ Hd. apply advance_by_position. lia.
- apply difference_position.
- intros k j _ _. destruct (Z.eqb_spec k j) as [->|Hn]; [by apply Z.eqb_refl|].
apply Z.eqb_neq. intros H. by apply Hn, position_inj.
- intros k j _ _. unfold position. rewrite Z.add_compare_mono_l. symmetry. apply Zmult_compare_compat_l. lia.
- intros k Hk. apply rapv_deref_position. lia.
- intros k d _ Hd. unfold rapv_subscript. rewrite advance_by_position by lia. apply rapv_deref_position. lia.
Qed.
End random_access_view.

(** ** What the iterators and the accessors of a view give *)

Section view_results.
Context {T : Type} `{!RandomAccessTraits T}.

Lemma rapv_loop_items (data : bytes) n : forall k,
rapv_loop n (drop (ra_sizeof (T := T) * k) data) =
mapM (fun i => ra_dereference (drop (ra_sizeof (T := T) * i) data)) (seq k n).
Proof.
induction n as [|n IH]; intros k; [done|]. cbn [rapv_loop seq mapM]. rewrite drop_drop.
replace (ra_sizeof (T := T) * k + ra_sizeof (T := T))%nat with (ra_sizeof (T := T) * S k)%nat by lia. by rewrite IH.
Qed.

Lemma rapv_range_items (v : random_access_parsing_view T) : rapv_range v = mapM (item v) (seq 0 (rapv_size v)).
Proof. pose proof (rapv_loop_items (rapv_data v) (rapv_size v) 0) as H. by rewrite Nat.mul_0_r in H. Qed.

(** The iterators of a random-access view that lies in the address space are the
positions of the view: [++], [--], [+], [-], [[]], the comparisons and the
forward differences move and compare positions, the range-based loop reads the
items in order and a reversed one in the opposite order, and [front], [back] and
[[]] read the first item, the last one and any other. *)
Theorem view_iterators_refine base (v : random_access_parsing_view T) : placed base v ->
random_access (view_ops base v) (position base) (rapv_size v) (item v) /\
rapv_begin base = position base 0 /\ rapv_end base v = position base (Z.of_nat (rapv_size v)) /\
forward_loop (view_ops base v) (rapv_size v) (rapv_begin base) (rapv_end base v) = rapv_range v /\
backward_loop (view_ops base v) (rapv_size v) (rapv_end base v) (rapv_begin base) = mapM (item v) (rev (seq 0 (rapv_size v))) /\
(forall i, 0 <= i < Z.of_nat (rapv_size v) -> rapv_index v i = item v (Z.to_nat i)) /\
((0 < rapv_size v)%nat -> rapv_front v = item v 0 /\ rapv_back v = item v (rapv_size v - 1)).
Proof.
intros Hp. pose proof (view_random_access base v Hp) as Hra.
assert (rapv_begin base = position (T := T) base 0) as Hb by (unfold rapv_begin, position; lia).
assert (rapv_end base v = position (T := T) base (Z.of_nat (rapv_size v))) as He by done.
assert (forall i, 0 <= i < Z.of_nat (rapv_size v) -> rapv_index v i = item v (Z.to_nat i)) as Hi.
{ intros i Hi. unfold rapv_index. by rewrite (proj2 (Z.ltb_lt _ _)) by lia. }
split_and!; [done..| | |done|].
- rewrite Hb, He, (forward_loop_all Hra). symmetry. apply rapv_range_items.
- rewrite Hb, He. by apply (backward_loop_all Hra).
- intros Hn. destruct Hp as [H1 H2 H3 H4]. split; [by apply (Hi 0); lia|]. unfold rapv_back, wrap64.
rewrite Z.mod_small by nia. rewrite Hi by lia. f_equal. lia.
Qed.

(** The difference to an iterator further on is computed without sign, and is wrong
for every item of more than one byte. *)
Theorem backward_difference_wrong base (v : random_access_parsing_view T) k j : placed base v ->
1 < sizeof (T := T) -> 0 <= k < j -> j <= Z.of_nat (rapv_size v) ->
0 <= difference (T := T) (position base k) (position base j) /\ difference (T := T) (position base k) (position base j) <> k - j.
Proof.
intros [H1 H2 H3 H4] Hs Hk Hj. unfold difference, position, to_ptrdiff, wrap64.
replace (base + sizeof * k - (base + sizeof * j)) with (2 ^ 64 - (j - k) * sizeof + (-1) * 18446744073709551616) by (cbn; ring).
rewrite Z.mod_add, Z.mod_small by (cbn in *; nia).
assert (0 <= (2 ^ 64 - (j - k) * sizeof) / sizeof < 2 ^ 63) as Hq.
{ split; [apply Z.div_pos; cbn in *; nia|]. apply Z.div_lt_upper_bound; [lia|]. cbn in *. nia. }
rewrite wrapS_id; [lia|lia|]. unfold int_ok. cbn in *. lia.
Qed.

(** [front()] and [back()] of an empty view fail an assertion. *)
Theorem empty_view_asserts (v : random_access_parsing_view T) : rapv_size v = O -> rapv_front v = None /\ rapv_back v = None.
Proof. intros H. unfold rapv_front, rapv_back, rapv_index. rewrite H. done. Qed.
End view_results.

(** A view of three integers of two bytes. *)
Definition sample_traits : RandomAccessTraits Z := {|
  ra_sizeof := 2;
  ra_dereference data := fst <$> unchecked_get_integral 2 data
|}.

Definition sample_view : random_access_parsing_view Z := RAPV (be_encode 2 7 ++ be_encode 2 (-8) ++ be_encode 2 9) 3.

Lemma sample_placed : @placed Z sample_traits 4096 sample_view.
Proof. split; by vm_compute. Qed.

Lemma view_iterators_refine_witness :
  random_access (@view_ops Z sample_traits 4096 sample_view) (@position Z sample_traits 4096) 3 (@item Z sample_traits sample_view) /\
  @rapv_begin 4096 = @position Z sample_traits 4096 0 /\
  @rapv_end Z sample_traits 4096 sample_view = @position Z sample_traits 4096 3 /\
  forward_loop (@view_ops Z sample_traits 4096 sample_view) 3 (@rapv_begin 4096) (@rapv_end Z sample_traits 4096 sample_view) =
    @rapv_range Z sample_traits sample_view /\
  backward_loop (@view_ops Z sample_traits 4096 sample_view) 3 (@rapv_end Z sample_traits 4096 sample_view) (@rapv_begin 4096) =
    mapM (@item Z sample_traits sample_view) (rev (seq 0 3)) /\
  (forall i, 0 <= i < 3 -> @rapv_index Z sample_traits sample_view i = @item Z sample_traits sample_view (Z.to_nat i)) /\
  ((0 < 3)%nat -> @rapv_front Z sample_traits sample_view = @item Z sample_traits sample_view 0 /\
    @rapv_back Z sample_traits sample_view = @item Z sample_traits sample_view 2).
Proof. exact (@view_iterators_refine Z sample_traits 4096 sample_view sample_placed). Defined.

(** One before the other is [-1]; the code says 9223372036854775807. *)
Example difference_of_neighbours : @difference Z sample_traits 4096 4098 = 9223372036854775807.
Proof. reflexivity. Qed.
