(* ===== verification/BackendMessages.v ===== *)
(** * Backend messages: data and parsers

    The messages a server sends ([include/nativepg/protocol/*.hpp]) and the
    functions that parse their bodies ([src/src/messages.cpp]).  A [std::span] or
    [std::string_view] into the message is the list of its bytes; an enumeration
    with a fixed underlying type, which may hold any value of that type after a
    [static_cast], is that integer. *)

From stdpp Require Import base list option.
From Stdlib Require Import ZArith Lia.
From S2P Require Import Prelude Errors ParseContext Views.

#[local] Open Scope Z_scope.

(** ** Enumerations *)

(** [enum class format_code : std::int16_t] *)
Abbreviation format_code := Z (only parsing).
Definition fmt_text : format_code := 0.
Definition fmt_binary : format_code := 1.

(** [enum class transaction_status : unsigned char] *)
Abbreviation transaction_status := Z (only parsing).
Definition idle : transaction_status := ch "I".
Definition in_transaction : transaction_status := ch "T".
Definition failed : transaction_status := ch "E".

Definition is_valid_status (v : transaction_status) : bool :=
  (v =? idle) || (v =? in_transaction) || (v =? failed).

Definition is_valid_format_code (v : format_code) : bool := (v =? fmt_text) || (v =? fmt_binary).

(** ** Structures *)

(** A [field_view]: [None] is NULL. *)
Abbreviation field_view := (option bytes).

Record backend_key_data := { bkd_process_id : Z; bkd_secret_key : Z }.
Record notification_response :=
  { nr_process_id : Z; channel_name : bytes; payload : bytes }.
Record parameter_status := { ps_name : bytes; ps_value : bytes }.
Record command_complete := { tag : bytes }.
Record data_row := { columns : forward_parsing_view field_view }.
Record authentication_md5_password := { salt : bytes }.
Record authentication_sasl := { mechanisms : forward_parsing_view bytes }.
Record negotiate_protocol_version :=
  { minor_version : Z; non_recognized_options : forward_parsing_view bytes }.
Record ready_for_query := { status : transaction_status }.
Record parameter_description := { parameter_type_oids : random_access_parsing_view Z }.

(** [copy_in_response], [copy_out_response] and [copy_both_response] have the
    same members. *)
Record copy_response :=
  { overall_fmt_code : format_code; fmt_codes : random_access_parsing_view format_code }.

Record field_description := {
  fd_name : bytes;
  table_oid : Z;
  column_attribute : Z;
  type_oid : Z;
  type_length : Z;
  type_modifier : Z;
  fmt_code : format_code
}.
Record row_description := { field_descriptions : forward_parsing_view field_description }.

(** [error_response] and [notice_response] derive from it. *)
Record error_notice_fields := ENF {
  severity : option bytes;
  localized_severity : option bytes;
  sqlstate : option bytes;
  message : option bytes;
  detail : option bytes;
  hint : option bytes;
  position : option bytes;
  internal_position : option bytes;
  internal_query : option bytes;
  where_ : option bytes;
  schema_name : option bytes;
  table_name : option bytes;
  column_name : option bytes;
  data_type_name : option bytes;
  constraint_name : option bytes;
  file_name : option bytes;
  line_number : option bytes;
  routine : option bytes
}.

(** A value-initialised [error_notice_fields]. *)
Definition no_fields : error_notice_fields :=
  ENF None None None None None None None None None
      None None None None None None None None None.

(** [any_backend_message]: the alternatives of the variant, [kind::none] first. *)
Inductive any_backend_message :=
| Mnone
| Mauthentication_ok
| Mauthentication_kerberos_v5
| Mauthentication_cleartext_password
| Mauthentication_md5_password (v : authentication_md5_password)
| Mauthentication_gss
| Mauthentication_gss_continue (data : bytes)
| Mauthentication_sspi
| Mauthentication_sasl (v : authentication_sasl)
| Mauthentication_sasl_continue (data : bytes)
| Mauthentication_sasl_final (data : bytes)
| Mbackend_key_data (v : backend_key_data)
| Mbind_complete
| Mclose_complete
| Mcommand_complete (v : command_complete)
| Mcopy_data (data : bytes)
| Mcopy_done
| Mcopy_fail (error_message : bytes)
| Mcopy_in_response (v : copy_response)
| Mcopy_out_response (v : copy_response)
| Mcopy_both_response (v : copy_response)
| Mdata_row (v : data_row)
| Mempty_query_response
| Merror_response (v : error_notice_fields)
| Mnegotiate_protocol_version (v : negotiate_protocol_version)
| Mno_data
| Mnotice_response (v : error_notice_fields)
| Mnotification_response (v : notification_response)
| Mparameter_description (v : parameter_description)
| Mparameter_status (v : parameter_status)
| Mparse_complete
| Mportal_suspended
| Mready_for_query (v : ready_for_query)
| Mfield_description (v : field_description)
| Mrow_description (v : row_description).

(** ** Item traits of the views *)

(** [forward_traits<field_view>]: Int32 size, then the bytes. *)
#[global] Instance field_view_traits : ForwardTraits field_view := {
  dereference data :=
    '(size, rest) ← unchecked_get_integral 4 data;
    if size =? -1 then Some None
    else if (size <? 0) || (length rest <? Z.to_nat size)%nat then None
    else Some (Some (take (Z.to_nat size) rest));
  advance_item data :=
    '(size, rest) ← unchecked_get_integral 4 data;
    let n := if size >? 0 then Z.to_nat size else O in
    if (length rest <? n)%nat then None else Some (drop n rest)
}.

(** [forward_traits<std::string_view>] *)
#[global] Instance string_view_traits : ForwardTraits bytes := {
  dereference data := fst <$> unchecked_get_string data;
  advance_item data := snd <$> unchecked_get_string data
}.

(** The size of the fixed-length fields in a field description. *)
Definition field_description_fixed_size : nat := 18.

(** [forward_traits<field_description>] *)
#[global] Instance field_description_traits : ForwardTraits field_description := {
  dereference data :=
    '(name, data) ← unchecked_get_string data;
    '(toid, data) ← unchecked_get_integral 4 data;
    '(attr, data) ← unchecked_get_integral 2 data;
    '(oid, data) ← unchecked_get_integral 4 data;
    '(tlen, data) ← unchecked_get_integral 2 data;
    '(tmod, data) ← unchecked_get_integral 4 data;
    '(code, data) ← unchecked_get_integral 2 data;
    Some {| fd_name := name; table_oid := toid; column_attribute := attr; type_oid := oid;
            type_length := tlen; type_modifier := tmod; fmt_code := code |};
  advance_item data :=
    '(_, data) ← unchecked_get_string data;
    if (length data <? field_description_fixed_size)%nat then None
    else Some (drop field_description_fixed_size data)
}.

(** [random_access_traits<format_code>] *)
Definition format_code_traits : RandomAccessTraits format_code := {|
  ra_sizeof := 2;
  ra_dereference data := fst <$> unchecked_get_integral 2 data
|}.

(** [random_access_traits<std::int32_t>] *)
Definition int32_traits : RandomAccessTraits Z := {|
  ra_sizeof := 4;
  ra_dereference data := fst <$> unchecked_get_integral 4 data
|}.

Definition set_severity (x : bytes) (to : error_notice_fields) : error_notice_fields :=
  let '(ENF _ a1 a2 a3 a4 a5 a6 a7 a8 a9 a10 a11 a12 a13 a14 a15 a16 a17) := to in
  ENF (Some x) a1 a2 a3 a4 a5 a6 a7 a8 a9 a10 a11 a12 a13 a14 a15 a16 a17.
Definition set_localized_severity (x : bytes) (to : error_notice_fields) : error_notice_fields :=
  let '(ENF a0 _ a2 a3 a4 a5 a6 a7 a8 a9 a10 a11 a12 a13 a14 a15 a16 a17) := to in
  ENF a0 (Some x) a2 a3 a4 a5 a6 a7 a8 a9 a10 a11 a12 a13 a14 a15 a16 a17.
Definition set_sqlstate (x : bytes) (to : error_notice_fields) : error_notice_fields :=
  let '(ENF a0 a1 _ a3 a4 a5 a6 a7 a8 a9 a10 a11 a12 a13 a14 a15 a16 a17) := to in
  ENF a0 a1 (Some x) a3 a4 a5 a6 a7 a8 a9 a10 a11 a12 a13 a14 a15 a16 a17.
Definition set_message (x : bytes) (to : error_notice_fields) : error_notice_fields :=
  let '(ENF a0 a1 a2 _ a4 a5 a6 a7 a8 a9 a10 a11 a12 a13 a14 a15 a16 a17) := to in
  ENF a0 a1 a2 (Some x) a4 a5 a6 a7 a8 a9 a10 a11 a12 a13 a14 a15 a16 a17.
Definition set_detail (x : bytes) (to : error_notice_fields) : error_notice_fields :=
  let '(ENF a0 a1 a2 a3 _ a5 a6 a7 a8 a9 a10 a11 a12 a13 a14 a15 a16 a17) := to in
  ENF a0 a1 a2 a3 (Some x) a5 a6 a7 a8 a9 a10 a11 a12 a13 a14 a15 a16 a17.
Definition set_hint (x : bytes) (to : error_notice_fields) : error_notice_fields :=
  let '(ENF a0 a1 a2 a3 a4 _ a6 a7 a8 a9 a10 a11 a12 a13 a14 a15 a16 a17) := to in
  ENF a0 a1 a2 a3 a4 (Some x) a6 a7 a8 a9 a10 a11 a12 a13 a14 a15 a16 a17.
Definition set_position (x : bytes) (to : error_notice_fields) : error_notice_fields :=
  let '(ENF a0 a1 a2 a3 a4 a5 _ a7 a8 a9 a10 a11 a12 a13 a14 a15 a16 a17) := to in
  ENF a0 a1 a2 a3 a4 a5 (Some x) a7 a8 a9 a10 a11 a12 a13 a14 a15 a16 a17.
Definition set_internal_position (x : bytes) (to : error_notice_fields) : error_notice_fields :=
  let '(ENF a0 a1 a2 a3 a4 a5 a6 _ a8 a9 a10 a11 a12 a13 a14 a15 a16 a17) := to in
  ENF a0 a1 a2 a3 a4 a5 a6 (Some x) a8 a9 a10 a11 a12 a13 a14 a15 a16 a17.
Definition set_internal_query (x : bytes) (to : error_notice_fields) : error_notice_fields :=
  let '(ENF a0 a1 a2 a3 a4 a5 a6 a7 _ a9 a10 a11 a12 a13 a14 a15 a16 a17) := to in
  ENF a0 a1 a2 a3 a4 a5 a6 a7 (Some x) a9 a10 a11 a12 a13 a14 a15 a16 a17.
Definition set_where_ (x : bytes) (to : error_notice_fields) : error_notice_fields :=
  let '(ENF a0 a1 a2 a3 a4 a5 a6 a7 a8 _ a10 a11 a12 a13 a14 a15 a16 a17) := to in
  ENF a0 a1 a2 a3 a4 a5 a6 a7 a8 (Some x) a10 a11 a12 a13 a14 a15 a16 a17.
Definition set_schema_name (x : bytes) (to : error_notice_fields) : error_notice_fields :=
  let '(ENF a0 a1 a2 a3 a4 a5 a6 a7 a8 a9 _ a11 a12 a13 a14 a15 a16 a17) := to in
  ENF a0 a1 a2 a3 a4 a5 a6 a7 a8 a9 (Some x) a11 a12 a13 a14 a15 a16 a17.
Definition set_table_name (x : bytes) (to : error_notice_fields) : error_notice_fields :=
  let '(ENF a0 a1 a2 a3 a4 a5 a6 a7 a8 a9 a10 _ a12 a13 a14 a15 a16 a17) := to in
  ENF a0 a1 a2 a3 a4 a5 a6 a7 a8 a9 a10 (Some x) a12 a13 a14 a15 a16 a17.
Definition set_column_name (x : bytes) (to : error_notice_fields) : error_notice_fields :=
  let '(ENF a0 a1 a2 a3 a4 a5 a6 a7 a8 a9 a10 a11 _ a13 a14 a15 a16 a17) := to in
  ENF a0 a1 a2 a3 a4 a5 a6 a7 a8 a9 a10 a11 (Some x) a13 a14 a15 a16 a17.
Definition set_data_type_name (x : bytes) (to : error_notice_fields) : error_notice_fields :=
  let '(ENF a0 a1 a2 a3 a4 a5 a6 a7 a8 a9 a10 a11 a12 _ a14 a15 a16 a17) := to in
  ENF a0 a1 a2 a3 a4 a5 a6 a7 a8 a9 a10 a11 a12 (Some x) a14 a15 a16 a17.
Definition set_constraint_name (x : bytes) (to : error_notice_fields) : error_notice_fields :=
  let '(ENF a0 a1 a2 a3 a4 a5 a6 a7 a8 a9 a10 a11 a12 a13 _ a15 a16 a17) := to in
  ENF a0 a1 a2 a3 a4 a5 a6 a7 a8 a9 a10 a11 a12 a13 (Some x) a15 a16 a17.
Definition set_file_name (x : bytes) (to : error_notice_fields) : error_notice_fields :=
  let '(ENF a0 a1 a2 a3 a4 a5 a6 a7 a8 a9 a10 a11 a12 a13 a14 _ a16 a17) := to in
  ENF a0 a1 a2 a3 a4 a5 a6 a7 a8 a9 a10 a11 a12 a13 a14 (Some x) a16 a17.
Definition set_line_number (x : bytes) (to : error_notice_fields) : error_notice_fields :=
  let '(ENF a0 a1 a2 a3 a4 a5 a6 a7 a8 a9 a10 a11 a12 a13 a14 a15 _ a17) := to in
  ENF a0 a1 a2 a3 a4 a5 a6 a7 a8 a9 a10 a11 a12 a13 a14 a15 (Some x) a17.
Definition set_routine (x : bytes) (to : error_notice_fields) : error_notice_fields :=
  let '(ENF a0 a1 a2 a3 a4 a5 a6 a7 a8 a9 a10 a11 a12 a13 a14 a15 a16 _) := to in
  ENF a0 a1 a2 a3 a4 a5 a6 a7 a8 a9 a10 a11 a12 a13 a14 a15 a16 (Some x).

(** ** Parsers *)

Definition check_empty (data : bytes) : error_code :=
  match data with [] => None | _ :: _ => Some (client extra_bytes) end.

(** [enum class error_field_type : unsigned char] and the member it selects. *)
Definition error_field (type : Z) : option (bytes -> error_notice_fields -> error_notice_fields) :=
  if type =? ch "S" then Some set_localized_severity
  else if type =? ch "V" then Some set_severity
  else if type =? ch "C" then Some set_sqlstate
  else if type =? ch "M" then Some set_message
  else if type =? ch "D" then Some set_detail
  else if type =? ch "H" then Some set_hint
  else if type =? ch "P" then Some set_position
  else if type =? ch "p" then Some set_internal_position
  else if type =? ch "q" then Some set_internal_query
  else if type =? ch "W" then Some set_where_
  else if type =? ch "s" then Some set_schema_name
  else if type =? ch "t" then Some set_table_name
  else if type =? ch "c" then Some set_column_name
  else if type =? ch "d" then Some set_data_type_name
  else if type =? ch "n" then Some set_constraint_name
  else if type =? ch "F" then Some set_file_name
  else if type =? ch "L" then Some set_line_number
  else if type =? ch "R" then Some set_routine
  else None.

Definition populate_field (type : Z) (to : error_notice_fields) : P error_notice_fields :=
  match error_field type with
  | Some set => s ← get_string; mret (set s to)
  | None => mret to (* Intentionally ignore unknown fields *)
  end.

(** The loop of [parse_error_notice]; it reads one byte per iteration. *)
Fixpoint error_notice_loop (fuel : nat) (to : error_notice_fields) : P error_notice_fields :=
  match fuel with
  | O => mret to
  | S fuel' =>
      type_byte ← get_byte;
      if type_byte =? 0 then mret to
      else to ← populate_field type_byte to; error_notice_loop fuel' to
  end.

Definition error_notice_body (to : error_notice_fields) : P error_notice_fields :=
  fun c => error_notice_loop (S (size c)) to c.

Definition parse_error_notice (data : bytes) : error_code * error_notice_fields :=
  run_parse (error_notice_body no_fields) data.

Definition backend_key_data_body : P backend_key_data :=
  pid ← get_integral 4;
  key ← get_integral 4;
  mret {| bkd_process_id := pid; bkd_secret_key := key |}.

Definition md5_password_body : P authentication_md5_password :=
  s ← get_byte_array 4;
  mret {| salt := s |}.

(** [while (!ctx.get_string().empty()) ++num_items;] *)
Fixpoint sasl_loop (fuel : nat) (num_items : nat) : P nat :=
  match fuel with
  | O => mret num_items
  | S fuel' =>
      s ← get_string;
      match s with
      | [] => mret num_items
      | _ :: _ => sasl_loop fuel' (S num_items)
      end
  end.

Definition sasl_body : P authentication_sasl :=
  mechanisms_first ← first;
  num_items ← (fun c => sasl_loop (S (size c)) 0 c);
  current ← first;
  (* the strings end in the NULL byte: one byte before the current one *)
  let len := (length mechanisms_first - length current)%nat in
  let last := if (0 <? len)%nat then (len - 1)%nat else len in
  mret {| mechanisms := FPV num_items (take last mechanisms_first) |}.

Definition command_complete_body : P command_complete :=
  s ← get_string; mret {| tag := s |}.

(** One iteration over the individual format codes of a copy response. *)
Definition copy_code_step (should_be_text : bool) : P unit :=
  code ← get_integral 2;
  if (should_be_text && negb (code =? fmt_text)) || negb (is_valid_format_code code)
  then add_error protocol_value_error else mret tt.

(** [parse_copy_response]: the early return of an invalid overall code leaves
    the outputs untouched. *)
Definition copy_response_body (to : copy_response) : P copy_response :=
  overall_code ← get_byte;
  if negb (is_valid_format_code overall_code) then
    add_error protocol_value_error;; mret to
  else
    let should_be_text := overall_code =? fmt_text in
    num_items ← get_nonnegative_integral 2;
    fmt_codes_first ← first;
    for_n (Z.to_nat num_items) (copy_code_step should_be_text);;
    mret {| overall_fmt_code := overall_code;
            fmt_codes := RAPV fmt_codes_first (Z.to_nat num_items) |}.

(** One iteration over the columns of a data row. *)
Definition data_row_step : P unit :=
  value_size ← get_integral 4;
  if value_size =? -1 then mret tt
  else if 0 <=? value_size then check_size_and_advance (Z.to_nat value_size)
  else add_error protocol_value_error.

Definition data_row_body : P data_row :=
  num_columns ← get_nonnegative_integral 2;
  values_begin ← first;
  for_n (Z.to_nat num_columns) data_row_step;;
  values_end ← first;
  mret {| columns := FPV (Z.to_nat num_columns) (span_between values_begin values_end) |}.

Definition negotiate_body : P negotiate_protocol_version :=
  minor ← get_nonnegative_integral 4;
  num_ops ← get_nonnegative_integral 4;
  opts_first ← first;
  for_n (Z.to_nat num_ops) (get_string;; mret tt);;
  opts_last ← first;
  mret {| minor_version := minor;
          non_recognized_options := FPV (Z.to_nat num_ops) (span_between opts_first opts_last) |}.

Definition notification_response_body : P notification_response :=
  pid ← get_integral 4;
  chan ← get_string;
  pl ← get_string;
  mret {| nr_process_id := pid; channel_name := chan; payload := pl |}.

(** The output parameter of this overload is unnamed: it is never assigned. *)
Definition parameter_description_body (to : parameter_description) : P parameter_description :=
  num_params ← get_nonnegative_integral 2;
  check_size_and_advance (Z.to_nat num_params * 4);;
  mret to.

Definition parameter_status_body : P parameter_status :=
  n ← get_string;
  v ← get_string;
  mret {| ps_name := n; ps_value := v |}.

Definition ready_for_query_body : P ready_for_query :=
  st ← get_byte;
  (if negb (is_valid_status st) then add_error protocol_value_error else mret tt);;
  mret {| status := st |}.

(** One iteration over the fields of a row description. *)
Definition row_description_step : P unit :=
  get_string;;
  check_size_and_advance (field_description_fixed_size - 2);;
  code ← get_integral 2;
  if negb (is_valid_format_code code) then add_error protocol_value_error else mret tt.

Definition row_description_body : P row_description :=
  num_items ← get_nonnegative_integral 2;
  data_first ← first;
  for_n (Z.to_nat num_items) row_description_step;;
  data_last ← first;
  mret {| field_descriptions := FPV (Z.to_nat num_items) (span_between data_first data_last) |}.
