(* ===== verification/AnyMessage.v ===== *)
(** * The tagged union of the backend messages ([include/nativepg/protocol/any_backend_message.hpp])

    [any_backend_message] is a hand-written variant: a kind and a union.  Every
    constructor, [get_] accessor and [as_] accessor of the class is the same
    function at another kind, so each is one function here, whose type depends on
    the kind: the payload of the kind is the member of the union.  (The class has
    no accessor for [none], whose member is a filler.) *)

From stdpp Require Import base decidable option.
From Stdlib Require Import ZArith.
From S2P Require Import Prelude Errors Views BackendMessages.

(** [enum class kind] *)
Inductive kind :=
| Knone
| Kauthentication_ok
| Kauthentication_kerberos_v5
| Kauthentication_cleartext_password
| Kauthentication_md5_password
| Kauthentication_gss
| Kauthentication_gss_continue
| Kauthentication_sspi
| Kauthentication_sasl
| Kauthentication_sasl_continue
| Kauthentication_sasl_final
| Kbackend_key_data
| Kbind_complete
| Kclose_complete
| Kcommand_complete
| Kcopy_data
| Kcopy_done
| Kcopy_fail
| Kcopy_in_response
| Kcopy_out_response
| Kcopy_both_response
| Kdata_row
| Kempty_query_response
| Kerror_response
| Knegotiate_protocol_version
| Kno_data
| Knotice_response
| Knotification_response
| Kparameter_description
| Kparameter_status
| Kparse_complete
| Kportal_suspended
| Kready_for_query
| Kfield_description
| Krow_description.

#[global] Instance kind_eq_dec : EqDecision kind.
Proof. solve_decision. Defined.

(** The member of the union for a kind; a message without fields is [unit]. *)
Definition payload (k : kind) : Type :=
  match k with
  | Knone => unit
  | Kauthentication_ok => unit
  | Kauthentication_kerberos_v5 => unit
  | Kauthentication_cleartext_password => unit
  | Kauthentication_md5_password => authentication_md5_password
  | Kauthentication_gss => unit
  | Kauthentication_gss_continue => bytes
  | Kauthentication_sspi => unit
  | Kauthentication_sasl => authentication_sasl
  | Kauthentication_sasl_continue => bytes
  | Kauthentication_sasl_final => bytes
  | Kbackend_key_data => backend_key_data
  | Kbind_complete => unit
  | Kclose_complete => unit
  | Kcommand_complete => command_complete
  | Kcopy_data => bytes
  | Kcopy_done => unit
  | Kcopy_fail => bytes
  | Kcopy_in_response => copy_response
  | Kcopy_out_response => copy_response
  | Kcopy_both_response => copy_response
  | Kdata_row => data_row
  | Kempty_query_response => unit
  | Kerror_response => error_notice_fields
  | Knegotiate_protocol_version => negotiate_protocol_version
  | Kno_data => unit
  | Knotice_response => error_notice_fields
  | Knotification_response => notification_response
  | Kparameter_description => parameter_description
  | Kparameter_status => parameter_status
  | Kparse_complete => unit
  | Kportal_suspended => unit
  | Kready_for_query => ready_for_query
  | Kfield_description => field_description
  | Krow_description => row_description
  end.

(** [type()] *)
Definition type (m : any_backend_message) : kind :=
  match m with
  | Mnone => Knone
  | Mauthentication_ok => Kauthentication_ok
  | Mauthentication_kerberos_v5 => Kauthentication_kerberos_v5
  | Mauthentication_cleartext_password => Kauthentication_cleartext_password
  | Mauthentication_md5_password _ => Kauthentication_md5_password
  | Mauthentication_gss => Kauthentication_gss
  | Mauthentication_gss_continue _ => Kauthentication_gss_continue
  | Mauthentication_sspi => Kauthentication_sspi
  | Mauthentication_sasl _ => Kauthentication_sasl
  | Mauthentication_sasl_continue _ => Kauthentication_sasl_continue
  | Mauthentication_sasl_final _ => Kauthentication_sasl_final
  | Mbackend_key_data _ => Kbackend_key_data
  | Mbind_complete => Kbind_complete
  | Mclose_complete => Kclose_complete
  | Mcommand_complete _ => Kcommand_complete
  | Mcopy_data _ => Kcopy_data
  | Mcopy_done => Kcopy_done
  | Mcopy_fail _ => Kcopy_fail
  | Mcopy_in_response _ => Kcopy_in_response
  | Mcopy_out_response _ => Kcopy_out_response
  | Mcopy_both_response _ => Kcopy_both_response
  | Mdata_row _ => Kdata_row
  | Mempty_query_response => Kempty_query_response
  | Merror_response _ => Kerror_response
  | Mnegotiate_protocol_version _ => Knegotiate_protocol_version
  | Mno_data => Kno_data
  | Mnotice_response _ => Knotice_response
  | Mnotification_response _ => Knotification_response
  | Mparameter_description _ => Kparameter_description
  | Mparameter_status _ => Kparameter_status
  | Mparse_complete => Kparse_complete
  | Mportal_suspended => Kportal_suspended
  | Mready_for_query _ => Kready_for_query
  | Mfield_description _ => Kfield_description
  | Mrow_description _ => Krow_description
  end.

(** The member of the union that the message holds. *)
Definition contents (m : any_backend_message) : payload (type m) :=
  match m with
  | Mnone => tt
  | Mauthentication_ok => tt
  | Mauthentication_kerberos_v5 => tt
  | Mauthentication_cleartext_password => tt
  | Mauthentication_md5_password v => v
  | Mauthentication_gss => tt
  | Mauthentication_gss_continue v => v
  | Mauthentication_sspi => tt
  | Mauthentication_sasl v => v
  | Mauthentication_sasl_continue v => v
  | Mauthentication_sasl_final v => v
  | Mbackend_key_data v => v
  | Mbind_complete => tt
  | Mclose_complete => tt
  | Mcommand_complete v => v
  | Mcopy_data v => v
  | Mcopy_done => tt
  | Mcopy_fail v => v
  | Mcopy_in_response v => v
  | Mcopy_out_response v => v
  | Mcopy_both_response v => v
  | Mdata_row v => v
  | Mempty_query_response => tt
  | Merror_response v => v
  | Mnegotiate_protocol_version v => v
  | Mno_data => tt
  | Mnotice_response v => v
  | Mnotification_response v => v
  | Mparameter_description v => v
  | Mparameter_status v => v
  | Mparse_complete => tt
  | Mportal_suspended => tt
  | Mready_for_query v => v
  | Mfield_description v => v
  | Mrow_description v => v
  end.

(** [any_backend_message(const T&)], one for each type. *)
Definition construct (k : kind) : payload k -> any_backend_message :=
  match k with
  | Knone => fun _ => Mnone
  | Kauthentication_ok => fun _ => Mauthentication_ok
  | Kauthentication_kerberos_v5 => fun _ => Mauthentication_kerberos_v5
  | Kauthentication_cleartext_password => fun _ => Mauthentication_cleartext_password
  | Kauthentication_md5_password => Mauthentication_md5_password
  | Kauthentication_gss => fun _ => Mauthentication_gss
  | Kauthentication_gss_continue => Mauthentication_gss_continue
  | Kauthentication_sspi => fun _ => Mauthentication_sspi
  | Kauthentication_sasl => Mauthentication_sasl
  | Kauthentication_sasl_continue => Mauthentication_sasl_continue
  | Kauthentication_sasl_final => Mauthentication_sasl_final
  | Kbackend_key_data => Mbackend_key_data
  | Kbind_complete => fun _ => Mbind_complete
  | Kclose_complete => fun _ => Mclose_complete
  | Kcommand_complete => Mcommand_complete
  | Kcopy_data => Mcopy_data
  | Kcopy_done => fun _ => Mcopy_done
  | Kcopy_fail => Mcopy_fail
  | Kcopy_in_response => Mcopy_in_response
  | Kcopy_out_response => Mcopy_out_response
  | Kcopy_both_response => Mcopy_both_response
  | Kdata_row => Mdata_row
  | Kempty_query_response => fun _ => Mempty_query_response
  | Kerror_response => Merror_response
  | Knegotiate_protocol_version => Mnegotiate_protocol_version
  | Kno_data => fun _ => Mno_data
  | Knotice_response => Mnotice_response
  | Knotification_response => Mnotification_response
  | Kparameter_description => Mparameter_description
  | Kparameter_status => Mparameter_status
  | Kparse_complete => fun _ => Mparse_complete
  | Kportal_suspended => fun _ => Mportal_suspended
  | Kready_for_query => Mready_for_query
  | Kfield_description => Mfield_description
  | Krow_description => Mrow_description
  end.

(** The union, read as the member of a kind: only the member that is held can be read. *)
Definition read_union (k : kind) (m : any_backend_message) : option (payload k) :=
  match decide (type m = k) with
  | left E => Some (eq_rect (type m) payload (contents m) k E)
  | right _ => None
  end.

(** [get_xxx()]: [None] is the failed assertion. *)
Definition get (k : kind) (m : any_backend_message) : option (payload k) :=
  if bool_decide (type m = k) then read_union k m else None.

(** [std::invalid_argument] *)
Inductive as_exception := invalid_argument_kind_mismatch.

(** [as_xxx()]: the inner [None] would be a read of another member of the union. *)
Definition as_ (k : kind) (m : any_backend_message) : as_exception + option (payload k) :=
  if bool_decide (type m <> k) then inl invalid_argument_kind_mismatch else inr (read_union k m).

Lemma type_construct k v : type (construct k v) = k.
Proof. by destruct k. Qed.

(** What is held is what the message was made of. *)
Lemma construct_contents m : construct (type m) (contents m) = m.
Proof. by destruct m as [| | | | | | | | | | | | | | | | | | | | | | | | | | | | | | | | | |]. Qed.

Lemma read_construct k v : read_union k (construct k v) = Some v.
Proof. destruct k; cbn in v; first [reflexivity|by destruct v]. Qed.

Lemma read_inv k m v : read_union k m = Some v -> m = construct k v.
Proof.
  unfold read_union. destruct (decide (type m = k)) as [<-|]; [|done]. cbn. intros [= <-]. symmetry. apply construct_contents.
Qed.

(** A backend message is exactly one kind with one value: the checked and the
    unchecked accessors of a kind give the value that a message of that kind was
    made of, and on any other message the one throws and the other fails its
    assertion; neither reads a member of the union that is not held. *)
Theorem any_message_union k m :
  (exists v, m = construct k v /\ get k m = Some v /\ as_ k m = inr (Some v)) \/
  (type m <> k /\ (forall v, m <> construct k v) /\ get k m = None /\ as_ k m = inl invalid_argument_kind_mismatch).
Proof.
  unfold get, as_. destruct (decide (type m = k)) as [E|E].
  - left. rewrite bool_decide_eq_true_2, bool_decide_eq_false_2 by (done || by intros []).
    subst k. exists (contents m). pose proof (read_construct (type m) (contents m)) as H. rewrite construct_contents in H.
    rewrite H. split; [symmetry; apply construct_contents|done].
  - right. rewrite bool_decide_eq_false_2, bool_decide_eq_true_2 by done. split_and!; [done| |done..].
    intros v ->. apply E, type_construct.
Qed.
