(* ===== verification/ParseMessage.v ===== *)
(** * From bytes to messages ([src/src/messages.cpp])

    The dispatch on the message type and on the authentication request code,
    the message header, and the two entry points of the stream reader,
    [parse_message] and [message_missing_bytes]. *)

From stdpp Require Import base list option.
From Stdlib Require Import ZArith Lia.
From S2P Require Import Prelude Errors ParseContext Views BackendMessages.

#[local] Open Scope Z_scope.

(** [parse_any_message_impl]: the output is assigned only on success. *)
Definition parse_any_message_impl {A} (wrap : A -> any_backend_message)
    (r : error_code * A) : error + any_backend_message :=
  match r with
  | (Some e, _) => inl e
  | (None, a) => inr (wrap a)
  end.

(** The instances for the empty messages. *)
Definition parse_empty (m : any_backend_message) (data : bytes) : error + any_backend_message :=
  match check_empty data with Some e => inl e | None => inr m end.

(** Value of the members [parse] may leave unassigned. *)
Definition no_copy_response : copy_response := {| overall_fmt_code := 0; fmt_codes := RAPV [] 0 |}.
Definition no_parameter_description : parameter_description := {| parameter_type_oids := RAPV [] 0 |}.

Definition parse_authentication_request (from : bytes) : error + any_backend_message :=
  if (length from <? 4)%nat then inl (client incomplete_message)
  else
    let type := load_big_s (take 4 from) in
    let from := drop 4 from in
    if type =? 0 then parse_empty Mauthentication_ok from
    else if type =? 2 then parse_empty Mauthentication_kerberos_v5 from
    else if type =? 3 then parse_empty Mauthentication_cleartext_password from
    else if type =? 5 then
      parse_any_message_impl Mauthentication_md5_password (run_parse md5_password_body from)
    else if type =? 7 then parse_empty Mauthentication_gss from
    else if type =? 8 then inr (Mauthentication_gss_continue from)
    else if type =? 9 then parse_empty Mauthentication_sspi from
    else if type =? 10 then
      parse_any_message_impl Mauthentication_sasl (run_parse sasl_body from)
    else if type =? 11 then inr (Mauthentication_sasl_continue from)
    else if type =? 12 then inr (Mauthentication_sasl_final from)
    else inl (client protocol_value_error).

Definition parse_any_message (message_type : Z) (data : bytes) : error + any_backend_message :=
  let t := message_type in
  if t =? ch "R" then parse_authentication_request data
  else if t =? ch "K" then parse_any_message_impl Mbackend_key_data (run_parse backend_key_data_body data)
  else if t =? ch "2" then parse_empty Mbind_complete data
  else if t =? ch "3" then parse_empty Mclose_complete data
  else if t =? ch "C" then parse_any_message_impl Mcommand_complete (run_parse command_complete_body data)
  else if t =? ch "d" then inr (Mcopy_data data)
  else if t =? ch "c" then parse_empty Mcopy_done data
  else if t =? ch "G" then
    parse_any_message_impl Mcopy_in_response (run_parse (copy_response_body no_copy_response) data)
  else if t =? ch "H" then
    parse_any_message_impl Mcopy_out_response (run_parse (copy_response_body no_copy_response) data)
  else if t =? ch "W" then
    parse_any_message_impl Mcopy_both_response (run_parse (copy_response_body no_copy_response) data)
  else if t =? ch "D" then parse_any_message_impl Mdata_row (run_parse data_row_body data)
  else if t =? ch "I" then parse_empty Mempty_query_response data
  else if t =? ch "E" then parse_any_message_impl Merror_response (parse_error_notice data)
  else if t =? ch "v" then
    parse_any_message_impl Mnegotiate_protocol_version (run_parse negotiate_body data)
  else if t =? ch "n" then parse_empty Mno_data data
  else if t =? ch "N" then parse_any_message_impl Mnotice_response (parse_error_notice data)
  else if t =? ch "A" then
    parse_any_message_impl Mnotification_response (run_parse notification_response_body data)
  else if t =? ch "t" then
    parse_any_message_impl Mparameter_description
      (run_parse (parameter_description_body no_parameter_description) data)
  else if t =? ch "S" then parse_any_message_impl Mparameter_status (run_parse parameter_status_body data)
  else if t =? ch "1" then parse_empty Mparse_complete data
  else if t =? ch "s" then parse_empty Mportal_suspended data
  else if t =? ch "Z" then parse_any_message_impl Mready_for_query (run_parse ready_for_query_body data)
  else if t =? ch "T" then parse_any_message_impl Mrow_description (run_parse row_description_body data)
  else inl (client protocol_value_error).

(** ** The message header *)

Record message_header := { mh_type : Z; mh_size : Z }.

(** The argument is the span of the first 5 bytes. *)
Definition parse_header (from : bytes) : error + message_header :=
  let msg_type := nth 0 from 0 in
  let size := load_big_s (drop 1 from) in
  if size <? 4 then inl (client protocol_value_error)
  else inr {| mh_type := msg_type; mh_size := size |}.

(** The stored image and the error code. *)
Definition serialize_header (h : message_header) : error + bytes :=
  if mh_size h >? INT32_MAX - 4 then inl (client value_too_big)
  else inr (mh_type h :: be_encode 4 (mh_size h)).

(** ** Entry points *)

Record parse_message_result := {
  pm_ec : error_code;
  pm_message : any_backend_message;
  pm_size : nat
}.

Definition pm_error (e : error) : parse_message_result :=
  {| pm_ec := Some e; pm_message := Mnone; pm_size := 0 |}.
Definition pm_needs_more (n : nat) : parse_message_result :=
  {| pm_ec := Some (client needs_more); pm_message := Mnone; pm_size := n |}.

Definition parse_message (data : bytes) : parse_message_result :=
  if (length data <? 5)%nat then pm_needs_more (5 - length data)
  else match parse_header (take 5 data) with
  | inl e => pm_error e
  | inr header =>
      let required_size := Z.to_nat (mh_size header + 1) in
      if (length data <? required_size)%nat then pm_needs_more (required_size - length data)
      else match parse_any_message (mh_type header) (take (required_size - 5) (drop 5 data)) with
      | inl e => pm_error e
      | inr msg => {| pm_ec := None; pm_message := msg; pm_size := required_size |}
      end
  end.

Definition message_missing_bytes (data : bytes) : nat :=
  if (length data <? 5)%nat then 5 - length data
  else match parse_header (take 5 data) with
  | inl _ => 0
  | inr header =>
      let required_size := Z.to_nat (mh_size header + 1) in
      if (length data <? required_size)%nat then required_size - length data else 0
  end.

(** ** Frames *)

(** A message on the wire: type byte, length counting itself, body. *)
Definition frame (t : Z) (body : bytes) : bytes :=
  t :: be_encode 4 (Z.of_nat (length body) + 4) ++ body.

Lemma length_frame t body : length (frame t body) = (5 + length body)%nat.
Proof. unfold frame. simpl. rewrite length_app, length_be_encode. lia. Qed.
#[export] Hint Rewrite length_frame : pglen.
