(* ===== verification/BackendWire.v ===== *)
(** * The wire format of backend messages

    [wire_body m t body] is the message format of the protocol documentation,
    one constructor per message, written with big-endian integers and
    NULL-terminated strings: [m] is what a client should obtain from a message
    of type [t] whose body is [body].  The lemmas relate it to the parsers of
    [BackendMessages]: what a parser accepts is exactly what the grammar
    describes, and the views it returns hold well-formed items. *)

From stdpp Require Import base list option.
From Stdlib Require Import ZArith Lia.
From S2P Require Import Prelude Errors ParseContext Views BackendMessages ParseMessage.

#[local] Open Scope Z_scope.

(** ** Item encodings *)

Definition field_view_wf (f : field_view) : Prop :=
  match f with None => True | Some v => Z.of_nat (length v) <= INT32_MAX end.
Definition field_view_enc (f : field_view) : bytes :=
  match f with
  | None => be_encode 4 (-1)
  | Some v => be_encode 4 (Z.of_nat (length v)) ++ v
  end.

Definition string_enc (s : bytes) : bytes := s ++ [0].

Definition field_description_wf (d : field_description) : Prop :=
  (0 ∉ fd_name d) /\ int_ok 4 (table_oid d) /\ int_ok 2 (column_attribute d) /\
  int_ok 4 (type_oid d) /\ int_ok 2 (type_length d) /\ int_ok 4 (type_modifier d) /\
  is_valid_format_code (fmt_code d) = true.
Definition field_description_enc (d : field_description) : bytes :=
  string_enc (fd_name d) ++ be_encode 4 (table_oid d) ++ be_encode 2 (column_attribute d) ++
  be_encode 4 (type_oid d) ++ be_encode 2 (type_length d) ++ be_encode 4 (type_modifier d) ++
  be_encode 2 (fmt_code d).

Lemma unchecked_get_integral_enc n z r : (0 < n)%nat -> int_ok n z ->
  unchecked_get_integral n (be_encode n z ++ r) = Some (z, r).
Proof.
  intros Hn Hz. unfold unchecked_get_integral.
  rewrite length_app_ltb by apply length_be_encode.
  rewrite take_app_len, drop_app_len by (by rewrite length_be_encode).
  by rewrite load_big_s_encode.
Qed.

Lemma valid_format_code_int z : is_valid_format_code z = true -> int_ok 2 z.
Proof.
  unfold is_valid_format_code, fmt_text, fmt_binary. rewrite int_ok_2.
  destruct (Z.eqb_spec z 0), (Z.eqb_spec z 1); simpl; intros; lia || done.
Qed.

Lemma len_int4 (v : bytes) : Z.of_nat (length v) <= INT32_MAX -> int_ok 4 (Z.of_nat (length v)).
Proof. unfold INT32_MAX. rewrite int_ok_4. lia. Qed.

#[export] Hint Resolve valid_format_code_int len_int4 : pg.

#[global] Program Instance field_view_item : ForwardItem field_view := {
  item_wf := field_view_wf; item_enc := field_view_enc
}.
Next Obligation.
  intros [v|] _ H; apply (f_equal length) in H; simpl in H; len.
Qed.
Next Obligation.
  intros [v|] r Hwf; cbn [dereference advance_item field_view_traits field_view_enc].
  - rewrite <- app_assoc, unchecked_get_integral_enc by (lia || auto with pg). simpl.
    destruct (Z.eqb_spec (Z.of_nat (length v)) (-1)); [lia|].
    destruct (Z.ltb_spec (Z.of_nat (length v)) 0); [lia|]. simpl.
    rewrite Nat2Z.id, length_app_ltb, take_app_length by done. done.
  - rewrite unchecked_get_integral_enc; [done|lia|]. rewrite int_ok_4. lia.
Qed.
Next Obligation.
  intros [v|] r Hwf; cbn [dereference advance_item field_view_traits field_view_enc].
  - rewrite <- app_assoc, unchecked_get_integral_enc by (lia || auto with pg). simpl.
    destruct (Z.gtb_spec (Z.of_nat (length v)) 0).
    + by rewrite Nat2Z.id, length_app_ltb, drop_app_length.
    + by destruct v.
  - rewrite unchecked_get_integral_enc; [done|lia|]. rewrite int_ok_4. lia.
Qed.

#[global] Program Instance string_view_item : ForwardItem bytes := {
  item_wf s := (0 ∉ s); item_enc := string_enc
}.
Next Obligation. by intros [|] _. Qed.
Next Obligation.
  intros s r Hs. unfold unchecked_get_string, string_enc. simpl.
  rewrite <- app_assoc. simpl. by rewrite find_null_app.
Qed.
Next Obligation.
  intros s r Hs. unfold unchecked_get_string, string_enc. simpl.
  rewrite <- app_assoc. simpl. by rewrite find_null_app.
Qed.

#[global] Program Instance field_description_item : ForwardItem field_description := {
  item_wf := field_description_wf; item_enc := field_description_enc
}.
Next Obligation.
  intros d _. unfold field_description_enc, string_enc. by destruct (fd_name d).
Qed.
Next Obligation.
  intros [nm t1 t2 t3 t4 t5 t6] r (H0 & H1 & H2 & H3 & H4 & H5 & H6). simpl in *.
  unfold field_description_enc, unchecked_get_string, string_enc. simpl fd_name.
  rewrite <- !app_assoc. cbn [app].
  rewrite find_null_app by done. cbn [mbind option_bind].
  repeat (rewrite unchecked_get_integral_enc by (lia || auto with pg); cbn [mbind option_bind]). reflexivity.
Qed.
Next Obligation.
  intros [nm t1 t2 t3 t4 t5 t6] r (H0 & H1 & H2 & H3 & H4 & H5 & H6). simpl in *.
  unfold field_description_enc, unchecked_get_string, string_enc. simpl fd_name.
  rewrite <- !app_assoc. cbn [app].
  rewrite find_null_app by done. cbn [mbind option_bind]. unfold field_description_fixed_size.
  rewrite !app_assoc. rewrite length_app_ltb, drop_app_len; [done|..];
    rewrite !length_app, !length_be_encode; done.
Qed.

(** ** The grammar *)

(** Fields of an error or notice, starting from [to]: a type byte and a string
    each, up to a NULL type byte. A type byte the client does not know is
    skipped alone. *)
Inductive error_fields : error_notice_fields -> error_notice_fields -> bytes -> Prop :=
| ef_end to : error_fields to to [0]
| ef_known t set s to to' bs :
    t <> 0 -> error_field t = Some set -> (0 ∉ s) ->
    error_fields (set s to) to' bs -> error_fields to to' (t :: string_enc s ++ bs)
| ef_unknown t to to' bs :
    t <> 0 -> error_field t = None ->
    error_fields to to' bs -> error_fields to to' (t :: bs).

(** The body of a copy response. *)
Definition copy_wire (v : copy_response) (body : bytes) : Prop :=
  exists codes,
    Z.of_nat (length codes) <= INT16_MAX /\
    Forall (fun c => is_valid_format_code c = true) codes /\
    (overall_fmt_code v = fmt_text -> Forall (eq fmt_text) codes) /\
    is_valid_format_code (overall_fmt_code v) = true /\
    fmt_codes v = RAPV (concat (map (be_encode 2) codes)) (length codes) /\
    body = [overall_fmt_code v] ++ be_encode 2 (Z.of_nat (length codes)) ++
           concat (map (be_encode 2) codes).

Inductive wire_body : any_backend_message -> Z -> bytes -> Prop :=
| W_authentication_ok : wire_body Mauthentication_ok (ch "R") (be_encode 4 0)
| W_authentication_kerberos_v5 : wire_body Mauthentication_kerberos_v5 (ch "R") (be_encode 4 2)
| W_authentication_cleartext_password :
    wire_body Mauthentication_cleartext_password (ch "R") (be_encode 4 3)
| W_authentication_md5_password s :
    length s = 4%nat ->
    wire_body (Mauthentication_md5_password {| salt := s |}) (ch "R") (be_encode 4 5 ++ s)
| W_authentication_gss : wire_body Mauthentication_gss (ch "R") (be_encode 4 7)
| W_authentication_gss_continue d :
    wire_body (Mauthentication_gss_continue d) (ch "R") (be_encode 4 8 ++ d)
| W_authentication_sspi : wire_body Mauthentication_sspi (ch "R") (be_encode 4 9)
| W_authentication_sasl mechs :
    Forall (fun s => (0 ∉ s) /\ s <> []) mechs ->
    wire_body (Mauthentication_sasl {| mechanisms := FPV (length mechs) (items_enc mechs) |})
      (ch "R") (be_encode 4 10 ++ items_enc mechs ++ [0])
| W_authentication_sasl_continue d :
    wire_body (Mauthentication_sasl_continue d) (ch "R") (be_encode 4 11 ++ d)
| W_authentication_sasl_final d :
    wire_body (Mauthentication_sasl_final d) (ch "R") (be_encode 4 12 ++ d)
| W_backend_key_data v :
    int_ok 4 (bkd_process_id v) -> int_ok 4 (bkd_secret_key v) ->
    wire_body (Mbackend_key_data v) (ch "K")
      (be_encode 4 (bkd_process_id v) ++ be_encode 4 (bkd_secret_key v))
| W_bind_complete : wire_body Mbind_complete (ch "2") []
| W_close_complete : wire_body Mclose_complete (ch "3") []
| W_command_complete v :
    (0 ∉ tag v) -> wire_body (Mcommand_complete v) (ch "C") (string_enc (tag v))
| W_copy_data d : wire_body (Mcopy_data d) (ch "d") d
| W_copy_done : wire_body Mcopy_done (ch "c") []
| W_copy_in_response v body : copy_wire v body -> wire_body (Mcopy_in_response v) (ch "G") body
| W_copy_out_response v body : copy_wire v body -> wire_body (Mcopy_out_response v) (ch "H") body
| W_copy_both_response v body : copy_wire v body -> wire_body (Mcopy_both_response v) (ch "W") body
| W_data_row (cols : list field_view) :
    Z.of_nat (length cols) <= INT16_MAX -> Forall item_wf cols ->
    wire_body (Mdata_row {| columns := FPV (length cols) (items_enc cols) |}) (ch "D")
      (be_encode 2 (Z.of_nat (length cols)) ++ items_enc cols)
| W_empty_query_response : wire_body Mempty_query_response (ch "I") []
| W_error_response v body : error_fields no_fields v body -> wire_body (Merror_response v) (ch "E") body
| W_negotiate_protocol_version minor (opts : list bytes) :
    0 <= minor <= INT32_MAX -> Z.of_nat (length opts) <= INT32_MAX -> Forall item_wf opts ->
    wire_body (Mnegotiate_protocol_version
                 {| minor_version := minor;
                    non_recognized_options := FPV (length opts) (items_enc opts) |}) (ch "v")
      (be_encode 4 minor ++ be_encode 4 (Z.of_nat (length opts)) ++ items_enc opts)
| W_no_data : wire_body Mno_data (ch "n") []
| W_notice_response v body : error_fields no_fields v body -> wire_body (Mnotice_response v) (ch "N") body
| W_notification_response v :
    int_ok 4 (nr_process_id v) -> (0 ∉ channel_name v) -> (0 ∉ payload v) ->
    wire_body (Mnotification_response v) (ch "A")
      (be_encode 4 (nr_process_id v) ++ string_enc (channel_name v) ++ string_enc (payload v))
| W_parameter_description oids :
    Z.of_nat (length oids) <= INT16_MAX -> Forall (int_ok 4) oids ->
    wire_body (Mparameter_description no_parameter_description) (ch "t")
      (be_encode 2 (Z.of_nat (length oids)) ++ concat (map (be_encode 4) oids))
| W_parameter_status v :
    (0 ∉ ps_name v) -> (0 ∉ ps_value v) ->
    wire_body (Mparameter_status v) (ch "S") (string_enc (ps_name v) ++ string_enc (ps_value v))
| W_parse_complete : wire_body Mparse_complete (ch "1") []
| W_portal_suspended : wire_body Mportal_suspended (ch "s") []
| W_ready_for_query v :
    is_valid_status (status v) = true -> wire_body (Mready_for_query v) (ch "Z") [status v]
| W_row_description (ds : list field_description) :
    Z.of_nat (length ds) <= INT16_MAX -> Forall item_wf ds ->
    wire_body (Mrow_description {| field_descriptions := FPV (length ds) (items_enc ds) |}) (ch "T")
      (be_encode 2 (Z.of_nat (length ds)) ++ items_enc ds).

(** ** Formats and encodings *)

Lemma Fbind_intro {A B} (F : fmt A) (G : A -> fmt B) a b bs1 bs2 rest :
  F a bs1 (bs2 ++ rest) -> G a b bs2 rest -> Fbind F G b (bs1 ++ bs2) rest.
Proof. intros. by exists a, bs1, bs2. Qed.

Lemma Fbind_last {A B} (F : fmt A) (G : A -> fmt B) a b bs rest :
  F a bs rest -> G a b [] rest -> Fbind F G b bs rest.
Proof. intros. exists a, bs, []. by rewrite app_nil_r. Qed.

Lemma Fbind_nil {A B} (F : fmt A) (G : A -> fmt B) a b bs rest :
  F a [] (bs ++ rest) -> G a b bs rest -> Fbind F G b bs rest.
Proof. intros. by exists a, [], bs. Qed.

(** Decompose a format hypothesis down to its basic reads. *)
Ltac fmt_inv :=
  repeat match goal with
  | H : Fbind _ _ _ _ _ |- _ =>
      let a := fresh "a" in let b1 := fresh "bs" in let b2 := fresh "bs" in
      let H1 := fresh "HF" in let H2 := fresh "HG" in
      destruct H as (a & b1 & b2 & -> & H1 & H2)
  | H : Fret _ _ _ _ |- _ => destruct H as [? ?]; subst
  | H : Fhere _ _ _ |- _ => destruct H as [? ?]; subst
  | H : Ffail _ _ _ |- _ => destruct H
  | H : Fbyte _ _ _ |- _ => unfold Fbyte in H; subst
  | H : Fstring _ _ _ |- _ => destruct H as [? ?]; subst
  | H : Fbytes _ _ _ _ |- _ => destruct H as [? ?]; subst
  | H : (if ?b then _ else _) _ _ _ |- _ => destruct b eqn:?
  | H : Forall is_byte (_ ++ _) |- _ => apply Forall_app in H as [? ?]
  end.

Lemma Fint_wire n a bs rest : (0 < n)%nat -> Forall is_byte bs ->
  Fint n a bs rest <-> bs = be_encode n a /\ int_ok n a.
Proof.
  intros Hn Hb. unfold Fint. split.
  - intros [<- ->]. split; [symmetry; by apply be_encode_load|by apply load_big_s_ok].
  - intros [-> Ha]. rewrite length_be_encode, load_big_s_encode by done. done.
Qed.

Lemma Fint_intro n a rest : (0 < n)%nat -> int_ok n a -> Fint n a (be_encode n a) rest.
Proof. intros. apply Fint_wire; auto with pg. Qed.

Lemma Fnonneg_wire n a bs rest : (0 < n)%nat -> Forall is_byte bs ->
  Fnonneg n a bs rest <-> bs = be_encode n a /\ int_ok n a /\ 0 <= a.
Proof.
  intros Hn Hb. pose proof (Fint_wire n a bs rest Hn Hb) as H.
  unfold Fnonneg, Fint in *. tauto.
Qed.

Lemma Fnonneg_intro n a rest : (0 < n)%nat -> int_ok n a -> 0 <= a ->
  Fnonneg n a (be_encode n a) rest.
Proof. intros. apply Fnonneg_wire; auto with pg. Qed.

Lemma Fstring_intro s rest : (0 ∉ s) -> Fstring s (string_enc s) rest.
Proof. done. Qed.

#[export] Hint Resolve Fint_intro Fnonneg_intro Fstring_intro : pg.

(** A loop over items: its format is the concatenation of [n] item encodings. *)
Lemma Frep_items {T} (wf : T -> Prop) (enc : T -> bytes) (F : fmt unit) :
  (forall bs rest, Forall is_byte bs -> F tt bs rest <-> exists x, wf x /\ bs = enc x) ->
  forall n bs rest, Forall is_byte bs ->
  Frep n F tt bs rest <->
  exists xs, length xs = n /\ Forall wf xs /\ bs = concat (map enc xs).
Proof.
  intros HF n; induction n as [|n IH]; intros bs rest Hb; simpl.
  - split.
    + intros [_ ->]. by exists [].
    + intros (xs & Hl & _ & ->). by destruct xs.
  - split.
    + intros ([] & bs1 & bs2 & -> & H1 & H2). apply Forall_app in Hb as [Hb1 Hb2].
      apply HF in H1 as (x & Hx & ->); [|done].
      apply IH in H2 as (xs & <- & Hxs & ->); [|done].
      exists (x :: xs). split; [done|]. split; [by constructor|done].
    + intros (xs & Hl & Hxs & ->). destruct xs as [|x xs]; [done|].
      inversion_clear Hxs as [|? ? Hx Hxs']. simpl in *.
      apply Forall_app in Hb as [Hb1 Hb2]. apply (Fbind_intro _ _ tt).
      * apply HF; [done|]. by exists x.
      * apply IH; [done|]. exists xs. split; [lia|done].
Qed.

(** A skipped integer is the encoding of some integer. *)
Lemma skip_int n m bs : (0 < n)%nat -> length bs = (n + m)%nat -> Forall is_byte bs ->
  exists a bs', bs = be_encode n a ++ bs' /\ int_ok n a /\ length bs' = m /\ Forall is_byte bs'.
Proof.
  intros Hn Hl Hb. exists (load_big_s (take n bs)), (drop n bs).
  assert (length (take n bs) = n) as Ht by (rewrite length_take; lia).
  pose proof (be_encode_load (take n bs)) as He. pose proof (load_big_s_ok (take n bs)) as Hi.
  rewrite Ht in He, Hi.
  rewrite He, take_drop, length_drop by (done || by apply Forall_take).
  split; [done|]. split; [by apply Hi|]. split; [lia|by apply Forall_drop].
Qed.

(** ** What each parser accepts *)

Lemma data_row_step_wire bs rest : Forall is_byte bs ->
  (Fbind (Fint 4) (fun v => if v =? -1 then Fret tt
                            else if 0 <=? v then Fskip (Z.to_nat v) else Ffail)) tt bs rest
  <-> exists x : field_view, item_wf x /\ bs = item_enc x.
Proof.
  intros Hb. split.
  - intros H. fmt_inv.
    + apply Fint_wire in HF as [-> Ha]; [|lia|done]. bool_prop. subst.
      exists None. by rewrite app_nil_r.
    + apply Fint_wire in HF as [-> Ha]; [|lia|done]. bool_prop.
      unfold Fskip in HG. apply int_ok_4 in Ha. exists (Some bs1). simpl.
      unfold INT32_MAX. rewrite HG, Z2Nat.id by done. split; [lia|done].
  - intros ([v|] & Hwf & ->); simpl in *.
    + eapply Fbind_intro; [apply Fint_intro; [lia|auto with pg]|].
      destruct (Z.eqb_spec (Z.of_nat (length v)) (-1)); [lia|].
      destruct (Z.leb_spec 0 (Z.of_nat (length v))); [|lia].
      unfold Fskip. lia.
    + apply (Fbind_last _ _ (-1)); [apply Fint_intro; [lia|]|done]. rewrite int_ok_4. lia.
Qed.

Lemma row_description_step_wire bs rest : Forall is_byte bs ->
  (Fbind Fstring (fun _ => Fbind (Fskip 16) (fun _ => Fbind (Fint 2)
     (fun c => if negb (is_valid_format_code c) then Ffail else Fret tt)))) tt bs rest
  <-> exists x : field_description, item_wf x /\ bs = item_enc x.
Proof.
  intros Hb. split.
  - intros H. fmt_inv. unfold Fskip in *.
    apply Fint_wire in HF1 as [-> Ha1]; [|lia|done]. apply negb_false_iff in Heqb.
    destruct (skip_int 4 12 bs) as (t1 & b1 & -> & ? & ? & ?); [lia|done|done|].
    destruct (skip_int 2 10 b1) as (t2 & b2 & -> & ? & ? & ?); [lia|done|done|].
    destruct (skip_int 4 6 b2) as (t3 & b3 & -> & ? & ? & ?); [lia|done|done|].
    destruct (skip_int 2 4 b3) as (t4 & b4 & -> & ? & ? & ?); [lia|done|done|].
    destruct (skip_int 4 0 b4) as (t5 & b5 & -> & ? & ? & ?); [lia|done|done|].
    destruct b5; [|done].
    exists {| fd_name := a; table_oid := t1; column_attribute := t2; type_oid := t3;
              type_length := t4; type_modifier := t5; fmt_code := a1 |}.
    split; [done|]. simpl. unfold field_description_enc, string_enc. simpl.
    rewrite !app_nil_r, <- !app_assoc. done.
  - intros (d & (H0 & H1 & H2 & H3 & H4 & H5 & H6) & ->). simpl. unfold field_description_enc.
    apply (Fbind_intro _ _ (fd_name d)); [done|].
    rewrite !app_assoc. apply (Fbind_intro _ _ tt); [unfold Fskip; len|].
    apply (Fbind_last _ _ (fmt_code d)); [auto with pg lia|]. by rewrite H6.
Qed.

(** Start of every characterisation below: the format the parser accepts. *)
Ltac parse_fmt := rewrite (run_parse_accepts _ _).

Lemma nonneg16 n : Z.of_nat n <= INT16_MAX -> int_ok 2 (Z.of_nat n).
Proof. unfold INT16_MAX. rewrite int_ok_2. lia. Qed.
Lemma nonneg32 z : 0 <= z <= INT32_MAX -> int_ok 4 z.
Proof. unfold INT32_MAX. rewrite int_ok_4. lia. Qed.
#[export] Hint Resolve nonneg16 nonneg32 : pg.

Lemma backend_key_data_wire data v : Forall is_byte data ->
  run_parse backend_key_data_body data = (None, v) <->
  int_ok 4 (bkd_process_id v) /\ int_ok 4 (bkd_secret_key v) /\
  data = be_encode 4 (bkd_process_id v) ++ be_encode 4 (bkd_secret_key v).
Proof.
  intros Hb. unfold backend_key_data_body. parse_fmt. split.
  - intros H. fmt_inv. apply Fint_wire in HF as [-> ?]; [|lia|done].
    apply Fint_wire in HF0 as [-> ?]; [|lia|done]. by rewrite app_nil_r.
  - intros (H1 & H2 & ->). eapply Fbind_intro; [auto with pg lia|].
    eapply Fbind_last; [auto with pg lia|]. by destruct v.
Qed.

Lemma md5_password_wire data v :
  run_parse md5_password_body data = (None, v) <-> length (salt v) = 4%nat /\ data = salt v.
Proof.
  unfold md5_password_body. parse_fmt. split.
  - intros H. fmt_inv. by rewrite app_nil_r.
  - intros [H ->]. eapply Fbind_last; [done|]. by destruct v.
Qed.

Lemma command_complete_wire data v :
  run_parse command_complete_body data = (None, v) <-> (0 ∉ tag v) /\ data = string_enc (tag v).
Proof.
  unfold command_complete_body. parse_fmt. split.
  - intros H. fmt_inv. by rewrite app_nil_r.
  - intros [H ->]. eapply Fbind_last; [done|]. by destruct v.
Qed.

Lemma notification_response_wire data v : Forall is_byte data ->
  run_parse notification_response_body data = (None, v) <->
  int_ok 4 (nr_process_id v) /\ (0 ∉ channel_name v) /\ (0 ∉ payload v) /\
  data = be_encode 4 (nr_process_id v) ++ string_enc (channel_name v) ++ string_enc (payload v).
Proof.
  intros Hb. unfold notification_response_body. parse_fmt. split.
  - intros H. fmt_inv. apply Fint_wire in HF as [-> ?]; [|lia|done]. simpl.
    by rewrite app_nil_r.
  - intros (H1 & H2 & H3 & ->). eapply Fbind_intro; [auto with pg lia|].
    eapply Fbind_intro; [done|]. eapply Fbind_last; [done|]. by destruct v.
Qed.

Lemma parameter_status_wire data v :
  run_parse parameter_status_body data = (None, v) <->
  (0 ∉ ps_name v) /\ (0 ∉ ps_value v) /\ data = string_enc (ps_name v) ++ string_enc (ps_value v).
Proof.
  unfold parameter_status_body. parse_fmt. split.
  - intros H. fmt_inv. by rewrite app_nil_r.
  - intros (H1 & H2 & ->). eapply Fbind_intro; [done|]. eapply Fbind_last; [done|]. by destruct v.
Qed.

Lemma ready_for_query_wire data v :
  run_parse ready_for_query_body data = (None, v) <->
  is_valid_status (status v) = true /\ data = [status v].
Proof.
  unfold ready_for_query_body. parse_fmt. split.
  - intros H. fmt_inv. apply negb_false_iff in Heqb. by rewrite app_nil_r.
  - intros [H ->]. eapply Fbind_last; [done|].
    apply (Fbind_last _ _ tt); [by rewrite H|by destruct v].
Qed.

(** The shape shared by data rows and row descriptions: an Int16 count and that
    many items, kept as a forward view. *)
Lemma counted_items_wire {T V} `{ForwardItem T} (mk : forward_parsing_view T -> V)
    (step : P unit) F `{!Accepts step F} data v :
  (forall bs rest, Forall is_byte bs -> F tt bs rest <-> exists x : T, item_wf x /\ bs = item_enc x) ->
  Forall is_byte data ->
  run_parse (n ← get_nonnegative_integral 2; b ← first; for_n (Z.to_nat n) step;;
             e ← first; mret (mk (FPV (Z.to_nat n) (span_between b e)))) data = (None, v) <->
  exists xs : list T, Z.of_nat (length xs) <= INT16_MAX /\ Forall item_wf xs /\
    v = mk (FPV (length xs) (items_enc xs)) /\
    data = be_encode 2 (Z.of_nat (length xs)) ++ items_enc xs.
Proof.
  intros HF Hb. parse_fmt. split.
  - intros HH. fmt_inv. destruct a1.
    apply Fnonneg_wire in HF0 as (-> & Hr & Hp); [|lia|done].
    rewrite (Frep_items _ _ _ HF) in HF2 by done. destruct HF2 as (xs & Hl & Hwf & ->).
    assert (a = Z.of_nat (length xs)) as -> by lia.
    exists xs. apply int_ok_2 in Hr. unfold INT16_MAX. rewrite Nat2Z.id.
    simpl. rewrite !app_nil_r. split; [lia|]. split; [done|]. split; [|done].
    rewrite <- (app_nil_r (concat _)) at 1. by rewrite span_between_app.
  - intros (xs & Hl & Hwf & -> & ->). apply Forall_app in Hb as [_ Hb].
    eapply Fbind_intro; [apply Fnonneg_intro; auto with pg lia|].
    eapply Fbind_nil; [done|]. rewrite Nat2Z.id.
    apply (Fbind_last _ _ tt).
    { apply (Frep_items _ _ _ HF); [done|]. by exists xs. }
    eapply Fbind_nil; [done|]. simpl. rewrite !app_nil_r. split; [|done].
    rewrite <- (app_nil_r (items_enc xs)) at 2. by rewrite span_between_app.
Qed.

Lemma data_row_wire data v : Forall is_byte data ->
  run_parse data_row_body data = (None, v) <->
  exists cols : list field_view, Z.of_nat (length cols) <= INT16_MAX /\ Forall item_wf cols /\
    v = {| columns := FPV (length cols) (items_enc cols) |} /\
    data = be_encode 2 (Z.of_nat (length cols)) ++ items_enc cols.
Proof. apply (counted_items_wire _ _ _), data_row_step_wire. Qed.

Lemma row_description_wire data v : Forall is_byte data ->
  run_parse row_description_body data = (None, v) <->
  exists ds : list field_description, Z.of_nat (length ds) <= INT16_MAX /\ Forall item_wf ds /\
    v = {| field_descriptions := FPV (length ds) (items_enc ds) |} /\
    data = be_encode 2 (Z.of_nat (length ds)) ++ items_enc ds.
Proof. apply (counted_items_wire _ _ _), row_description_step_wire. Qed.

Lemma get_string_step_wire bs rest : Forall is_byte bs ->
  Fbind Fstring (fun _ => Fret tt) tt bs rest <-> exists x : bytes, item_wf x /\ bs = item_enc x.
Proof.
  intros Hb. split.
  - intros H. fmt_inv. exists a. by rewrite app_nil_r.
  - intros (x & Hx & ->). eapply Fbind_last; done.
Qed.

Lemma negotiate_wire data v : Forall is_byte data ->
  run_parse negotiate_body data = (None, v) <->
  exists opts : list bytes, 0 <= minor_version v <= INT32_MAX /\
    Z.of_nat (length opts) <= INT32_MAX /\ Forall item_wf opts /\
    non_recognized_options v = FPV (length opts) (items_enc opts) /\
    data = be_encode 4 (minor_version v) ++ be_encode 4 (Z.of_nat (length opts)) ++ items_enc opts.
Proof.
  intros Hb. unfold negotiate_body. parse_fmt. split.
  - intros HH. fmt_inv. destruct a2.
    apply Fnonneg_wire in HF as (-> & Hr & Hp); [|lia|done].
    apply Fnonneg_wire in HF0 as (-> & Hr0 & Hp0); [|lia|done].
    rewrite (Frep_items _ _ _ get_string_step_wire) in HF2 by done.
    destruct HF2 as (xs & Hl & Hwf & ->).
    assert (a0 = Z.of_nat (length xs)) as -> by lia.
    exists xs. apply int_ok_4 in Hr, Hr0. unfold INT32_MAX. rewrite Nat2Z.id. simpl.
    rewrite !app_nil_r. split; [lia|]. split; [lia|]. split; [done|]. split; [|done].
    rewrite <- (app_nil_r (concat _)) at 1. by rewrite span_between_app.
  - intros (xs & Hm & Hl & Hwf & Hv & ->).
    apply Forall_app in Hb as [_ Hb]. apply Forall_app in Hb as [_ Hb].
    eapply Fbind_intro; [apply Fnonneg_intro; auto with pg lia|].
    eapply Fbind_intro; [apply Fnonneg_intro; auto with pg lia|].
    eapply Fbind_nil; [done|]. rewrite Nat2Z.id. apply (Fbind_last _ _ tt).
    { apply (Frep_items _ _ _ get_string_step_wire); [done|]. by exists xs. }
    eapply Fbind_nil; [done|]. simpl. rewrite !app_nil_r. split; [|done].
    destruct v; simpl in *. subst. f_equal. f_equal.
    rewrite <- (app_nil_r (items_enc xs)) at 2. by rewrite span_between_app.
Qed.

(** [n] integers of size 4 in a row. *)
Lemma skip_ints n : forall bs, length bs = (n * 4)%nat -> Forall is_byte bs ->
  exists xs, length xs = n /\ Forall (int_ok 4) xs /\ bs = concat (map (be_encode 4) xs).
Proof.
  induction n as [|n IH]; intros bs Hl Hb.
  - exists []. by destruct bs.
  - destruct (skip_int 4 (n * 4) bs) as (x & bs' & -> & Hx & Hl' & Hb'); [lia|done|done|].
    destruct (IH bs' Hl' Hb') as (xs & <- & Hxs & ->). exists (x :: xs).
    split; [done|]. split; [by constructor|done].
Qed.

Lemma length_concat_be k (xs : list Z) : length (concat (map (be_encode k) xs)) = (length xs * k)%nat.
Proof. induction xs; simpl; [done|]. rewrite length_app, length_be_encode. lia. Qed.
#[export] Hint Rewrite length_concat_be : pglen.

Lemma parameter_description_wire data to v : Forall is_byte data ->
  run_parse (parameter_description_body to) data = (None, v) <->
  exists oids, Z.of_nat (length oids) <= INT16_MAX /\ Forall (int_ok 4) oids /\ v = to /\
    data = be_encode 2 (Z.of_nat (length oids)) ++ concat (map (be_encode 4) oids).
Proof.
  intros Hb. unfold parameter_description_body. parse_fmt. split.
  - intros HH. fmt_inv. apply Fnonneg_wire in HF as (-> & Hr & Hp); [|lia|done].
    unfold Fskip in HF0. destruct (skip_ints _ _ HF0) as (xs & Hl & Hxs & ->); [done|].
    exists xs. assert (a = Z.of_nat (length xs)) as -> by lia.
    apply int_ok_2 in Hr. unfold INT16_MAX. rewrite app_nil_r. repeat split; try done. lia.
  - intros (xs & Hl & Hxs & -> & ->).
    eapply Fbind_intro; [apply Fnonneg_intro; auto with pg lia|].
    apply (Fbind_last _ _ tt); [|done]. unfold Fskip. len.
Qed.

Definition copy_code_ok (should_be_text : bool) (c : Z) : Prop :=
  is_valid_format_code c = true /\ (should_be_text = true -> c = fmt_text).

Lemma copy_code_step_wire b bs rest : Forall is_byte bs ->
  Fbind (Fint 2) (fun code =>
    if (b && negb (code =? fmt_text)) || negb (is_valid_format_code code)
    then Ffail else Fret tt) tt bs rest <->
  exists c, copy_code_ok b c /\ bs = be_encode 2 c.
Proof.
  intros Hb. split.
  - intros H. fmt_inv. apply Fint_wire in HF as [-> Ha]; [|lia|done].
    apply orb_false_iff in Heqb0 as [Ht Hv]. apply negb_false_iff in Hv.
    exists a. rewrite app_nil_r. split; [|done]. split; [done|]. intros ->. simpl in Ht.
    apply negb_false_iff in Ht. by bool_prop.
  - intros (c & [Hv Ht] & ->). apply (Fbind_last _ _ c); [auto with pg lia|].
    rewrite Hv. destruct b; simpl; [|done]. by rewrite Ht.
Qed.

Lemma copy_response_wire data to v : Forall is_byte data ->
  run_parse (copy_response_body to) data = (None, v) <-> copy_wire v data.
Proof.
  intros Hb. unfold copy_response_body, copy_wire. parse_fmt. split.
  - intros HH. fmt_inv. apply negb_false_iff in Heqb. destruct a2.
    apply Fnonneg_wire in HF as (-> & Hr & Hp); [|lia|done].
    rewrite (Frep_items _ _ _ (copy_code_step_wire _)) in HF1 by done.
    destruct HF1 as (xs & Hl & Hwf & ->). assert (a0 = Z.of_nat (length xs)) as -> by lia.
    exists xs. apply int_ok_2 in Hr. unfold INT16_MAX. simpl. rewrite Nat2Z.id, !app_nil_r.
    split; [lia|]. split; [eapply Forall_impl; [|exact Hwf]; by intros ? [? _]|].
    split; [|done]. intros ->. eapply Forall_impl; [|exact Hwf]. intros x [_ Hx]. by rewrite Hx.
  - intros (xs & Hl & Hv & Ht & Ho & Hc & ->). destruct v as [o cs]; simpl in *. subst.
    change (o :: ?x) with ([o] ++ x). eapply Fbind_intro; [done|]. rewrite Ho. simpl.
    inversion_clear Hb as [|? ? _ Hb']. apply Forall_app in Hb' as [_ Hb'].
    eapply Fbind_intro; [apply Fnonneg_intro; auto with pg lia|].
    eapply Fbind_nil; [done|]. rewrite Nat2Z.id. apply (Fbind_last _ _ tt).
    + apply (Frep_items _ _ _ (copy_code_step_wire _)); [done|]. exists xs.
      split; [done|]. split; [|done]. rewrite Forall_forall in *. intros x Hx.
      split; [auto|]. intros Hot. bool_prop. symmetry. by apply Ht.
    + simpl. by rewrite app_nil_r.
Qed.

(** *** Loops that run until a terminator *)

Lemma get_byte_nonzero r e t c : get_byte (Ctx r e) = (t, c) -> t <> 0 ->
  e = None /\ r = t :: first_ c /\ ec_ c = None.
Proof.
  unfold get_byte, ParseContext.size, add_error. destruct r, e; simpl; intros [= <- <-]; done.
Qed.

Lemma get_string_shrinks r e : (length (first_ (snd (get_string (Ctx r e)))) <= length r)%nat.
Proof.
  unfold get_string, advance, add_error. simpl. destruct e; simpl; [done|].
  destruct (find_null r) as [[s r']|]; simpl; [|done]. rewrite length_drop. lia.
Qed.

Lemma populate_field_shrinks t to r e :
  (length (first_ (snd (populate_field t to (Ctx r e)))) <= length r)%nat.
Proof.
  unfold populate_field. destruct (error_field t); [|done].
  pose proof (get_string_shrinks r e). unfold mbind, P_bind.
  by destruct (get_string (Ctx r e)) as [s c].
Qed.

Lemma error_notice_loop_sound fuel : forall to r e a c',
  (length r < fuel)%nat -> error_notice_loop fuel to (Ctx r e) = (a, c') -> ec_ c' = None ->
  e = None /\ exists bs, r = bs ++ first_ c' /\ error_fields to a bs.
Proof.
  induction fuel as [|fuel IH]; intros to r e a c' Hf H He; [lia|].
  cbn [error_notice_loop] in H. unfold mbind at 1, P_bind in H.
  destruct (get_byte (Ctx r e)) as [t [r1 e1]] eqn:E1.
  destruct (Z.eqb_spec t 0) as [->|Ht].
  - inversion H; subst. simpl in *. subst.
    destruct (accepts_sound _ _ _ _ E1 eq_refl) as [-> (bs & -> & ->)].
    split; [done|]. exists [0]. split; [done|constructor].
  - destruct (get_byte_nonzero _ _ _ _ E1 Ht) as (-> & -> & Hn). simpl in Hn. subst e1.
    split; [done|]. unfold mbind, P_bind in H.
    pose proof (populate_field_shrinks t to r1 None) as Hs.
    destruct (populate_field t to (Ctx r1 None)) as [to1 [r2 e2]] eqn:E2. simpl in *.
    destruct (IH to1 r2 e2 a c') as [-> (bs & -> & Hbs)]; [lia|done|done|].
    unfold populate_field in E2. destruct (error_field t) as [set|] eqn:Eset.
    + unfold mbind, P_bind in E2. destruct (get_string (Ctx r1 None)) as [s c] eqn:Es.
      inversion E2; subst. destruct (accepts_sound _ _ _ _ Es eq_refl) as [_ (bs1 & -> & -> & Hs0)].
      exists (t :: string_enc s ++ bs). split; [|by eapply ef_known].
      unfold string_enc. simpl. by rewrite <- !app_assoc.
    + inversion E2; subst. exists (t :: bs). split; [done|]. by apply ef_unknown.
Qed.

Lemma error_notice_loop_complete to a bs : error_fields to a bs -> forall fuel rest,
  (length bs <= fuel)%nat ->
  error_notice_loop fuel to (Ctx (bs ++ rest) None) = (a, Ctx rest None).
Proof.
  induction 1 as [to|t set s to to' bs Ht Hset Hs _ IH|t to to' bs Ht Hset _ IH];
    intros fuel rest Hf; destruct fuel as [|fuel]; simpl in Hf; try lia.
  - done.
  - cbn [error_notice_loop app]. unfold mbind, P_bind at 1. simpl.
    rewrite (proj2 (Z.eqb_neq t 0) Ht). unfold mbind, P_bind, populate_field. rewrite Hset.
    unfold mbind, P_bind. rewrite <- app_assoc.
    rewrite (accepts_complete s (string_enc s) (bs ++ rest)) by done.
    apply IH. rewrite length_app in Hf. lia.
  - cbn [error_notice_loop app]. unfold mbind, P_bind at 1. simpl.
    rewrite (proj2 (Z.eqb_neq t 0) Ht). unfold mbind, P_bind, populate_field. rewrite Hset.
    apply IH. lia.
Qed.

#[global] Instance accepts_error_notice to :
  Accepts (error_notice_body to) (fun a bs _ => error_fields to a bs).
Proof.
  split.
  - intros r e a c' H He. unfold error_notice_body, ParseContext.size in H. simpl in H.
    refine (error_notice_loop_sound (S (length r)) _ _ _ _ _ _ H He). lia.
  - intros a bs rest H. unfold error_notice_body.
    apply error_notice_loop_complete; [done|]. unfold ParseContext.size. cbn [first_]. len.
Qed.

Lemma error_notice_wire data v :
  parse_error_notice data = (None, v) <-> error_fields no_fields v data.
Proof. unfold parse_error_notice. by parse_fmt. Qed.

Definition mechanism_ok (s : bytes) : Prop := (0 ∉ s) /\ s <> [].

Lemma sasl_loop_sound fuel : forall n r e m c',
  (length r < fuel)%nat -> sasl_loop fuel n (Ctx r e) = (m, c') -> ec_ c' = None ->
  e = None /\ exists mechs, Forall mechanism_ok mechs /\ m = (n + length mechs)%nat /\
    r = items_enc mechs ++ 0 :: first_ c'.
Proof.
  induction fuel as [|fuel IH]; intros n r e m c' Hf H He; [lia|].
  cbn [sasl_loop] in H. unfold mbind at 1, P_bind in H.
  destruct (get_string (Ctx r e)) as [s [r1 e1]] eqn:Es. destruct s as [|b s].
  - inversion H; subst. simpl in *. subst.
    destruct (accepts_sound _ _ _ _ Es eq_refl) as [-> (bs & -> & -> & _)].
    split; [done|]. exists []. by rewrite Nat.add_0_r.
  - assert (e = None) as ->.
    { destruct e; [|done]. unfold get_string in Es. simpl in Es. by inversion Es. }
    assert (e1 = None) as ->.
    { unfold get_string, advance, add_error in Es. simpl in Es.
      destruct (find_null r) as [[]|]; inversion Es; done. }
    destruct (accepts_sound _ _ _ _ Es eq_refl) as [_ (bs & -> & -> & Hb)]. simpl in *.
    destruct (IH (S n) r1 None m c') as [_ (mechs & Hm & -> & ->)]; try done.
    { rewrite !length_app in Hf. simpl in Hf. lia. }
    split; [done|]. exists ((b :: s) :: mechs). split; [by constructor|].
    split; [simpl; lia|]. unfold items_enc. simpl. unfold string_enc. by rewrite <- !app_assoc.
Qed.

Lemma sasl_loop_complete mechs : Forall mechanism_ok mechs -> forall fuel n rest,
  (length mechs < fuel)%nat ->
  sasl_loop fuel n (Ctx (items_enc mechs ++ 0 :: rest) None) = ((n + length mechs)%nat, Ctx rest None).
Proof.
  induction 1 as [|s mechs [Hs Hne] _ IH]; intros fuel n rest Hf;
    destruct fuel as [|fuel]; simpl in Hf; try lia; cbn [sasl_loop]; unfold mbind, P_bind.
  - rewrite (accepts_complete [] [0] rest) by (by split; [|apply not_elem_of_nil]).
    simpl. by rewrite Nat.add_0_r.
  - unfold items_enc. simpl. rewrite <- app_assoc.
    rewrite (accepts_complete s (string_enc s)) by done.
    destruct s as [|b s]; [done|]. rewrite IH by lia. f_equal. simpl. lia.
Qed.

Lemma length_items_le mechs : (length mechs <= length (items_enc (T := bytes) mechs))%nat.
Proof.
  induction mechs as [|s mechs IH]; [simpl; lia|].
  change (items_enc (s :: mechs)) with ((s ++ [0]) ++ items_enc mechs).
  rewrite !length_app. simpl. lia.
Qed.

#[global] Instance accepts_sasl :
  Accepts sasl_body (fun a bs _ => exists mechs, Forall mechanism_ok mechs /\
    a = {| mechanisms := FPV (length mechs) (items_enc mechs) |} /\ bs = items_enc mechs ++ [0]).
Proof.
  assert (forall bs rest : bytes, (length (bs ++ 0%Z :: rest) - length rest = length bs + 1)%nat) as Hl.
  { intros. len. }
  split.
  - intros r e a c' H He. unfold sasl_body, first, mbind, P_bind in H.
    destruct (sasl_loop _ 0 (Ctx r e)) as [m c1] eqn:El. inversion H; subst. clear H.
    destruct (sasl_loop_sound (S (length r)) _ _ _ _ _ (Nat.lt_succ_diag_r _) El He)
      as [-> (mechs & Hm & -> & ->)].
    split; [done|]. exists (items_enc mechs ++ [0]). split; [by rewrite <- app_assoc|].
    exists mechs. split; [done|]. split; [|done]. rewrite Hl.
    destruct (Nat.ltb_spec 0 (length (items_enc mechs) + 1)); [|lia].
    by rewrite take_app_len by lia.
  - intros a bs rest (mechs & Hm & -> & ->). unfold sasl_body, first, mbind, P_bind.
    rewrite <- app_assoc. cbn [app]. unfold ParseContext.size. cbn [first_].
    pose proof (length_items_le mechs).
    rewrite sasl_loop_complete by (done || (rewrite length_app; simpl; lia)). simpl. rewrite Hl.
    destruct (Nat.ltb_spec 0 (length (items_enc mechs) + 1)); [|lia].
    by rewrite take_app_len by lia.
Qed.
