(* ===== verification/BackendSpec.v ===== *)
(** * What reading backend messages guarantees

    The theorems about [parse_any_message], [parse_message] and
    [message_missing_bytes]: they accept exactly the protocol's wire format,
    frame a byte stream correctly, ask for exactly the bytes that are missing,
    and only hand out views that are safe to iterate. *)

From stdpp Require Import base list option.
From Stdlib Require Import ZArith Lia.
From S2P Require Import Prelude Errors ParseContext Views BackendMessages ParseMessage BackendWire.

#[local] Open Scope Z_scope.

(** ** Dispatch *)

Lemma impl_inr {A} (wrap : A -> any_backend_message) r m :
  parse_any_message_impl wrap r = inr m <-> exists v, r = (None, v) /\ m = wrap v.
Proof.
  destruct r as [[e|] v]; simpl; split.
  - done.
  - by intros (? & [=] & _).
  - intros [= <-]. by exists v.
  - by intros (v' & [= <-] & ->).
Qed.

Lemma parse_empty_inr m m' data : parse_empty m data = inr m' <-> m' = m /\ data = [].
Proof.
  unfold parse_empty, check_empty. destruct data; split.
  - by intros [= <-].
  - by intros [-> _].
  - done.
  - by intros [_ [=]].
Qed.

(** The authentication request code and the rest of the body. *)
Lemma auth_split from : Forall is_byte from -> (length from <? 4)%nat = false ->
  from = be_encode 4 (load_big_s (take 4 from)) ++ drop 4 from.
Proof.
  intros Hb Hl. apply Nat.ltb_ge in Hl.
  assert (length (take 4 from) = 4%nat) as Ht by (rewrite length_take; lia).
  pose proof (be_encode_load (take 4 from)) as He. rewrite Ht in He.
  rewrite He, take_drop by (lia || by apply Forall_take). done.
Qed.

(** Close a branch of the dispatch for a message without a body. *)
#[local] Ltac empty_branch :=
  match goal with H : parse_empty _ _ = inr _ |- _ => apply parse_empty_inr in H as [-> Hd] end;
  subst.

(** Split a chain of [t =? code] tests, one goal per code. *)
#[local] Ltac split_dispatch H :=
  repeat match type of H with
  | (if ?t =? ?c then _ else _) = _ => destruct (Z.eqb_spec t c) as [->|_]
  end.

#[local] Ltac split_dispatch' H :=
  repeat match type of H with
  | (if ?b then _ else _) = _ => destruct b
  end.

Lemma parse_authentication_sound data m : Forall is_byte data ->
  parse_authentication_request data = inr m -> wire_body m (ch "R") data.
Proof.
  intros Hb H. unfold parse_authentication_request in H.
  destruct (length data <? 4)%nat eqn:Hl; [done|]. pose proof (auth_split _ Hb Hl) as Hs.
  rewrite Hs. clear Hs Hl. set (t := load_big_s (take 4 data)) in *.
  set (body := drop 4 data) in *. clearbody t body. clear Hb data.
  split_dispatch H.
  1-3, 5, 7: empty_branch; rewrite app_nil_r; constructor.
  - apply impl_inr in H as (v & H & ->). apply md5_password_wire in H as [Hl ->].
    destruct v. by constructor.
  - inversion H; constructor.
  - apply impl_inr in H as (v & H & ->). apply (run_parse_accepts _ _) in H as (mechs & Hm & -> & ->).
    by constructor.
  - inversion H; constructor.
  - inversion H; constructor.
  - done.
Qed.

Lemma parse_any_message_sound t data m : Forall is_byte data ->
  parse_any_message t data = inr m -> wire_body m t data.
Proof.
  intros Hb H. unfold parse_any_message in H.
  split_dispatch H; try done.
  - by apply parse_authentication_sound.
  - apply impl_inr in H as (v & H & ->). apply backend_key_data_wire in H as (? & ? & ->); [|done]. by constructor.
  - empty_branch; constructor.
  - empty_branch; constructor.
  - apply impl_inr in H as (v & H & ->). apply command_complete_wire in H as (? & ->). by constructor.
  - inversion H; constructor.
  - empty_branch; constructor.
  - apply impl_inr in H as (v & H & ->). apply copy_response_wire in H; [|done]. by constructor.
  - apply impl_inr in H as (v & H & ->). apply copy_response_wire in H; [|done]. by constructor.
  - apply impl_inr in H as (v & H & ->). apply copy_response_wire in H; [|done]. by constructor.
  - apply impl_inr in H as (v & H & ->). apply data_row_wire in H as (cols & ? & ? & -> & ->); [|done]. by constructor.
  - empty_branch; constructor.
  - apply impl_inr in H as (v & H & ->). apply error_notice_wire in H. by constructor.
  - apply impl_inr in H as ([mv nro] & H & ->). apply negotiate_wire in H as (opts & ? & ? & ? & Ho & ->); [|done].
    simpl in *. subst nro. by constructor.
  - empty_branch; constructor.
  - apply impl_inr in H as (v & H & ->). apply error_notice_wire in H. by constructor.
  - apply impl_inr in H as (v & H & ->).
    apply notification_response_wire in H as (? & ? & ? & ->); [|done]. by constructor.
  - apply impl_inr in H as (v & H & ->).
    apply parameter_description_wire in H as (oids & ? & ? & -> & ->); [|done]. by constructor.
  - apply impl_inr in H as (v & H & ->). apply parameter_status_wire in H as (? & ? & ->). by constructor.
  - empty_branch; constructor.
  - empty_branch; constructor.
  - apply impl_inr in H as (v & H & ->). apply ready_for_query_wire in H as (? & ->). by constructor.
  - apply impl_inr in H as (v & H & ->). apply row_description_wire in H as (ds & ? & ? & -> & ->); [|done]. by constructor.
Qed.

Lemma parse_authentication_complete code body :
  int_ok 4 code ->
  parse_authentication_request (be_encode 4 code ++ body) =
  (if code =? 0 then parse_empty Mauthentication_ok body
    else if code =? 2 then parse_empty Mauthentication_kerberos_v5 body
    else if code =? 3 then parse_empty Mauthentication_cleartext_password body
    else if code =? 5 then
      parse_any_message_impl Mauthentication_md5_password (run_parse md5_password_body body)
    else if code =? 7 then parse_empty Mauthentication_gss body
    else if code =? 8 then inr (Mauthentication_gss_continue body)
    else if code =? 9 then parse_empty Mauthentication_sspi body
    else if code =? 10 then
      parse_any_message_impl Mauthentication_sasl (run_parse sasl_body body)
    else if code =? 11 then inr (Mauthentication_sasl_continue body)
    else if code =? 12 then inr (Mauthentication_sasl_final body)
    else inl (client protocol_value_error)).
Proof.
  intros Hc. unfold parse_authentication_request.
  rewrite length_app_ltb, take_app_len, drop_app_len by (by rewrite length_be_encode).
  by rewrite load_big_s_encode by (done || lia).
Qed.

(** Discharge one constructor of the grammar: the dispatch computes to the
    parser [r] wrapped by [w]. *)
#[local] Ltac by_parser w r v :=
  refine (proj2 (impl_inr w r _) _); exists v; split; [|done].

Lemma auth_codes code : 0 <= code <= 12 -> int_ok 4 code.
Proof. rewrite int_ok_4. lia. Qed.

#[local] Ltac by_auth :=
  match goal with |- parse_any_message _ ?d = ?r =>
    change (parse_authentication_request d = r) end;
  (rewrite parse_authentication_complete ||
   (rewrite <- (app_nil_r (be_encode 4 _)); rewrite parse_authentication_complete));
  [|apply auth_codes; lia].

Lemma parse_any_message_complete t data m : Forall is_byte data ->
  wire_body m t data -> parse_any_message t data = inr m.
Proof.
  intros Hb H. destruct H; try reflexivity.
  - by_auth. by_parser Mauthentication_md5_password (run_parse md5_password_body s) {| salt := s |}.
    by apply md5_password_wire.
  - by_auth.
    by_parser Mauthentication_sasl (run_parse sasl_body (items_enc mechs ++ [0]))
      {| mechanisms := FPV (length mechs) (items_enc mechs) |}.
    apply (run_parse_accepts _ _). by exists mechs.
  - by_parser Mbackend_key_data (run_parse backend_key_data_body (be_encode 4 (bkd_process_id v) ++ be_encode 4 (bkd_secret_key v))) v.
    by apply backend_key_data_wire.
  - by_parser Mcommand_complete (run_parse command_complete_body (string_enc (tag v))) v.
    by apply command_complete_wire.
  - by_parser Mcopy_in_response (run_parse (copy_response_body no_copy_response) body) v.
    by apply copy_response_wire.
  - by_parser Mcopy_out_response (run_parse (copy_response_body no_copy_response) body) v.
    by apply copy_response_wire.
  - by_parser Mcopy_both_response (run_parse (copy_response_body no_copy_response) body) v.
    by apply copy_response_wire.
  - by_parser Mdata_row (run_parse data_row_body (be_encode 2 (Z.of_nat (length cols)) ++ items_enc cols))
      {| columns := FPV (length cols) (items_enc cols) |}.
    apply data_row_wire; [done|]. by exists cols.
  - by_parser Merror_response (parse_error_notice body) v. by apply error_notice_wire.
  - match goal with |- parse_any_message _ ?d = inr (Mnegotiate_protocol_version ?v) =>
      by_parser Mnegotiate_protocol_version (run_parse negotiate_body d) v end.
    apply negotiate_wire; [done|]. by exists opts.
  - by_parser Mnotice_response (parse_error_notice body) v. by apply error_notice_wire.
  - match goal with |- parse_any_message _ ?d = _ =>
      by_parser Mnotification_response (run_parse notification_response_body d) v end.
    by apply notification_response_wire.
  - match goal with |- parse_any_message _ ?d = _ =>
      by_parser Mparameter_description (run_parse (parameter_description_body no_parameter_description) d)
        no_parameter_description end.
    apply parameter_description_wire; [done|]. by exists oids.
  - match goal with |- parse_any_message _ ?d = _ =>
      by_parser Mparameter_status (run_parse parameter_status_body d) v end.
    by apply parameter_status_wire.
  - by_parser Mready_for_query (run_parse ready_for_query_body [status v]) v.
    by apply ready_for_query_wire.
  - match goal with |- parse_any_message _ ?d = inr (Mrow_description ?v) =>
      by_parser Mrow_description (run_parse row_description_body d) v end.
    apply row_description_wire; [done|]. by exists ds.
Qed.


(** A two-column row, the second one NULL. *)
Definition sample_row : bytes :=
  be_encode 2 2 ++ be_encode 4 2 ++ str "ab" ++ be_encode 4 (-1).


(** ** Framing *)

(** The header of at least five bytes: either a length below four, or a type
    and a body length. *)
Lemma header_split data : (5 <= length data)%nat -> Forall is_byte data ->
  exists t len tail, data = t :: be_encode 4 len ++ tail /\ int_ok 4 len /\
    parse_header (take 5 data) =
      (if len <? 4 then inl (client protocol_value_error)
       else inr {| mh_type := t; mh_size := len |}) /\
    drop 5 data = tail.
Proof.
  intros Hl Hb. destruct data as [|t data]; [simpl in Hl; lia|].
  inversion_clear Hb as [|? ? Ht Hd]. simpl in Hl.
  destruct (skip_int 4 (length data - 4) data) as (len & tail & -> & Hok & _ & _); [lia|lia|done|].
  exists t, len, tail. split; [done|]. split; [done|].
  unfold parse_header. cbn [take drop nth].
  rewrite take_app_len, drop_app_len by (by rewrite length_be_encode).
  rewrite drop_0, load_big_s_encode by (done || lia). done.
Qed.

Lemma parse_header_frame t body rest : Z.of_nat (length body) + 4 <= INT32_MAX ->
  parse_header (take 5 (frame t body ++ rest)) =
  inr {| mh_type := t; mh_size := Z.of_nat (length body) + 4 |}.
Proof.
  intros Hl. unfold frame, parse_header. cbn [app take drop nth].
  rewrite <- app_assoc, take_app_len by (by rewrite length_be_encode).
  rewrite drop_0, load_big_s_encode; [|lia|].
  - destruct (Z.ltb_spec (Z.of_nat (length body) + 4) 4); [lia|done].
  - unfold INT32_MAX in Hl. rewrite int_ok_4. lia.
Qed.

Lemma drop_frame t body rest : drop 5 (frame t body ++ rest) = body ++ rest.
Proof.
  unfold frame. cbn [app drop]. rewrite <- app_assoc. apply drop_app_len.
  by rewrite length_be_encode.
Qed.

(** Reading a complete frame dispatches on its type and body, whatever follows. *)
Lemma parse_message_frame t body rest : Z.of_nat (length body) + 4 <= INT32_MAX ->
  parse_message (frame t body ++ rest) =
  match parse_any_message t body with
  | inl e => pm_error e
  | inr m => {| pm_ec := None; pm_message := m; pm_size := 5 + length body |}
  end.
Proof.
  intros Hl. unfold parse_message. rewrite parse_header_frame by done. simpl mh_size. simpl mh_type.
  replace (Z.to_nat (Z.of_nat (length body) + 4 + 1)) with (5 + length body)%nat by lia.
  assert ((length (frame t body ++ rest) <? 5)%nat = false) as ->
    by (apply Nat.ltb_ge; rewrite length_app, length_frame; lia).
  assert ((length (frame t body ++ rest) <? 5 + length body)%nat = false) as ->
    by (apply Nat.ltb_ge; rewrite length_app, length_frame; lia).
  rewrite drop_frame. replace (5 + length body - 5)%nat with (length body) by lia.
  by rewrite take_app_length.
Qed.

Lemma parse_message_ok_frame data m n : Forall is_byte data ->
  parse_message data = {| pm_ec := None; pm_message := m; pm_size := n |} ->
  exists t body rest, data = frame t body ++ rest /\ n = (5 + length body)%nat /\
    Z.of_nat (length body) + 4 <= INT32_MAX /\ parse_any_message t body = inr m.
Proof.
  intros Hb H. unfold parse_message in H.
  destruct (Nat.ltb_spec (length data) 5) as [|Hl]; [done|].
  destruct (header_split data Hl Hb) as (t & len & tail & -> & Hok & Hp & Hd).
  rewrite Hp in H. clear Hp.
  destruct (Z.ltb_spec len 4) as [|Hlen]; [done|]. cbn [mh_size mh_type] in H. rewrite Hd in H.
  destruct (Nat.ltb_spec (length (t :: be_encode 4 len ++ tail)) (Z.to_nat (len + 1))) as [|Hr]; [done|].
  destruct (parse_any_message t _) as [e|m'] eqn:E; [done|]. inversion H; subst.
  apply int_ok_4 in Hok. simpl in Hr. rewrite length_app, length_be_encode in Hr.
  assert (length (take (Z.to_nat (len + 1) - 5) tail) = Z.to_nat (len + 1) - 5)%nat as Ht
    by (rewrite length_take; lia).
  exists t, (take (Z.to_nat (len + 1) - 5) tail), (drop (Z.to_nat (len + 1) - 5) tail).
  rewrite Ht. unfold frame, INT32_MAX. rewrite Ht. cbn [app].
  replace (Z.of_nat (Z.to_nat (len + 1) - 5) + 4) with len by lia.
  rewrite <- app_assoc, take_drop. repeat split; (done || lia).
Qed.



(** ** Incomplete input *)

#[local] Instance reports_populate t to : Reports (populate_field t to).
Proof. unfold populate_field. destruct (error_field t); apply _. Qed.

#[local] Instance reports_error_notice to : Reports (error_notice_body to).
Proof.
  intros c. unfold error_notice_body. generalize (S (ParseContext.size c)). intros fuel.
  revert c. change (Reports (error_notice_loop fuel to)).
  revert to; induction fuel; intros to; simpl; apply _.
Qed.

#[local] Instance reports_sasl : Reports sasl_body.
Proof.
  unfold sasl_body. apply reports_bind; [apply _|]. intros b. apply reports_bind.
  - intros c. generalize (S (ParseContext.size c)), 0%nat. intros fuel n. revert c.
    change (Reports (sasl_loop fuel n)). revert n; induction fuel; intros n; simpl; [apply _|].
    apply reports_bind; [apply _|]. intros [|]; apply _.
  - intros n. apply _.
Qed.

Lemma parse_any_message_error t data e :
  parse_any_message t data = inl e -> deserialization_error (Some e).
Proof.
  assert (forall A (w : A -> any_backend_message) (p : P A) d e, Reports p ->
            parse_any_message_impl w (run_parse p d) = inl e -> deserialization_error (Some e)) as Himpl.
  { intros A w p d e' Hp. pose proof (run_parse_reports p d) as H.
    destruct (run_parse p d) as [[x|] a]; simpl in *; [|done]. by intros [= <-]. }
  assert (forall m d e, parse_empty m d = inl e -> deserialization_error (Some e)) as Hempty.
  { intros m d e'. unfold parse_empty. destruct d; [done|]. intros [= <-]. simpl. auto. }
  intros H. unfold parse_any_message, parse_authentication_request in H. split_dispatch H.
  all: try (destruct (length data <? 4)%nat; [inversion H; simpl; auto|]; split_dispatch' H).
  all: try (by eapply Hempty, H). all: try (eapply Himpl, H; apply _).
  all: inversion H; simpl; auto.
Qed.

(** [message_missing_bytes] and [parse_message] agree: the first is positive
    exactly when the second asks for more input, and then both give the same
    number of bytes. *)
Theorem missing_bytes_agree data n :
  (message_missing_bytes data = n /\ (0 < n)%nat) <->
  (pm_ec (parse_message data) = Some (client needs_more) /\ pm_size (parse_message data) = n).
Proof.
  unfold message_missing_bytes, parse_message.
  destruct (Nat.ltb_spec (length data) 5); [simpl; naive_solver lia|].
  destruct (parse_header (take 5 data)) as [e|h] eqn:Eh.
  { unfold parse_header in Eh. destruct (_ <? 4); inversion Eh. simpl. naive_solver lia. }
  destruct (Nat.ltb_spec (length data) (Z.to_nat (mh_size h + 1))); [simpl; naive_solver lia|].
  destruct (parse_any_message _ _) as [e|m] eqn:E; simpl; [|naive_solver lia].
  apply parse_any_message_error in E. simpl in E. naive_solver lia.
Qed.

Lemma parse_header_app (data e : bytes) : (5 <= length data)%nat ->
  parse_header (take 5 (data ++ e)) = parse_header (take 5 data).
Proof. intros H. by rewrite take_app_le. Qed.

(** How much is missing once a valid header is there. *)
Lemma missing_with_header data h : (5 <= length data)%nat ->
  parse_header (take 5 data) = inr h ->
  message_missing_bytes data = (Z.to_nat (mh_size h + 1) - length data)%nat.
Proof.
  intros Hl Hh. unfold message_missing_bytes. rewrite Hh.
  destruct (Nat.ltb_spec (length data) 5); [lia|].
  destruct (Nat.ltb_spec (length data) (Z.to_nat (mh_size h + 1))); lia.
Qed.

(** Reading exactly the number of bytes [message_missing_bytes] asks for,
    twice at most, completes the message whatever the bytes are; and fewer bytes
    than it asks for never complete it. *)
Theorem missing_bytes_progress data e1 e2 :
  length e1 = message_missing_bytes data ->
  length e2 = message_missing_bytes (data ++ e1) ->
  message_missing_bytes (data ++ e1 ++ e2) = 0%nat /\
  forall e, (length e < message_missing_bytes data)%nat ->
    (0 < message_missing_bytes (data ++ e))%nat.
Proof.
  intros H1 H2. split.
  - destruct (Nat.le_gt_cases 5 (length (data ++ e1))) as [Hl|Hl].
    + destruct (parse_header (take 5 (data ++ e1))) as [er|h] eqn:Eh.
      * rewrite app_assoc. unfold message_missing_bytes. rewrite parse_header_app, Eh by done.
        destruct (Nat.ltb_spec (length ((data ++ e1) ++ e2)) 5); [|done].
        rewrite (length_app (data ++ e1)) in *. lia.
      * rewrite (missing_with_header _ h) in H2 by done.
        rewrite app_assoc, (missing_with_header _ h), length_app; [lia| |by rewrite parse_header_app].
        rewrite length_app. lia.
    + exfalso. unfold message_missing_bytes in H1. rewrite length_app in Hl.
      destruct (Nat.ltb_spec (length data) 5); lia.
  - intros e He. unfold message_missing_bytes in He.
    destruct (Nat.ltb_spec (length data) 5).
    + unfold message_missing_bytes.
      destruct (Nat.ltb_spec (length (data ++ e)) 5); rewrite length_app in *; lia.
    + destruct (parse_header (take 5 data)) as [|h] eqn:Eh; [lia|].
      rewrite (missing_with_header _ h); [|rewrite length_app; lia|by rewrite parse_header_app].
      rewrite length_app. destruct (Nat.ltb_spec (length data) (Z.to_nat (mh_size h + 1))); lia.
Qed.

Lemma missing_bytes_progress_witness :
  message_missing_bytes (str "Z" ++ (be_encode 4 5) ++ [ch "I"]) = 0%nat.
Proof.
  apply (missing_bytes_progress (str "Z") (be_encode 4 5) [ch "I"]); reflexivity.
Defined.

(** ** Views are safe to iterate *)

(** A range-for over a forward view stays inside the message and visits exactly
    [size()] items. *)
Definition forward_safe {T} `{ForwardTraits T} (v : forward_parsing_view T) : Prop :=
  exists xs, fpv_range v = Some xs /\ length xs = fpv_size v.

#[local] Existing Instance format_code_traits.

(** Every index below [size()] is readable with [at] and holds a valid code; any
    other index throws. *)
Definition codes_safe (v : random_access_parsing_view format_code) : Prop :=
  forall i, if (i <? rapv_size v)%nat
            then exists c, at_ v i = inr (Some c) /\ is_valid_format_code c = true
            else at_ v i = inl tt.

Definition views_safe (m : any_backend_message) : Prop :=
  match m with
  | Mdata_row v => forward_safe (columns v)
  | Mrow_description v => forward_safe (field_descriptions v)
  | Mauthentication_sasl v => forward_safe (mechanisms v)
  | Mnegotiate_protocol_version v => forward_safe (non_recognized_options v)
  | Mcopy_in_response v | Mcopy_out_response v | Mcopy_both_response v => codes_safe (fmt_codes v)
  | _ => True
  end.

Lemma forward_safe_items {T} `{ForwardItem T} (xs : list T) :
  Forall item_wf xs -> forward_safe (FPV (length xs) (items_enc xs)).
Proof. intros Hx. exists xs. by rewrite range_items. Qed.

Lemma codes_lookup codes : forall i c, Forall (int_ok 2) codes -> codes !! i = Some c ->
  ra_dereference (drop (2 * i) (concat (map (be_encode 2) codes))) = Some c.
Proof.
  induction codes as [|x codes IH]; intros i c Hwf Hi; [done|].
  inversion_clear Hwf as [|? ? Hx Hxs]. cbn [map concat].
  destruct i as [|i]; simpl in Hi.
  - inversion Hi; subst. cbn [ra_dereference format_code_traits Nat.mul].
    rewrite drop_0, unchecked_get_integral_enc by (done || lia). done.
  - replace (2 * S i)%nat with (2 + 2 * i)%nat by lia.
    rewrite <- drop_drop, drop_app_len by (by rewrite length_be_encode). by apply IH.
Qed.

Lemma copy_wire_safe v body : copy_wire v body -> codes_safe (fmt_codes v).
Proof.
  intros (codes & _ & Hv & _ & _ & -> & _) i. unfold at_, unchecked_access. cbn [rapv_size rapv_data].
  destruct (Nat.ltb_spec i (length codes)) as [Hi|Hi]; [|done].
  destruct (lookup_lt_is_Some_2 codes i Hi) as [c Hc]. exists c. split.
  - f_equal. apply (codes_lookup codes i c); [|done].
    eapply Forall_impl; [|exact Hv]. simpl. auto with pg.
  - rewrite Forall_forall in Hv. apply Hv, list_elem_of_In. by apply list_elem_of_lookup_2 in Hc.
Qed.

(** Every view in a message returned by [parse_any_message] is safe to use
    without checks: iterating it never reads outside the message and produces as
    many items as the view reports. *)
Theorem parsed_views_safe t data m : Forall is_byte data ->
  parse_any_message t data = inr m -> views_safe m.
Proof.
  intros Hb H. apply parse_any_message_sound in H; [|done].
  destruct H; simpl; try exact I; try (by apply forward_safe_items); try (by eapply copy_wire_safe).
  apply forward_safe_items. eapply Forall_impl; [|eassumption]. by intros s [? _].
Qed.

Lemma parsed_views_safe_witness :
  exists m, parse_any_message (ch "D") sample_row = inr m /\ views_safe m.
Proof.
  eexists. split; [reflexivity|].
  apply (parsed_views_safe (ch "D") sample_row); [|reflexivity].
  apply (bool_decide_unpack _). vm_compute. exact I.
Defined.

(** ** Errors and notices *)

(** The fields of an error response as the protocol lays them out: a type byte
    and a NULL-terminated string each, then a NULL byte. *)
Definition error_body (fs : list (Z * bytes)) : bytes :=
  concat (map (fun f => fst f :: string_enc (snd f)) fs) ++ [0].

(** The members after storing every field in order; a repeated field keeps the
    last value. *)
Definition store_fields (fs : list (Z * bytes)) (to : error_notice_fields) : error_notice_fields :=
  fold_left (fun acc f => match error_field (fst f) with
                          | Some set => set (snd f) acc
                          | None => acc end) fs to.

Lemma error_fields_known fs : forall to,
  Forall (fun f => error_field (fst f) <> None /\ (0 ∉ snd f)) fs ->
  error_fields to (store_fields fs to) (error_body fs).
Proof.
  induction fs as [|[t s] fs IH]; intros to H; [constructor|].
  inversion_clear H as [|? ? [Hk Hs] Hfs]. simpl in *.
  destruct (error_field t) as [set|] eqn:E; [|done].
  unfold error_body. simpl. rewrite <- app_assoc. eapply ef_known; eauto.
  intros ->. vm_compute in E. done.
Qed.

(** An error response made of documented fields is parsed into exactly those
    fields: each member holds the string sent under its type byte. *)
Theorem error_response_fields fs :
  Forall (fun f => error_field (fst f) <> None /\ (0 ∉ snd f)) fs ->
  parse_any_message (ch "E") (error_body fs) = inr (Merror_response (store_fields fs no_fields)).
Proof.
  intros H. refine (proj2 (impl_inr Merror_response (parse_error_notice (error_body fs)) _) _).
  eexists. split; [|done]. apply error_notice_wire. by apply error_fields_known.
Qed.

Lemma error_response_fields_witness :
  exists v, parse_any_message (ch "E")
    (error_body [(ch "V", str "ERROR"); (ch "C", str "42P01"); (ch "M", str "oops")]) =
    inr (Merror_response v) /\ sqlstate v = Some (str "42P01").
Proof.
  eexists. split.
  - apply (error_response_fields [(ch "V", str "ERROR"); (ch "C", str "42P01"); (ch "M", str "oops")]).
    repeat constructor; simpl; try (vm_compute; discriminate);
      apply (bool_decide_unpack _); vm_compute; exact I.
  - reflexivity.
Defined.

(** A field of unknown type is not skipped with its value: the value is read
    as further fields.  An error response holding one unknown field ['X'] with
    value ["xyz"] next to its message is rejected, and one whose unknown field
    has the value ["Mforged"] gets that text as its primary message. *)
Theorem unknown_error_field_misread :
  error_field (ch "X") = None /\
  parse_any_message (ch "E") (error_body [(ch "M", str "m"); (ch "X", str "xyz")]) =
    inl (client extra_bytes) /\
  exists v, parse_any_message (ch "E") (error_body [(ch "M", str "m"); (ch "X", str "Mforged")]) =
    inr (Merror_response v) /\ message v = Some (str "forged").
Proof.
  split; [reflexivity|]. split; [reflexivity|]. eexists. split; reflexivity.
Qed.

(** A well-formed ParameterDescription is accepted but its OIDs are dropped:
    the message handed out reports no parameters, however many were sent. *)
Theorem parameter_description_drops_oids oids :
  Z.of_nat (length oids) <= INT16_MAX -> Forall (int_ok 4) oids ->
  exists v, parse_any_message (ch "t")
    (be_encode 2 (Z.of_nat (length oids)) ++ concat (map (be_encode 4) oids)) =
    inr (Mparameter_description v) /\ rapv_size (parameter_type_oids v) = 0%nat.
Proof.
  intros Hl Hok. exists no_parameter_description. split; [|done].
  apply parse_any_message_complete; [|by constructor].
  apply Forall_app. split; [auto with pg|].
  induction oids; simpl in *; [done|]. inversion_clear Hok.
  apply Forall_app. split; [auto with pg|]. apply IHoids; [lia|done].
Qed.

Lemma parameter_description_drops_oids_witness :
  exists v, parse_any_message (ch "t") (be_encode 2 2 ++ be_encode 4 23 ++ be_encode 4 25 ++ []) =
    inr (Mparameter_description v) /\ rapv_size (parameter_type_oids v) = 0%nat.
Proof.
  apply (parameter_description_drops_oids [23; 25]); [vm_compute; discriminate|].
  repeat constructor; vm_compute; congruence.
Defined.
