(* ===== verification/FrontendMessages.v ===== *)
(** * Frontend messages: data and serializers

    [serialization_context] and [bind_context]
    ([include/nativepg/protocol/detail/serialization_context.hpp],
    [include/nativepg/protocol/bind.hpp]) and the [serialize] overloads of
    [src/src/messages.cpp].  Each serializer appends to a vector it shares by
    reference with its context, so it maps the vector before the call to an error
    code and the vector after it.  Offsets are [std::size_t] values, with the
    wrap-around of the arithmetic on the [-1] sentinels written out. *)

From stdpp Require Import base list option.
From Stdlib Require Import ZArith Lia.
From S2P Require Import Prelude Errors BackendMessages ParseMessage.

#[local] Open Scope Z_scope.

(** ** serialization_context *)

Record serialization_context := SC {
  buffer_ : bytes;
  header_offset_ : Z;
  err_ : error_code
}.

Definition make_sc (buff : bytes) : serialization_context := SC buff SIZE_MAX None.

Definition sc_add_error (e : error_code) (ctx : serialization_context) : serialization_context :=
  SC (buffer_ ctx) (header_offset_ ctx) (keep_first (err_ ctx) e).

Definition add_bytes (contents : bytes) (ctx : serialization_context) : serialization_context :=
  SC (buffer_ ctx ++ contents) (header_offset_ ctx) (err_ ctx).

Definition add_byte (b : Z) (ctx : serialization_context) : serialization_context :=
  add_bytes [b] ctx.

(** [add_integral<IntType>] with [n = sizeof(IntType)]. *)
Definition add_integral (n : nat) (value : Z) (ctx : serialization_context) : serialization_context :=
  add_bytes (be_encode n value) ctx.

Definition add_string (s : bytes) (ctx : serialization_context) : serialization_context :=
  add_byte 0 (add_bytes s ctx).

Definition zeros (n : nat) : bytes := replicate n 0.

Definition add_header (msg_type : Z) (ctx : serialization_context) : serialization_context :=
  let ctx := SC (buffer_ ctx) (Z.of_nat (length (buffer_ ctx))) (err_ ctx) in
  add_bytes (zeros 4) (add_byte msg_type ctx).

Definition finalize_message (ctx : serialization_context) : error_code * serialization_context :=
  match err_ ctx with
  | Some e => (Some e, ctx)
  | None =>
      let size := wrap64 (Z.of_nat (length (buffer_ ctx)) - header_offset_ ctx - 1) in
      if size >? INT32_MAX then (err_ ctx, ctx)
      else
        let at_offset := Z.to_nat (wrap64 (header_offset_ ctx + 1)) in
        (None, SC (write_at at_offset (be_encode 4 size) (buffer_ ctx)) SIZE_MAX None)
  end.

(** The buffer after a serializer that ends in [return ctx.finalize_message()]. *)
Definition finalized (ctx : serialization_context) : error_code * bytes :=
  let '(e, ctx) := finalize_message ctx in (e, buffer_ ctx).

(** ** bind_context *)

Definition no_offset : Z := SIZE_MAX.

Record bind_context := BC {
  num_params_ : nat;
  param_offset_ : Z;
  buff_ : bytes;
  bc_err : error_code
}.

Definition make_bc (buff : bytes) : bind_context := BC 0 no_offset buff None.

Definition bc_add_error (e : error_code) (ctx : bind_context) : bind_context :=
  BC (num_params_ ctx) (param_offset_ ctx) (buff_ ctx) (keep_first (bc_err ctx) e).

Definition maybe_finish_parameter (ctx : bind_context) : bind_context :=
  if param_offset_ ctx =? no_offset then ctx
  else
    let param_size := wrap64 (Z.of_nat (length (buff_ ctx)) - param_offset_ ctx - 4) in
    if param_size >? INT32_MAX then bc_add_error (Some (client value_too_big)) ctx
    else BC (num_params_ ctx) no_offset
           (write_at (Z.to_nat (param_offset_ ctx)) (be_encode 4 param_size) (buff_ ctx))
           (bc_err ctx).

Definition start_parameter (ctx : bind_context) : bind_context :=
  let ctx := maybe_finish_parameter ctx in
  BC (S (num_params_ ctx)) (Z.of_nat (length (buff_ ctx))) (buff_ ctx ++ zeros 4) (bc_err ctx).

(** ** Messages *)

Inductive portal_or_statement := ps_statement | ps_portal.
Definition portal_or_statement_code (v : portal_or_statement) : Z :=
  match v with ps_statement => ch "S" | ps_portal => ch "P" end.

(** [format_codes]: its [kind], with the list of [kind::list]. *)
Inductive format_codes := all_text | all_binary | code_list (codes : list format_code).

(** The converting constructor from a single [format_code]. *)
Definition format_codes_of (v : format_code) : format_codes :=
  if v =? fmt_text then all_text else all_binary.

Record bind := {
  b_portal_name : bytes;
  b_statement_name : bytes;
  parameter_fmt_codes : format_codes;
  parameters_fn : bind_context -> bind_context;
  result_fmt_codes : format_codes
}.
Record describe := { d_type : portal_or_statement; d_name : bytes }.
Record close := { c_type : portal_or_statement; c_name : bytes }.
Record parse_t := { p_statement_name : bytes; p_query : bytes; p_oids : list Z }.
Record execute := { e_portal_name : bytes; max_num_rows : Z }.
Record startup_message := {
  user : bytes;
  database : option bytes;
  params : list (bytes * bytes)
}.
Record cancel_request := { cr_process_id : Z; cr_secret_key : Z }.

(** ** Serializers *)

Definition serialize_fmt_codes (codes : format_codes) (ctx : serialization_context)
    : serialization_context :=
  match codes with
  | all_text => add_integral 2 0 ctx
  | all_binary => add_integral 2 1 (add_integral 2 1 ctx)
  | code_list codes =>
      if Z.of_nat (length codes) >? INT16_MAX then sc_add_error (Some (client value_too_big)) ctx
      else fold_left (fun ctx c => add_integral 2 c ctx) codes
             (add_integral 2 (Z.of_nat (length codes)) ctx)
  end.

Definition serialize_params (fn : bind_context -> bind_context) (ctx : serialization_context)
    : serialization_context :=
  let num_params_offset := length (buffer_ ctx) in
  let bind_ctx := maybe_finish_parameter (fn (make_bc (buffer_ ctx ++ zeros 2))) in
  let ctx := SC (buff_ bind_ctx) (header_offset_ ctx) (err_ ctx) in
  let ctx := sc_add_error (bc_err bind_ctx) ctx in
  if Z.of_nat (num_params_ bind_ctx) >? INT16_MAX
  then sc_add_error (Some (client value_too_big)) ctx
  else SC (write_at num_params_offset (be_encode 2 (Z.of_nat (num_params_ bind_ctx))) (buffer_ ctx))
         (header_offset_ ctx) (err_ ctx).

Definition serialize_bind (msg : bind) (to : bytes) : error_code * bytes :=
  let ctx := add_header (ch "B") (make_sc to) in
  let ctx := add_string (b_portal_name msg) ctx in
  let ctx := add_string (b_statement_name msg) ctx in
  let ctx := serialize_fmt_codes (parameter_fmt_codes msg) ctx in
  let ctx := serialize_params (parameters_fn msg) ctx in
  let ctx := serialize_fmt_codes (result_fmt_codes msg) ctx in
  finalized ctx.

Definition serialize_describe (msg : describe) (to : bytes) : error_code * bytes :=
  let ctx := add_header (ch "D") (make_sc to) in
  let ctx := add_byte (portal_or_statement_code (d_type msg)) ctx in
  finalized (add_string (d_name msg) ctx).

Definition serialize_close (msg : close) (to : bytes) : error_code * bytes :=
  let ctx := add_header (ch "C") (make_sc to) in
  let ctx := add_byte (portal_or_statement_code (c_type msg)) ctx in
  finalized (add_string (c_name msg) ctx).

Definition serialize_parse (msg : parse_t) (to : bytes) : error_code * bytes :=
  let ctx := add_header (ch "P") (make_sc to) in
  let ctx := add_string (p_statement_name msg) ctx in
  let ctx := add_string (p_query msg) ctx in
  if Z.of_nat (length (p_oids msg)) >? INT16_MAX then
    let ctx := sc_add_error (Some (client value_too_big)) ctx in (err_ ctx, buffer_ ctx)
  else
    let ctx := add_integral 2 (Z.of_nat (length (p_oids msg))) ctx in
    finalized (fold_left (fun ctx code => add_integral 4 code ctx) (p_oids msg) ctx).

Definition serialize_copy_fail (error_message : bytes) (to : bytes) : error_code * bytes :=
  finalized (add_string error_message (add_header (ch "f") (make_sc to))).

Definition serialize_copy_done (to : bytes) : error_code * bytes :=
  finalized (add_header (ch "c") (make_sc to)).

Definition serialize_execute (msg : execute) (to : bytes) : error_code * bytes :=
  let ctx := add_string (e_portal_name msg) (add_header (ch "E") (make_sc to)) in
  finalized (add_integral 4 (max_num_rows msg) ctx).

(** [serialize_header_only]: the header always fits. *)
Definition serialize_header_only (header : Z) (to : bytes) : error_code * bytes :=
  match serialize_header {| mh_type := header; mh_size := 4 |} with
  | inr buff => (None, to ++ buff)
  | inl _ => (None, to)
  end.

Definition serialize_flush := serialize_header_only (ch "H").
Definition serialize_sync := serialize_header_only (ch "S").
Definition serialize_terminate := serialize_header_only (ch "X").

Definition serialize_password (password : bytes) (to : bytes) : error_code * bytes :=
  finalized (add_string password (add_header (ch "p") (make_sc to))).

Definition serialize_startup (msg : startup_message) (to : bytes) : error_code * bytes :=
  let length_offset := length to in
  let ctx := add_bytes (zeros 4) (make_sc to) in
  let ctx := add_integral 4 196608 ctx in
  let ctx := add_string (user msg) (add_string (str "user") ctx) in
  let ctx := match database msg with
             | Some db => add_string db (add_string (str "database") ctx)
             | None => ctx
             end in
  let ctx := fold_left (fun ctx p => add_string (snd p) (add_string (fst p) ctx)) (params msg) ctx in
  let ctx := add_byte 0 ctx in
  let msg_length := Z.of_nat (length (buffer_ ctx)) - Z.of_nat length_offset in
  let ctx := if msg_length >? INT32_MAX then sc_add_error (Some (client value_too_big)) ctx else ctx in
  match err_ ctx with
  | Some e => (Some e, buffer_ ctx)
  | None => (None, write_at length_offset (be_encode 4 msg_length) (buffer_ ctx))
  end.

Definition serialize_cancel (msg : cancel_request) (to : bytes) : error_code * bytes :=
  let ctx := add_integral 4 16 (make_sc to) in
  let ctx := add_integral 4 80877102 ctx in
  let ctx := add_integral 4 (cr_process_id msg) ctx in
  finalized (add_integral 4 (cr_secret_key msg) ctx).

Definition serialize_ssl_request (to : bytes) : error_code * bytes :=
  finalized (add_integral 4 80877103 (make_sc to)).

Definition serialize_query (query : bytes) (to : bytes) : error_code * bytes :=
  finalized (add_string query (add_header (ch "Q") (make_sc to))).

(** The type byte that callers of [serialize_header] use for CopyData. *)
Definition copy_data_message_type : Z := ch "c".
