(* ===== verification/FrontendSpec.v ===== *)
(** * What serializing frontend messages guarantees

    [frontend_wire] is the byte sequence the protocol prescribes for each
    message.  The serializers append exactly it, whatever the vector already
    holds; a collection whose size does not fit the protocol's Int16 is reported;
    and the serializers whose output is not what the protocol prescribes are
    singled out. *)

From stdpp Require Import base list option.
From Stdlib Require Import ZArith Lia.
From S2P Require Import Prelude Errors BackendMessages ParseMessage FrontendMessages.

#[local] Open Scope Z_scope.

(** ** Reference encodings *)

Definition cstr (s : bytes) : bytes := s ++ [0].

Definition fmt_codes_wire (codes : format_codes) : bytes :=
  match codes with
  | all_text => be_encode 2 0
  | all_binary => be_encode 2 1 ++ be_encode 2 1
  | code_list codes => be_encode 2 (Z.of_nat (length codes)) ++ concat (map (be_encode 2) codes)
  end.

(** A non-NULL parameter value: Int32 length and bytes. *)
Definition param_wire (v : bytes) : bytes := be_encode 4 (Z.of_nat (length v)) ++ v.

(** The callback that writes the values [vs], one [start_parameter] each. *)
Definition write_params (vs : list bytes) (ctx : bind_context) : bind_context :=
  fold_left (fun ctx v =>
    let ctx := start_parameter ctx in
    BC (num_params_ ctx) (param_offset_ ctx) (buff_ ctx ++ v) (bc_err ctx)) vs ctx.

Inductive frontend_message :=
| Fbind_msg (portal statement : bytes) (pcodes : format_codes) (values : list bytes) (rcodes : format_codes)
| Fdescribe (m : describe)
| Fclose (m : close)
| Fparse (m : parse_t)
| Fcopy_fail (error_message : bytes)
| Fcopy_done
| Fexecute (m : execute)
| Fflush
| Fsync
| Fterminate
| Fpassword (p : bytes)
| Fquery (q : bytes).

Definition serialize (m : frontend_message) : bytes -> error_code * bytes :=
  match m with
  | Fbind_msg portal statement pcodes values rcodes =>
      serialize_bind {| b_portal_name := portal; b_statement_name := statement;
                        parameter_fmt_codes := pcodes; parameters_fn := write_params values;
                        result_fmt_codes := rcodes |}
  | Fdescribe m => serialize_describe m
  | Fclose m => serialize_close m
  | Fparse m => serialize_parse m
  | Fcopy_fail e => serialize_copy_fail e
  | Fcopy_done => serialize_copy_done
  | Fexecute m => serialize_execute m
  | Fflush => serialize_flush
  | Fsync => serialize_sync
  | Fterminate => serialize_terminate
  | Fpassword p => serialize_password p
  | Fquery q => serialize_query q
  end.

Definition frontend_type (m : frontend_message) : Z :=
  match m with
  | Fbind_msg _ _ _ _ _ => ch "B"
  | Fdescribe _ => ch "D"
  | Fclose _ => ch "C"
  | Fparse _ => ch "P"
  | Fcopy_fail _ => ch "f"
  | Fcopy_done => ch "c"
  | Fexecute _ => ch "E"
  | Fflush => ch "H"
  | Fsync => ch "S"
  | Fterminate => ch "X"
  | Fpassword _ => ch "p"
  | Fquery _ => ch "Q"
  end.

Definition frontend_body (m : frontend_message) : bytes :=
  match m with
  | Fbind_msg portal statement pcodes values rcodes =>
      cstr portal ++ cstr statement ++ fmt_codes_wire pcodes ++
      be_encode 2 (Z.of_nat (length values)) ++ concat (map param_wire values) ++
      fmt_codes_wire rcodes
  | Fdescribe m => portal_or_statement_code (d_type m) :: cstr (d_name m)
  | Fclose m => portal_or_statement_code (c_type m) :: cstr (c_name m)
  | Fparse m => cstr (p_statement_name m) ++ cstr (p_query m) ++
                be_encode 2 (Z.of_nat (length (p_oids m))) ++ concat (map (be_encode 4) (p_oids m))
  | Fcopy_fail e => cstr e
  | Fexecute m => cstr (e_portal_name m) ++ be_encode 4 (max_num_rows m)
  | Fpassword p => cstr p
  | Fquery q => cstr q
  | Fcopy_done | Fflush | Fsync | Fterminate => []
  end.

Definition frontend_wire (m : frontend_message) : bytes := frame (frontend_type m) (frontend_body m).

Definition codes_fit (codes : format_codes) : Prop :=
  match codes with code_list l => Z.of_nat (length l) <= INT16_MAX | _ => True end.

(** Collections within the protocol's limits. *)
Definition counts_fit (m : frontend_message) : Prop :=
  match m with
  | Fbind_msg _ _ pcodes values rcodes =>
      codes_fit pcodes /\ codes_fit rcodes /\ Z.of_nat (length values) <= INT16_MAX
  | Fparse m => Z.of_nat (length (p_oids m)) <= INT16_MAX
  | _ => True
  end.

(** A vector of bytes that can exist. *)
Definition vec_ok (b : bytes) : Prop := Z.of_nat (length b) < SIZE_MAX.

(** ** The context while a message is being composed *)

(** After [add_header t] on the vector [to] and the contents [body]. *)
Definition composing (to : bytes) (t : Z) (body : bytes) : serialization_context :=
  SC (to ++ t :: zeros 4 ++ body) (Z.of_nat (length to)) None.

Lemma add_header_composing t to : add_header t (make_sc to) = composing to t [].
Proof.
  unfold add_header, add_bytes, add_byte, composing. simpl. f_equal.
  by rewrite <- app_assoc.
Qed.

Lemma add_bytes_composing to t body x :
  add_bytes x (composing to t body) = composing to t (body ++ x).
Proof.
  unfold add_bytes, composing. cbn [buffer_ header_offset_ err_]. f_equal.
  by rewrite <- app_assoc, <- app_comm_cons, <- app_assoc.
Qed.

Lemma add_byte_composing to t body x :
  add_byte x (composing to t body) = composing to t (body ++ [x]).
Proof. apply add_bytes_composing. Qed.

Lemma add_integral_composing n to t body x :
  add_integral n x (composing to t body) = composing to t (body ++ be_encode n x).
Proof. apply add_bytes_composing. Qed.

Lemma add_string_composing to t body s :
  add_string s (composing to t body) = composing to t (body ++ cstr s).
Proof. unfold add_string. by rewrite add_bytes_composing, add_byte_composing, <- app_assoc. Qed.

Lemma fold_integral_composing n codes : forall to t body,
  fold_left (fun ctx c => add_integral n c ctx) codes (composing to t body) =
  composing to t (body ++ concat (map (be_encode n) codes)).
Proof.
  induction codes as [|c codes IH]; intros to t body; simpl; [by rewrite app_nil_r|].
  by rewrite add_integral_composing, IH, <- app_assoc.
Qed.

Lemma serialize_fmt_codes_composing codes to t body : codes_fit codes ->
  serialize_fmt_codes codes (composing to t body) = composing to t (body ++ fmt_codes_wire codes).
Proof.
  destruct codes as [| |l]; simpl; intros H.
  - apply add_integral_composing.
  - by rewrite !add_integral_composing, <- app_assoc.
  - destruct (Z.gtb_spec (Z.of_nat (length l)) INT16_MAX); [lia|].
    by rewrite add_integral_composing, fold_integral_composing, <- app_assoc.
Qed.

Create Rewrite HintDb compose.
#[export] Hint Rewrite add_header_composing add_bytes_composing add_byte_composing
  add_integral_composing add_string_composing fold_integral_composing : compose.

Lemma wrap64_small z : 0 <= z <= SIZE_MAX -> wrap64 z = z.
Proof. unfold wrap64, SIZE_MAX. intros. apply Z.mod_small. lia. Qed.

(** [finalize_message] turns the message under composition into a frame. *)
Lemma finalized_composing to t body :
  vec_ok to -> Z.of_nat (length body) + 4 <= INT32_MAX ->
  finalized (composing to t body) = (None, to ++ frame t body).
Proof.
  intros Hto Hb. unfold vec_ok, finalized, finalize_message, composing in *. cbn [err_ buffer_ header_offset_].
  assert (Z.of_nat (length (to ++ t :: zeros 4 ++ body)) - Z.of_nat (length to) - 1 =
          Z.of_nat (length body) + 4) as ->.
  { rewrite length_app. simpl. lia. }
  assert (INT32_MAX <= SIZE_MAX) by (unfold INT32_MAX, SIZE_MAX; lia).
  rewrite !wrap64_small by lia.
  destruct (Z.gtb_spec (Z.of_nat (length body) + 4) INT32_MAX); [lia|].
  replace (Z.to_nat (Z.of_nat (length to) + 1)) with (length (to ++ [t]))
    by (rewrite length_app; simpl; lia).
  change (to ++ t :: zeros 4 ++ body) with (to ++ [t] ++ zeros 4 ++ body).
  rewrite app_assoc, write_at_app by (by rewrite length_be_encode).
  cbn [buffer_]. unfold frame. by rewrite <- app_assoc.
Qed.

(** ** Parameters of a bind message *)

(** The state between two parameters: closing the pending one leaves the vector
    [b], [n] parameters and no error. *)
Definition params_at (c : bind_context) (n : nat) (b : bytes) : Prop :=
  maybe_finish_parameter c = BC n no_offset b None.

Lemma write_params_at vs : forall c n b, params_at c n b ->
  vec_ok (b ++ concat (map param_wire vs)) ->
  Forall (fun v => Z.of_nat (length v) <= INT32_MAX) vs ->
  params_at (write_params vs c) (n + length vs) (b ++ concat (map param_wire vs)).
Proof.
  induction vs as [|v vs IH]; intros c n b Hc Hok Hvs; simpl in *.
  { by rewrite app_nil_r, Nat.add_0_r. }
  inversion_clear Hvs as [|? ? Hv Hvs']. unfold param_wire in Hok.
  replace (n + S (length vs))%nat with (S n + length vs)%nat by lia.
  rewrite app_assoc in *. apply IH; [|exact Hok|done].
  unfold params_at, start_parameter in *. rewrite Hc. unfold maybe_finish_parameter.
  cbn [num_params_ param_offset_ buff_ bc_err].
  unfold vec_ok in Hok. rewrite !length_app, length_be_encode in Hok.
  assert (no_offset = SIZE_MAX) as Hno by done.
  destruct (Z.eqb_spec (Z.of_nat (length b)) no_offset); [lia|].
  assert (Z.of_nat (length ((b ++ zeros 4) ++ v)) - Z.of_nat (length b) - 4 = Z.of_nat (length v)) as ->.
  { rewrite !length_app. simpl. lia. }
  assert (INT32_MAX <= SIZE_MAX) by (unfold INT32_MAX, SIZE_MAX; lia).
  rewrite wrap64_small by lia.
  destruct (Z.gtb_spec (Z.of_nat (length v)) INT32_MAX); [lia|].
  rewrite Nat2Z.id, <- app_assoc, write_at_app by (by rewrite length_be_encode). done.
Qed.

Lemma serialize_params_composing vs to t body :
  Z.of_nat (length vs) <= INT16_MAX ->
  Forall (fun v => Z.of_nat (length v) <= INT32_MAX) vs ->
  vec_ok (to ++ t :: zeros 4 ++ body ++ zeros 2 ++ concat (map param_wire vs)) ->
  serialize_params (write_params vs) (composing to t body) =
  composing to t (body ++ be_encode 2 (Z.of_nat (length vs)) ++ concat (map param_wire vs)).
Proof.
  intros Hn Hv Hok. unfold serialize_params, composing in *. cbn [buffer_ header_offset_ err_].
  set (pre := to ++ t :: zeros 4 ++ body).
  assert (params_at (write_params vs (make_bc (pre ++ zeros 2))) (0 + length vs)
            ((pre ++ zeros 2) ++ concat (map param_wire vs))) as Hp.
  { apply write_params_at; [done| |done]. unfold pre. by repeat (rewrite <- app_assoc || cbn [app]). }
  unfold params_at in Hp. rewrite Hp. simpl.
  destruct (Z.gtb_spec (Z.of_nat (length vs)) INT16_MAX); [lia|]. simpl. f_equal.
  rewrite <- app_assoc, write_at_app by (by rewrite length_be_encode).
  unfold pre. by repeat (rewrite <- app_assoc || cbn [app]).
Qed.

(** ** Theorems *)

Lemma length_param_wire v : length (param_wire v) = (4 + length v)%nat.
Proof. unfold param_wire. by rewrite length_app, length_be_encode. Qed.

Lemma Forall_param_length vs n : Z.of_nat (length (concat (map param_wire vs))) <= n ->
  Forall (fun v => Z.of_nat (length v) <= n) vs.
Proof.
  induction vs as [|v vs IH]; simpl; intros H; [done|].
  rewrite length_app, length_param_wire in H. constructor; [lia|]. apply IH. lia.
Qed.

Lemma serialize_appends m to :
  vec_ok (to ++ frontend_wire m) -> counts_fit m ->
  Z.of_nat (length (frontend_body m)) + 4 <= INT32_MAX ->
  serialize m to = (None, to ++ frontend_wire m).
Proof.
  intros Hok Hc Hl.
  assert (vec_ok to) as Hto by (unfold vec_ok in *; rewrite length_app in Hok; lia).
  destruct m; cbn [serialize frontend_wire frontend_type]; try reflexivity.
  2-8: unfold serialize_describe, serialize_close, serialize_parse, serialize_copy_fail,
         serialize_copy_done, serialize_execute, serialize_password, serialize_query.
  - destruct Hc as (Hp & Hr & Hn). unfold serialize_bind. simpl.
    autorewrite with compose. rewrite serialize_fmt_codes_composing by done.
    unfold frontend_wire, frame, vec_ok in Hok.
    cbn [frontend_body] in *. rewrite !length_app in Hl.
    rewrite serialize_params_composing; [|done|apply Forall_param_length; lia|].
    + rewrite serialize_fmt_codes_composing by done.
      rewrite finalized_composing; [|done|rewrite !length_app in *; simpl; lia].
      simpl. by rewrite <- !app_assoc.
    + unfold vec_ok. repeat (autorewrite with pglen in *; cbn [length] in * ).
      cbn [length zeros replicate]. lia.
  - autorewrite with compose. by rewrite finalized_composing.
  - autorewrite with compose. by rewrite finalized_composing.
  - simpl in Hc. destruct (Z.gtb_spec (Z.of_nat (length (p_oids m))) INT16_MAX); [lia|].
    autorewrite with compose. simpl. rewrite <- !app_assoc. by rewrite finalized_composing.
  - autorewrite with compose. by rewrite finalized_composing.
  - autorewrite with compose. by rewrite finalized_composing.
  - autorewrite with compose. by rewrite finalized_composing.
  - autorewrite with compose. by rewrite finalized_composing.
  - unfold serialize_query. autorewrite with compose. by rewrite finalized_composing.
Qed.



(** *** Collections that are too big *)

Lemma finalized_error ctx e : err_ ctx = Some e -> fst (finalized ctx) = Some e.
Proof. intros H. unfold finalized, finalize_message. by rewrite H. Qed.

Lemma fold_integral_err n codes : forall ctx,
  err_ (fold_left (fun ctx c => add_integral n c ctx) codes ctx) = err_ ctx.
Proof. induction codes as [|c codes IH]; intros ctx; simpl; [done|]. by rewrite IH. Qed.

(** Serializing format codes only ever adds [value_too_big]. *)
Lemma serialize_fmt_codes_err codes ctx :
  err_ (serialize_fmt_codes codes ctx) =
  keep_first (err_ ctx) (match codes with
    | code_list l => if Z.of_nat (length l) >? INT16_MAX then Some (client value_too_big) else None
    | _ => None end).
Proof.
  destruct codes as [| |l]; simpl; [by destruct (err_ ctx)..|].
  destruct (_ >? _); [done|]. rewrite fold_integral_err. simpl. by destruct (err_ ctx).
Qed.

(** Only [value_too_big] can be reported while parameters are written. *)
Definition too_big_or_none (e : error_code) : Prop := e = None \/ e = Some (client value_too_big).

Lemma too_big_keep_first a b : too_big_or_none a -> too_big_or_none b -> too_big_or_none (keep_first a b).
Proof. unfold too_big_or_none. destruct a; naive_solver. Qed.
#[local] Hint Resolve too_big_keep_first : pg.

Lemma maybe_finish_err c : too_big_or_none (bc_err c) ->
  too_big_or_none (bc_err (maybe_finish_parameter c)) /\
  num_params_ (maybe_finish_parameter c) = num_params_ c.
Proof.
  intros H. unfold maybe_finish_parameter. destruct (_ =? _); [done|].
  destruct (_ >? _); simpl; [|done]. split; [|done]. apply too_big_keep_first; [done|by right].
Qed.

Lemma write_params_err vs : forall c, too_big_or_none (bc_err c) ->
  too_big_or_none (bc_err (write_params vs c)) /\
  num_params_ (write_params vs c) = (num_params_ c + length vs)%nat.
Proof.
  induction vs as [|v vs IH]; intros c Hc; simpl; [split; [done|lia]|].
  destruct (maybe_finish_err c Hc) as [He Hn].
  match goal with |- context [write_params vs ?x] => destruct (IH x) as [He' Hn'] end; [done|].
  split; [done|]. unfold write_params in *. rewrite Hn'. simpl. rewrite Hn. lia.
Qed.

Lemma serialize_params_err vs ctx : too_big_or_none (err_ ctx) ->
  too_big_or_none (err_ (serialize_params (write_params vs) ctx)) /\
  (err_ ctx <> None \/ Z.of_nat (length vs) > INT16_MAX ->
   err_ (serialize_params (write_params vs) ctx) = Some (client value_too_big)).
Proof.
  intros Hctx. unfold serialize_params.
  destruct (write_params_err vs (make_bc (buffer_ ctx ++ zeros 2)) (or_introl eq_refl)) as [He Hn].
  destruct (maybe_finish_err _ He) as [He' Hn']. rewrite Hn', Hn. cbn [num_params_ make_bc Nat.add].
  set (e := bc_err (maybe_finish_parameter _)) in *. clearbody e.
  unfold too_big_or_none in *. cbn [err_ sc_add_error].
  destruct (Z.gtb_spec (Z.of_nat (length vs)) INT16_MAX); cbn [err_ sc_add_error].
  - destruct Hctx as [-> | ->], He' as [-> | ->]; simpl; auto.
  - destruct Hctx as [-> | ->], He' as [-> | ->]; simpl; split; auto; intros [|]; done || lia.
Qed.

(** A message with more parameters, type OIDs or format codes than an Int16
    can count is refused with [value_too_big]. *)
Theorem serialize_too_big m to :
  (match m with
   | Fbind_msg _ _ (code_list l) _ _ => Z.of_nat (length l) > INT16_MAX
   | _ => False end) \/
  (match m with
   | Fbind_msg _ _ _ values _ => Z.of_nat (length values) > INT16_MAX
   | Fparse m => Z.of_nat (length (p_oids m)) > INT16_MAX
   | _ => False end) \/
  (match m with
   | Fbind_msg _ _ _ _ (code_list l) => Z.of_nat (length l) > INT16_MAX
   | _ => False end) ->
  fst (serialize m to) = Some (client value_too_big).
Proof.
  intros H. destruct m as [portal stmt pcodes values rcodes| | |m| | | | | | | |];
    try (by destruct H as [[]|[[]|[]]]); cbn [serialize].
  - unfold serialize_bind. simpl. apply finalized_error. rewrite serialize_fmt_codes_err.
    set (c0 := add_string _ _). set (c1 := serialize_fmt_codes pcodes c0).
    assert (err_ c1 = match pcodes with
      | code_list l => if Z.of_nat (length l) >? INT16_MAX then Some (client value_too_big) else None
      | _ => None end) as Hc1 by (unfold c1; by rewrite serialize_fmt_codes_err).
    destruct (serialize_params_err values c1) as [Hp Hp'].
    { rewrite Hc1. unfold too_big_or_none. destruct pcodes; auto. destruct (_ >? _); auto. }
    set (e := err_ (serialize_params _ c1)) in *. clearbody e.
    destruct H as [H|[H|H]].
    + destruct pcodes as [| |l]; try done. rewrite Hp'; [done|]. left. rewrite Hc1.
      destruct (Z.gtb_spec (Z.of_nat (length l)) INT16_MAX); [done|lia].
    + rewrite Hp'; [done|]. by right.
    + destruct rcodes as [| |l]; try done.
      destruct (Z.gtb_spec (Z.of_nat (length l)) INT16_MAX); [|lia].
      by destruct Hp as [-> | ->].
  - destruct H as [[]|[H|[]]]. unfold serialize_parse.
    destruct (Z.gtb_spec (Z.of_nat (length (p_oids m))) INT16_MAX); [done|lia].
Qed.

Lemma serialize_too_big_witness :
  fst (serialize (Fparse {| p_statement_name := []; p_query := str "SELECT 1";
                            p_oids := replicate 32768 23 |}) []) = Some (client value_too_big).
Proof.
  apply (serialize_too_big (Fparse {| p_statement_name := []; p_query := str "SELECT 1";
                                      p_oids := replicate 32768 23 |}) []).
  right. left. vm_compute. reflexivity.
Defined.

(** A query whose message does not fit an Int32 length is not refused: the
    serializer reports success and leaves a message with length field zero. *)
Theorem oversized_query_reported_ok q to :
  vec_ok (to ++ frontend_wire (Fquery q)) -> INT32_MAX < Z.of_nat (length q) + 5 ->
  serialize_query q to = (None, to ++ ch "Q" :: zeros 4 ++ cstr q).
Proof.
  intros Hok Hl. unfold serialize_query. autorewrite with compose.
  unfold finalized, finalize_message, composing. cbn [err_ buffer_ header_offset_ app].
  unfold vec_ok, frontend_wire in Hok. rewrite length_app, length_frame in Hok.
  cbn [frontend_body] in Hok. unfold cstr in *. rewrite length_app in Hok. simpl in Hok.
  rewrite wrap64_small by (rewrite !length_app; simpl; rewrite length_app; simpl; lia).
  match goal with |- context [?z >? INT32_MAX] => assert (z >? INT32_MAX = true) as -> end; [|done].
  apply Z.gtb_lt. rewrite !length_app. simpl. rewrite length_app. simpl. lia.
Qed.

Lemma oversized_query_reported_ok_witness :
  serialize_query (replicate (Z.to_nat 2147483647) 32) [] =
  (None, [] ++ ch "Q" :: zeros 4 ++ cstr (replicate (Z.to_nat 2147483647) 32)).
Proof.
  apply oversized_query_reported_ok; unfold vec_ok, frontend_wire, frontend_body, cstr, SIZE_MAX, INT32_MAX.
  - cbn [app]. rewrite length_frame, length_app, length_replicate. cbn [length]. lia.
  - rewrite length_replicate. lia.
Defined.

(** *** Messages without a type byte *)

Definition startup_params_wire (ps : list (bytes * bytes)) : bytes :=
  concat (map (fun p => cstr (fst p) ++ cstr (snd p)) ps).

(** Version 3.0, then name/value pairs, then a NULL byte. *)
Definition startup_body (m : startup_message) : bytes :=
  be_encode 4 (3 * 65536) ++ cstr (str "user") ++ cstr (user m) ++
  match database m with Some db => cstr (str "database") ++ cstr db | None => [] end ++
  startup_params_wire (params m) ++ [0].

Lemma add_string_sc b off s : add_string s (SC b off None) = SC (b ++ cstr s) off None.
Proof. unfold add_string, add_byte, add_bytes. simpl. by rewrite <- app_assoc. Qed.

Lemma fold_params_sc ps : forall b off,
  fold_left (fun ctx p => add_string (snd p) (add_string (fst p) ctx)) ps (SC b off None) =
  SC (b ++ startup_params_wire ps) off None.
Proof.
  induction ps as [|p ps IH]; intros b off; simpl; [by rewrite app_nil_r|].
  rewrite !add_string_sc, IH. f_equal. unfold startup_params_wire. simpl.
  by rewrite <- !app_assoc.
Qed.

(** What [serialize_startup] has appended when it computes the length. *)
Lemma startup_composed (m : startup_message) to :
  add_byte 0 (fold_left (fun ctx p => add_string (snd p) (add_string (fst p) ctx)) (params m)
    (match database m with
     | Some db => add_string db (add_string (str "database")
                    (add_string (user m) (add_string (str "user")
                       (add_integral 4 196608 (add_bytes (zeros 4) (make_sc to))))))
     | None => add_string (user m) (add_string (str "user")
                 (add_integral 4 196608 (add_bytes (zeros 4) (make_sc to))))
     end)) = SC (to ++ zeros 4 ++ startup_body m) SIZE_MAX None.
Proof.
  unfold add_integral, add_bytes at 1 2, add_byte, add_bytes at 1, make_sc, startup_body.
  cbn [buffer_ header_offset_ err_].
  destruct (database m); unfold add_bytes; rewrite !add_string_sc, fold_params_sc;
    cbn [buffer_ header_offset_ err_]; f_equal; by rewrite <- !app_assoc.
Qed.

(** The startup message is its own length, the protocol version 3.0 and the
    user, database and other settings as NULL-terminated pairs; if the length
    does not fit an Int32 the serializer reports [value_too_big]. *)
Theorem serialize_startup_exact m to :
  serialize_startup m to =
  if 4 + Z.of_nat (length (startup_body m)) >? INT32_MAX
  then (Some (client value_too_big), to ++ zeros 4 ++ startup_body m)
  else (None, to ++ be_encode 4 (4 + Z.of_nat (length (startup_body m))) ++ startup_body m).
Proof.
  unfold serialize_startup. rewrite startup_composed. cbn [buffer_ err_].
  assert (Z.of_nat (length (to ++ zeros 4 ++ startup_body m)) - Z.of_nat (length to) =
          4 + Z.of_nat (length (startup_body m))) as ->.
  { rewrite !length_app. cbn [length zeros replicate]. lia. }
  destruct (_ >? _); [done|]. cbn [err_ buffer_].
  by rewrite write_at_app by (by rewrite length_be_encode).
Qed.

Definition cancel_wire (m : cancel_request) : bytes :=
  be_encode 4 16 ++ be_encode 4 80877102 ++ be_encode 4 (cr_process_id m) ++
  be_encode 4 (cr_secret_key m).

Lemma finalized_no_header b : 4 <= Z.of_nat (length b) <= INT32_MAX ->
  finalized (SC b SIZE_MAX None) = (None, be_encode 4 (Z.of_nat (length b)) ++ drop 4 b).
Proof.
  intros H. unfold finalized, finalize_message. cbn [err_ buffer_ header_offset_].
  assert (wrap64 (Z.of_nat (length b) - SIZE_MAX - 1) = Z.of_nat (length b)) as ->.
  { unfold wrap64, SIZE_MAX, INT32_MAX in *.
    rewrite <- (Z.mod_add _ 1) by lia. rewrite Z.mod_small by lia. lia. }
  destruct (Z.gtb_spec (Z.of_nat (length b)) INT32_MAX); [lia|].
  change (Z.to_nat (wrap64 (SIZE_MAX + 1))) with 0%nat. unfold write_at.
  rewrite length_be_encode. done.
Qed.

(** A cancel request serialized into an empty vector is the protocol's
    CancelRequest; serialized after other data it overwrites the first four bytes
    of that data with the total length of the vector. *)
Theorem serialize_cancel_behaviour m to :
  4 <= Z.of_nat (length to) -> Z.of_nat (length to) + 16 <= INT32_MAX ->
  serialize_cancel m [] = (None, cancel_wire m) /\
  serialize_cancel m to =
    (None, be_encode 4 (Z.of_nat (length to) + 16) ++ drop 4 to ++ cancel_wire m).
Proof.
  intros Hlo Hhi.
  assert (forall b, Z.of_nat (length b) + 16 <= INT32_MAX -> serialize_cancel m b =
            (None, be_encode 4 (Z.of_nat (length b) + 16) ++ drop 4 (b ++ cancel_wire m))) as Hgen.
  { intros b Hb. unfold serialize_cancel, add_integral, add_bytes, make_sc.
    cbn [buffer_ header_offset_ err_]. rewrite <- !app_assoc. fold (cancel_wire m).
    assert (length (b ++ cancel_wire m) = length b + 16)%nat as Hl
      by (unfold cancel_wire; rewrite !length_app, !length_be_encode; lia).
    rewrite finalized_no_header by lia. rewrite Hl. do 3 f_equal. lia. }
  split.
  - rewrite Hgen by (simpl; lia). reflexivity.
  - rewrite Hgen by lia. by rewrite drop_app_le by lia.
Qed.

Lemma serialize_cancel_behaviour_witness :
  serialize_cancel {| cr_process_id := 1; cr_secret_key := 2 |} [] =
    (None, cancel_wire {| cr_process_id := 1; cr_secret_key := 2 |}) /\
  serialize_cancel {| cr_process_id := 1; cr_secret_key := 2 |} (frame (ch "S") []) =
    (None, be_encode 4 (Z.of_nat 5 + 16) ++ drop 4 (frame (ch "S") []) ++
           cancel_wire {| cr_process_id := 1; cr_secret_key := 2 |}).
Proof.
  apply (serialize_cancel_behaviour {| cr_process_id := 1; cr_secret_key := 2 |} (frame (ch "S") []));
    vm_compute; discriminate.
Defined.

(** The SSLRequest of the protocol: length 8 and the request code. *)
Definition ssl_request_wire : bytes := be_encode 4 8 ++ be_encode 4 80877103.

(** The SSL request serializer destroys its own message: the four bytes of
    the request code are overwritten by the length 4, so that nothing of the
    protocol's SSLRequest is left. *)
Theorem serialize_ssl_request_broken :
  serialize_ssl_request [] = (None, be_encode 4 4) /\ be_encode 4 4 <> ssl_request_wire.
Proof. split; [reflexivity|]. vm_compute. discriminate. Qed.

(** The type byte offered for CopyData messages is the one of CopyDone: a
    frame that carries data under it is rejected as having extra bytes, and an
    empty one ends the copy. *)
Theorem copy_data_type_is_copy_done d :
  parse_any_message copy_data_message_type [] = inr Mcopy_done /\
  (d <> [] -> parse_any_message copy_data_message_type d = inl (client extra_bytes)) /\
  parse_any_message (ch "d") d = inr (Mcopy_data d).
Proof. split; [reflexivity|]. split; [|reflexivity]. by destruct d. Qed.
