(* ===== verification/Request.v ===== *)
(** * Requests ([include/nativepg/request.hpp], [src/src/request.cpp],
    [src/src/nativepg_internal/check_request.hpp])

    A [request] is the bytes to send and the list of its message types.  The
    builder functions serialize a message and record its type; a serialization
    error is thrown, so each of them maps a request to the error thrown, if any,
    and the request afterwards: what was done before a throw stays done. *)

From stdpp Require Import base list option decidable.
From Stdlib Require Import ZArith Lia.
From S2P Require Import Prelude Errors BackendMessages ParseMessage FrontendMessages FrontendSpec.

#[local] Open Scope Z_scope.

(** ** Data *)

Inductive request_message_type :=
| rt_bind | rt_close | rt_describe | rt_execute | rt_flush | rt_parse | rt_query | rt_sync.

#[global] Instance request_message_type_eq_dec : EqDecision request_message_type.
Proof. solve_decision. Defined.

Record request := Req {
  rq_buffer : bytes;
  rq_types : list request_message_type;
  rq_autosync : bool
}.

Definition make_request (autosync : bool) : request := Req [] [] autosync.
Definition set_autosync (value : bool) (r : request) : request := Req (rq_buffer r) (rq_types r) value.

(** A [parameter_ref]: the OID of the parameter and its two serializers. *)
Record parameter_ref := {
  pr_oid : Z;
  pr_text : bytes -> error_code * bytes;
  pr_binary : bytes -> error_code * bytes
}.

(** ** Builders *)

(** A member function that may throw. *)
Definition R : Type := request -> error_code * request.

Definition andthen (f g : R) : R := fun r =>
  match f r with
  | (Some e, r') => (Some e, r')
  | (None, r') => g r'
  end.
Infix ">>" := andthen (at level 50, left associativity) : pg_scope.
#[local] Open Scope pg_scope.

Definition add_advanced_impl (ser : bytes -> error_code * bytes) (type : request_message_type) : R :=
  fun r =>
    let '(ec, b) := ser (rq_buffer r) in
    match ec with
    | Some e => (Some e, Req b (rq_types r) (rq_autosync r))
    | None => (None, Req b (rq_types r ++ [type]) (rq_autosync r))
    end.

Definition add_bind_msg (v : bind) : R := add_advanced_impl (serialize_bind v) rt_bind.
Definition add_close (v : close) : R := add_advanced_impl (serialize_close v) rt_close.
Definition add_describe (v : describe) : R := add_advanced_impl (serialize_describe v) rt_describe.
Definition add_execute_msg (v : execute) : R := add_advanced_impl (serialize_execute v) rt_execute.
Definition add_flush : R := add_advanced_impl serialize_flush rt_flush.
Definition add_parse (v : parse_t) : R := add_advanced_impl (serialize_parse v) rt_parse.
Definition add_query_msg (q : bytes) : R := add_advanced_impl (serialize_query q) rt_query.
Definition add_sync : R := add_advanced_impl serialize_sync rt_sync.

Definition maybe_add_sync : R := fun r => if rq_autosync r then add_sync r else (None, r).

Definition add_simple_query (q : bytes) : R := add_query_msg q.

(** The callback [add_bind] passes: one [start_parameter] and one serialization
    per parameter, keeping the first error. *)
Definition bind_params (ps : list parameter_ref) (param_format : format_code)
    (ctx : bind_context) : bind_context :=
  fold_left (fun ctx p =>
    let ctx := start_parameter ctx in
    let '(ec, b) := (if param_format =? fmt_binary then pr_binary p else pr_text p) (buff_ ctx) in
    let ctx := BC (num_params_ ctx) (param_offset_ ctx) b (bc_err ctx) in
    match ec with Some e => bc_add_error (Some e) ctx | None => ctx end) ps ctx.

Definition add_bind (statement_name : bytes) (ps : list parameter_ref) (param_format : format_code)
    (portal_name : bytes) (result_format : format_code) : R :=
  add_bind_msg {| b_portal_name := portal_name; b_statement_name := statement_name;
                  parameter_fmt_codes := format_codes_of param_format;
                  parameters_fn := bind_params ps param_format;
                  result_fmt_codes := format_codes_of result_format |}.

Definition add_execute (statement_name : bytes) (ps : list parameter_ref) (param_format : format_code)
    (result_format : format_code) (max_rows : Z) : R :=
  add_bind statement_name ps param_format [] result_format >>
  add_describe {| d_type := ps_portal; d_name := [] |} >>
  add_execute_msg {| e_portal_name := []; max_num_rows := max_rows |} >>
  maybe_add_sync.

Definition add_query (q : bytes) (ps : list parameter_ref) (param_format : format_code)
    (result_format : format_code) (max_rows : Z) : R :=
  add_parse {| p_statement_name := []; p_query := q; p_oids := map pr_oid ps |} >>
  add_execute [] ps param_format result_format max_rows.

Definition add_prepare (query statement_name : bytes) (oids : list Z) : R :=
  add_parse {| p_statement_name := statement_name; p_query := query; p_oids := oids |} >>
  maybe_add_sync.

Definition add_describe_statement (name : bytes) : R :=
  add_describe {| d_type := ps_statement; d_name := name |} >> maybe_add_sync.
Definition add_describe_portal (name : bytes) : R :=
  add_describe {| d_type := ps_portal; d_name := name |} >> maybe_add_sync.
Definition add_close_statement (name : bytes) : R :=
  add_close {| c_type := ps_statement; c_name := name |} >> maybe_add_sync.
Definition add_close_portal (name : bytes) : R :=
  add_close {| c_type := ps_portal; c_name := name |} >> maybe_add_sync.

(** ** check_request *)

(** The loop over the message types; [is_extended_batch] is its variable. *)
Fixpoint check_types (is_extended_batch : bool) (types : list request_message_type) : error_code :=
  match types with
  | [] => if is_extended_batch then Some (client request_ends_without_sync) else None
  | rt_query :: ts =>
      if is_extended_batch then Some (client request_mixes_simple_advanced_protocols)
      else check_types is_extended_batch ts
  | rt_sync :: ts => check_types false ts
  | _ :: ts => check_types true ts
  end.

Definition check_request (req : request) : error_code :=
  match rq_types req with
  | [] => Some (client empty_request)
  | _ :: _ => check_types false (rq_types req)
  end.

(** ** The batch structure *)

(** A request is a sequence of simple queries and of extended batches, each a
    run of extended-protocol messages closed by a sync. *)
Inductive batches : list request_message_type -> Prop :=
| batches_nil : batches []
| batches_query ts : batches ts -> batches (rt_query :: ts)
| batches_extended pre ts :
    Forall (fun t => t <> rt_query /\ t <> rt_sync) pre -> batches ts ->
    batches (pre ++ rt_sync :: ts).

Lemma check_types_extended pre ts b :
  Forall (fun t => t <> rt_query /\ t <> rt_sync) pre ->
  check_types b (pre ++ ts) = check_types (match pre with [] => b | _ => true end) ts.
Proof.
  revert b; induction pre as [|t pre IH]; intros b H; [done|].
  inversion_clear H as [|? ? [H1 H2] H']. simpl. destruct t; try done; rewrite IH by done; by destruct pre.
Qed.

Lemma check_types_batches ts : forall b, check_types b ts = None ->
  exists pre ts', ts = pre ++ ts' /\ Forall (fun t => t <> rt_query /\ t <> rt_sync) pre /\
    ((b = false /\ pre = [] /\ batches ts') \/ (exists ts'', ts' = rt_sync :: ts'' /\ batches ts'')).
Proof.
  induction ts as [|t ts IH]; intros b H.
  - destruct b; [done|]. exists [], []. split; [done|]. split; [done|]. left. by repeat constructor.
  - assert (forall t0, t = t0 -> t0 <> rt_query -> t0 <> rt_sync -> check_types true ts = None ->
      exists pre ts', t :: ts = pre ++ ts' /\ Forall (fun t => t <> rt_query /\ t <> rt_sync) pre /\
      ((b = false /\ pre = [] /\ batches ts') \/ (exists ts'', ts' = rt_sync :: ts'' /\ batches ts'')))
      as Hext.
    { intros t0 -> Hq Hs Ht. destruct (IH true Ht) as (pre & ts' & -> & Hp & [[[=] _]|Hr]).
      exists (t0 :: pre), ts'. split; [done|]. split; [by constructor|]. by right. }
    destruct t; simpl in H; try (by eapply Hext).
    + destruct b; [done|]. destruct (IH false H) as (pre & ts' & -> & Hp & [(_ & -> & Hb)|(ts'' & -> & Hb)]).
      * exists [], (rt_query :: ts'). split; [done|]. split; [done|]. left. by repeat constructor.
      * exists [], (rt_query :: pre ++ rt_sync :: ts''). split; [done|]. split; [done|]. left.
        split; [done|]. split; [done|]. by repeat constructor.
    + destruct (IH false H) as (pre & ts' & -> & Hp & [(_ & -> & Hb)|(ts'' & -> & Hb)]).
      * exists [], (rt_sync :: ts'). split; [done|]. split; [done|]. right. by exists ts'.
      * exists [], (rt_sync :: pre ++ rt_sync :: ts''). split; [done|]. split; [done|]. right.
        eexists. split; [done|]. by constructor.
Qed.

Lemma batches_check_types ts : batches ts -> check_types false ts = None.
Proof. induction 1; simpl; [done..|]. by rewrite check_types_extended. Qed.

(** [check_request] accepts exactly the non-empty requests with the
    documented batch structure: simple queries, and extended-protocol messages
    grouped into batches that end in a sync and contain no simple query. *)
Theorem check_request_exact req :
  check_request req = None <-> rq_types req <> [] /\ batches (rq_types req).
Proof.
  unfold check_request. destruct (rq_types req) as [|t ts]; [naive_solver|]. split.
  - intros H. split; [done|].
    destruct (check_types_batches _ _ H) as (pre & ts' & -> & Hp & [(_ & -> & Hb)|(ts'' & -> & Hb)]); [done|].
    by constructor.
  - intros [_ H]. by apply batches_check_types.
Qed.
