(* ===== verification/RequestSpec.v ===== *)
(** * What building a request guarantees

    [request_op] lists the builder functions of [request]; [op_emits] says which
    protocol messages each of them stands for.  Building appends exactly those
    messages to the payload and their types to the list, and requests built with
    autosync always have the structure [check_request] asks for. *)

From stdpp Require Import base list option decidable.
From Stdlib Require Import ZArith Lia.
From S2P Require Import Prelude Errors BackendMessages ParseMessage FrontendMessages FrontendSpec Request.

#[local] Open Scope Z_scope.
#[local] Open Scope pg_scope.

Inductive request_op :=
| Oadd_simple_query (q : bytes)
| Oadd_query (q : bytes) (ps : list parameter_ref) (pf rf : format_code) (max_rows : Z)
| Oadd_prepare (query name : bytes) (oids : list Z)
| Oadd_execute (name : bytes) (ps : list parameter_ref) (pf rf : format_code) (max_rows : Z)
| Oadd_describe_statement (name : bytes)
| Oadd_describe_portal (name : bytes)
| Oadd_close_statement (name : bytes)
| Oadd_close_portal (name : bytes)
| Oadd_bind (name : bytes) (ps : list parameter_ref) (pf : format_code) (portal : bytes) (rf : format_code)
| Oadd_sync
| Oadd_flush
| Oadd_parse (m : parse_t)
| Oadd_describe (m : describe)
| Oadd_close (m : close)
| Oadd_execute_msg (m : execute).

Definition run_op (op : request_op) : R :=
  match op with
  | Oadd_simple_query q => add_simple_query q
  | Oadd_query q ps pf rf n => add_query q ps pf rf n
  | Oadd_prepare q name oids => add_prepare q name oids
  | Oadd_execute name ps pf rf n => add_execute name ps pf rf n
  | Oadd_describe_statement name => add_describe_statement name
  | Oadd_describe_portal name => add_describe_portal name
  | Oadd_close_statement name => add_close_statement name
  | Oadd_close_portal name => add_close_portal name
  | Oadd_bind name ps pf portal rf => add_bind name ps pf portal rf
  | Oadd_sync => add_sync
  | Oadd_flush => add_flush
  | Oadd_parse m => add_parse m
  | Oadd_describe m => add_describe m
  | Oadd_close m => add_close m
  | Oadd_execute_msg m => add_execute_msg m
  end.

(** The functions documented as high level: all but the single-message ones. *)
Definition high_level (op : request_op) : bool :=
  match op with
  | Oadd_bind _ _ _ _ _ | Oadd_sync | Oadd_flush | Oadd_parse _ | Oadd_describe _
  | Oadd_close _ | Oadd_execute_msg _ => false
  | _ => true
  end.

Fixpoint run_ops (ops : list request_op) : R :=
  match ops with
  | [] => fun r => (None, r)
  | op :: ops' => run_op op >> run_ops ops'
  end.

(** ** The messages of each operation *)

(** Serializing the parameters in the chosen format yields the values [vs]. *)
Definition params_write (pf : format_code) (ps : list parameter_ref) (vs : list bytes) : Prop :=
  Forall2 (fun p v => forall b,
    (if pf =? fmt_binary then pr_binary p else pr_text p) b = (None, b ++ v)) ps vs.

Definition sync_if (autosync : bool) : list frontend_message := if autosync then [Fsync] else [].

Definition execute_messages (name : bytes) (pf : format_code) (vs : list bytes) (rf : format_code)
    (n : Z) : list frontend_message :=
  [Fbind_msg [] name (format_codes_of pf) vs (format_codes_of rf);
   Fdescribe {| d_type := ps_portal; d_name := [] |};
   Fexecute {| e_portal_name := []; max_num_rows := n |}].

Inductive op_emits (autosync : bool) : request_op -> list frontend_message -> Prop :=
| em_simple q : op_emits autosync (Oadd_simple_query q) [Fquery q]
| em_query q ps pf rf n vs :
    params_write pf ps vs ->
    op_emits autosync (Oadd_query q ps pf rf n)
      (Fparse {| p_statement_name := []; p_query := q; p_oids := map pr_oid ps |} ::
       execute_messages [] pf vs rf n ++ sync_if autosync)
| em_prepare q name oids :
    op_emits autosync (Oadd_prepare q name oids)
      (Fparse {| p_statement_name := name; p_query := q; p_oids := oids |} :: sync_if autosync)
| em_execute name ps pf rf n vs :
    params_write pf ps vs ->
    op_emits autosync (Oadd_execute name ps pf rf n)
      (execute_messages name pf vs rf n ++ sync_if autosync)
| em_describe_statement name :
    op_emits autosync (Oadd_describe_statement name)
      (Fdescribe {| d_type := ps_statement; d_name := name |} :: sync_if autosync)
| em_describe_portal name :
    op_emits autosync (Oadd_describe_portal name)
      (Fdescribe {| d_type := ps_portal; d_name := name |} :: sync_if autosync)
| em_close_statement name :
    op_emits autosync (Oadd_close_statement name)
      (Fclose {| c_type := ps_statement; c_name := name |} :: sync_if autosync)
| em_close_portal name :
    op_emits autosync (Oadd_close_portal name)
      (Fclose {| c_type := ps_portal; c_name := name |} :: sync_if autosync)
| em_bind name ps pf portal rf vs :
    params_write pf ps vs ->
    op_emits autosync (Oadd_bind name ps pf portal rf)
      [Fbind_msg portal name (format_codes_of pf) vs (format_codes_of rf)]
| em_sync : op_emits autosync Oadd_sync [Fsync]
| em_flush : op_emits autosync Oadd_flush [Fflush]
| em_parse m : op_emits autosync (Oadd_parse m) [Fparse m]
| em_describe m : op_emits autosync (Oadd_describe m) [Fdescribe m]
| em_close m : op_emits autosync (Oadd_close m) [Fclose m]
| em_execute_msg m : op_emits autosync (Oadd_execute_msg m) [Fexecute m].

(** The type recorded for a message; only these are added to requests. *)
Definition type_of (m : frontend_message) : request_message_type :=
  match m with
  | Fbind_msg _ _ _ _ _ => rt_bind
  | Fdescribe _ => rt_describe
  | Fclose _ => rt_close
  | Fparse _ => rt_parse
  | Fexecute _ => rt_execute
  | Fflush => rt_flush
  | Fquery _ => rt_query
  | _ => rt_sync
  end.

Definition message_fits (m : frontend_message) : Prop :=
  counts_fit m /\ Z.of_nat (length (frontend_body m)) + 4 <= INT32_MAX.

(** [r] with messages appended. *)
Definition extended (r : request) (ms : list frontend_message) : request :=
  Req (rq_buffer r ++ concat (map frontend_wire ms)) (rq_types r ++ map type_of ms) (rq_autosync r).

Lemma extended_app r ms ms' : extended (extended r ms) ms' = extended r (ms ++ ms').
Proof.
  unfold extended. simpl. by rewrite !map_app, concat_app, !app_assoc.
Qed.

Lemma extended_nil r : extended r [] = r.
Proof. destruct r. unfold extended. simpl. by rewrite !app_nil_r. Qed.

(** ** Building appends the messages *)

(** [f] appends the messages [ms] whenever they fit. *)
Definition appends (f : R) (ms : list frontend_message) (autosync : bool) : Prop :=
  forall r, rq_autosync r = autosync -> Forall message_fits ms ->
    vec_ok (rq_buffer r ++ concat (map frontend_wire ms)) -> f r = (None, extended r ms).

Lemma appends_one ser type m a : (forall b, ser b = serialize m b) -> type = type_of m ->
  appends (add_advanced_impl ser type) [m] a.
Proof.
  intros Hs -> r _ Hf Hv. inversion_clear Hf as [|? ? [Hc Hl] _]. simpl in Hv. rewrite app_nil_r in Hv.
  unfold add_advanced_impl. rewrite Hs, serialize_appends by done.
  unfold extended. simpl. by rewrite app_nil_r.
Qed.

Lemma appends_then f g ms ms' a : appends f ms a -> appends g ms' a -> appends (f >> g) (ms ++ ms') a.
Proof.
  intros Hf Hg r Ha Hfit Hv. apply Forall_app in Hfit as [H1 H2].
  rewrite map_app, concat_app in Hv. unfold andthen.
  rewrite Hf; [|done|done|].
  - rewrite Hg; [by rewrite extended_app|done|done|]. simpl. by rewrite <- app_assoc.
  - unfold vec_ok in *. rewrite !length_app in *. lia.
Qed.

Lemma appends_sync a : appends maybe_add_sync (sync_if a) a.
Proof.
  intros r Ha Hf Hv. unfold maybe_add_sync. rewrite Ha. destruct a; simpl in *.
  - by apply (appends_one _ _ Fsync true).
  - by rewrite extended_nil.
Qed.

Lemma bind_params_write pf ps vs : params_write pf ps vs ->
  forall ctx, bind_params ps pf ctx = write_params vs ctx.
Proof.
  induction 1 as [|p v ps vs Hp _ IH]; intros ctx; [done|].
  simpl. rewrite Hp. apply IH.
Qed.

Lemma serialize_bind_ext portal name pc fn fn' rc b : (forall ctx, fn ctx = fn' ctx) ->
  serialize_bind {| b_portal_name := portal; b_statement_name := name; parameter_fmt_codes := pc;
                    parameters_fn := fn; result_fmt_codes := rc |} b =
  serialize_bind {| b_portal_name := portal; b_statement_name := name; parameter_fmt_codes := pc;
                    parameters_fn := fn'; result_fmt_codes := rc |} b.
Proof. intros H. unfold serialize_bind, serialize_params. simpl. by rewrite H. Qed.

Lemma appends_bind name ps pf portal rf vs a : params_write pf ps vs ->
  appends (add_bind name ps pf portal rf)
    [Fbind_msg portal name (format_codes_of pf) vs (format_codes_of rf)] a.
Proof.
  intros H. apply appends_one; [|done]. intros b. simpl.
  by apply serialize_bind_ext, bind_params_write.
Qed.

Lemma appends_execute name ps pf rf n vs a : params_write pf ps vs ->
  appends (add_execute name ps pf rf n) (execute_messages name pf vs rf n ++ sync_if a) a.
Proof.
  intros H. unfold add_execute. apply appends_then; [|apply appends_sync].
  apply (appends_then _ _ [_; _] [_]); [|by apply appends_one].
  apply (appends_then _ _ [_] [_]); [by apply appends_bind|by apply appends_one].
Qed.

Lemma op_appends a op ms : op_emits a op ms -> appends (run_op op) ms a.
Proof.
  intros He. destruct He; simpl run_op; try (by apply appends_one).
  - apply (appends_then _ _ [_] _); [by apply appends_one|by apply appends_execute].
  - apply (appends_then _ _ [_] _); [by apply appends_one|apply appends_sync].
  - by apply appends_execute.
  - apply (appends_then _ _ [_] _); [by apply appends_one|apply appends_sync].
  - apply (appends_then _ _ [_] _); [by apply appends_one|apply appends_sync].
  - apply (appends_then _ _ [_] _); [by apply appends_one|apply appends_sync].
  - apply (appends_then _ _ [_] _); [by apply appends_one|apply appends_sync].
  - by apply appends_bind.
Qed.

(** C37: Each builder function appends to the payload exactly the wire encoding of
    the messages it stands for, records their types in the same order, adds the
    trailing sync exactly when autosync is on, and throws nothing, provided the
    messages fit the protocol's limits. *)
Theorem request_op_exact op ms r :
  op_emits (rq_autosync r) op ms -> Forall message_fits ms ->
  vec_ok (rq_buffer r ++ concat (map frontend_wire ms)) ->
  run_op op r = (None, extended r ms).
Proof. intros He Hf Hv. by apply (op_appends _ _ _ He). Qed.

(** An Int4 parameter with value 1, as [parameter_ref] would hold it. *)
Definition sample_param : parameter_ref := {|
  pr_oid := 23;
  pr_text b := (None, b ++ str "1");
  pr_binary b := (None, b ++ be_encode 4 1)
|}.

Lemma request_op_exact_witness :
  exists r, run_op (Oadd_query (str "SELECT $1") [sample_param] fmt_binary fmt_text 0)
    (make_request true) = (None, r) /\
  rq_types r = [rt_parse; rt_bind; rt_describe; rt_execute; rt_sync].
Proof.
  eexists. split.
  - eapply (request_op_exact (Oadd_query (str "SELECT $1") [sample_param] fmt_binary fmt_text 0) _
              (make_request true)).
    + apply (em_query true (str "SELECT $1") [sample_param] fmt_binary fmt_text 0 [be_encode 4 1]).
      repeat constructor.
    + repeat constructor; vm_compute; discriminate.
    + vm_compute. reflexivity.
  - reflexivity.
Defined.

(** ** Autosync requests have the batch structure *)

Lemma batches_app ts ts' : batches ts -> batches ts' -> batches (ts ++ ts').
Proof.
  induction 1; intros H'; simpl; [done|constructor; auto|].
  rewrite <- app_assoc. constructor; auto.
Qed.

(** [f] does not change autosync, and if it does not throw it records [ts]. *)
Definition records (f : R) (ts : list request_message_type) : Prop :=
  forall r r', f r = (None, r') -> rq_types r' = rq_types r ++ ts /\ rq_autosync r' = rq_autosync r.

Lemma records_one ser t : records (add_advanced_impl ser t) [t].
Proof.
  intros r r'. unfold add_advanced_impl. destruct (ser (rq_buffer r)) as [[e|] b]; [done|].
  by intros [= <-].
Qed.

Lemma records_then f g ts ts' : records f ts -> records g ts' -> records (f >> g) (ts ++ ts').
Proof.
  intros Hf Hg r r'. unfold andthen. destruct (f r) as [[e|] r1] eqn:E; [done|]. intros H.
  destruct (Hf _ _ E) as [Ht Ha], (Hg _ _ H) as [Ht' Ha'].
  split; [by rewrite Ht', Ht, <- app_assoc|congruence].
Qed.

(** On an autosync request, [f >> maybe_add_sync] records a closed batch. *)
Lemma records_sync f ts r r' : records f ts -> rq_autosync r = true ->
  (f >> maybe_add_sync) r = (None, r') ->
  rq_types r' = rq_types r ++ ts ++ [rt_sync] /\ rq_autosync r' = true.
Proof.
  intros Hf Ha. unfold andthen. destruct (f r) as [[e|] r1] eqn:E; [done|].
  destruct (Hf _ _ E) as [Ht Ha']. unfold maybe_add_sync. rewrite Ha', Ha. intros H.
  destruct (records_one _ _ _ _ H) as [Ht' Ha'']. rewrite Ht', Ht, Ha'', Ha', Ha. by rewrite <- app_assoc.
Qed.

Lemma andthen_assoc f g h r : ((f >> g) >> h) r = (f >> (g >> h)) r.
Proof. unfold andthen. by destruct (f r) as [[]]. Qed.

Lemma closed_batch pre : Forall (fun t => t <> rt_query /\ t <> rt_sync) pre -> batches (pre ++ [rt_sync]).
Proof. intros. repeat constructor. done. Qed.

Lemma high_level_batches op r r' : high_level op = true -> rq_autosync r = true ->
  run_op op r = (None, r') ->
  exists ts, rq_types r' = rq_types r ++ ts /\ ts <> [] /\ batches ts /\ rq_autosync r' = true.
Proof.
  intros Hh Ha H.
  assert (forall f ts, records f ts -> Forall (fun t => t <> rt_query /\ t <> rt_sync) ts ->
    (f >> maybe_add_sync) r = (None, r') ->
    exists ts, rq_types r' = rq_types r ++ ts /\ ts <> [] /\ batches ts /\ rq_autosync r' = true) as Hb.
  { intros f ts Hf Hts Hr. destruct (records_sync _ _ _ _ Hf Ha Hr) as [Ht Ha'].
    exists (ts ++ [rt_sync]). split; [done|]. split; [by destruct ts|]. split; [by apply closed_batch|done]. }
  assert (forall name ps pf rf n, records (add_bind name ps pf [] rf >>
            add_describe {| d_type := ps_portal; d_name := [] |} >>
            add_execute_msg {| e_portal_name := []; max_num_rows := n |})
            [rt_bind; rt_describe; rt_execute]) as Hx.
  { intros. apply (records_then _ _ [_; _] [_]); [|apply records_one].
    apply (records_then _ _ [_] [_]); apply records_one. }
  destruct op; try done; simpl in H.
  - destruct (records_one _ _ _ _ H) as [Ht Ha']. exists [rt_query]. rewrite Ha'.
    split; [done|]. split; [done|]. by repeat constructor.
  - unfold add_query, add_execute in H. rewrite <- andthen_assoc in H.
    eapply (Hb _ [rt_parse; rt_bind; rt_describe; rt_execute]); [|by repeat constructor|exact H].
    apply (records_then _ _ [_] [_; _; _]); [apply records_one|apply Hx].
  - eapply (Hb _ [rt_parse]); [apply records_one|by repeat constructor|exact H].
  - eapply (Hb _ [rt_bind; rt_describe; rt_execute]); [apply Hx|by repeat constructor|exact H].
  - eapply (Hb _ [rt_describe]); [apply records_one|by repeat constructor|exact H].
  - eapply (Hb _ [rt_describe]); [apply records_one|by repeat constructor|exact H].
  - eapply (Hb _ [rt_close]); [apply records_one|by repeat constructor|exact H].
  - eapply (Hb _ [rt_close]); [apply records_one|by repeat constructor|exact H].
Qed.

Lemma run_ops_batches ops : forall r r', Forall (fun op => high_level op = true) ops ->
  rq_autosync r = true -> batches (rq_types r) -> run_ops ops r = (None, r') ->
  batches (rq_types r') /\ (rq_types r <> [] \/ ops <> [] -> rq_types r' <> []).
Proof.
  induction ops as [|op ops IH]; intros r r' Hh Ha Hb H; simpl in H.
  - inversion H; subst. naive_solver.
  - inversion_clear Hh as [|? ? Hop Hops]. unfold andthen in H.
    destruct (run_op op r) as [[e|] r1] eqn:E; [done|].
    destruct (high_level_batches _ _ _ Hop Ha E) as (ts & Ht & Hne & Hts & Ha').
    destruct (IH r1 r') as [Hb' Hne']; [done|done| |done|].
    + rewrite Ht. by apply batches_app.
    + split; [done|]. intros _. apply Hne'. left. rewrite Ht. by destruct (rq_types r), ts.
Qed.

(** A request built on autosync with any sequence of high-level builder calls
    that throw nothing, at least one of them, is accepted by [check_request]. *)
Theorem autosync_requests_check ops r :
  Forall (fun op => high_level op = true) ops -> ops <> [] ->
  run_ops ops (make_request true) = (None, r) -> check_request r = None.
Proof.
  intros Hh Hne H.
  destruct (run_ops_batches ops (make_request true) r Hh eq_refl batches_nil H) as [Hb Hn].
  unfold check_request. destruct (rq_types r) eqn:E; [by destruct Hn; [right|]|].
  by apply batches_check_types.
Qed.

Lemma autosync_requests_check_witness :
  exists r, run_ops [Oadd_simple_query (str "BEGIN");
                     Oadd_execute (str "stmt") [sample_param] fmt_text fmt_text 0] (make_request true)
            = (None, r) /\ check_request r = None.
Proof.
  eexists. split; [vm_compute; reflexivity|].
  apply (autosync_requests_check [Oadd_simple_query (str "BEGIN");
                     Oadd_execute (str "stmt") [sample_param] fmt_text fmt_text 0]).
  - repeat constructor.
  - discriminate.
  - vm_compute. reflexivity.
Defined.

(** ** After a throw *)

(** A builder call that throws does not restore the payload: preparing a
    statement with more OIDs than an Int16 counts throws [value_too_big], records
    no message type, and leaves the beginning of a Parse message with length zero
    in the payload. *)
Theorem failed_add_keeps_bytes r q name oids : Z.of_nat (length oids) > INT16_MAX ->
  add_prepare q name oids r =
  (Some (client value_too_big),
   Req (rq_buffer r ++ ch "P" :: zeros 4 ++ cstr name ++ cstr q) (rq_types r) (rq_autosync r)).
Proof.
  intros H. unfold add_prepare, andthen, add_parse, add_advanced_impl, serialize_parse.
  cbn [p_oids p_statement_name p_query].
  destruct (Z.gtb_spec (Z.of_nat (length oids)) INT16_MAX); [|lia].
  autorewrite with compose. cbn [sc_add_error err_ buffer_ composing keep_first app]. done.
Qed.

Lemma failed_add_keeps_bytes_witness :
  rq_buffer (snd (add_prepare [] [] (replicate 32768 23) (make_request true))) =
  ch "P" :: zeros 4 ++ cstr [] ++ cstr [].
Proof.
  rewrite (failed_add_keeps_bytes (make_request true) [] [] (replicate 32768 23));
    [reflexivity|vm_compute; reflexivity].
Defined.
