(* ===== verification/ReadResponse.v ===== *)
(** * Reading the response to a request ([include/nativepg/responses/response_handler.hpp],
    [include/nativepg/protocol/read_response_fsm.hpp], [src/src/read_response_fsm.cpp])

    [ResponseHandler] is the [response_handler] concept: what the state machine
    asks of the object that receives the messages.  [read_response_fsm] is the
    machine; its member functions are state-passing functions whose result is
    [None] when a [BOOST_ASSERT] fails or [messages()] is indexed out of range. *)

From stdpp Require Import base list option.
From Stdlib Require Import ZArith Lia.
From S2P Require Import Prelude Errors Views BackendMessages Request.

(** ** Response handlers *)

(** The alternatives of [any_request_message]. *)
Inductive any_request_message :=
| Abind_complete
| Aclose_complete
| Acommand_complete (v : command_complete)
| Adata_row (v : data_row)
| Aparameter_description (v : parameter_description)
| Arow_description (v : row_description)
| Aempty_query_response
| Aportal_suspended
| Aerror_response (v : error_notice_fields)
| Aparse_complete
| Amessage_skipped.

Record handler_setup_result := { hs_ec : error_code; hs_offset : nat }.
Definition setup_failed (ec : error_code) : handler_setup_result := {| hs_ec := ec; hs_offset := 0 |}.
Definition setup_ok (offset : nat) : handler_setup_result := {| hs_ec := None; hs_offset := offset |}.

(** [diagnostics] is the message it holds. *)
Record extended_error := EE { code : error_code; diag : bytes }.
Definition no_error : extended_error := EE None [].

(** The [response_handler] concept.  [None] is a failed assertion or an access
    out of range. *)
Class ResponseHandler (H : Type) := {
  setup : request -> nat -> H -> option (handler_setup_result * H);
  on_message : any_request_message -> nat -> H -> option H;
  result : H -> extended_error
}.

(** The value-initialised [row_description]. *)
Definition empty_row_description : row_description :=
  {| field_descriptions := FPV 0 [] |}.

(** ** The state machine *)

Inductive state_t :=
| msg_first
| query_first
| query_needs_ready
| query_rows
| exec_copy_out
| exec_copy_out_needs_command_complete
| query_copy_out
| query_copy_out_needs_command_complete.

#[global] Instance state_t_eq_dec : EqDecision state_t.
Proof. solve_decision. Defined.

(** [read_response_fsm::result] *)
Inductive fsm_result := Rdone (ec : error_code) | Rread.

Record read_response_fsm (H : Type) := Fsm {
  req_ : request;
  handler_ : H;
  current_ : nat;
  state_ : state_t;
  allow_copy_ : bool
}.
Arguments Fsm {H} _ _ _ _ _.
Arguments req_ {H} _.
Arguments handler_ {H} _.
Arguments current_ {H} _.
Arguments state_ {H} _.
Arguments allow_copy_ {H} _.

(** What a member function does: the value returned and the machine afterwards. *)
Abbreviation M H := (option (fsm_result * read_response_fsm H)).

Section fsm.
Context {H : Type} `{!ResponseHandler H}.

Definition make_fsm (req : request) (handler : H) (allow_copy : bool) : read_response_fsm H :=
Fsm req handler 0 msg_first allow_copy.

Definition messages (f : read_response_fsm H) : list request_message_type := rq_types (req_ f).

Definition get_remaining_messages (f : read_response_fsm H) : list request_message_type :=
drop (current_ f) (messages f).

Definition set_state (s : state_t) (f : read_response_fsm H) : read_response_fsm H :=
Fsm (req_ f) (handler_ f) (current_ f) s (allow_copy_ f).
Definition incr_current (f : read_response_fsm H) : read_response_fsm H :=
Fsm (req_ f) (handler_ f) (S (current_ f)) (state_ f) (allow_copy_ f).

Definition call_handler (msg : any_request_message) (f : read_response_fsm H)
: option (read_response_fsm H) :=
h ← on_message msg (current_ f) (handler_ f);
Some (Fsm (req_ f) h (current_ f) (state_ f) (allow_copy_ f)).

Definition unexpected (f : read_response_fsm H) : M H :=
Some (Rdone (Some (client unexpected_message)), f).

(** The [for] loop of [handle_error] over the messages still to go; running
past the end is the [BOOST_ASSERT(false)]. *)
Fixpoint skip_to_sync (rest : list request_message_type) (f : read_response_fsm H) : M H :=
match rest with
| [] => None
| rt_sync :: _ => Some (Rread, f)
| rt_flush :: rest' => skip_to_sync rest' (incr_current f)
| _ :: rest' => f ← call_handler Amessage_skipped f; skip_to_sync rest' (incr_current f)
end.

Definition handle_error (err : error_notice_fields) (f : read_response_fsm H) : M H :=
f ← call_handler (Aerror_response err) f;
let f := set_state msg_first (incr_current f) in
skip_to_sync (get_remaining_messages f) f.

Definition advance (f : read_response_fsm H) : M H :=
let f := incr_current f in
if (length (messages f) <=? current_ f)%nat then Some (Rdone None, f) else Some (Rread, f).

Definition handle_bind (msg : any_backend_message) (f : read_response_fsm H) : M H :=
if bool_decide (state_ f = msg_first) then
match msg with
| Merror_response e => handle_error e f
| Mbind_complete => f ← call_handler Abind_complete f; advance f
| _ => unexpected f
end
else None.

Definition handle_close (msg : any_backend_message) (f : read_response_fsm H) : M H :=
if bool_decide (state_ f = msg_first) then
match msg with
| Merror_response e => handle_error e f
| Mclose_complete => f ← call_handler Aclose_complete f; advance f
| _ => unexpected f
end
else None.

Definition handle_describe (msg : any_backend_message) (f : read_response_fsm H) : M H :=
if bool_decide (state_ f = msg_first) then
match msg with
| Merror_response e => handle_error e f
| Mrow_description d => f ← call_handler (Arow_description d) f; advance f
| Mno_data => f ← call_handler (Arow_description empty_row_description) f; advance f
| _ => unexpected f
end
else None.

Definition handle_execute (msg : any_backend_message) (f : read_response_fsm H) : M H :=
match state_ f with
| msg_first =>
match msg with
| Mcopy_out_response _ =>
if negb (allow_copy_ f) then Some (Rdone (Some (client copy_not_allowed)), f)
else
f ← call_handler (Arow_description empty_row_description) f;
Some (Rread, set_state exec_copy_out f)
| Merror_response e => handle_error e f
| Mcommand_complete v => f ← call_handler (Acommand_complete v) f; advance f
| Mempty_query_response => f ← call_handler Aempty_query_response f; advance f
| Mportal_suspended => f ← call_handler Aportal_suspended f; advance f
| Mdata_row v => f ← call_handler (Adata_row v) f; Some (Rread, f)
| _ => unexpected f
end
| exec_copy_out =>
match msg with
| Mcopy_data _ => Some (Rread, f)
| Merror_response e => handle_error e f
| Mcopy_done => Some (Rread, set_state exec_copy_out_needs_command_complete f)
| _ => unexpected f
end
| exec_copy_out_needs_command_complete =>
match msg with
| Merror_response e => handle_error e f
| Mcommand_complete v =>
f ← call_handler (Acommand_complete v) f;
advance (set_state msg_first f)
| _ => unexpected f
end
| _ => unexpected f
end.

Definition handle_parse (msg : any_backend_message) (f : read_response_fsm H) : M H :=
if bool_decide (state_ f = msg_first) then
match msg with
| Merror_response e => handle_error e f
| Mparse_complete => f ← call_handler Aparse_complete f; advance f
| _ => unexpected f
end
else None.

Definition handle_sync (msg : any_backend_message) (f : read_response_fsm H) : M H :=
if bool_decide (state_ f = msg_first) then
match msg with
| Mready_for_query _ => advance f
| _ => unexpected f
end
else None.

(** The error branches of [handle_query]: the error, then ReadyForQuery. *)
Definition query_error (e : error_notice_fields) (f : read_response_fsm H) : M H :=
f ← call_handler (Aerror_response e) (set_state query_needs_ready f);
Some (Rread, f).

Definition handle_query (msg : any_backend_message) (f : read_response_fsm H) : M H :=
match state_ f with
| msg_first | query_first =>
match msg with
| Mcopy_out_response _ =>
if negb (allow_copy_ f) then Some (Rdone (Some (client copy_not_allowed)), f)
else
f ← call_handler (Arow_description empty_row_description) f;
Some (Rread, set_state query_copy_out f)
| Merror_response e => query_error e f
| Mrow_description d =>
f ← call_handler (Arow_description d) (set_state query_rows f);
Some (Rread, f)
| Mcommand_complete v =>
f ← call_handler (Arow_description empty_row_description) (set_state query_first f);
f ← call_handler (Acommand_complete v) f;
Some (Rread, f)
| Mempty_query_response =>
if bool_decide (state_ f = msg_first) then
f ← call_handler Aempty_query_response (set_state query_needs_ready f);
Some (Rread, f)
else unexpected f
| Mready_for_query _ =>
if bool_decide (state_ f = query_first) then advance (set_state msg_first f)
else unexpected f
| _ => unexpected f
end
| query_rows =>
match msg with
| Merror_response e => query_error e f
| Mdata_row v => f ← call_handler (Adata_row v) f; Some (Rread, f)
| Mcommand_complete v =>
f ← call_handler (Acommand_complete v) (set_state query_first f);
Some (Rread, f)
| _ => unexpected f
end
| query_needs_ready =>
match msg with
| Mready_for_query _ => advance (set_state msg_first f)
| _ => unexpected f
end
| query_copy_out =>
match msg with
| Mcopy_data _ => Some (Rread, f)
| Merror_response e => query_error e f
| Mcopy_done => Some (Rread, set_state query_copy_out_needs_command_complete f)
| _ => unexpected f
end
| query_copy_out_needs_command_complete =>
match msg with
| Merror_response e => query_error e f
| Mcommand_complete v =>
f ← call_handler (Acommand_complete v) f;
Some (Rread, set_state query_first f)
| _ => unexpected f
end
| _ => None
end.

(** The messages [resume] lets through at any point. *)
Definition is_async (msg : any_backend_message) : bool :=
match msg with
| Mnotice_response _ | Mnotification_response _ | Mparameter_status _ => true
| _ => false
end.

(** The [while] loop of [resume] over the messages still to go: it moves past
the flushes; an empty list is [messages()] indexed out of range. *)
Fixpoint dispatch (msg : any_backend_message) (rest : list request_message_type)
(f : read_response_fsm H) : M H :=
match rest with
| [] => None
| rt_bind :: _ => handle_bind msg f
| rt_close :: _ => handle_close msg f
| rt_describe :: _ => handle_describe msg f
| rt_execute :: _ => handle_execute msg f
| rt_flush :: rest' => dispatch msg rest' (incr_current f)
| rt_parse :: _ => handle_parse msg f
| rt_query :: _ => handle_query msg f
| rt_sync :: _ => handle_sync msg f
end.

Definition resume (msg : any_backend_message) (f : read_response_fsm H) : M H :=
if is_async msg then Some (Rread, f)
else dispatch msg (get_remaining_messages f) f.

(** Messages handed over in order until the machine is done: its last result,
the machine and the messages left over. *)
Fixpoint feed (msgs : list any_backend_message) (f : read_response_fsm H)
: option (fsm_result * read_response_fsm H * list any_backend_message) :=
match msgs with
| [] => Some (Rread, f, [])
| m :: msgs' =>
'(r, f') ← resume m f;
match r with
| Rread => feed msgs' f'
| Rdone _ => Some (r, f', msgs')
end
end.
End fsm.
