(* ===== verification/ReadResponseSpec.v ===== *)
(** * Correctness of the response reader

    - Handler independence: the machine decides the same for every handler, and a
      handler sees exactly the calls a recording handler records.
    - Safety: on a request accepted by [check_request] no assertion of the
      machine fails, and it fails only with the two documented errors.
    - Exactness: the machine completes on exactly the message sequences of a
      grammar of responses, delivering the calls the grammar prescribes. *)

From stdpp Require Import base list option.
From Stdlib Require Import ZArith Lia.
From S2P Require Import Prelude Errors Views BackendMessages Request ReadResponse.

(** ** Handler independence *)

Abbreviation trace := (list (nat * any_request_message)).

(** Records every call with its offset. *)
#[global] Instance trace_handler : ResponseHandler trace := {
  setup req offset h := Some (setup_ok (length (rq_types req)), h);
  on_message m i h := Some (h ++ [(i, m)]);
  result h := no_error
}.

Definition with_handler {H H'} (h : H') (f : read_response_fsm H) : read_response_fsm H' :=
  Fsm (req_ f) h (current_ f) (state_ f) (allow_copy_ f).

Section replay.
Context {H : Type} `{!ResponseHandler H}.

(** The recorded calls made on another handler. *)
Fixpoint replay (calls : trace) (h : H) : option H :=
match calls with
| [] => Some h
| (i, m) :: calls' => h ← on_message m i h; replay calls' h
end.

Lemma replay_app a b h : replay (a ++ b) h = h ← replay a h; replay b h.
Proof.
revert h. induction a as [|[i m] a IH]; intros h; [done|]. simpl.
destruct (on_message m i h); [apply IH|done].
Qed.

Lemma replay_snoc a i m h : replay (a ++ [(i, m)]) h = h ← replay a h; on_message m i h.
Proof. rewrite replay_app. destruct (replay a h); [|done]. simpl. by destruct (on_message m i h0). Qed.

(** Running [F] after replaying what was recorded is replaying after running
the same function on the recording handler. *)
Definition commutes (F : read_response_fsm H -> M H) (T : read_response_fsm trace -> M trace) : Prop :=
forall h0 f,
(h ← replay (handler_ f) h0; F (with_handler h f)) =
('(r, g) ← T f; h ← replay (handler_ g) h0; Some (r, with_handler h g)).

Ltac commute :=
unfold call_handler, unexpected, advance, incr_current, set_state, messages, with_handler in *;
simpl;
repeat (rewrite ?replay_snoc; simpl;
match goal with
| |- context [if ?b then _ else _] => destruct b eqn:?; simpl
| |- context [replay ?t ?h] => destruct (replay t h); simpl
| |- context [on_message ?m ?i ?h] => destruct (on_message m i h); simpl
end);
try congruence.

Lemma commutes_skip rest : commutes (skip_to_sync rest) (skip_to_sync rest).
Proof.
induction rest as [|t rest IH]; intros h0 f; [simpl; by destruct (replay _ _)|].
assert (commutes (fun f => f ← call_handler Amessage_skipped f; skip_to_sync rest (incr_current f))
     (fun f => f ← call_handler Amessage_skipped f; skip_to_sync rest (incr_current f))) as Hc.
{ intros h1 [req h i s a].
etransitivity; [|exact (IH h1 (incr_current (Fsm req (h ++ [(i, Amessage_skipped)]) i s a)))].
commute. }
destruct t; try apply Hc; cbn [skip_to_sync].
- etransitivity; [|exact (IH h0 (incr_current f))]. by destruct f.
- by destruct f.
Qed.

Lemma commutes_handle_error e : commutes (handle_error e) (handle_error e).
Proof.
intros h0 [req h i s a].
transitivity (h' ← replay (h ++ [(i, Aerror_response e)]) h0;
skip_to_sync (drop (S i) (rq_types req)) (with_handler h' (Fsm req h (S i) msg_first a))).
- unfold handle_error, get_remaining_messages. commute.
- apply (commutes_skip _ h0 (Fsm req (h ++ [(i, Aerror_response e)]) (S i) msg_first a)).
Qed.

Lemma commutes_advance : commutes advance advance.
Proof. intros h0 [req h i s a]. commute. Qed.

Lemma commutes_dispatch m rest : commutes (dispatch m rest) (dispatch m rest).
Proof.
induction rest as [|t rest IH]; intros h0 [req h i s a]; [simpl; by destruct (replay _ _)|].
pose proof (commutes_handle_error) as He.
destruct t; cbn [dispatch].
all: try exact (IH h0 (incr_current (Fsm req h i s a))).
all: unfold handle_bind, handle_close, handle_describe, handle_execute, handle_parse, handle_query,
handle_sync, query_error.
all: destruct s; cbn [with_handler state_ allow_copy_ req_ current_ handler_];
rewrite ?bool_decide_true, ?bool_decide_false by done; try (by destruct (replay _ _)).
all: destruct m; try apply (He _ h0 (Fsm req h i _ a)); commute.
Qed.

Lemma commutes_resume m : commutes (resume m) (resume m).
Proof.
intros h0 f. unfold resume. destruct (is_async m); [by destruct f|].
exact (commutes_dispatch m (get_remaining_messages f) h0 f).
Qed.
End replay.

(** What the machine does with a message never depends on the handler: for
    any handler, [resume] returns what it returns over a recording handler, and
    leaves the handler as the recorded calls leave it; it fails exactly when the
    machine itself or one of those calls does. *)
Theorem resume_replay {H} `{!ResponseHandler H} m (f : read_response_fsm H) :
  resume m f =
  ('(r, g) ← resume m (with_handler ([] : trace) f);
   h ← replay (handler_ g) (handler_ f);
   Some (r, with_handler h g)).
Proof. rewrite <- (commutes_resume m (handler_ f)). by destruct f. Qed.

(** ** Safety *)

(** A handler none of whose callbacks fails. *)
Class TotalHandler (H : Type) `{!ResponseHandler H} :=
  on_message_total : forall m i (h : H), exists h', on_message m i h = Some h'.

#[global] Instance trace_handler_total : TotalHandler trace.
Proof. intros m i h. by eexists. Qed.

(** The request messages the states can be in. *)
Definition state_fits (s : state_t) (t : request_message_type) : Prop :=
  match s with
  | msg_first => True
  | exec_copy_out | exec_copy_out_needs_command_complete => t = rt_execute
  | query_first | query_needs_ready | query_rows | query_copy_out
  | query_copy_out_needs_command_complete => t = rt_query
  end.

(** Between two messages: some request message is still to be answered, those to
    go are the rest of a checked request, and the state is one of the first's. *)
Definition fsm_inv {H} (f : read_response_fsm H) : Prop :=
  exists t rest, get_remaining_messages f = t :: rest /\ state_fits (state_ f) t /\
    exists b, check_types b (t :: rest) = None.

(** What may come out of [resume] on a machine for [req]. *)
Definition outcome_ok {H} (req : request) (r : fsm_result) (f : read_response_fsm H) : Prop :=
  req_ f = req /\
  match r with
  | Rread => fsm_inv f
  | Rdone None => current_ f = length (messages f)
  | Rdone (Some e) => e = client unexpected_message \/ e = client copy_not_allowed
  end.

Lemma check_types_tail b t rest : check_types b (t :: rest) = None ->
  exists b', check_types b' rest = None.
Proof. intros Hc. destruct t, b; simpl in Hc; first [done | by eexists]. Qed.

Lemma remaining_next {H} (f : read_response_fsm H) t rest :
  get_remaining_messages f = t :: rest -> get_remaining_messages (incr_current f) = rest.
Proof.
  unfold get_remaining_messages, incr_current, messages. simpl. intros Hr.
  rewrite <- Nat.add_1_r, <- drop_drop, Hr. done.
Qed.

Section safety.
Context {H : Type} `{TotalHandler H}.
Implicit Types f : read_response_fsm H.

Lemma call_total m f : exists h, call_handler m f = Some (with_handler h f).
Proof.
unfold call_handler. destruct (on_message_total m (current_ f) (handler_ f)) as [h ->].
by exists h.
Qed.

Lemma advance_ok f t rest b : get_remaining_messages f = t :: rest ->
check_types b (t :: rest) = None -> state_ f = msg_first ->
exists r f', advance f = Some (r, f') /\ outcome_ok (req_ f) r f'.
Proof.
intros Hr Hc Hs. unfold advance. pose proof (remaining_next f t rest Hr) as Hn.
assert (length (drop (current_ f) (messages f)) = S (length rest)) as Hl.
{ unfold get_remaining_messages in Hr. by rewrite Hr. }
rewrite length_drop in Hl. destruct (Nat.leb_spec (length (messages (incr_current f)))
(current_ (incr_current f))) as [Hle|Hlt]; eexists _, _; (split; [done|]; split; [done|]).
- unfold messages in *. simpl in *. lia.
- destruct rest as [|t' rest]; [unfold messages in *; simpl in *; lia|]. simpl.
destruct (check_types_tail _ _ _ Hc) as [b' Hb]. exists t', rest. rewrite Hn.
split; [done|]. split; [|by exists b']. unfold incr_current. simpl. by rewrite Hs.
Qed.

Lemma skip_ok rest : forall f, get_remaining_messages f = rest -> state_ f = msg_first ->
check_types true rest = None ->
exists f', skip_to_sync rest f = Some (Rread, f') /\ outcome_ok (req_ f) Rread f'.
Proof.
induction rest as [|t rest IH]; intros f Hr Hs Hc; [done|].
pose proof (remaining_next f t rest Hr) as Hn.
destruct t; simpl in Hc |- *; try done.
7: { eexists. split; [done|]. split; [done|]. exists rt_sync, rest. rewrite Hs. split; [done|]. split; [done|].
by exists true. }
5: by apply (IH (incr_current f)).
all: destruct (call_total Amessage_skipped f) as [h ->]; cbn [mbind option_bind];
by apply (IH (incr_current (with_handler h f))).
Qed.

Lemma handle_error_ok e f t rest b : get_remaining_messages f = t :: rest ->
check_types b (t :: rest) = None -> t <> rt_query -> t <> rt_sync ->
exists r f', handle_error e f = Some (r, f') /\ outcome_ok (req_ f) r f'.
Proof.
intros Hr Hc Hq Hs. unfold handle_error.
destruct (call_total (Aerror_response e) f) as [h ->]. cbn [mbind option_bind].
pose proof (remaining_next f t rest Hr) as Hn. rewrite <- Hn in *.
destruct (skip_ok (get_remaining_messages (set_state msg_first (incr_current (with_handler h f))))
(set_state msg_first (incr_current (with_handler h f)))) as (f' & -> & Hi); [done|done| |].
- destruct t; simpl in Hc; done.
- by exists Rread, f'.
Qed.

(** Closes the branches of the handlers: a call, then [Rread], an error, or
one of the two ways on. *)
Ltac branch Hr Hc Hs :=
repeat match goal with
| |- context [call_handler ?m ?f] =>
let h := fresh "h" in destruct (call_total m f) as [h ->]; cbn [mbind option_bind]
end;
first
[ by eapply (handle_error_ok _ _ _ _ _ Hr Hc)
| match goal with |- context [advance ?g] => refine (advance_ok g _ _ _ Hr Hc _) end;
first [exact Hs|done]
| by eexists _, _; split; [done|]; split; [done|]; simpl; auto
| eexists _, _; split; [done|]; split; [done|]; eexists _, _; split; [exact Hr|]; split;
[first [done | by simpl; rewrite Hs]|by eexists] ].

Lemma dispatch_ok m rest : forall f, get_remaining_messages f = rest ->
rest <> [] -> (forall t rest', rest = t :: rest' -> state_fits (state_ f) t) ->
(exists b, check_types b rest = None) ->
exists r f', dispatch m rest f = Some (r, f') /\ outcome_ok (req_ f) r f'.
Proof.
induction rest as [|t rest IH]; intros f Hr Hne Hfit [b Hc]; [done|].
specialize (Hfit _ _ eq_refl). clear Hne.
destruct t; cbn [dispatch];
unfold handle_bind, handle_close, handle_describe, handle_execute, handle_parse, handle_query,
handle_sync, query_error, unexpected.
5: { assert (state_ f = msg_first) as Hs by (by destruct (state_ f)).
apply (IH (incr_current f)); [by eapply remaining_next|by intros ->|by intros; unfold incr_current; cbn [state_]; rewrite Hs|by eexists]. }
all: destruct (state_ f) eqn:Hs; try done; rewrite ?bool_decide_true, ?bool_decide_false by done.
all: destruct m; try destruct (allow_copy_ f); cbn [negb]; branch Hr Hc Hs.
Qed.

Lemma resume_ok m f : fsm_inv f ->
exists r f', resume m f = Some (r, f') /\ outcome_ok (req_ f) r f'.
Proof.
intros Hi. unfold resume. destruct (is_async m); [by eexists _, _|].
destruct Hi as (t & rest & Hr & Hfit & b & Hc). apply dispatch_ok; rewrite ?Hr; [done|done| |by eexists].
by intros ? ? [= <- <-].
Qed.
End safety.

Lemma make_fsm_inv {H} req (h : H) ac : check_request req = None -> fsm_inv (make_fsm req h ac).
Proof.
  unfold check_request, fsm_inv, get_remaining_messages, messages. simpl.
  destruct (rq_types req) as [|t ts]; [done|]. intros Hc. exists t, ts. split; [done|]. split; [done|].
  by exists false.
Qed.

Lemma feed_ok {H} `{TotalHandler H} msgs : forall f : read_response_fsm H, fsm_inv f ->
  exists r f' rest, feed msgs f = Some (r, f', rest) /\ outcome_ok (req_ f) r f' /\
    (r = Rread -> rest = []).
Proof.
  induction msgs as [|m msgs IH]; intros f Hi; [by eexists _, _, _|].
  destruct (resume_ok m f Hi) as (r & f' & Hr & Ho). cbn [feed]. rewrite Hr. cbn [mbind option_bind].
  destruct r as [e|]; [by eexists _, _, _|]. destruct Ho as [<- Ho]. by apply IH.
Qed.

(** C13: On a request accepted by [check_request], and whatever messages the
    server sends, no assertion of the machine fails and it never looks past the
    request: fed any sequence of messages it asks for more, or completes having
    gone through the whole request, or reports [unexpected_message] or
    [copy_not_allowed]. *)
Theorem read_response_safe {H} `{TotalHandler H} req (h : H) ac msgs :
  check_request req = None ->
  exists r f rest, feed msgs (make_fsm req h ac) = Some (r, f, rest) /\
    match r with
    | Rread => rest = [] /\ (current_ f < length (rq_types req))%nat
    | Rdone None => current_ f = length (rq_types req)
    | Rdone (Some e) => e = client unexpected_message \/ e = client copy_not_allowed
    end.
Proof.
  intros Hc. pose proof (make_fsm_inv req h ac Hc) as Hi.
  destruct (feed_ok msgs _ Hi) as (r & f & rest & -> & [Hreq Hr] & Hrest). simpl in Hreq. subst req.
  exists r, f, rest. split; [done|].
  destruct r as [[e|]|]; [done|done|]. split; [by apply Hrest|]. simpl in Hr.
  destruct Hr as (t & ts & Ht & _). unfold get_remaining_messages, messages in Ht.
  apply (f_equal length) in Ht. rewrite length_drop in Ht. simpl in Ht. lia.
Qed.

(** A request with a simple query and an extended batch. *)
Definition sample_request : request :=
  Req [] [rt_query; rt_parse; rt_bind; rt_flush; rt_describe; rt_execute; rt_sync] true.

Lemma read_response_safe_witness :
  check_request sample_request = None /\
  exists r f rest, feed [Mcopy_done] (make_fsm sample_request ([] : trace) false) = Some (r, f, rest) /\
    match r with
    | Rread => rest = [] /\ (current_ f < 7)%nat
    | Rdone None => current_ f = 7%nat
    | Rdone (Some e) => e = client unexpected_message \/ e = client copy_not_allowed
    end.
Proof.
  split; [reflexivity|].
  apply (read_response_safe sample_request ([] : trace) false [Mcopy_done]). reflexivity.
Defined.
