(* ===== verification/ReadResponseGrammar.v ===== *)
(** * The responses the reader accepts

    The grammar of responses of [src/src/read_response_fsm.cpp], in the form its
    comments give it: what answers each kind of request message, and how the
    answers follow each other, errors included.  The machine completes on
    exactly the sequences of the grammar, whatever asynchronous messages are
    interleaved, and calls the handler as the grammar says. *)

From stdpp Require Import base list option.
From Stdlib Require Import ZArith Lia.
From S2P Require Import Prelude Errors Views BackendMessages Request ReadResponse ReadResponseSpec.

(** ** The grammar *)

(** Messages, the handler calls they cause, and whether an error ended them. *)
Definition reply_lang : Type := list any_backend_message -> list any_request_message -> bool -> Prop.

(** What follows a CopyOutResponse. *)
Inductive copy_end : reply_lang :=
| ce_ok datas v :
    copy_end (map Mcopy_data datas ++ [Mcopy_done; Mcommand_complete v]) [Acommand_complete v] false
| ce_error datas e : copy_end (map Mcopy_data datas ++ [Merror_response e]) [Aerror_response e] true
| ce_done_error datas e :
    copy_end (map Mcopy_data datas ++ [Mcopy_done; Merror_response e]) [Aerror_response e] true.

(** Rows up to the end of a resultset. *)
Inductive rows_end : reply_lang :=
| re_ok rows v :
    rows_end (map Mdata_row rows ++ [Mcommand_complete v])
             (map Adata_row rows ++ [Acommand_complete v]) false
| re_error rows e :
    rows_end (map Mdata_row rows ++ [Merror_response e])
             (map Adata_row rows ++ [Aerror_response e]) true.

Inductive execute_reply (allow_copy : bool) : reply_lang :=
| er_rows ms cs b : rows_end ms cs b -> execute_reply allow_copy ms cs b
| er_suspended rows :
    execute_reply allow_copy (map Mdata_row rows ++ [Mportal_suspended])
      (map Adata_row rows ++ [Aportal_suspended]) false
| er_empty rows :
    execute_reply allow_copy (map Mdata_row rows ++ [Mempty_query_response])
      (map Adata_row rows ++ [Aempty_query_response]) false
| er_copy rows c ms cs b : allow_copy = true -> copy_end ms cs b ->
    execute_reply allow_copy (map Mdata_row rows ++ Mcopy_out_response c :: ms)
      (map Adata_row rows ++ Arow_description empty_row_description :: cs) b.

(** One resultset of a simple query. *)
Inductive query_item (allow_copy : bool) : reply_lang :=
| qi_rows d ms cs b : rows_end ms cs b ->
    query_item allow_copy (Mrow_description d :: ms) (Arow_description d :: cs) b
| qi_command v :
    query_item allow_copy [Mcommand_complete v]
      [Arow_description empty_row_description; Acommand_complete v] false
| qi_copy c ms cs b : allow_copy = true -> copy_end ms cs b ->
    query_item allow_copy (Mcopy_out_response c :: ms) (Arow_description empty_row_description :: cs) b
| qi_error e : query_item allow_copy [Merror_response e] [Aerror_response e] true.

(** Resultsets up to ReadyForQuery; [first] is false after the first of them. *)
Inductive query_items (allow_copy : bool) : bool -> list any_backend_message ->
    list any_request_message -> Prop :=
| qis_ready s : query_items allow_copy false [Mready_for_query s] []
| qis_item first ms cs ms' cs' : query_item allow_copy ms cs false ->
    query_items allow_copy false ms' cs' -> query_items allow_copy first (ms ++ ms') (cs ++ cs')
| qis_error first ms cs s : query_item allow_copy ms cs true ->
    query_items allow_copy first (ms ++ [Mready_for_query s]) cs
| qis_empty s : query_items allow_copy true [Mempty_query_response; Mready_for_query s] [Aempty_query_response].

(** The answer to one request message. *)
Inductive reply (allow_copy : bool) : request_message_type -> reply_lang :=
| rp_bind : reply allow_copy rt_bind [Mbind_complete] [Abind_complete] false
| rp_close : reply allow_copy rt_close [Mclose_complete] [Aclose_complete] false
| rp_parse : reply allow_copy rt_parse [Mparse_complete] [Aparse_complete] false
| rp_describe d : reply allow_copy rt_describe [Mrow_description d] [Arow_description d] false
| rp_no_data : reply allow_copy rt_describe [Mno_data] [Arow_description empty_row_description] false
| rp_sync s : reply allow_copy rt_sync [Mready_for_query s] [] false
| rp_execute ms cs b : execute_reply allow_copy ms cs b -> reply allow_copy rt_execute ms cs b
| rp_query ms cs : query_items allow_copy true ms cs -> reply allow_copy rt_query ms cs false
| rp_error t e : t = rt_bind \/ t = rt_close \/ t = rt_parse \/ t = rt_describe ->
    reply allow_copy t [Merror_response e] [Aerror_response e] true.

Definition calls_at (i : nat) (cs : list any_request_message) : trace := map (pair i) cs.

(** The calls for the request messages [pre], at offsets from [i], that the server skips. *)
Fixpoint skipped_calls (i : nat) (pre : list request_message_type) : trace :=
  match pre with
  | [] => []
  | rt_flush :: pre' => skipped_calls (S i) pre'
  | _ :: pre' => (i, Amessage_skipped) :: skipped_calls (S i) pre'
  end.

(** The response to the request messages [ts], the first of which has offset [i].
    An error makes the server skip everything up to the next sync. *)
Inductive response (allow_copy : bool) : nat -> list request_message_type ->
    list any_backend_message -> trace -> Prop :=
| rs_nil i : response allow_copy i [] [] []
| rs_flush i ts ms tr : ts <> [] -> response allow_copy (S i) ts ms tr ->
    response allow_copy i (rt_flush :: ts) ms tr
| rs_ok i t ts ms cs ms' tr : reply allow_copy t ms cs false ->
    response allow_copy (S i) ts ms' tr ->
    response allow_copy i (t :: ts) (ms ++ ms') (calls_at i cs ++ tr)
| rs_error i t pre ts ms cs ms' tr : reply allow_copy t ms cs true ->
    (rt_sync ∉ pre) ->
    response allow_copy (S i + length pre) (rt_sync :: ts) ms' tr ->
    response allow_copy i (t :: pre ++ rt_sync :: ts) (ms ++ ms')
      (calls_at i cs ++ skipped_calls (S i) pre ++ tr).

(** ** Completing runs of the recording machine *)

Definition completes (f : read_response_fsm trace) (ms : list any_backend_message) (tr : trace) : Prop :=
  Forall (fun m => is_async m = false) ms /\
  exists f', feed ms f = Some (Rdone None, f', []) /\ handler_ f' = handler_ f ++ tr.

(** The same for the rest of a run, after a call that returned [res]. *)
Definition completes_from (res : M trace) (ms : list any_backend_message) (tr : trace) : Prop :=
  match res with
  | Some (Rread, g) => exists tr', tr = handler_ g ++ tr' /\ completes (with_handler [] g) ms tr'
  | Some (Rdone None, g) => ms = [] /\ tr = handler_ g
  | _ => False
  end.

Lemma replay_trace tr h : replay tr (h : trace) = Some (h ++ tr).
Proof.
  revert h. induction tr as [|[i m] tr IH]; intros h; simpl; [by rewrite app_nil_r|].
  rewrite IH. by rewrite <- app_assoc.
Qed.

Lemma resume_trace m h (f : read_response_fsm trace) : resume m (with_handler (h : trace) f) =
  ('(r, g) ← resume m (with_handler ([] : trace) f); Some (r, with_handler (h ++ handler_ g) g)).
Proof.
  etransitivity; [exact (commutes_resume m h (with_handler ([] : trace) f))|].
  destruct (resume m (with_handler [] f)) as [[r g]|]; [|done]. cbn [mbind option_bind].
  by rewrite replay_trace.
Qed.

Lemma feed_trace ms : forall h (f : read_response_fsm trace), feed ms (with_handler (h : trace) f) =
  ('(r, g, rest) ← feed ms (with_handler ([] : trace) f); Some (r, with_handler (h ++ handler_ g) g, rest)).
Proof.
  induction ms as [|m ms IH]; intros h f; simpl.
  - unfold with_handler. simpl. by rewrite app_nil_r.
  - rewrite resume_trace. destruct (resume m (with_handler [] f)) as [[r g]|]; [|done]. simpl.
    destruct r as [e|]; [done|]. rewrite (IH (h ++ handler_ g) g).
    pose proof (IH (handler_ g) g) as E.
    replace (with_handler (handler_ g) g) with g in E by (by destruct g). rewrite E.
    destruct (feed ms (with_handler [] g)) as [[[r g'] rest]|]; [|done]. simpl. by rewrite app_assoc.
Qed.

Lemma from_read_silent g ms tr : handler_ g = [] ->
  completes_from (Some (Rread, g)) ms tr <-> completes g ms tr.
Proof. destruct g. simpl. intros ->. unfold with_handler. simpl. naive_solver. Qed.

Lemma from_guard (a : bool) e f res ms tr :
  completes_from (if negb a then Some (Rdone (Some e), f) else res) ms tr <->
  a = true /\ completes_from res ms tr.
Proof. destruct a; simpl; naive_solver. Qed.

Lemma completes_nil f tr : ~ completes f [] tr.
Proof. by intros [_ (f' & [=] & _)]. Qed.

Lemma completes_cons f m ms tr : handler_ f = [] ->
  completes f (m :: ms) tr <-> is_async m = false /\ completes_from (resume m f) ms tr.
Proof.
  intros Hh. unfold completes at 1. rewrite Forall_cons_iff, Hh. cbn [feed app].
  destruct (resume m f) as [[[[e|]|] g]|]; cbn [mbind option_bind completes_from].
  - naive_solver.
  - split.
    + intros [[Hm Hms] (f' & [= <- ->] & <-)]. naive_solver.
    + intros [Hm [-> ->]]. split; [done|]. by exists g.
  - pose proof (feed_trace ms (handler_ g) g) as E.
    replace (with_handler (handler_ g) g) with g in E by (by destruct g). rewrite E. clear E. split.
    + intros [[Hm Hms] (f' & Hf & <-)]. split; [done|].
      destruct (feed ms (with_handler [] g)) as [[[r g'] rest]|] eqn:E; [|done].
      cbn [mbind option_bind] in Hf. injection Hf as -> <- ->. exists (handler_ g'). simpl.
      split; [done|]. split; [done|]. by exists g'.
    + intros [Hm (tr' & -> & Hms & g' & Hg & Hh')]. split; [done|]. rewrite Hg. simpl.
      eexists. split; [done|]. simpl in *. by rewrite Hh'.
  - naive_solver.
Qed.

(** ** Splitting a run at the end of a reply *)

(** [ms] and [tr] start with a word of [L] at offset [i], and go on as [K] says. *)
Definition splits (L : reply_lang) (K : bool -> list any_backend_message -> trace -> Prop)
    (i : nat) (ms : list any_backend_message) (tr : trace) : Prop :=
  exists ms1 cs b ms2 tr2, ms = ms1 ++ ms2 /\ tr = calls_at i cs ++ tr2 /\ L ms1 cs b /\ K b ms2 tr2.

(** The trace starts with a call. *)
Definition called (i : nat) (c : any_request_message) (K : trace -> Prop) (tr : trace) : Prop :=
  exists tr', tr = (i, c) :: tr' /\ K tr'.

Lemma called_iff i c (K K' : trace -> Prop) tr : (forall tr, K tr <-> K' tr) ->
  called i c K tr <-> called i c K' tr.
Proof. intros E. unfold called. by setoid_rewrite E. Qed.

Lemma from_read_called g i c ms tr : handler_ g = [(i, c)] ->
  completes_from (Some (Rread, g)) ms tr <-> called i c (completes (with_handler [] g) ms) tr.
Proof. intros Hg. simpl. by rewrite Hg. Qed.

(** What a copy block may end with after CopyDone. *)
Inductive copy_done_end : reply_lang :=
| cde_ok v : copy_done_end [Mcommand_complete v] [Acommand_complete v] false
| cde_error e : copy_done_end [Merror_response e] [Aerror_response e] true.

Lemma copy_end_data d ms cs b : copy_end ms cs b -> copy_end (Mcopy_data d :: ms) cs b.
Proof. intros []; [apply (ce_ok (d :: _))|apply (ce_error (d :: _))|apply (ce_done_error (d :: _))]. Qed.
Lemma rows_end_row v ms cs b : rows_end ms cs b -> rows_end (Mdata_row v :: ms) (Adata_row v :: cs) b.
Proof. intros []; [apply (re_ok (v :: _))|apply (re_error (v :: _))]. Qed.
Lemma execute_reply_row ac v ms cs b :
  execute_reply ac ms cs b -> execute_reply ac (Mdata_row v :: ms) (Adata_row v :: cs) b.
Proof.
  intros []; [by apply er_rows, rows_end_row|apply (er_suspended _ (v :: _))|apply (er_empty _ (v :: _))|].
  by apply (er_copy _ (v :: rows)).
Qed.

Section derivatives.
Variables (K : bool -> list any_backend_message -> trace -> Prop) (i : nat).

Lemma splits_nil L tr : (forall cs b, ~ L [] cs b) -> ~ splits L K i [] tr.
Proof. intros HL (ms1 & cs & b & ms2 & tr2 & E & _ & Hl & _). destruct ms1; [by eapply HL|done]. Qed.

Lemma splits_first L m ms tr : (forall cs b, ~ L [] cs b) ->
splits L K i (m :: ms) tr <-> splits (fun ms' cs b => L (m :: ms') cs b) K i ms tr.
Proof.
intros HL. split.
- intros (ms1 & cs & b & ms2 & tr2 & E & -> & Hl & Hk).
destruct ms1 as [|m' ms1]; [by destruct (HL cs b)|]. injection E as <- ->. by exists ms1, cs, b, ms2, tr2.
- intros (ms1 & cs & b & ms2 & tr2 & -> & -> & Hl & Hk). by exists (m :: ms1), cs, b, ms2, tr2.
Qed.

Lemma splits_last c b ms tr :
splits (fun ms' cs b' => ms' = [] /\ cs = [c] /\ b' = b) K i ms tr <-> called i c (K b ms) tr.
Proof.
split.
- intros (ms1 & cs & b' & ms2 & tr2 & -> & -> & (-> & -> & ->) & Hk). by exists tr2.
- intros (tr' & -> & Hk). by exists [], [c], b, ms, tr'.
Qed.

Lemma splits_call (L : reply_lang) c ms tr :
splits (fun ms' cs b => exists cs', cs = c :: cs' /\ L ms' cs' b) K i ms tr <->
called i c (splits L K i ms) tr.
Proof.
split.
- intros (ms1 & cs & b & ms2 & tr2 & -> & -> & (cs' & -> & Hl) & Hk).
exists (calls_at i cs' ++ tr2). split; [done|]. by exists ms1, cs', b, ms2, tr2.
- intros (tr' & -> & ms1 & cs & b & ms2 & tr2 & -> & -> & Hl & Hk).
exists ms1, (c :: cs), b, ms2, tr2. split; [done|]. split; [done|]. split; [by exists cs|done].
Qed.

Lemma splits_iff (L L' : reply_lang) ms tr : (forall ms cs b, L ms cs b <-> L' ms cs b) ->
splits L K i ms tr <-> splits L' K i ms tr.
Proof.
intros HL. unfold splits. split; intros (ms1 & cs & b & ms2 & tr2 & ? & ? & Hl & ?);
exists ms1, cs, b, ms2, tr2; (split; [done|]; split; [done|]; split; [by apply HL|done]).
Qed.

Lemma splits_guard (P : Prop) (L : reply_lang) ms tr :
splits (fun ms' cs b => P /\ L ms' cs b) K i ms tr <-> P /\ splits L K i ms tr.
Proof. unfold splits. naive_solver. Qed.

Lemma splits_empty (L : reply_lang) ms tr : (forall ms cs b, ~ L ms cs b) -> ~ splits L K i ms tr.
Proof. intros HL (ms1 & cs & b & ms2 & tr2 & _ & _ & Hl & _). by apply HL in Hl. Qed.
End derivatives.

(** *** What each language allows first *)

(** Case analysis on a word [m :: ms] of a language of rows or data. *)
Ltac word_cases :=
  let HL := fresh "HL" in
  split; [intros HL; inversion HL; subst;
          repeat match goal with
          | E : map _ ?l ++ _ = _ :: _ |- _ => destruct l; simpl in E; injection E as E; subst
          end; eauto 6 using ce_ok, ce_error, ce_done_error, re_ok, re_error
         | ].

Lemma rows_end_cons m ms cs b : rows_end (m :: ms) cs b <->
  match m with
  | Mdata_row v => exists cs', cs = Adata_row v :: cs' /\ rows_end ms cs' b
  | Mcommand_complete v => ms = [] /\ cs = [Acommand_complete v] /\ b = false
  | Merror_response e => ms = [] /\ cs = [Aerror_response e] /\ b = true
  | _ => False
  end.
Proof.
  word_cases. destruct m; try done.
  - intros (-> & -> & ->). apply (re_ok []).
  - intros (cs' & -> & Hr). by apply rows_end_row.
  - intros (-> & -> & ->). apply (re_error []).
Qed.

Lemma copy_done_cons m ms cs b : copy_done_end (m :: ms) cs b <->
  match m with
  | Mcommand_complete v => ms = [] /\ cs = [Acommand_complete v] /\ b = false
  | Merror_response e => ms = [] /\ cs = [Aerror_response e] /\ b = true
  | _ => False
  end.
Proof. word_cases. destruct m; try done; intros (-> & -> & ->); constructor. Qed.

Lemma copy_end_cons m ms cs b : copy_end (m :: ms) cs b <->
  match m with
  | Mcopy_data d => copy_end ms cs b
  | Mcopy_done => copy_done_end ms cs b
  | Merror_response e => ms = [] /\ cs = [Aerror_response e] /\ b = true
  | _ => False
  end.
Proof.
  word_cases; [apply cde_ok|apply cde_error|]. destruct m; try done.
  - apply copy_end_data.
  - intros []; [apply (ce_ok [])|apply (ce_done_error [])].
  - intros (-> & -> & ->). apply (ce_error []).
Qed.

Lemma execute_reply_cons ac m ms cs b : execute_reply ac (m :: ms) cs b <->
  match m with
  | Mdata_row v => exists cs', cs = Adata_row v :: cs' /\ execute_reply ac ms cs' b
  | Mcommand_complete v => ms = [] /\ cs = [Acommand_complete v] /\ b = false
  | Mempty_query_response => ms = [] /\ cs = [Aempty_query_response] /\ b = false
  | Mportal_suspended => ms = [] /\ cs = [Aportal_suspended] /\ b = false
  | Merror_response e => ms = [] /\ cs = [Aerror_response e] /\ b = true
  | Mcopy_out_response _ =>
      ac = true /\ exists cs', cs = Arow_description empty_row_description :: cs' /\ copy_end ms cs' b
  | _ => False
  end.
Proof.
  split.
  - intros HL. inversion HL as [? ? ? Hr|rows|rows|rows c ms' cs' ? Hac Hc]; subst.
    + apply rows_end_cons in Hr. destruct m; try done.
      destruct Hr as (cs' & -> & Hr). exists cs'. split; [done|]. by apply er_rows.
    + destruct rows as [|v rows]; injection H as <- <-; [done|].
      exists (map Adata_row rows ++ [Aportal_suspended]). split; [done|apply er_suspended].
    + destruct rows as [|v rows]; injection H as <- <-; [done|].
      exists (map Adata_row rows ++ [Aempty_query_response]). split; [done|apply er_empty].
    + destruct rows as [|v rows]; injection H as <- <-; [split; [done|by exists cs']|].
      eexists. split; [done|]. by apply er_copy.
  - destruct m; try done.
    + intros (-> & -> & ->). apply er_rows, (re_ok []).
    + intros (Hac & cs' & -> & Hc). by apply (er_copy _ []).
    + intros (cs' & -> & Hr). by apply execute_reply_row.
    + intros (-> & -> & ->). apply (er_empty _ []).
    + intros (-> & -> & ->). apply er_rows, (re_error []).
    + intros (-> & -> & ->). apply (er_suspended _ []).
Qed.

Lemma query_item_cons ac m ms cs b : query_item ac (m :: ms) cs b <->
  match m with
  | Mrow_description d => exists cs', cs = Arow_description d :: cs' /\ rows_end ms cs' b
  | Mcommand_complete v => exists cs', cs = Arow_description empty_row_description :: cs' /\
      (ms = [] /\ cs' = [Acommand_complete v] /\ b = false)
  | Merror_response e => ms = [] /\ cs = [Aerror_response e] /\ b = true
  | Mcopy_out_response _ =>
      ac = true /\ exists cs', cs = Arow_description empty_row_description :: cs' /\ copy_end ms cs' b
  | _ => False
  end.
Proof.
  split; [intros HL; inversion HL; subst; by eauto 7|]. destruct m; try done.
  - intros (cs' & -> & -> & -> & ->). apply qi_command.
  - intros (Hac & cs' & -> & Hc). by apply qi_copy.
  - intros (-> & -> & ->). apply qi_error.
  - intros (cs' & -> & Hr). by apply qi_rows.
Qed.

Lemma query_item_nonempty ac cs b : ~ query_item ac [] cs b.
Proof. intros HL. inversion HL. Qed.

Lemma rows_end_nonempty cs b : ~ rows_end [] cs b.
Proof. intros HL. inversion HL; by destruct rows. Qed.
Lemma copy_end_nonempty cs b : ~ copy_end [] cs b.
Proof. intros HL. inversion HL; by destruct datas. Qed.
Lemma execute_reply_nonempty ac cs b : ~ execute_reply ac [] cs b.
Proof. intros HL. inversion HL; [by eapply rows_end_nonempty|by destruct rows..]. Qed.
Lemma copy_done_nonempty cs b : ~ copy_done_end [] cs b.
Proof. intros HL. inversion HL. Qed.

(** ** The machine and the grammar *)

Lemma or_first (P Q R : Prop) : ~ Q -> ~ R -> P \/ Q \/ R <-> P.
Proof. tauto. Qed.

Lemma and_is_true_l (P Q : Prop) : P -> P /\ Q <-> Q.
Proof. tauto. Qed.

Section exact.
Variables (req : request) (ac : bool).

Abbreviation types := (rq_types req).
Abbreviation machine h i s := (Fsm req (h : trace) i s ac).
Abbreviation C i s := (completes (machine [] i s)).

(** After the answer to message [i]: the rest of the request, or nothing. *)
Definition after (i : nat) (ms : list any_backend_message) (tr : trace) : Prop :=
match drop (S i) types with
| [] => ms = [] /\ tr = []
| _ :: _ => C (S i) msg_first ms tr
end.

(** After an error in message [i]: on from the next sync. *)
Definition after_error (i : nat) (ms : list any_backend_message) (tr : trace) : Prop :=
exists pre ts tr', drop (S i) types = pre ++ rt_sync :: ts /\ (rt_sync ∉ pre) /\
tr = skipped_calls (S i) pre ++ tr' /\ C (S i + length pre) msg_first ms tr'.

Definition next (i : nat) (failed : bool) : list any_backend_message -> trace -> Prop :=
if failed then after_error i else after i.

Lemma drop_next i t ts : drop i types = t :: ts -> drop (S i) types = ts.
Proof. intros Hd. by rewrite <- Nat.add_1_r, <- drop_drop, Hd. Qed.

Lemma from_advance h i s ms tr : s = msg_first -> (i < length types)%nat ->
completes_from (advance (machine h i s)) ms tr <-> exists tr', tr = h ++ tr' /\ after i ms tr'.
Proof.
intros -> Hi. unfold advance, after, messages, incr_current. cbn [req_ current_ handler_ state_ allow_copy_].
destruct (drop (S i) types) eqn:Hd; apply (f_equal length) in Hd; rewrite length_drop in Hd; simpl in Hd.
- rewrite (proj2 (Nat.leb_le _ _)) by lia. simpl. split; [intros [-> ->]|].
+ exists []. by rewrite app_nil_r.
+ intros (tr' & -> & -> & ->). by rewrite app_nil_r.
- rewrite (proj2 (Nat.leb_gt _ _)) by lia. done.
Qed.

Lemma from_skip rest : forall h i ms tr, drop i types = rest ->
completes_from (skip_to_sync rest (machine h i msg_first)) ms tr <->
exists pre ts tr', rest = pre ++ rt_sync :: ts /\ (rt_sync ∉ pre) /\
tr = h ++ skipped_calls i pre ++ tr' /\ C (i + length pre) msg_first ms tr'.
Proof.
induction rest as [|t rest IH]; intros h i ms tr Hd.
- split; [done|]. by intros ([] & ? & ? & [=] & _).
- pose proof (drop_next _ _ _ Hd) as Hn. destruct (decide (t = rt_sync)) as [->|Ht].
+ simpl. unfold with_handler. simpl. split.
* intros (tr' & -> & Hc). exists [], rest, tr'. rewrite Nat.add_0_r. split; [done|].
split; [by apply not_elem_of_nil|done].
* intros ([|t' pre] & ts & tr' & E & Hni & -> & Hc).
-- rewrite Nat.add_0_r in Hc. by exists tr'.
-- injection E as <- ->. by destruct Hni; left.
+ assert (skip_to_sync (t :: rest) (machine h i msg_first) =
skip_to_sync rest (machine (h ++ skipped_calls i [t]) (S i) msg_first)) as ->.
{ destruct t; cbn [skip_to_sync skipped_calls]; rewrite ?app_nil_r; done. }
rewrite (IH _ (S i) ms tr Hn). split.
* intros (pre & ts & tr' & -> & Hni & -> & Hc). exists (t :: pre), ts, tr'.
split; [done|]. split; [by apply not_elem_of_cons|]. split; [|by simpl; rewrite Nat.add_succ_r].
rewrite <- app_assoc. f_equal. by destruct t.
* intros ([|t' pre] & ts & tr' & E & Hni & -> & Hc); [by injection E as -> ->|].
injection E as <- ->. apply not_elem_of_cons in Hni as [_ Hni].
exists pre, ts, tr'. split; [done|]. split; [done|]. split; [|by simpl in Hc; rewrite Nat.add_succ_r in Hc].
rewrite <- app_assoc. f_equal. by destruct t.
Qed.

Lemma from_error e i s ms tr :
completes_from (handle_error e (machine [] i s)) ms tr <-> called i (Aerror_response e) (after_error i ms) tr.
Proof.
etransitivity; [exact (from_skip _ [(i, Aerror_response e)] (S i) ms tr eq_refl)|].
unfold called, after_error. split.
- intros (pre & ts & tr' & Hd & Hni & -> & Hc). eexists. split; [done|]. by exists pre, ts, tr'.
- intros (tr0 & -> & pre & ts & tr' & Hd & Hni & -> & Hc). by exists pre, ts, tr'.
Qed.

(** One message, with request message [t] current. *)
Lemma C_cons i s t ts m ms tr : drop i types = t :: ts ->
C i s (m :: ms) tr <->
is_async m = false /\ completes_from (dispatch m (t :: ts) (machine [] i s)) ms tr.
Proof.
intros Hd. rewrite completes_cons by done. unfold resume, get_remaining_messages, messages.
cbn [req_ current_]. rewrite Hd. destruct (is_async m); [|done]. by split; intros [].
Qed.

Lemma lt_of_drop i t ts : drop i types = t :: ts -> (i < length types)%nat.
Proof. intros Hd%(f_equal length). rewrite length_drop in Hd. simpl in Hd. lia. Qed.
Hint Resolve lt_of_drop : core.

Lemma called_advance c i s ms tr : s = msg_first -> (i < length types)%nat ->
completes_from (advance (machine [(i, c)] i s)) ms tr <-> called i c (after i ms) tr.
Proof. intros. by rewrite from_advance. Qed.

(** *** Extended protocol *)

(** Both sides of a first message [m] of a reply: the machine's step and the
derivative of the language.  Closes the messages neither accepts. *)
Ltac first_message Hd Hnil Hcons m :=
rewrite (C_cons _ _ _ _ _ _ _ Hd), splits_first by apply Hnil;
rewrite (splits_iff _ _ _ _ _ _ (Hcons m));
destruct m; cbn [dispatch handle_execute handle_query query_error state_ allow_copy_];
rewrite ?bool_decide_true, ?bool_decide_false by done;
try (split; [by intros [? ?]|by intros ?%splits_empty; [|naive_solver]]);
(etransitivity; [by apply and_is_true_l|]).
Ltac no_message Hnil :=
split; [by intros ?%completes_nil|by intros ?%splits_nil; [|apply Hnil]].

Ltac reads_called :=
etransitivity; [refine (from_read_called _ _ _ _ _ _); reflexivity|].

Lemma C_exec_copy_done i ts ms tr : drop i types = rt_execute :: ts ->
C i exec_copy_out_needs_command_complete ms tr <-> splits copy_done_end (next i) i ms tr.
Proof.
intros Hd. destruct ms as [|m ms]; [no_message copy_done_nonempty|].
first_message Hd copy_done_nonempty copy_done_cons m; rewrite splits_last.
- apply called_advance; eauto.
- apply from_error.
Qed.

Lemma C_exec_copy_out i ts ms : drop i types = rt_execute :: ts -> forall tr,
C i exec_copy_out ms tr <-> splits copy_end (next i) i ms tr.
Proof.
intros Hd. induction ms as [|m ms IH]; intros tr; [no_message copy_end_nonempty|].
first_message Hd copy_end_nonempty copy_end_cons m.
- rewrite from_read_silent by done. apply IH.
- rewrite from_read_silent by done. exact (C_exec_copy_done _ _ _ _ Hd).
- rewrite splits_last. apply from_error.
Qed.

Lemma C_execute i ts ms : drop i types = rt_execute :: ts -> forall tr,
C i msg_first ms tr <-> splits (execute_reply ac) (next i) i ms tr.
Proof.
intros Hd. induction ms as [|m ms IH]; intros tr; [no_message execute_reply_nonempty|].
first_message Hd (execute_reply_nonempty ac) (execute_reply_cons ac) m.
- rewrite splits_last. apply called_advance; eauto.
- rewrite splits_guard, splits_call, from_guard. apply and_iff_compat_l. reads_called.
apply called_iff, (C_exec_copy_out _ _ _ Hd).
- rewrite splits_call. reads_called. by apply called_iff.
- rewrite splits_last. apply called_advance; eauto.
- rewrite splits_last. apply from_error.
- rewrite splits_last. apply called_advance; eauto.
Qed.

(** *** Simple queries *)

Definition next_query (i : nat) (failed : bool) : list any_backend_message -> trace -> Prop :=
if failed then C i query_needs_ready else C i query_first.

Lemma C_query_copy_done i ts ms tr : drop i types = rt_query :: ts ->
C i query_copy_out_needs_command_complete ms tr <-> splits copy_done_end (next_query i) i ms tr.
Proof.
intros Hd. destruct ms as [|m ms]; [no_message copy_done_nonempty|].
first_message Hd copy_done_nonempty copy_done_cons m; rewrite splits_last; by reads_called.
Qed.

Lemma C_query_copy_out i ts ms : drop i types = rt_query :: ts -> forall tr,
C i query_copy_out ms tr <-> splits copy_end (next_query i) i ms tr.
Proof.
intros Hd. induction ms as [|m ms IH]; intros tr; [no_message copy_end_nonempty|].
first_message Hd copy_end_nonempty copy_end_cons m.
- rewrite from_read_silent by done. apply IH.
- rewrite from_read_silent by done. exact (C_query_copy_done _ _ _ _ Hd).
- rewrite splits_last. by reads_called.
Qed.

Lemma C_query_rows i ts ms : drop i types = rt_query :: ts -> forall tr,
C i query_rows ms tr <-> splits rows_end (next_query i) i ms tr.
Proof.
intros Hd. induction ms as [|m ms IH]; intros tr; [no_message rows_end_nonempty|].
first_message Hd rows_end_nonempty rows_end_cons m.
- rewrite splits_last. by reads_called.
- rewrite splits_call. reads_called. by apply called_iff.
- rewrite splits_last. by reads_called.
Qed.

(** ReadyForQuery, then the rest. *)
Definition ready_then (i : nat) (ms : list any_backend_message) (tr : trace) : Prop :=
exists s ms', ms = Mready_for_query s :: ms' /\ after i ms' tr.

Lemma from_ready i s ms tr : (i < length types)%nat -> s = msg_first ->
completes_from (advance (machine [] i s)) ms tr <-> after i ms tr.
Proof. intros. rewrite from_advance by done. naive_solver. Qed.

Lemma C_needs_ready i ts ms tr : drop i types = rt_query :: ts ->
C i query_needs_ready ms tr <-> ready_then i ms tr.
Proof.
intros Hd. destruct ms as [|m ms].
{ split; [by intros ?%completes_nil|by intros (? & ? & ? & ?)]. }
rewrite (C_cons _ _ _ _ _ _ _ Hd). destruct m; cbn [dispatch handle_query state_].
all: try (split; [by intros [? ?]|by intros (? & ? & ? & ?)]).
etransitivity; [by apply and_is_true_l|]. etransitivity; [apply from_ready; eauto|].
unfold ready_then. naive_solver.
Qed.

Definition query_state (first : bool) : state_t := if first then msg_first else query_first.

Lemma C_query_step i ts first ms tr : drop i types = rt_query :: ts ->
C i (query_state first) ms tr <->
splits (query_item ac) (next_query i) i ms tr \/
(first = false /\ ready_then i ms tr) \/
(first = true /\ exists ms', ms = Mempty_query_response :: ms' /\
called i Aempty_query_response (ready_then i ms') tr).
Proof.
intros Hd. destruct ms as [|m ms].
{ split; [by intros ?%completes_nil|].
intros [Hs|[[_ (? & ? & [=] & _)]|[_ (? & [=] & _)]]].
apply splits_nil in Hs; [done|apply query_item_nonempty]. }
rewrite (C_cons _ _ _ _ _ _ _ Hd), splits_first by apply query_item_nonempty.
rewrite (splits_iff _ _ _ _ _ _ (query_item_cons ac m)).
destruct first, m; cbn [dispatch handle_query query_state state_ allow_copy_];
rewrite ?bool_decide_true, ?bool_decide_false by done.
all: try (split; [by intros [? ?]|];
by intros [?%splits_empty|[[? (? & ? & ? & ?)]|[? (? & ? & ?)]]]; [|naive_solver|..]).
all: etransitivity; [by apply and_is_true_l|].
all: try (etransitivity; [|symmetry; apply or_first;
[by intros [? (? & ? & ? & ?)]|by intros [? (? & ? & ?)]]]).
all: rewrite ?splits_guard, ?splits_call, ?splits_last, ?from_guard.
all: try (apply and_iff_compat_l; reads_called; apply called_iff, (C_query_copy_out _ _ _ Hd)).
all: try (reads_called; first [apply called_iff, (C_query_rows _ _ _ Hd)|done]).
1, 3: etransitivity; [|apply called_iff; intros; symmetry; apply splits_last];
split; [intros (tr' & -> & Hc); exists ((i, Acommand_complete v) :: tr'); split; [done|by exists tr']
|intros (? & -> & tr' & -> & Hc); by exists tr'].
- etransitivity; [reads_called; apply called_iff; intros tr'; exact (C_needs_ready _ _ _ _ Hd)|].
split; [intros Hc; right; right; by split; [|exists ms]|].
intros [Hs|[[? ?]|[_ (? & [= <-] & Hc)]]]; [|done|done]. by apply splits_empty in Hs; [|naive_solver].
- etransitivity; [apply (from_ready i msg_first); eauto|].
split; [intros Hc; right; left; split; [done|by exists v, ms]|].
intros [Hs|[[_ (? & ? & [= <- <-] & Hc)]|[? ?]]]; [|done|done].
by apply splits_empty in Hs; [|naive_solver].
Qed.

Definition query_lang (first : bool) : reply_lang :=
fun ms cs b => query_items ac first ms cs /\ b = false.

Lemma query_item_split i first ms tr : 
splits (query_item ac) (fun b => if b then ready_then i else splits (query_lang false) (next i) i) i ms tr ->
splits (query_lang first) (next i) i ms tr.
Proof.
intros (ms1 & cs & [] & ms2 & tr2 & -> & -> & Hq & Hk).
- destruct Hk as (s & ms' & -> & Ha). exists (ms1 ++ [Mready_for_query s]), cs, false, ms', tr2.
rewrite <- app_assoc. split; [done|]. split; [done|]. split; [|done]. split; [by apply qis_error|done].
- destruct Hk as (ms1' & cs' & b & ms2' & tr2' & -> & -> & [Hq' ->] & Hk).
exists (ms1 ++ ms1'), (cs ++ cs'), false, ms2', tr2'. unfold calls_at. rewrite map_app, <- !app_assoc.
split; [done|]. split; [done|]. split; [|done]. split; [by apply qis_item|done].
Qed.

Lemma C_query i ts n : drop i types = rt_query :: ts -> forall first ms tr, (length ms <= n)%nat ->
C i (query_state first) ms tr -> splits (query_lang first) (next i) i ms tr.
Proof.
intros Hd. induction n as [|n IH]; intros first ms tr Hn Hc.
{ destruct ms; [by apply completes_nil in Hc|simpl in Hn; lia]. }
apply (C_query_step _ _ _ _ _ Hd) in Hc as [Hs|[[-> (s & ms' & -> & Ha)]|[-> (ms' & -> & Hs)]]].
- apply query_item_split. destruct Hs as (ms1 & cs & b & ms2 & tr2 & -> & -> & Hq & Hk).
exists ms1, cs, b, ms2, tr2. split; [done|]. split; [done|]. split; [done|].
destruct b; [by apply (C_needs_ready _ _ _ _ Hd)|]. apply IH; [|done].
destruct ms1; [by apply query_item_nonempty in Hq|]. rewrite length_app in Hn. simpl in Hn. lia.
- exists [Mready_for_query s], [], false, ms', tr. split; [done|]. split; [done|].
split; [|done]. split; [apply qis_ready|done].
- destruct Hs as (tr' & -> & s & ms & -> & Ha).
exists [Mempty_query_response; Mready_for_query s], [Aempty_query_response], false, ms, tr'.
split; [done|]. split; [done|]. split; [|done]. split; [apply qis_empty|done].
Qed.

Lemma query_C i ts first ms cs : drop i types = rt_query :: ts -> query_items ac first ms cs ->
forall ms2 tr2, after i ms2 tr2 -> C i (query_state first) (ms ++ ms2) (calls_at i cs ++ tr2).
Proof.
intros Hd. induction 1 as [s|first ms cs ms' cs' Hq Hqs IH|first ms cs s Hq|s]; intros ms2 tr2 Ha;
apply (C_query_step _ _ _ _ _ Hd).
- right. left. split; [done|]. by exists s, ms2.
- left. exists ms, cs, false, (ms' ++ ms2), (calls_at i cs' ++ tr2). unfold calls_at.
rewrite map_app, <- !app_assoc. split; [done|]. split; [done|]. split; [done|]. by apply IH.
- left. exists ms, cs, true, (Mready_for_query s :: ms2), tr2. rewrite <- app_assoc.
split; [done|]. split; [done|]. split; [done|]. apply (C_needs_ready _ _ _ _ Hd). by exists s, ms2.
- right. right. split; [done|]. exists (Mready_for_query s :: ms2). split; [done|].
exists tr2. split; [done|]. by exists s, ms2.
Qed.

(** *** Whole requests *)

Lemma reply_nonempty t cs b : ~ reply ac t [] cs b.
Proof.
intros HL. inversion HL as [| | | | | |? ? ? Hr|? ? Hr|]; subst; [by apply execute_reply_nonempty in Hr|].
inversion Hr as [|? ms ? ? ? Hq|? ms|]; subst; destruct ms; try done.
by apply query_item_nonempty in Hq.
Qed.

Lemma C_reply i t ts ms tr : drop i types = t :: ts -> t <> rt_flush ->
C i msg_first ms tr <-> splits (reply ac t) (next i) i ms tr.
Proof.
intros Hd Ht. destruct (decide (t = rt_execute)) as [->|He].
{ rewrite (C_execute _ _ _ Hd). apply splits_iff. intros ms' cs b. split; [apply rp_execute|].
intros HL. inversion HL; subst; [done|]. naive_solver. }
destruct (decide (t = rt_query)) as [->|Hq].
{ transitivity (splits (query_lang true) (next i) i ms tr).
- split; [by apply (C_query _ _ (length ms) Hd true)|].
intros (ms1 & cs & b & ms2 & tr2 & -> & -> & [Hq ->] & Hk). by apply (query_C _ _ true _ _ Hd).
- apply splits_iff. intros ms' cs b. split; [intros [? ->]; by apply rp_query|].
intros HL. inversion HL; subst; [done|]. naive_solver. }
destruct ms as [|m ms]; [no_message reply_nonempty|].
rewrite (C_cons _ _ _ _ _ _ _ Hd), splits_first by apply reply_nonempty.
destruct t; try done; cbn [dispatch];
unfold handle_bind, handle_close, handle_describe, handle_parse, handle_sync;
cbn [state_]; rewrite ?bool_decide_true by done; destruct m.
all: try (split; [by intros [? ?]|]; intros Hs; apply splits_empty in Hs; [done|];
intros ? ? ? HL; by inversion HL).
all: etransitivity; [by apply and_is_true_l|].
all: try (etransitivity; [apply from_error|]; etransitivity; [symmetry; apply (splits_last (next i) i _ true)|];
apply splits_iff; intros ? ? ?; split;
[intros (-> & -> & ->); apply rp_error; tauto|intros HL; by inversion HL]).
all: try (etransitivity; [apply called_advance; eauto|];
etransitivity; [symmetry; apply (splits_last (next i) i _ false)|];
apply splits_iff; intros ? ? ?; split;
[intros (-> & -> & ->); constructor|intros HL; by inversion HL]).
- split; [done|]. intros Hs. apply splits_empty in Hs; [done|].
intros ? ? ? HL. inversion HL. naive_solver.
- etransitivity; [apply from_ready; eauto|]. split.
+ intros Ha. exists [], [], false, ms, tr. split; [done|]. split; [done|]. split; [apply rp_sync|done].
+ intros (ms1 & cs & b & ms2 & tr2 & -> & -> & HL & Hk). by inversion HL; subst.
Qed.

Lemma C_flush i ts ms tr : drop i types = rt_flush :: ts ->
C i msg_first ms tr <-> ts <> [] /\ C (S i) msg_first ms tr.
Proof.
intros Hd. pose proof (drop_next _ _ _ Hd) as Hn. destruct ms as [|m ms].
{ split; [by intros ?%completes_nil|by intros [_ ?%completes_nil]]. }
rewrite (C_cons _ _ _ _ _ _ _ Hd). cbn [dispatch]. destruct ts as [|t ts].
- split; [by intros [? ?]|by intros [? ?]].
- rewrite (C_cons _ _ _ _ _ _ _ Hn). unfold incr_current. simpl. naive_solver.
Qed.

Lemma C_response n : forall ts i ms tr, (length ts <= n)%nat -> drop i types = ts -> ts <> [] ->
C i msg_first ms tr <-> response ac i ts ms tr.
Proof.
induction n as [|n IH]; intros ts i ms tr Hn Hd Hne;
[by destruct ts; [|simpl in Hn; lia]|].
destruct ts as [|t ts]; [done|]. pose proof (drop_next _ _ _ Hd) as Hd'. simpl in Hn.
assert (forall ms tr, after i ms tr <-> response ac (S i) ts ms tr) as Hafter.
{ intros ms' tr'. unfold after. rewrite Hd'. destruct ts as [|t' ts]; [|by apply IH; [lia|..]].
split; [intros [-> ->]; constructor|intros HL; by inversion HL]. }
destruct (decide (t = rt_flush)) as [->|Ht].
- rewrite (C_flush _ _ _ _ Hd). split.
+ intros [Hts Hc]. apply rs_flush; [done|]. by apply IH; [lia|..].
+ intros HL. inversion HL as [|? ? ? ? Hts Hr|? ? ? ? ? ? ? Hr|? ? ? ? ? ? ? ? Hr]; subst.
* split; [done|]. by eapply IH; [|done..]; lia.
* inversion Hr.
* inversion Hr. naive_solver.
- rewrite (C_reply _ _ _ _ _ Hd Ht). split.
+ intros (ms1 & cs & [] & ms2 & tr2 & -> & -> & Hr & Hk); simpl in Hk.
* destruct Hk as (pre & ts' & tr' & Hp & Hni & -> & Hc). rewrite Hd' in Hp. rewrite Hp.
apply rs_error; [done|done|]. apply (IH (rt_sync :: ts')); [| |done|exact Hc].
-- rewrite Hp, length_app in Hn. simpl in *. lia.
-- by rewrite <- drop_drop, Hd', Hp, drop_app_length.
* apply rs_ok; [done|]. by apply Hafter.
+ intros HL. inversion HL as [|? ? ? ? Hts Hr|? ? ? ms1 cs ms2 tr2 Hr Hk|? ? pre ts' ms1 cs ms2 tr2 Hr Hni Hk]; subst.
* done.
* exists ms1, cs, false, ms2, tr2. split; [done|]. split; [done|]. split; [done|]. by apply Hafter.
* exists ms1, cs, true, ms2, (skipped_calls (S i) pre ++ tr2).
split; [done|]. split; [done|]. split; [done|]. exists pre, ts', tr2.
match goal with E : _ = drop (S i) types |- _ => rename E into Hp end.
split; [done|]. split; [done|]. split; [done|]. apply (IH (rt_sync :: ts')); [| |done|exact Hk].
-- rewrite <- Hp, length_app in Hn. simpl in *. lia.
-- by rewrite <- drop_drop, <- Hp, drop_app_length.
Qed.
End exact.

(** ** Asynchronous messages, and every handler *)

Definition sync_part (ms : list any_backend_message) : list any_backend_message :=
  List.filter (fun m => negb (is_async m)) ms.

(** The last message is not an asynchronous one. *)
Fixpoint ends_sync (ms : list any_backend_message) : Prop :=
  match ms with
  | [] => False
  | [m] => is_async m = false
  | _ :: ms' => ends_sync ms'
  end.

Lemma ends_sync_cons m ms : ends_sync (m :: ms) <->
  (ms = [] /\ is_async m = false) \/ ends_sync ms.
Proof. destruct ms; simpl; naive_solver. Qed.

Lemma sync_part_sync ms : Forall (fun m => is_async m = false) (sync_part ms).
Proof. apply List.Forall_forall. intros m [_ Hm%negb_true_iff]%filter_In. done. Qed.

Lemma sync_part_nil ms : sync_part ms = [] -> ~ ends_sync ms.
Proof.
  induction ms as [|m ms IH]; [by intros _ ?|]. rewrite ends_sync_cons. simpl.
  destruct (is_async m); [|done]. simpl. naive_solver.
Qed.

Section all_handlers.
Context {H : Type} `{!ResponseHandler H}.

Lemma feed_sync_part ms : forall (f : read_response_fsm H) e f',
feed ms f = Some (Rdone e, f', []) <->
feed (sync_part ms) f = Some (Rdone e, f', []) /\ ends_sync ms.
Proof.
induction ms as [|m ms IH]; intros f e f'; [naive_solver|].
rewrite ends_sync_cons. cbn [feed sync_part List.filter].
destruct (is_async m) eqn:Ha; cbn [negb].
- unfold resume at 1. rewrite Ha. cbn [mbind option_bind]. rewrite IH. naive_solver.
- cbn [feed]. destruct (resume m f) as [[[e'|] g]|]; cbn [mbind option_bind]; [| |naive_solver].
+ split; [intros [= -> -> ->]; by auto|]. intros [[= -> -> Hs] [[-> _]|He]]; [done|].
by apply sync_part_nil in Hs.
+ rewrite IH. split; [naive_solver|]. intros [Hf [[-> _]|He]]; [done|naive_solver].
Qed.

Lemma commutes_feed ms : forall (h0 : H) f,
(h ← replay (handler_ f) h0; feed ms (with_handler h f)) =
('(r, g, rest) ← feed ms f; h ← replay (handler_ g) h0; Some (r, with_handler h g, rest)).
Proof.
induction ms as [|m ms IH]; intros h0 f; [done|]. cbn [feed].
transitivity ('(r, f') ← (h ← replay (handler_ f) h0; resume m (with_handler h f));
match r with Rread => feed ms f' | Rdone _ => Some (r, f', ms) end).
{ by destruct (replay (handler_ f) h0). }
rewrite commutes_resume. destruct (resume m f) as [[r g]|]; [|done]. cbn [mbind option_bind].
destruct r as [e|]; cbn [mbind option_bind]; [by destruct (replay (handler_ g) h0)|].
etransitivity; [|exact (IH h0 g)]. by destruct (replay (handler_ g) h0).
Qed.

Lemma feed_replay ms req (h : H) ac :
feed ms (make_fsm req h ac) =
('(r, g, rest) ← feed ms (make_fsm req [] ac);
h' ← replay (handler_ g) h; Some (r, with_handler h' g, rest)).
Proof. exact (commutes_feed ms h (make_fsm req [] ac)). Qed.
End all_handlers.

Lemma feed_response {H} `{ResponseHandler H} req (h h' : H) ac ms :
  rq_types req <> [] ->
  (exists f, feed ms (make_fsm req h ac) = Some (Rdone None, f, []) /\ handler_ f = h') <->
  ends_sync ms /\
  exists tr, response ac 0 (rq_types req) (sync_part ms) tr /\ replay tr h = Some h'.
Proof.
  intros Hne. setoid_rewrite feed_sync_part. setoid_rewrite feed_replay.
  pose proof (fun tr => C_response req ac _ (rq_types req) 0 (sync_part ms) tr (le_n _) eq_refl Hne) as HC.
  setoid_rewrite <- HC. unfold completes. split.
  - intros (f & [Hf He] & <-). split; [done|].
    destruct (feed (sync_part ms) (make_fsm req [] ac)) as [[[r g] rest]|] eqn:E; [|done].
    cbn [mbind option_bind] in Hf. destruct (replay (handler_ g) h) as [h''|] eqn:Er; [|done].
    injection Hf as -> <- ->. exists (handler_ g). split; [|done]. split; [apply sync_part_sync|].
    by exists g.
  - intros [He (tr & [_ (g & Hg & Hh)] & Hr)]. simpl in Hh. subst tr. exists (with_handler h' g). split; [|done]. split; [|done].
    unfold make_fsm at 1. rewrite Hg. cbn [mbind option_bind]. by rewrite Hr.
Qed.

(** C4: The machine completes on exactly the responses of the grammar.  Fed the
    messages [ms] it completes with the last of them if and only if that is not
    an asynchronous message and [ms] without the asynchronous messages is a
    response to the request; and the handler is then as the calls the grammar
    gives leave it, whatever the handler is. *)
Theorem read_response_exact {H} `{ResponseHandler H} req (h h' : H) ac ms :
  rq_types req <> [] ->
  (exists f, feed ms (make_fsm req h ac) = Some (Rdone None, f, []) /\ handler_ f = h') <->
  ends_sync ms /\
  exists tr, response ac 0 (rq_types req) (sync_part ms) tr /\ replay tr h = Some h'.
Proof. apply feed_response. Qed.

(** A simple query with a resultset, then an extended batch that fails at bind;
    a notice comes in between. *)
Definition sample_response : list any_backend_message :=
  [Mrow_description empty_row_description; Mdata_row {| columns := FPV 0 [] |};
   Mnotice_response no_fields;
   Mcommand_complete {| tag := str "SELECT 1" |}; Mready_for_query {| status := idle |};
   Mparse_complete; Merror_response no_fields; Mready_for_query {| status := idle |}].

Lemma read_response_exact_witness :
  exists tr, response false 0 (rq_types sample_request) (sync_part sample_response) tr /\
    replay tr ([] : trace) = Some [
      (0%nat, Arow_description empty_row_description); (0%nat, Adata_row {| columns := FPV 0 [] |});
      (0%nat, Acommand_complete {| tag := str "SELECT 1" |}); (1%nat, Aparse_complete);
      (2%nat, Aerror_response no_fields); (4%nat, Amessage_skipped); (5%nat, Amessage_skipped)].
Proof.
  apply (read_response_exact sample_request ([] : trace) _ false sample_response); [discriminate|].
  eexists. split; [vm_compute; reflexivity|reflexivity].
Defined.
