(* ===== verification/Sqlstate.v ===== *)
(** * SQLSTATE codes ([include/nativepg/sqlstate.hpp], [include/nativepg/sqlstate_cond.hpp],
    [src/src/sqlstate.cpp])

    A code of five characters is packed into an [int], six bits each.  The tables
    of the conditions and of their identifiers are those of the source. *)

From stdpp Require Import base list option strings.
From Stdlib Require Import ZArith Lia.
From S2P Require Import Prelude Errors.

#[local] Open Scope Z_scope.

(** ** Packing *)

Definition parse_sqlstate_char (value : Z) : Z :=
  if (value >=? ch "0") && (value <=? ch "9") then value - ch "0"
  else if (value >=? ch "A") && (value <=? ch "Z") then value - ch "A" + 10
  else -1.

Definition sqlstate_as_int (chars : bytes) : Z :=
  match chars with
  | [x0; x1; x2; x3; x4] =>
      let c0 := parse_sqlstate_char x0 in
      let c1 := parse_sqlstate_char x1 in
      let c2 := parse_sqlstate_char x2 in
      let c3 := parse_sqlstate_char x3 in
      let c4 := parse_sqlstate_char x4 in
      if (c0 =? -1) || (c1 =? -1) || (c2 =? -1) || (c3 =? -1) || (c4 =? -1) then -1
      else Z.lor (Z.lor (Z.lor (Z.lor (Z.shiftl c0 24) (Z.shiftl c1 18)) (Z.shiftl c2 12))
                        (Z.shiftl c3 6)) c4
  | _ => -1
  end.

(** The code in the SQLSTATE category; a code of value zero is no error. *)
Definition parse_sqlstate (from : bytes) : error_code :=
  let v := sqlstate_as_int from in if v =? 0 then None else Some (sqlstate_error v).

Definition unparse_sqlstate_char (value : Z) : Z :=
  if value <? 0 then 0
  else if value <? 10 then ch "0" + value
  else if value <=? 35 then ch "A" + value - 10
  else 0.

(** The five groups of six bits. *)
Definition sqlstate_groups (val : Z) : list Z :=
  [Z.shiftr val 24; Z.land (Z.shiftr val 18) 63; Z.land (Z.shiftr val 12) 63;
   Z.land (Z.shiftr val 6) 63; Z.land val 63].

Definition is_valid_sqlstate (val : Z) : bool :=
  (val >=? 0) && (val <=? 1073741823) &&
  forallb (fun g => negb (unparse_sqlstate_char g =? 0)) (sqlstate_groups val).

(** [None] is the failed assertion. *)
Definition sqlstate_as_string (val : Z) : option bytes :=
  if is_valid_sqlstate val then Some (map unparse_sqlstate_char (sqlstate_groups val)) else None.

(** ** The tables *)

(** A literal ["12345"_sqlstate], which compiles only if the code is valid. *)
Definition sqlstate_literal (code : string) : Z := sqlstate_as_int (str code).

(** The enumerators of [sqlstate_cond] and the literals that define them. *)
Definition sqlstate_cond : list (string * string) :=
  [("warning", "01000"); ("dynamic_result_sets_returned", "0100C"); ("implicit_zero_bit_padding", "01008");
   ("null_value_eliminated_in_set_function", "01003"); ("privilege_not_granted", "01007");
   ("privilege_not_revoked", "01006"); ("deprecated_feature", "01P01"); ("no_data", "02000");
   ("no_additional_dynamic_result_sets_returned", "02001"); ("sql_statement_not_yet_complete", "03000");
   ("connection_exception", "08000"); ("connection_does_not_exist", "08003");
   ("connection_failure", "08006"); ("sqlclient_unable_to_establish_sqlconnection", "08001");
   ("sqlserver_rejected_establishment_of_sqlconnection", "08004");
   ("transaction_resolution_unknown", "08007"); ("protocol_violation", "08P01");
   ("triggered_action_exception", "09000"); ("feature_not_supported", "0A000");
   ("invalid_transaction_initiation", "0B000"); ("locator_exception", "0F000");
   ("invalid_locator_specification", "0F001"); ("invalid_grantor", "0L000");
   ("invalid_grant_operation", "0LP01"); ("invalid_role_specification", "0P000");
   ("diagnostics_exception", "0Z000"); ("stacked_diagnostics_accessed_without_active_handler", "0Z002");
   ("invalid_argument_for_xquery", "10608"); ("case_not_found", "20000");
   ("cardinality_violation", "21000"); ("data_exception", "22000"); ("array_subscript_error", "2202E");
   ("character_not_in_repertoire", "22021"); ("datetime_field_overflow", "22008");
   ("division_by_zero", "22012"); ("error_in_assignment", "22005"); ("escape_character_conflict", "2200B");
   ("indicator_overflow", "22022"); ("interval_field_overflow", "22015");
   ("invalid_argument_for_logarithm", "2201E"); ("invalid_argument_for_ntile_function", "22014");
   ("invalid_argument_for_nth_value_function", "22016"); ("invalid_argument_for_power_function", "2201F");
   ("invalid_argument_for_width_bucket_function", "2201G"); ("invalid_character_value_for_cast", "22018");
   ("invalid_datetime_format", "22007"); ("invalid_escape_character", "22019");
   ("invalid_escape_octet", "2200D"); ("invalid_escape_sequence", "22025");
   ("nonstandard_use_of_escape_character", "22P06"); ("invalid_indicator_parameter_value", "22010");
   ("invalid_parameter_value", "22023"); ("invalid_preceding_or_following_size", "22013");
   ("invalid_regular_expression", "2201B"); ("invalid_row_count_in_limit_clause", "2201W");
   ("invalid_row_count_in_result_offset_clause", "2201X"); ("invalid_tablesample_argument", "2202H");
   ("invalid_tablesample_repeat", "2202G"); ("invalid_time_zone_displacement_value", "22009");
   ("invalid_use_of_escape_character", "2200C"); ("most_specific_type_mismatch", "2200G");
   ("null_value_not_allowed", "22004"); ("null_value_no_indicator_parameter", "22002");
   ("numeric_value_out_of_range", "22003"); ("sequence_generator_limit_exceeded", "2200H");
   ("string_data_length_mismatch", "22026"); ("string_data_right_truncation", "22001");
   ("substring_error", "22011"); ("trim_error", "22027"); ("unterminated_c_string", "22024");
   ("zero_length_character_string", "2200F"); ("floating_point_exception", "22P01");
   ("invalid_text_representation", "22P02"); ("invalid_binary_representation", "22P03");
   ("bad_copy_file_format", "22P04"); ("untranslatable_character", "22P05");
   ("not_an_xml_document", "2200L"); ("invalid_xml_document", "2200M"); ("invalid_xml_content", "2200N");
   ("invalid_xml_comment", "2200S"); ("invalid_xml_processing_instruction", "2200T");
   ("duplicate_json_object_key_value", "22030");
   ("invalid_argument_for_sql_json_datetime_function", "22031"); ("invalid_json_text", "22032");
   ("invalid_sql_json_subscript", "22033"); ("more_than_one_sql_json_item", "22034");
   ("no_sql_json_item", "22035"); ("non_numeric_sql_json_item", "22036");
   ("non_unique_keys_in_a_json_object", "22037"); ("singleton_sql_json_item_required", "22038");
   ("sql_json_array_not_found", "22039"); ("sql_json_member_not_found", "2203A");
   ("sql_json_number_not_found", "2203B"); ("sql_json_object_not_found", "2203C");
   ("too_many_json_array_elements", "2203D"); ("too_many_json_object_members", "2203E");
   ("sql_json_scalar_required", "2203F"); ("sql_json_item_cannot_be_cast_to_target_type", "2203G");
   ("integrity_constraint_violation", "23000"); ("restrict_violation", "23001");
   ("not_null_violation", "23502"); ("foreign_key_violation", "23503"); ("unique_violation", "23505");
   ("check_violation", "23514"); ("exclusion_violation", "23P01"); ("invalid_cursor_state", "24000");
   ("invalid_transaction_state", "25000"); ("active_sql_transaction", "25001");
   ("branch_transaction_already_active", "25002"); ("held_cursor_requires_same_isolation_level", "25008");
   ("inappropriate_access_mode_for_branch_transaction", "25003");
   ("inappropriate_isolation_level_for_branch_transaction", "25004");
   ("no_active_sql_transaction_for_branch_transaction", "25005"); ("read_only_sql_transaction", "25006");
   ("schema_and_data_statement_mixing_not_supported", "25007"); ("no_active_sql_transaction", "25P01");
   ("in_failed_sql_transaction", "25P02"); ("idle_in_transaction_session_timeout", "25P03");
   ("transaction_timeout", "25P04"); ("invalid_sql_statement_name", "26000");
   ("triggered_data_change_violation", "27000"); ("invalid_authorization_specification", "28000");
   ("invalid_password", "28P01"); ("dependent_privilege_descriptors_still_exist", "2B000");
   ("dependent_objects_still_exist", "2BP01"); ("invalid_transaction_termination", "2D000");
   ("sql_routine_exception", "2F000"); ("function_executed_no_return_statement", "2F005");
   ("modifying_sql_data_not_permitted", "2F002"); ("prohibited_sql_statement_attempted", "2F003");
   ("reading_sql_data_not_permitted", "2F004"); ("invalid_cursor_name", "34000");
   ("external_routine_exception", "38000"); ("containing_sql_not_permitted", "38001");
   ("external_routine_invocation_exception", "39000"); ("invalid_sqlstate_returned", "39001");
   ("trigger_protocol_violated", "39P01"); ("srf_protocol_violated", "39P02");
   ("event_trigger_protocol_violated", "39P03"); ("savepoint_exception", "3B000");
   ("invalid_savepoint_specification", "3B001"); ("invalid_catalog_name", "3D000");
   ("invalid_schema_name", "3F000"); ("transaction_rollback", "40000");
   ("transaction_integrity_constraint_violation", "40002"); ("serialization_failure", "40001");
   ("statement_completion_unknown", "40003"); ("deadlock_detected", "40P01");
   ("syntax_error_or_access_rule_violation", "42000"); ("syntax_error", "42601");
   ("insufficient_privilege", "42501"); ("cannot_coerce", "42846"); ("grouping_error", "42803");
   ("windowing_error", "42P20"); ("invalid_recursion", "42P19"); ("invalid_foreign_key", "42830");
   ("invalid_name", "42602"); ("name_too_long", "42622"); ("reserved_name", "42939");
   ("datatype_mismatch", "42804"); ("indeterminate_datatype", "42P18"); ("collation_mismatch", "42P21");
   ("indeterminate_collation", "42P22"); ("wrong_object_type", "42809"); ("generated_always", "428C9");
   ("undefined_column", "42703"); ("undefined_function", "42883"); ("undefined_table", "42P01");
   ("undefined_parameter", "42P02"); ("undefined_object", "42704"); ("duplicate_column", "42701");
   ("duplicate_cursor", "42P03"); ("duplicate_database", "42P04"); ("duplicate_function", "42723");
   ("duplicate_prepared_statement", "42P05"); ("duplicate_schema", "42P06"); ("duplicate_table", "42P07");
   ("duplicate_alias", "42712"); ("duplicate_object", "42710"); ("ambiguous_column", "42702");
   ("ambiguous_function", "42725"); ("ambiguous_parameter", "42P08"); ("ambiguous_alias", "42P09");
   ("invalid_column_reference", "42P10"); ("invalid_column_definition", "42611");
   ("invalid_cursor_definition", "42P11"); ("invalid_database_definition", "42P12");
   ("invalid_function_definition", "42P13"); ("invalid_prepared_statement_definition", "42P14");
   ("invalid_schema_definition", "42P15"); ("invalid_table_definition", "42P16");
   ("invalid_object_definition", "42P17"); ("with_check_option_violation", "44000");
   ("insufficient_resources", "53000"); ("disk_full", "53100"); ("out_of_memory", "53200");
   ("too_many_connections", "53300"); ("configuration_limit_exceeded", "53400");
   ("program_limit_exceeded", "54000"); ("statement_too_complex", "54001"); ("too_many_columns", "54011");
   ("too_many_arguments", "54023"); ("object_not_in_prerequisite_state", "55000");
   ("object_in_use", "55006"); ("cant_change_runtime_param", "55P02"); ("lock_not_available", "55P03");
   ("unsafe_new_enum_value_usage", "55P04"); ("operator_intervention", "57000");
   ("query_canceled", "57014"); ("admin_shutdown", "57P01"); ("crash_shutdown", "57P02");
   ("cannot_connect_now", "57P03"); ("database_dropped", "57P04"); ("idle_session_timeout", "57P05");
   ("system_error", "58000"); ("io_error", "58030"); ("undefined_file", "58P01");
   ("duplicate_file", "58P02"); ("file_name_too_long", "58P03"); ("config_file_error", "F0000");
   ("lock_file_exists", "F0001"); ("fdw_error", "HV000"); ("fdw_column_name_not_found", "HV005");
   ("fdw_dynamic_parameter_value_needed", "HV002"); ("fdw_function_sequence_error", "HV010");
   ("fdw_inconsistent_descriptor_information", "HV021"); ("fdw_invalid_attribute_value", "HV024");
   ("fdw_invalid_column_name", "HV007"); ("fdw_invalid_column_number", "HV008");
   ("fdw_invalid_data_type", "HV004"); ("fdw_invalid_data_type_descriptors", "HV006");
   ("fdw_invalid_descriptor_field_identifier", "HV091"); ("fdw_invalid_handle", "HV00B");
   ("fdw_invalid_option_index", "HV00C"); ("fdw_invalid_option_name", "HV00D");
   ("fdw_invalid_string_length_or_buffer_length", "HV090"); ("fdw_invalid_string_format", "HV00A");
   ("fdw_invalid_use_of_null_pointer", "HV009"); ("fdw_too_many_handles", "HV014");
   ("fdw_out_of_memory", "HV001"); ("fdw_no_schemas", "HV00P"); ("fdw_option_name_not_found", "HV00J");
   ("fdw_reply_handle", "HV00K"); ("fdw_schema_not_found", "HV00Q"); ("fdw_table_not_found", "HV00R");
   ("fdw_unable_to_create_execution", "HV00L"); ("fdw_unable_to_create_reply", "HV00M");
   ("fdw_unable_to_establish_connection", "HV00N"); ("plpgsql_error", "P0000");
   ("raise_exception", "P0001"); ("no_data_found", "P0002"); ("too_many_rows", "P0003");
   ("assert_failure", "P0004"); ("internal_error", "XX000"); ("data_corrupted", "XX001");
   ("index_corrupted", "XX002")].

(** The enumerator [bad_sqlstate]. *)
Definition bad_sqlstate : Z := -1.

(** The value of an enumerator. *)
Definition cond_value (name : string) : Z :=
  match find (fun e => String.eqb (fst e) name) sqlstate_cond with
  | Some (_, code) => sqlstate_literal code
  | None => bad_sqlstate
  end.

Definition deduplicate_sqlstate_value (value : Z) : Z :=
  if value =? sqlstate_literal "01004" then cond_value "string_data_right_truncation"
  else if value =? sqlstate_literal "39004" then cond_value "null_value_not_allowed"
  else if value =? sqlstate_literal "38002" then cond_value "modifying_sql_data_not_permitted"
  else if value =? sqlstate_literal "38003" then cond_value "prohibited_sql_statement_attempted"
  else if value =? sqlstate_literal "38004" then cond_value "reading_sql_data_not_permitted"
  else value.

(** The cases of [sqlstate_to_identifier]. *)
Definition identifier_cases : list (string * string) :=
  [("00000", "successful_completion"); ("01000", "warning"); ("0100C", "dynamic_result_sets_returned");
   ("01008", "implicit_zero_bit_padding"); ("01003", "null_value_eliminated_in_set_function");
   ("01007", "privilege_not_granted"); ("01006", "privilege_not_revoked"); ("01P01", "deprecated_feature");
   ("02000", "no_data"); ("02001", "no_additional_dynamic_result_sets_returned");
   ("03000", "sql_statement_not_yet_complete"); ("08000", "connection_exception");
   ("08003", "connection_does_not_exist"); ("08006", "connection_failure");
   ("08001", "sqlclient_unable_to_establish_sqlconnection");
   ("08004", "sqlserver_rejected_establishment_of_sqlconnection");
   ("08007", "transaction_resolution_unknown"); ("08P01", "protocol_violation");
   ("09000", "triggered_action_exception"); ("0A000", "feature_not_supported");
   ("0B000", "invalid_transaction_initiation"); ("0F000", "locator_exception");
   ("0F001", "invalid_locator_specification"); ("0L000", "invalid_grantor");
   ("0LP01", "invalid_grant_operation"); ("0P000", "invalid_role_specification");
   ("0Z000", "diagnostics_exception"); ("0Z002", "stacked_diagnostics_accessed_without_active_handler");
   ("10608", "invalid_argument_for_xquery"); ("20000", "case_not_found");
   ("21000", "cardinality_violation"); ("22000", "data_exception"); ("2202E", "array_subscript_error");
   ("22021", "character_not_in_repertoire"); ("22008", "datetime_field_overflow");
   ("22012", "division_by_zero"); ("22005", "error_in_assignment"); ("2200B", "escape_character_conflict");
   ("22022", "indicator_overflow"); ("22015", "interval_field_overflow");
   ("2201E", "invalid_argument_for_logarithm"); ("22014", "invalid_argument_for_ntile_function");
   ("22016", "invalid_argument_for_nth_value_function"); ("2201F", "invalid_argument_for_power_function");
   ("2201G", "invalid_argument_for_width_bucket_function"); ("22018", "invalid_character_value_for_cast");
   ("22007", "invalid_datetime_format"); ("22019", "invalid_escape_character");
   ("2200D", "invalid_escape_octet"); ("22025", "invalid_escape_sequence");
   ("22P06", "nonstandard_use_of_escape_character"); ("22010", "invalid_indicator_parameter_value");
   ("22023", "invalid_parameter_value"); ("22013", "invalid_preceding_or_following_size");
   ("2201B", "invalid_regular_expression"); ("2201W", "invalid_row_count_in_limit_clause");
   ("2201X", "invalid_row_count_in_result_offset_clause"); ("2202H", "invalid_tablesample_argument");
   ("2202G", "invalid_tablesample_repeat"); ("22009", "invalid_time_zone_displacement_value");
   ("2200C", "invalid_use_of_escape_character"); ("2200G", "most_specific_type_mismatch");
   ("22004", "null_value_not_allowed"); ("22002", "null_value_no_indicator_parameter");
   ("22003", "numeric_value_out_of_range"); ("2200H", "sequence_generator_limit_exceeded");
   ("22026", "string_data_length_mismatch"); ("22001", "string_data_right_truncation");
   ("22011", "substring_error"); ("22027", "trim_error"); ("22024", "unterminated_c_string");
   ("2200F", "zero_length_character_string"); ("22P01", "floating_point_exception");
   ("22P02", "invalid_text_representation"); ("22P03", "invalid_binary_representation");
   ("22P04", "bad_copy_file_format"); ("22P05", "untranslatable_character");
   ("2200L", "not_an_xml_document"); ("2200M", "invalid_xml_document"); ("2200N", "invalid_xml_content");
   ("2200S", "invalid_xml_comment"); ("2200T", "invalid_xml_processing_instruction");
   ("22030", "duplicate_json_object_key_value");
   ("22031", "invalid_argument_for_sql_json_datetime_function"); ("22032", "invalid_json_text");
   ("22033", "invalid_sql_json_subscript"); ("22034", "more_than_one_sql_json_item");
   ("22035", "no_sql_json_item"); ("22036", "non_numeric_sql_json_item");
   ("22037", "non_unique_keys_in_a_json_object"); ("22038", "singleton_sql_json_item_required");
   ("22039", "sql_json_array_not_found"); ("2203A", "sql_json_member_not_found");
   ("2203B", "sql_json_number_not_found"); ("2203C", "sql_json_object_not_found");
   ("2203D", "too_many_json_array_elements"); ("2203E", "too_many_json_object_members");
   ("2203F", "sql_json_scalar_required"); ("2203G", "sql_json_item_cannot_be_cast_to_target_type");
   ("23000", "integrity_constraint_violation"); ("23001", "restrict_violation");
   ("23502", "not_null_violation"); ("23503", "foreign_key_violation"); ("23505", "unique_violation");
   ("23514", "check_violation"); ("23P01", "exclusion_violation"); ("24000", "invalid_cursor_state");
   ("25000", "invalid_transaction_state"); ("25001", "active_sql_transaction");
   ("25002", "branch_transaction_already_active"); ("25008", "held_cursor_requires_same_isolation_level");
   ("25003", "inappropriate_access_mode_for_branch_transaction");
   ("25004", "inappropriate_isolation_level_for_branch_transaction");
   ("25005", "no_active_sql_transaction_for_branch_transaction"); ("25006", "read_only_sql_transaction");
   ("25007", "schema_and_data_statement_mixing_not_supported"); ("25P01", "no_active_sql_transaction");
   ("25P02", "in_failed_sql_transaction"); ("25P03", "idle_in_transaction_session_timeout");
   ("25P04", "transaction_timeout"); ("26000", "invalid_sql_statement_name");
   ("27000", "triggered_data_change_violation"); ("28000", "invalid_authorization_specification");
   ("28P01", "invalid_password"); ("2B000", "dependent_privilege_descriptors_still_exist");
   ("2BP01", "dependent_objects_still_exist"); ("2D000", "invalid_transaction_termination");
   ("2F000", "sql_routine_exception"); ("2F005", "function_executed_no_return_statement");
   ("2F002", "modifying_sql_data_not_permitted"); ("2F003", "prohibited_sql_statement_attempted");
   ("2F004", "reading_sql_data_not_permitted"); ("34000", "invalid_cursor_name");
   ("38000", "external_routine_exception"); ("38001", "containing_sql_not_permitted");
   ("39000", "external_routine_invocation_exception"); ("39001", "invalid_sqlstate_returned");
   ("39P01", "trigger_protocol_violated"); ("39P02", "srf_protocol_violated");
   ("39P03", "event_trigger_protocol_violated"); ("3B000", "savepoint_exception");
   ("3B001", "invalid_savepoint_specification"); ("3D000", "invalid_catalog_name");
   ("3F000", "invalid_schema_name"); ("40000", "transaction_rollback");
   ("40002", "transaction_integrity_constraint_violation"); ("40001", "serialization_failure");
   ("40003", "statement_completion_unknown"); ("40P01", "deadlock_detected");
   ("42000", "syntax_error_or_access_rule_violation"); ("42601", "syntax_error");
   ("42501", "insufficient_privilege"); ("42846", "cannot_coerce"); ("42803", "grouping_error");
   ("42P20", "windowing_error"); ("42P19", "invalid_recursion"); ("42830", "invalid_foreign_key");
   ("42602", "invalid_name"); ("42622", "name_too_long"); ("42939", "reserved_name");
   ("42804", "datatype_mismatch"); ("42P18", "indeterminate_datatype"); ("42P21", "collation_mismatch");
   ("42P22", "indeterminate_collation"); ("42809", "wrong_object_type"); ("428C9", "generated_always");
   ("42703", "undefined_column"); ("42883", "undefined_function"); ("42P01", "undefined_table");
   ("42P02", "undefined_parameter"); ("42704", "undefined_object"); ("42701", "duplicate_column");
   ("42P03", "duplicate_cursor"); ("42P04", "duplicate_database"); ("42723", "duplicate_function");
   ("42P05", "duplicate_prepared_statement"); ("42P06", "duplicate_schema"); ("42P07", "duplicate_table");
   ("42712", "duplicate_alias"); ("42710", "duplicate_object"); ("42702", "ambiguous_column");
   ("42725", "ambiguous_function"); ("42P08", "ambiguous_parameter"); ("42P09", "ambiguous_alias");
   ("42P10", "invalid_column_reference"); ("42611", "invalid_column_definition");
   ("42P11", "invalid_cursor_definition"); ("42P12", "invalid_database_definition");
   ("42P13", "invalid_function_definition"); ("42P14", "invalid_prepared_statement_definition");
   ("42P15", "invalid_schema_definition"); ("42P16", "invalid_table_definition");
   ("42P17", "invalid_object_definition"); ("44000", "with_check_option_violation");
   ("53000", "insufficient_resources"); ("53100", "disk_full"); ("53200", "out_of_memory");
   ("53300", "too_many_connections"); ("53400", "configuration_limit_exceeded");
   ("54000", "program_limit_exceeded"); ("54001", "statement_too_complex"); ("54011", "too_many_columns");
   ("54023", "too_many_arguments"); ("55000", "object_not_in_prerequisite_state");
   ("55006", "object_in_use"); ("55P02", "cant_change_runtime_param"); ("55P03", "lock_not_available");
   ("55P04", "unsafe_new_enum_value_usage"); ("57000", "operator_intervention");
   ("57014", "query_canceled"); ("57P01", "admin_shutdown"); ("57P02", "crash_shutdown");
   ("57P03", "cannot_connect_now"); ("57P04", "database_dropped"); ("57P05", "idle_session_timeout");
   ("58000", "system_error"); ("58030", "io_error"); ("58P01", "undefined_file");
   ("58P02", "duplicate_file"); ("58P03", "file_name_too_long"); ("F0000", "config_file_error");
   ("F0001", "lock_file_exists"); ("HV000", "fdw_error"); ("HV005", "fdw_column_name_not_found");
   ("HV002", "fdw_dynamic_parameter_value_needed"); ("HV010", "fdw_function_sequence_error");
   ("HV021", "fdw_inconsistent_descriptor_information"); ("HV024", "fdw_invalid_attribute_value");
   ("HV007", "fdw_invalid_column_name"); ("HV008", "fdw_invalid_column_number");
   ("HV004", "fdw_invalid_data_type"); ("HV006", "fdw_invalid_data_type_descriptors");
   ("HV091", "fdw_invalid_descriptor_field_identifier"); ("HV00B", "fdw_invalid_handle");
   ("HV00C", "fdw_invalid_option_index"); ("HV00D", "fdw_invalid_option_name");
   ("HV090", "fdw_invalid_string_length_or_buffer_length"); ("HV00A", "fdw_invalid_string_format");
   ("HV009", "fdw_invalid_use_of_null_pointer"); ("HV014", "fdw_too_many_handles");
   ("HV001", "fdw_out_of_memory"); ("HV00P", "fdw_no_schemas"); ("HV00J", "fdw_option_name_not_found");
   ("HV00K", "fdw_reply_handle"); ("HV00Q", "fdw_schema_not_found"); ("HV00R", "fdw_table_not_found");
   ("HV00L", "fdw_unable_to_create_execution"); ("HV00M", "fdw_unable_to_create_reply");
   ("HV00N", "fdw_unable_to_establish_connection"); ("P0000", "plpgsql_error");
   ("P0001", "raise_exception"); ("P0002", "no_data_found"); ("P0003", "too_many_rows");
   ("P0004", "assert_failure"); ("XX000", "internal_error"); ("XX001", "data_corrupted");
   ("XX002", "index_corrupted"); ("01004", "string_data_right_truncation");
   ("39004", "null_value_not_allowed"); ("38002", "modifying_sql_data_not_permitted");
   ("38003", "prohibited_sql_statement_attempted"); ("38004", "reading_sql_data_not_permitted")].

Definition sqlstate_to_identifier (value : Z) : option string :=
  snd <$> find (fun c => sqlstate_literal (fst c) =? value) identifier_cases.

(** ** The error category *)

Definition category_message (ev : Z) : option bytes :=
  if negb (is_valid_sqlstate ev) then Some (str "bad_sqlstate")
  else
    res ← sqlstate_as_string ev;
    Some match sqlstate_to_identifier ev with
    | Some identifier => res ++ str ": " ++ str identifier
    | None => res
    end.

(** The value of the [error_condition], in the same category. *)
Definition default_error_condition (val : Z) : Z :=
  if negb (is_valid_sqlstate val) then bad_sqlstate else deduplicate_sqlstate_value val.

(** ** Packing and unpacking *)

Lemma unparse_char_spec g : 0 <= g -> unparse_sqlstate_char g <> 0 <-> g <= 35.
Proof.
  intros Hg. unfold unparse_sqlstate_char. change (ch "0") with 48. change (ch "A") with 65.
  destruct (Z.ltb_spec g 0); [lia|]. destruct (Z.ltb_spec g 10); [lia|].
  destruct (Z.leb_spec g 35); lia.
Qed.

Lemma parse_unparse_char g : 0 <= g <= 35 -> parse_sqlstate_char (unparse_sqlstate_char g) = g.
Proof.
  intros Hg. unfold parse_sqlstate_char, unparse_sqlstate_char.
  change (ch "0") with 48. change (ch "A") with 65. change (ch "9") with 57. change (ch "Z") with 90.
  destruct (Z.ltb_spec g 0); [lia|]. destruct (Z.ltb_spec g 10).
  - destruct (Z.geb_spec (48 + g) 48), (Z.leb_spec (48 + g) 57); simpl; lia.
  - destruct (Z.leb_spec g 35); [|lia].
    destruct (Z.geb_spec (65 + g - 10) 48), (Z.leb_spec (65 + g - 10) 57); simpl; try lia;
    destruct (Z.geb_spec (65 + g - 10) 65), (Z.leb_spec (65 + g - 10) 90); simpl; lia.
Qed.

Lemma parse_char_digit x : parse_sqlstate_char x <> -1 ->
  0 <= parse_sqlstate_char x <= 35 /\ unparse_sqlstate_char (parse_sqlstate_char x) = x.
Proof.
  unfold parse_sqlstate_char, unparse_sqlstate_char.
  change (ch "0") with 48. change (ch "A") with 65. change (ch "9") with 57. change (ch "Z") with 90.
  destruct (Z.geb_spec x 48), (Z.leb_spec x 57), (Z.geb_spec x 65), (Z.leb_spec x 90);
    simpl; intros; repeat case_if_goal; bool_prop; lia.
Qed.

(** Six more bits. *)
Lemma lor_digit a c : 0 <= c < 64 -> Z.lor (Z.shiftl a 6) c = a * 64 + c.
Proof.
  intros Hc.
  assert (Z.land (Z.shiftl a 6) c = 0) as H0.
  { apply Z.bits_inj'. intros n Hn. rewrite Z.land_spec, Z.bits_0.
    destruct (Z.lt_ge_cases n 6); [by rewrite Z.shiftl_spec_low|].
    rewrite <- (Z.mod_small c (2 ^ 6)), Z.mod_pow2_bits_high by lia. apply andb_false_r. }
  rewrite <- Z.lxor_lor, <- Z.add_nocarry_lxor by done. by rewrite Z.shiftl_mul_pow2.
Qed.

(** The code of five groups, as a number in base 64. *)
Lemma packed c0 c1 c2 c3 c4 :
  0 <= c1 < 64 -> 0 <= c2 < 64 -> 0 <= c3 < 64 -> 0 <= c4 < 64 ->
  Z.lor (Z.lor (Z.lor (Z.lor (Z.shiftl c0 24) (Z.shiftl c1 18)) (Z.shiftl c2 12)) (Z.shiftl c3 6)) c4 =
  (((c0 * 64 + c1) * 64 + c2) * 64 + c3) * 64 + c4.
Proof.
  intros. rewrite <- !lor_digit by done. rewrite !Z.shiftl_lor, !Z.shiftl_shiftl by lia. done.
Qed.

Lemma groups_packed c0 c1 c2 c3 c4 :
  0 <= c1 < 64 -> 0 <= c2 < 64 -> 0 <= c3 < 64 -> 0 <= c4 < 64 ->
  sqlstate_groups ((((c0 * 64 + c1) * 64 + c2) * 64 + c3) * 64 + c4) = [c0; c1; c2; c3; c4].
Proof.
  intros. unfold sqlstate_groups. change 63 with (Z.ones 6).
  rewrite !Z.land_ones, !Z.shiftr_div_pow2 by lia.
  change (2 ^ 24) with (64 * 64 * 64 * 64). change (2 ^ 18) with (64 * 64 * 64).
  change (2 ^ 12) with (64 * 64). change (2 ^ 6) with 64.
  rewrite <- !Z.div_div by lia.
  assert (forall a c, 0 <= c < 64 -> (a * 64 + c) / 64 = a) as Hd by (intros; Z.to_euclidean_division_equations; lia).
  assert (forall a c, 0 <= c < 64 -> (a * 64 + c) mod 64 = c) as Hm by (intros; Z.to_euclidean_division_equations; lia).
  repeat (rewrite Hd by done). by repeat (rewrite Hm by done).
Qed.

Lemma groups_inverse v : 0 <= v <= 1073741823 ->
  exists c0 c1 c2 c3 c4, 0 <= c0 < 64 /\ 0 <= c1 < 64 /\ 0 <= c2 < 64 /\ 0 <= c3 < 64 /\ 0 <= c4 < 64 /\
    v = (((c0 * 64 + c1) * 64 + c2) * 64 + c3) * 64 + c4.
Proof.
  intros Hv. exists (v / 64 / 64 / 64 / 64), (v / 64 / 64 / 64 mod 64), (v / 64 / 64 mod 64), (v / 64 mod 64), (v mod 64).
  repeat split; Z.to_euclidean_division_equations; lia.
Qed.

Lemma sqlstate_pack_unpack s v :
  (sqlstate_as_int s = v /\ v <> -1) <-> sqlstate_as_string v = Some s.
Proof.
  unfold sqlstate_as_string. split.
  - intros [Hs Hv]. destruct s as [|x0 [|x1 [|x2 [|x3 [|x4 [|]]]]]]; try (by subst v). simpl in Hs.
    destruct (Z.eqb_spec (parse_sqlstate_char x0) (-1)), (Z.eqb_spec (parse_sqlstate_char x1) (-1)),
      (Z.eqb_spec (parse_sqlstate_char x2) (-1)), (Z.eqb_spec (parse_sqlstate_char x3) (-1)),
      (Z.eqb_spec (parse_sqlstate_char x4) (-1)); simpl in Hs; try (by subst v).
    destruct (parse_char_digit x0), (parse_char_digit x1), (parse_char_digit x2), (parse_char_digit x3),
      (parse_char_digit x4); try done.
    rewrite packed in Hs by lia. unfold is_valid_sqlstate. subst v. rewrite groups_packed by lia.
    assert (forallb (fun g => negb (unparse_sqlstate_char g =? 0))
      [parse_sqlstate_char x0; parse_sqlstate_char x1; parse_sqlstate_char x2; parse_sqlstate_char x3;
       parse_sqlstate_char x4] = true) as ->.
    { apply forallb_forall. intros g Hg. assert (0 <= g <= 35) as Hr.
      { simpl in Hg. intuition (subst; lia). }
      apply negb_true_iff, Z.eqb_neq, unparse_char_spec; lia. }
    set (c0 := parse_sqlstate_char x0) in *. set (c1 := parse_sqlstate_char x1) in *.
    set (c2 := parse_sqlstate_char x2) in *. set (c3 := parse_sqlstate_char x3) in *.
    set (c4 := parse_sqlstate_char x4) in *.
    destruct (Z.geb_spec ((((c0 * 64 + c1) * 64 + c2) * 64 + c3) * 64 + c4) 0); [|lia].
    destruct (Z.leb_spec ((((c0 * 64 + c1) * 64 + c2) * 64 + c3) * 64 + c4) 1073741823); [|lia].
    simpl. congruence.
  - destruct (is_valid_sqlstate v) eqn:E; [|done]. intros Hs.
    assert (s = map unparse_sqlstate_char (sqlstate_groups v)) as -> by congruence. clear Hs.
    unfold is_valid_sqlstate in E.
    apply andb_true_iff in E as [E Hg]. apply andb_true_iff in E as [H1 H2].
    assert (0 <= v <= 1073741823) as Hv by (destruct (Z.geb_spec v 0), (Z.leb_spec v 1073741823); done || lia).
    destruct (groups_inverse v Hv) as (c0 & c1 & c2 & c3 & c4 & ? & ? & ? & ? & ? & ->).
    rewrite groups_packed in Hg by lia. rewrite groups_packed by lia. rewrite forallb_forall in Hg.
    assert (forall g, In g [c0; c1; c2; c3; c4] -> 0 <= g -> g <= 35) as Hle.
    { intros g Hi Hge. apply unparse_char_spec; [done|]. by apply Z.eqb_neq, negb_true_iff, Hg. }
    assert (forall g, In g [c0; c1; c2; c3; c4] -> 0 <= g <= 35) as Hr.
    { intros g Hi. assert (0 <= g) by (simpl in Hi; intuition (subst; lia)). split; [done|by apply Hle]. }
    cbn [map sqlstate_as_int]. rewrite !parse_unparse_char by (apply Hr; simpl; tauto).
    destruct (Z.eqb_spec c0 (-1)), (Z.eqb_spec c1 (-1)), (Z.eqb_spec c2 (-1)), (Z.eqb_spec c3 (-1)),
      (Z.eqb_spec c4 (-1)); try lia. simpl. rewrite packed by lia. lia.
Qed.

(** SQLSTATE codes round-trip.  Five characters pack into a valid code exactly
    when they are digits or uppercase letters, every valid code is the packing of
    some such characters, and unpacking gives the characters back: packing is a
    bijection between the well-formed codes and the valid integers. *)
Theorem sqlstate_roundtrip s v :
  (sqlstate_as_int s = v /\ v <> -1) <-> sqlstate_as_string v = Some s.
Proof. apply sqlstate_pack_unpack. Qed.

(** ** The tables agree *)

(** The table of conditions and the table of identifiers describe the same
    codes.  The message of every enumerator of [sqlstate_cond] is its literal and
    its own name, its error condition is itself, and no two enumerators share a
    value; and the error condition of any code with an identifier, other than
    successful completion, is the enumerator of that name. *)
Theorem sqlstate_tables_agree :
  (forall name code, In (name, code) sqlstate_cond ->
     category_message (cond_value name) = Some (str code ++ str ": " ++ str name) /\
     default_error_condition (cond_value name) = cond_value name) /\
  NoDup (map (fun e => sqlstate_literal (snd e)) sqlstate_cond) /\
  (forall v name, sqlstate_to_identifier v = Some name -> name <> "successful_completion"%string ->
     default_error_condition v = cond_value name /\
     exists code, In (name, code) sqlstate_cond).
Proof.
  split; [|split].
  - assert (forallb (fun e =>
      bool_decide (category_message (cond_value (fst e)) = Some (str (snd e) ++ str ": " ++ str (fst e))) &&
      (default_error_condition (cond_value (fst e)) =? cond_value (fst e))) sqlstate_cond = true) as H
      by (vm_compute; reflexivity).
    intros name code Hin. rewrite forallb_forall in H. specialize (H _ Hin).
    apply andb_true_iff in H as [H1 H2]. by split; [apply bool_decide_eq_true in H1|apply Z.eqb_eq].
  - apply (bool_decide_unpack _). vm_compute. exact I.
  - assert (forallb (fun c => String.eqb (snd c) "successful_completion" ||
      ((default_error_condition (sqlstate_literal (fst c)) =? cond_value (snd c)) &&
       existsb (fun e => String.eqb (fst e) (snd c)) sqlstate_cond)) identifier_cases = true) as H
      by (vm_compute; reflexivity).
    intros v name Hv Hn. unfold sqlstate_to_identifier in Hv.
    destruct (find _ identifier_cases) as [[code name']|] eqn:E; [|done]. injection Hv as ->.
    apply find_some in E as [Hin E]. apply Z.eqb_eq in E. cbn [fst] in E. subst v.
    rewrite forallb_forall in H. specialize (H _ Hin). cbn [fst snd] in H |- *.
    apply orb_true_iff in H as [H|H]; [by apply String.eqb_eq in H|].
    apply andb_true_iff in H as [H1 H2]. apply Z.eqb_eq in H1. split; [done|].
    apply existsb_exists in H2 as ([n c] & Hi & He). apply String.eqb_eq in He. cbn [fst] in He. subst n.
    by exists c.
Qed.

(** ** Errors *)


(** What becomes of the SQLSTATE of an error response: 00000, successful
    completion, is the empty error code, that is, no error at all; any other
    well-formed code is an error whose message starts with the code; and
    anything else is an error with the message [bad_sqlstate]. *)
Theorem parse_sqlstate_spec s :
  match parse_sqlstate s with
  | None => s = str "00000"
  | Some (sqlstate_error v) =>
      s <> str "00000" /\
      ((sqlstate_as_string v = Some s /\ exists suffix, category_message v = Some (s ++ suffix)) \/
       (category_message v = Some (str "bad_sqlstate") /\ forall v', sqlstate_as_string v' <> Some s))
  | Some _ => False
  end.
Proof.
  unfold parse_sqlstate. destruct (Z.eqb_spec (sqlstate_as_int s) 0) as [Hz|Hz].
  { assert (sqlstate_as_string 0 = Some s) as Hs; [|by injection Hs].
    apply sqlstate_pack_unpack. by split. }
  split; [by intros ->|]. destruct (Z.eq_dec (sqlstate_as_int s) (-1)) as [Hm|Hm].
  - right. rewrite Hm. split; [by vm_compute|]. intros v Hv. apply sqlstate_pack_unpack in Hv as [? ?]. congruence.
  - left. pose proof (proj1 (sqlstate_pack_unpack s _) (conj eq_refl Hm)) as Hs. split; [done|].
    unfold category_message. rewrite Hs. unfold sqlstate_as_string in Hs.
    destruct (is_valid_sqlstate (sqlstate_as_int s)); [|done]. cbn [negb mbind option_bind].
    destruct (sqlstate_to_identifier _); [by eexists|]. exists []. by rewrite app_nil_r.
Qed.
