(* ===== verification/ReadBuffer.v ===== *)
(** * The read buffer ([include/nativepg/protocol/detail/read_buffer.hpp])

    One chunk of memory with a consumed, a committed and a prepared area.
    Offsets and sizes are [size_t], written as [Z] with the wrap-around of the
    sums the code computes.  [read_buffer_refines] shows that the buffer is a
    queue of bytes. *)

From stdpp Require Import base list option.
From Stdlib Require Import ZArith Lia.
From S2P Require Import Prelude.

#[local] Open Scope Z_scope.

(** [new unsigned char[n]]: [n] bytes of any value. *)
Class Allocator := {
  fresh : Z -> bytes;
  length_fresh n : 0 <= n -> Z.of_nat (length (fresh n)) = n
}.

(** [std::bit_ceil(n)] is [2 ^ log2_up n], and 1 for 0. *)
Definition next_power_of_2 (n : Z) : Z :=
  if n <=? SIZE_MAX / 2 + 1 then 2 ^ Z.log2_up n else SIZE_MAX.

(** [buffer_] is [None] when the pointer is null, as in a moved-from object. *)
Record read_buffer := RB {
  rb_size : Z;
  committed_offset : Z;
  prepared_offset : Z;
  rb_buffer : option bytes
}.

(** The bytes of [\[b, e)], as a span over the buffer. *)
Definition area (b e : Z) (mem : option bytes) : bytes :=
  take (Z.to_nat (e - b)) (drop (Z.to_nat b) (default [] mem)).

Definition committed_area (r : read_buffer) : bytes :=
  area (committed_offset r) (prepared_offset r) (rb_buffer r).

(** [prepared_area().size()] *)
Definition prepared_size (r : read_buffer) : Z := rb_size r - prepared_offset r.

Definition reset (r : read_buffer) : read_buffer := RB (rb_size r) 0 0 (rb_buffer r).

Definition commit (n : Z) (r : read_buffer) : read_buffer :=
  RB (rb_size r) (committed_offset r) (prepared_offset r + Z.min n (prepared_size r)) (rb_buffer r).

Definition consume (n : Z) (r : read_buffer) : read_buffer :=
  RB (rb_size r) (committed_offset r + Z.min n (prepared_offset r - committed_offset r))
     (prepared_offset r) (rb_buffer r).

(** What a read does to the prepared area before [commit]: it stores [data] at its beginning. *)
Definition fill (data : bytes) (r : read_buffer) : read_buffer :=
  RB (rb_size r) (committed_offset r) (prepared_offset r)
     (write_at (Z.to_nat (prepared_offset r)) data <$> rb_buffer r).

Section buffer.
Context `{Allocator}.

Definition make_read_buffer (initial_size : Z) : read_buffer :=
let size := next_power_of_2 initial_size in RB size 0 0 (Some (fresh size)).

(** [None] is a [memcpy] past the end of the new memory. *)
Definition prepare (required : Z) (r : read_buffer) : option read_buffer :=
let old_prepared_size := prepared_size r in
if old_prepared_size >=? required then Some r
else
let consumed_size := committed_offset r in
let committed := committed_area r in
match rb_buffer r with
| Some mem =>
if wrap64 (consumed_size + old_prepared_size) >=? required then
Some (RB (rb_size r) 0 (prepared_offset r - consumed_size)
    (Some (write_at 0 committed mem)))
else
let new_size := next_power_of_2 (wrap64 (Z.of_nat (length committed) + required)) in
if new_size <? Z.of_nat (length committed) then None
else Some (RB new_size 0 (Z.of_nat (length committed))
         (Some (write_at 0 committed (fresh new_size))))
| None =>
let new_size := next_power_of_2 (wrap64 (Z.of_nat (length committed) + required)) in
if new_size <? Z.of_nat (length committed) then None
else Some (RB new_size 0 (Z.of_nat (length committed))
       (Some (write_at 0 committed (fresh new_size))))
end.
End buffer.

(** ** Layout *)

(** The memory is the consumed, the committed and the prepared area, in order. *)
Definition layout (r : read_buffer) (consumed committed prepared : bytes) : Prop :=
  rb_buffer r = Some (consumed ++ committed ++ prepared) /\
  committed_offset r = Z.of_nat (length consumed) /\
  prepared_offset r = Z.of_nat (length consumed + length committed) /\
  rb_size r = Z.of_nat (length consumed + length committed + length prepared) /\
  rb_size r <= SIZE_MAX.

(** The invariant of the class. *)
Definition rb_inv (r : read_buffer) : Prop := exists a b c, layout r a b c.

Lemma next_power_of_2_bounds n : 0 <= n <= SIZE_MAX ->
  n <= next_power_of_2 n <= SIZE_MAX /\ 0 < next_power_of_2 n.
Proof.
  intros Hn. unfold next_power_of_2. destruct (Z.leb_spec n (SIZE_MAX / 2 + 1)); [|unfold SIZE_MAX in *; lia].
  change (SIZE_MAX / 2 + 1) with (2 ^ 63) in *.
  pose proof (Z.log2_up_nonneg n).
  assert (0 < 2 ^ Z.log2_up n) by (apply Z.pow_pos_nonneg; lia).
  assert (n <= 2 ^ Z.log2_up n) by (destruct (Z.le_gt_cases n 1); [lia|by apply Z.log2_up_spec]).
  assert (Z.log2_up n <= 63) by (change 63 with (Z.log2_up (2 ^ 63)); by apply Z.log2_up_le_mono).
  assert (2 ^ Z.log2_up n <= 2 ^ 63) by (by apply Z.pow_le_mono_r).
  unfold SIZE_MAX. lia.
Qed.

Section layouts.
Context (r : read_buffer) (a b c : bytes) (Hl : layout r a b c).

Lemma layout_committed : committed_area r = b.
Proof.
pose proof Hl as (Hm & Hc & Hp & _). unfold committed_area, area. rewrite Hm, Hc, Hp, Nat2Z.id. simpl.
rewrite drop_app_length. apply take_app_len. lia.
Qed.

Lemma layout_prepared : prepared_size r = Z.of_nat (length c).
Proof. pose proof Hl as (_ & _ & Hp & Hs & _). unfold prepared_size. lia. Qed.

Lemma layout_reset : layout (reset r) [] [] (a ++ b ++ c).
Proof.
pose proof Hl as (Hm & Hc & Hp & Hs & Hx). split; [done|]. repeat split; [|done].
cbn [reset rb_size]. rewrite Hs, !length_app. simpl. lia.
Qed.

Lemma layout_commit c1 c2 : c = c1 ++ c2 ->
layout (commit (Z.of_nat (length c1)) r) a (b ++ c1) c2.
Proof.
intros Hcc. pose proof layout_prepared as Hps. pose proof Hl as (Hm & Hc & Hp & Hs & Hx).
rewrite Hcc in Hps, Hm, Hs.
unfold layout, commit. cbn [rb_buffer committed_offset prepared_offset rb_size].
rewrite Hps, Hm, <- !app_assoc. rewrite !length_app in *. repeat split; lia.
Qed.

Lemma layout_fill data : (length data <= length c)%nat ->
layout (fill data r) a b (data ++ drop (length data) c).
Proof.
intros Hd. pose proof Hl as (Hm & Hc & Hp & Hs & Hx).
unfold layout, fill. cbn [rb_buffer committed_offset prepared_offset rb_size].
rewrite !length_app, length_drop. repeat split; try lia. rewrite Hm. simpl. f_equal.
rewrite <- (take_drop (length data) c) at 1. rewrite !app_assoc, Hp, Nat2Z.id, <- length_app.
rewrite <- (app_assoc _ (take _ _)), write_at_app; [by rewrite <- !app_assoc|].
rewrite length_take. lia.
Qed.

Lemma layout_consume n : 0 <= n ->
layout (consume n r) (a ++ take (Z.to_nat n) b) (drop (Z.to_nat n) b) c.
Proof.
intros Hn. pose proof Hl as (Hm & Hc & Hp & Hs & Hx).
unfold layout, consume. cbn [rb_buffer committed_offset prepared_offset rb_size].
rewrite !length_app, length_take, length_drop. repeat split; try lia.
rewrite Hm, <- app_assoc, (app_assoc (take _ b)), take_drop. done.
Qed.

Lemma layout_prepare `{Allocator} n : 0 <= n -> Z.of_nat (length b) + n <= SIZE_MAX ->
exists r' a' c', prepare n r = Some r' /\ layout r' a' b c' /\ n <= Z.of_nat (length c') /\
(rb_size r' = rb_size r \/ Z.of_nat (length a + length c) < n).
Proof.
intros Hn Hs. unfold prepare. rewrite layout_prepared, layout_committed.
pose proof Hl as (Hm & Hc & Hp & Hz & Hx).
destruct (Z.geb_spec (Z.of_nat (length c)) n) as [Hge|Hlt].
{ exists r, a, c. by auto. }
rewrite Hm, Hc. unfold wrap64.
rewrite Z.mod_small by (unfold SIZE_MAX in *; lia).
destruct (Z.geb_spec (Z.of_nat (length a) + Z.of_nat (length c)) n) as [Hge|Hlt'].
- set (c' := drop (length b) (a ++ b ++ c)).
exists (RB (rb_size r) 0 (prepared_offset r - Z.of_nat (length a)) (Some (b ++ c'))), [], c'.
assert (length c' = (length a + length c)%nat) as Hc'.
{ unfold c'. rewrite length_drop, !length_app. lia. }
split; [done|]. split; [|by split; [lia|left]].
unfold layout. simpl. rewrite Hc'. repeat split; lia.
- rewrite Z.mod_small by (unfold SIZE_MAX in *; lia).
destruct (next_power_of_2_bounds (Z.of_nat (length b) + n)) as [Hnp Hpos]; [lia|].
set (sz := next_power_of_2 _) in *. destruct (Z.ltb_spec sz (Z.of_nat (length b))); [lia|].
set (c' := drop (length b) (fresh sz)).
assert (Z.of_nat (length c') = sz - Z.of_nat (length b)) as Hc'.
{ unfold c'. rewrite length_drop. pose proof (length_fresh sz). lia. }
exists (RB sz 0 (Z.of_nat (length b)) (Some (b ++ c'))), [], c'.
split; [done|]. split; [|by split; [lia|right; lia]].
unfold layout. simpl. repeat split; lia.
Qed.
End layouts.

Lemma layout_make `{Allocator} n : 0 <= n <= SIZE_MAX ->
  layout (make_read_buffer n) [] [] (fresh (next_power_of_2 n)).
Proof.
  intros Hn. destruct (next_power_of_2_bounds n Hn) as [Hp Hpos].
  pose proof (length_fresh (next_power_of_2 n)). unfold layout, make_read_buffer. simpl. repeat split; lia.
Qed.

(** ** The specification: a queue of bytes *)

(** How a client uses the buffer; [Op_receive] is a read into the prepared area
    and the [commit] of what was read. *)
Inductive buffer_op :=
| Op_reset
| Op_prepare (required : Z)
| Op_receive (data : bytes)
| Op_consume (n : Z).

(** What an operation does to the queue. *)
Definition queue_op (op : buffer_op) (q : bytes) : bytes :=
  match op with
  | Op_reset => []
  | Op_prepare _ => q
  | Op_receive data => q ++ data
  | Op_consume n => drop (Z.to_nat n) q
  end.

(** The arguments are [size_t] values, the total that [prepare] asks for is one
    too, and a read stays within the prepared area. *)
Definition op_allowed (op : buffer_op) (r : read_buffer) : Prop :=
  match op with
  | Op_reset => True
  | Op_prepare n => 0 <= n /\ Z.of_nat (length (committed_area r)) + n <= SIZE_MAX
  | Op_receive data => Z.of_nat (length data) <= prepared_size r
  | Op_consume n => 0 <= n
  end.

Section refinement.
Context `{Allocator}.

Definition buffer_step (op : buffer_op) (r : read_buffer) : option read_buffer :=
match op with
| Op_reset => Some (reset r)
| Op_prepare n => prepare n r
| Op_receive data => Some (commit (Z.of_nat (length data)) (fill data r))
| Op_consume n => Some (consume n r)
end.

(** Runs in which every operation is allowed where it is called. *)
Inductive buffer_run : list buffer_op -> read_buffer -> read_buffer -> Prop :=
| run_nil r : buffer_run [] r r
| run_cons op ops r r' r'' : op_allowed op r -> buffer_step op r = Some r' ->
buffer_run ops r' r'' -> buffer_run (op :: ops) r r''.

Lemma buffer_step_refines op r : rb_inv r -> op_allowed op r ->
exists r', buffer_step op r = Some r' /\ rb_inv r' /\
committed_area r' = queue_op op (committed_area r) /\
match op with Op_prepare n => n <= prepared_size r' | _ => True end.
Proof.
intros (a & b & c & Hl) Hok. pose proof (layout_committed _ _ _ _ Hl) as Hb.
pose proof (layout_prepared _ _ _ _ Hl) as Hc.
destruct op as [|n|data|n]; simpl in *; rewrite ?Hb, ?Hc in *.
- pose proof (layout_reset _ _ _ _ Hl) as Hl'. eexists. split; [done|].
split; [by eexists _, _, _|]. split; [|done]. by rewrite (layout_committed _ _ _ _ Hl').
- destruct Hok as [Hn Hs].
destruct (layout_prepare _ _ _ _ Hl n Hn Hs) as (r' & a' & c' & -> & Hl' & Hc' & _).
exists r'. split; [done|]. split; [by eexists _, _, _|].
by rewrite (layout_committed _ _ _ _ Hl'), (layout_prepared _ _ _ _ Hl').
- pose proof (layout_fill _ _ _ _ Hl data ltac:(lia)) as Hl'.
pose proof (layout_commit _ _ _ _ Hl' _ _ eq_refl) as Hl''.
eexists. split; [done|]. split; [by eexists _, _, _|]. split; [|done].
by rewrite (layout_committed _ _ _ _ Hl'').
- pose proof (layout_consume _ _ _ _ Hl n Hok) as Hl'.
eexists. split; [done|]. split; [by eexists _, _, _|]. split; [|done].
by rewrite (layout_committed _ _ _ _ Hl').
Qed.

Lemma buffer_run_refines ops : forall r r', rb_inv r -> buffer_run ops r r' ->
rb_inv r' /\ committed_area r' = fold_left (fun q op => queue_op op q) ops (committed_area r).
Proof.
induction ops as [|op ops IH]; intros r r' Hi Hr; inversion Hr as [|? ? ? r1 ? Hok Hs Hr']; subst; [done|].
destruct (buffer_step_refines op r Hi Hok) as (r1' & Hs' & Hi' & Hq & _).
rewrite Hs in Hs'. injection Hs' as <-. simpl. rewrite <- Hq. by apply IH.
Qed.

Lemma make_read_buffer_inv n : 0 <= n <= SIZE_MAX -> rb_inv (make_read_buffer n).
Proof. intros Hn. eexists _, _, _. by apply layout_make. Qed.
End refinement.

(** C25: The read buffer implements a byte queue.  After any allowed operations
    on a new buffer the committed area is what the queue holds after the same
    operations; every operation allowed next succeeds and keeps it that way; and
    after [prepare] a read of the requested size fits. *)
Theorem read_buffer_refines `{Allocator} size ops r op :
  0 <= size <= SIZE_MAX -> buffer_run ops (make_read_buffer size) r -> op_allowed op r ->
  let queue := fold_left (fun q op => queue_op op q) ops [] in
  committed_area r = queue /\
  exists r', buffer_step op r = Some r' /\ committed_area r' = queue_op op queue /\
    match op with Op_prepare n => n <= prepared_size r' | _ => True end.
Proof.
  intros Hs Hr Hok queue.
  destruct (buffer_run_refines ops _ _ (make_read_buffer_inv size Hs) Hr) as [Hi Hq].
  rewrite (layout_committed _ _ _ _ (layout_make size Hs)) in Hq. split; [done|].
  destruct (buffer_step_refines op r Hi Hok) as (r' & Hs' & _ & Hc & Hp).
  exists r'. split; [done|]. rewrite Hc, Hq. by split.
Qed.

(** Memory that happens to be zero. *)
Definition zero_alloc : Allocator.
Proof.
  refine {| fresh n := replicate (Z.to_nat n) 0 |}. intros n Hn. rewrite length_replicate. lia.
Defined.

Lemma read_buffer_refines_witness :
  committed_area (consume 2 (commit 3 (fill [7; 8; 9] (@make_read_buffer zero_alloc 4)))) = [9] /\
  exists r', @prepare zero_alloc 8 (consume 2 (commit 3 (fill [7; 8; 9] (@make_read_buffer zero_alloc 4))))
    = Some r' /\ committed_area r' = [9] /\ 8 <= prepared_size r'.
Proof.
  apply (@read_buffer_refines zero_alloc 4 [Op_receive [7; 8; 9]; Op_consume 2]
           (consume 2 (commit 3 (fill [7; 8; 9] (@make_read_buffer zero_alloc 4)))) (Op_prepare 8)).
  - vm_compute. split; discriminate.
  - eapply run_cons; [vm_compute; discriminate|reflexivity|].
    eapply run_cons; [vm_compute; discriminate|reflexivity|]. constructor.
  - split; vm_compute; discriminate.
Defined.

(** [prepare] never moves memory it does not have to: it keeps the allocation
    whenever the requested bytes fit in it next to the committed area, and the
    committed bytes are the same afterwards in either case; when it reallocates,
    the new size is the smallest power of two that holds both. *)
Theorem prepare_minimal `{Allocator} r n :
  rb_inv r -> 0 <= n -> Z.of_nat (length (committed_area r)) + n <= SIZE_MAX / 2 + 1 ->
  exists r', prepare n r = Some r' /\ committed_area r' = committed_area r /\
    if Z.of_nat (length (committed_area r)) + n <=? rb_size r then rb_size r' = rb_size r
    else rb_size r' = 2 ^ Z.log2_up (Z.of_nat (length (committed_area r)) + n) /\
         committed_offset r' = 0.
Proof.
  intros (a & b & c & Hl) Hn Hs. change (SIZE_MAX / 2 + 1) with 9223372036854775808 in Hs.
  destruct (layout_prepare _ _ _ _ Hl n Hn) as (r' & a' & c' & Hp & Hl' & Hc & Hsz).
  { rewrite (layout_committed _ _ _ _ Hl) in Hs. unfold SIZE_MAX in *. lia. }
  exists r'. split; [done|]. rewrite (layout_committed _ _ _ _ Hl') in *. rewrite (layout_committed _ _ _ _ Hl) in *.
  split; [done|]. pose proof Hl as (Hm & Hco & Hpo & Hz & Hx).
  destruct (Z.leb_spec (Z.of_nat (length b) + n) (rb_size r)) as [Hle|Hgt].
  - destruct Hsz as [?|?]; [done|lia].
  - unfold prepare in Hp. rewrite (layout_prepared _ _ _ _ Hl), (layout_committed _ _ _ _ Hl), Hm, Hco in Hp.
    assert (Z.of_nat (length b) + n < 18446744073709551616) by (unfold SIZE_MAX in *; lia).
    assert (rb_size r < 18446744073709551616) by (unfold SIZE_MAX in *; lia).
    unfold wrap64 in Hp. rewrite !Z.mod_small in Hp by lia.
    destruct (Z.geb_spec (Z.of_nat (length c)) n); [lia|].
    destruct (Z.geb_spec (Z.of_nat (length a) + Z.of_nat (length c)) n); [lia|].
    destruct (Z.ltb_spec (next_power_of_2 (Z.of_nat (length b) + n)) (Z.of_nat (length b))); [done|].
    injection Hp as <-. simpl. split; [|done]. unfold next_power_of_2.
    change (SIZE_MAX / 2 + 1) with 9223372036854775808.
    destruct (Z.leb_spec (Z.of_nat (length b) + n) 9223372036854775808); [done|lia].
Qed.

Lemma prepare_minimal_witness :
  exists r', @prepare zero_alloc 5 (@make_read_buffer zero_alloc 4) = Some r' /\ committed_area r' = [] /\
    (rb_size r' = 8 /\ committed_offset r' = 0).
Proof.
  apply (@prepare_minimal zero_alloc (@make_read_buffer zero_alloc 4) 5).
  - apply make_read_buffer_inv. vm_compute. split; discriminate.
  - vm_compute. discriminate.
  - vm_compute. discriminate.
Defined.
