(* ===== verification/MessagePump.v ===== *)
(** * Reading messages from the connection

    [exec_fsm::resume] ([src/src/exec_fsm.cpp]) and [startup_fsm::resume]
    ([src/src/startup_fsm.cpp]) share one loop: parse a message from the
    committed area and hand it over, or prepare space and read.  [pump_loop] is
    that loop over any consumer of messages.  [drive] is its specification on a
    stream of bytes; the loop implements it however the bytes are cut into reads. *)

From stdpp Require Import base list option.
From Stdlib Require Import ZArith Lia.
From S2P Require Import Prelude Errors BackendMessages ParseMessage BackendWire BackendSpec ReadBuffer.

(** ** The parser on growing input *)

Lemma parse_header_size data h : (5 <= length data)%nat -> parse_header (take 5 data) = inr h ->
  (4 <= mh_size h <= INT32_MAX)%Z.
Proof.
  intros Hl Hh. unfold parse_header in Hh.
  pose proof (load_big_s_ok (drop 1 (take 5 data))) as Hok.
  rewrite length_drop, length_take in Hok. replace (5 `min` length data - 1)%nat with 4%nat in Hok by lia.
  destruct (Z.ltb_spec (load_big_s (drop 1 (take 5 data))) 4); [done|].
  injection Hh as <-. cbn [mh_size]. specialize (Hok ltac:(lia)). apply int_ok_4 in Hok.
  unfold INT32_MAX. lia.
Qed.

Lemma parse_message_app s t : pm_ec (parse_message s) <> Some (client needs_more) ->
  parse_message (s ++ t) = parse_message s.
Proof.
  unfold parse_message. intros Hn.
  destruct (Nat.ltb_spec (length s) 5) as [Hl|Hl]; [done|].
  destruct (Nat.ltb_spec (length (s ++ t)) 5) as [Hl'|_]; [rewrite length_app in Hl'; lia|].
  rewrite parse_header_app by done. destruct (parse_header (take 5 s)) as [e|h] eqn:Hh; [done|].
  destruct (Nat.ltb_spec (length s) (Z.to_nat (mh_size h + 1))) as [Hr|Hr]; [done|].
  destruct (Nat.ltb_spec (length (s ++ t)) (Z.to_nat (mh_size h + 1))) as [Hr'|_];
    [rewrite length_app in Hr'; lia|].
  rewrite drop_app_le, take_app_le by (rewrite ?length_drop; lia). done.
Qed.

Lemma parse_message_size s : pm_ec (parse_message s) = None ->
  (5 <= pm_size (parse_message s) <= length s)%nat.
Proof.
  unfold parse_message. destruct (Nat.ltb_spec (length s) 5) as [Hl|Hl]; [done|].
  destruct (parse_header (take 5 s)) as [e|h] eqn:Hh; [done|].
  apply parse_header_size in Hh; [|done].
  destruct (Nat.ltb_spec (length s) (Z.to_nat (mh_size h + 1))) as [Hr|Hr]; [done|].
  destruct (parse_any_message _ _); [done|]. simpl. lia.
Qed.

Lemma parse_message_needs_more s : pm_ec (parse_message s) = Some (client needs_more) ->
  (0 < pm_size (parse_message s))%nat /\
  (Z.of_nat (length s) + Z.of_nat (pm_size (parse_message s)) <= INT32_MAX + 1)%Z.
Proof.
  unfold parse_message. destruct (Nat.ltb_spec (length s) 5) as [Hl|Hl].
  { intros _. unfold INT32_MAX. simpl pm_size. lia. }
  destruct (parse_header (take 5 s)) as [e|h] eqn:Hh.
  { unfold parse_header in Hh. destruct (_ <? 4)%Z; [|done]. by injection Hh as <-. }
  apply parse_header_size in Hh; [|done].
  destruct (Nat.ltb_spec (length s) (Z.to_nat (mh_size h + 1))) as [Hr|Hr].
  { intros _. simpl pm_size. lia. }
  destruct (parse_any_message _ _) as [e|m] eqn:E; [|done].
  apply parse_any_message_error in E. simpl in *. intros [= ->].
  destruct E as [?|[?|?]]; discriminate.
Qed.

(** ** Frames that have arrived, or not yet *)

Lemma parse_incomplete t body m rest u s : Forall is_byte body -> wire_body m t body ->
  (Z.of_nat (length body) + 4 <= INT32_MAX)%Z -> u ++ s = frame t body ++ rest -> (length u < length (frame t body))%nat ->
  pm_ec (parse_message u) = Some (client needs_more).
Proof.
  intros Hb Hw Hl Hu Hlt. pose proof (parse_message_frame t body rest Hl) as Hp. rewrite (parse_any_message_complete _ _ _ Hb Hw) in Hp.
  destruct (decide (pm_ec (parse_message u) = Some (client needs_more))) as [|Hn]; [done|]. exfalso.
  pose proof (parse_message_app u s Hn) as Ha. rewrite Hu, Hp in Ha.
  assert (pm_ec (parse_message u) = None) as He by (by rewrite <- Ha).
  pose proof (parse_message_size u He) as Hs. rewrite <- Ha in Hs. cbn [pm_size] in Hs. rewrite length_frame in Hlt. lia.
Qed.

Lemma parse_complete t body m u' : Forall is_byte body -> wire_body m t body -> (Z.of_nat (length body) + 4 <= INT32_MAX)%Z ->
  parse_message (frame t body ++ u') = {| pm_ec := None; pm_message := m; pm_size := length (frame t body) |}.
Proof. intros Hb Hw Hl. rewrite parse_message_frame, (parse_any_message_complete _ _ _ Hb Hw), length_frame by done. done. Qed.

Lemma missing_complete data : pm_ec (parse_message data) <> Some (client needs_more) -> message_missing_bytes data = 0%nat.
Proof.
  intros Hn. destruct (message_missing_bytes data) as [|n] eqn:Em; [done|]. exfalso. apply Hn.
  apply (missing_bytes_agree data (S n)). split; [done|lia].
Qed.

Lemma missing_incomplete data : pm_ec (parse_message data) = Some (client needs_more) ->
  exists n, message_missing_bytes data = S n /\ pm_size (parse_message data) = S n.
Proof.
  intros He. destruct (proj2 (missing_bytes_agree data (pm_size (parse_message data))) (conj He eq_refl)) as [Hm Hp].
  exists (pred (pm_size (parse_message data))). rewrite Hm. lia.
Qed.

Lemma consume_ok n rb : rb_inv rb -> rb_inv (consume (Z.of_nat n) rb) /\ committed_area (consume (Z.of_nat n) rb) = drop n (committed_area rb).
Proof.
intros Hi. destruct (@buffer_step_refines zero_alloc (Op_consume (Z.of_nat n)) rb Hi) as (rb' & [= <-] & Hi' & Hc & _); [simpl; lia|].
split; [done|]. simpl in Hc. by rewrite Nat2Z.id in Hc.
Qed.

(** ** The loop *)

(** How the loop ends: the consumer is done or has something to write, a read is
    needed, or the bytes are not a message. *)
Inductive pump_result (R : Type) := Pexit (r : R) | Pread | Perror (e : error).
Arguments Pexit {R} _.
Arguments Pread {R}.
Arguments Perror {R} _.

(** What a run of the loop over a stream leads to, with the bytes not consumed. *)
Inductive drive_result (R S : Type) :=
| Dexit (r : R) (rest : bytes) (x : S)
| Dwait (missing : nat) (rest : bytes) (x : S)
| Derror (e : error) (rest : bytes) (x : S).
Arguments Dexit {R S} _ _ _.
Arguments Dwait {R S} _ _ _.
Arguments Derror {R S} _ _ _.

Section pump.
Context `{Allocator} {R S : Type}.

(** The consumer: [Some r] leaves the loop; [None] is a failed assertion. *)
Context (step : any_backend_message -> S -> option (option R * S)).

Fixpoint pump_loop (fuel : nat) (rb : read_buffer) (x : S)
: option (pump_result R * read_buffer * S) :=
match fuel with
| O => None
| Datatypes.S fuel' =>
let msg_res := parse_message (committed_area rb) in
match pm_ec msg_res with
| None =>
'(r, x') ← step (pm_message msg_res) x;
let rb' := consume (Z.of_nat (pm_size msg_res)) rb in
match r with
| Some r => Some (Pexit r, rb', x')
| None => pump_loop fuel' rb' x'
end
| Some (client needs_more) =>
rb' ← prepare (Z.of_nat (pm_size msg_res)) rb;
Some (Pread, rb', x)
| Some e => Some (Perror e, rb, x)
end
end.

(** Every message consumed has at least five bytes, so this is enough fuel. *)
Definition pump (rb : read_buffer) (x : S) : option (pump_result R * read_buffer * S) :=
pump_loop (Datatypes.S (length (committed_area rb))) rb x.

(** A read of [data], [commit], and the loop again. *)
Definition receive (data : bytes) (rb : read_buffer) : read_buffer :=
commit (Z.of_nat (length data)) (fill data rb).

(** ** The specification *)

Fixpoint drive_loop (fuel : nat) (s : bytes) (x : S) : option (drive_result R S) :=
match fuel with
| O => None
| Datatypes.S fuel' =>
let msg_res := parse_message s in
match pm_ec msg_res with
| None =>
'(r, x') ← step (pm_message msg_res) x;
match r with
| Some r => Some (Dexit r (drop (pm_size msg_res) s) x')
| None => drive_loop fuel' (drop (pm_size msg_res) s) x'
end
| Some (client needs_more) => Some (Dwait (pm_size msg_res) s x)
| Some e => Some (Derror e s x)
end
end.

Definition drive (s : bytes) (x : S) : option (drive_result R S) :=
drive_loop (Datatypes.S (length s)) s x.

Lemma drive_fuel fuel : forall s x, (length s < fuel)%nat -> drive_loop fuel s x = drive s x.
Proof.
unfold drive.
assert (forall n fuel fuel' s x, (length s <= n)%nat -> (length s < fuel)%nat -> (length s < fuel')%nat ->
drive_loop fuel s x = drive_loop fuel' s x) as Hind; [|intros s x Hf; eapply Hind; [apply le_n|lia|lia]].
clear fuel. induction n as [|n IH]; intros [|fuel] [|fuel'] s x Hn Hf Hf'; try lia; cbn [drive_loop].
- destruct s; [done|simpl in Hn; lia].
- destruct (pm_ec (parse_message s)) as [e|] eqn:E; [done|].
apply parse_message_size in E. destruct (step _ x) as [[[r|] x']|]; [done| |done].
cbn [mbind option_bind]. apply IH; rewrite length_drop; lia.
Qed.

(** The equation of [drive]. *)
Lemma drive_unfold s x : drive s x =
match pm_ec (parse_message s) with
| None =>
'(r, x') ← step (pm_message (parse_message s)) x;
match r with
| Some r => Some (Dexit r (drop (pm_size (parse_message s)) s) x')
| None => drive (drop (pm_size (parse_message s)) s) x'
end
| Some (client needs_more) => Some (Dwait (pm_size (parse_message s)) s x)
| Some e => Some (Derror e s x)
end.
Proof.
unfold drive at 1. cbn [drive_loop]. destruct (pm_ec (parse_message s)) as [e|] eqn:E; [done|].
apply parse_message_size in E. destruct (step _ x) as [[[r|] x']|]; [done| |done].
cbn [mbind option_bind]. apply drive_fuel. rewrite length_drop. lia.
Qed.

(** More bytes only matter once the ones there have been used up. *)
Lemma drive_app t n : forall s x, (length s <= n)%nat -> drive (s ++ t) x =
match drive s x with
| None => None
| Some (Dexit r rest y) => Some (Dexit r (rest ++ t) y)
| Some (Derror e rest y) => Some (Derror e (rest ++ t) y)
| Some (Dwait _ rest y) => drive (rest ++ t) y
end.
Proof.
induction n as [|n IH]; intros s x Hn; rewrite (drive_unfold s).
- by destruct s; [|simpl in Hn; lia].
- destruct (pm_ec (parse_message s)) as [e|] eqn:E.
+ destruct (decide (e = client needs_more)) as [->|He]; [done|].
rewrite drive_unfold, parse_message_app, E by (rewrite E; congruence).
destruct e as [[]| | |]; done.
+ rewrite drive_unfold, parse_message_app, E by (rewrite E; discriminate).
apply parse_message_size in E. destruct (step _ x) as [[[r|] y]|]; [| |done]; cbn [mbind option_bind].
* rewrite drop_app_le by lia. done.
* rewrite drop_app_le by lia. apply IH. rewrite length_drop. lia.
Qed.

Lemma drive_wait m rest y n : forall s x, (length s <= n)%nat ->
drive s x = Some (Dwait m rest y) -> drive rest y = Some (Dwait m rest y).
Proof.
induction n as [|n IH]; intros s x Hn Hd; pose proof Hd as Hd'; rewrite drive_unfold in Hd.
- destruct s; [|simpl in Hn; lia]. injection Hd as <- <- <-. by rewrite drive_unfold.
- destruct (pm_ec (parse_message s)) as [e|] eqn:E.
+ assert (e = client needs_more) as -> by (by destruct e as [[]| | |]).
injection Hd as <- <- <-. done.
+ apply parse_message_size in E. destruct (step _ x) as [[[r|] y']|]; [done| |done].
cbn [mbind option_bind] in Hd. eapply IH; [|exact Hd]. rewrite length_drop. lia.
Qed.

(** ** The loop implements the specification *)

Lemma pump_loop_drive fuel : forall rb x, rb_inv rb -> (length (committed_area rb) < fuel)%nat ->
match drive (committed_area rb) x with
| None => pump_loop fuel rb x = None
| Some d => exists rb', rb_inv rb' /\
match d with
| Dexit r rest y => pump_loop fuel rb x = Some (Pexit r, rb', y) /\ committed_area rb' = rest
| Derror e rest y => pump_loop fuel rb x = Some (Perror e, rb', y) /\ committed_area rb' = rest
| Dwait n rest y => pump_loop fuel rb x = Some (Pread, rb', y) /\ committed_area rb' = rest /\
(0 < n)%nat /\ (Z.of_nat n <= prepared_size rb')%Z
end
end.
Proof.
induction fuel as [|fuel IH]; intros rb x Hi Hf; [lia|]. rewrite drive_unfold. cbn [pump_loop].
destruct (pm_ec (parse_message (committed_area rb))) as [e|] eqn:E.
- destruct (decide (e = client needs_more)) as [->|He].
+ apply parse_message_needs_more in E as [Hp Hb].
destruct (buffer_step_refines (Op_prepare (Z.of_nat (pm_size (parse_message (committed_area rb))))) rb Hi)
as (rb' & Hs & Hi' & Hc & Hsz).
{ unfold op_allowed, SIZE_MAX. unfold INT32_MAX in Hb. lia. }
simpl in Hs, Hc. exists rb'. split; [done|]. rewrite Hs. by cbn [mbind option_bind].
+ destruct e as [[]| | |]; try done; by exists rb.
- pose proof (parse_message_size _ E) as Hsz. destruct (step _ x) as [[r y]|]; [|done].
cbn [mbind option_bind]. set (n := pm_size _) in *.
destruct (buffer_step_refines (Op_consume (Z.of_nat n)) rb Hi) as (rb' & Hs & Hi' & Hc & _).
{ simpl. lia. }
injection Hs as <-. simpl in Hc. rewrite Nat2Z.id in Hc. destruct r as [r|].
+ by exists (consume (Z.of_nat n) rb).
+ rewrite <- Hc. apply IH; [done|]. rewrite Hc, length_drop. lia.
Qed.

(** ** Reads of any size *)

(** A read of at most [n] bytes of what the server still has to send: it is cut
to the space there is.  The loop runs after every read. *)
Fixpoint pump_session (sizes : list nat) (stream : bytes)
(state : pump_result R * read_buffer * S) : option (pump_result R * read_buffer * S * bytes) :=
let '(r, rb, x) := state in
match r, sizes with
| Pread, n :: sizes' =>
let data := take (Nat.min n (Z.to_nat (prepared_size rb))) stream in
state' ← pump (receive data rb) x;
pump_session sizes' (drop (length data) stream) state'
| _, _ => Some (r, rb, x, stream)
end.

(** The outcome of [drive] on everything sent, as the state of the session. *)
Definition session_agrees (d : option (drive_result R S))
(res : option (pump_result R * read_buffer * S * bytes)) : Prop :=
match d with
| None => res = None
| Some d => exists rb' stream', rb_inv rb' /\
match d with
| Dexit r rest y => res = Some (Pexit r, rb', y, stream') /\ committed_area rb' ++ stream' = rest
| Derror e rest y => res = Some (Perror e, rb', y, stream') /\ committed_area rb' ++ stream' = rest
| Dwait _ rest y => res = Some (Pread, rb', y, stream') /\ committed_area rb' ++ stream' = rest
end
end.

Lemma receive_ok data rb : rb_inv rb -> (Z.of_nat (length data) <= prepared_size rb)%Z ->
rb_inv (receive data rb) /\ committed_area (receive data rb) = committed_area rb ++ data.
Proof.
intros Hi Hd. destruct (buffer_step_refines (Op_receive data) rb Hi Hd) as (rb' & Hs & Hi' & Hc & _).
by injection Hs as <-.
Qed.

Lemma pump_session_drive sizes : forall stream rb x n,
Forall (fun k => 0 < k)%nat sizes -> (length stream <= length sizes)%nat ->
rb_inv rb -> (0 < n)%nat -> (Z.of_nat n <= prepared_size rb)%Z ->
drive (committed_area rb) x = Some (Dwait n (committed_area rb) x) ->
session_agrees (drive (committed_area rb ++ stream) x) (pump_session sizes stream (Pread, rb, x)).
Proof.
induction sizes as [|k sizes IH]; intros stream rb x n Hpos Hlen Hi Hn Hroom Hw.
{ destruct stream; [|simpl in Hlen; lia]. rewrite app_nil_r, Hw. exists rb, []. simpl.
by rewrite app_nil_r. }
inversion_clear Hpos as [|? ? Hk Hpos']. cbn [pump_session].
set (data := take _ stream).
assert (length data = Nat.min (Nat.min k (Z.to_nat (prepared_size rb))) (length stream)) as Hd
by apply length_take.
destruct (receive_ok data rb Hi) as [Hi' Hc']; [lia|].
assert (stream = data ++ drop (length data) stream) as Hs.
{ symmetry. apply take_drop_len. }
rewrite Hs at 1. rewrite app_assoc, <- Hc'. rewrite (drive_app _ _ _ _ (le_n _)).
pose proof (pump_loop_drive _ _ x Hi' (Nat.lt_succ_diag_r _)) as Hp. unfold pump.
destruct (drive (committed_area (receive data rb)) x) as [[r rest y|m rest y|e rest y]|] eqn:Ed.
- destruct Hp as (rb' & Hi'' & -> & <-). cbn [mbind option_bind]. exists rb', (drop (length data) stream).
by destruct sizes.
- destruct Hp as (rb' & Hi'' & -> & <- & Hm & Hroom'). cbn [mbind option_bind].
apply (IH _ _ _ m); [done| |done|done|done|].
+ rewrite length_drop. simpl in Hlen. lia.
+ exact (drive_wait _ _ _ _ _ _ (le_n _) Ed).
- destruct Hp as (rb' & Hi'' & -> & <-). cbn [mbind option_bind]. exists rb', (drop (length data) stream).
by destruct sizes.
- by rewrite Hp.
Qed.

(** From the first run of the loop on. *)
Lemma pump_session_start sizes stream rb x :
Forall (fun k => 0 < k)%nat sizes -> (length stream <= length sizes)%nat -> rb_inv rb ->
session_agrees (drive (committed_area rb ++ stream) x)
(state ← pump rb x; pump_session sizes stream state).
Proof.
intros Hpos Hlen Hi. rewrite (drive_app _ _ _ _ (le_n _)). unfold pump.
pose proof (pump_loop_drive _ _ x Hi (Nat.lt_succ_diag_r _)) as Hp.
destruct (drive (committed_area rb) x) as [[r rest y|m rest y|e rest y]|] eqn:Ed.
- destruct Hp as (rb' & Hi' & -> & <-). exists rb', stream. by destruct sizes.
- destruct Hp as (rb' & Hi' & -> & <- & Hm & Hroom). cbn [mbind option_bind].
apply (pump_session_drive _ _ _ _ m); [done|done|done|done|done|]. exact (drive_wait _ _ _ _ _ _ (le_n _) Ed).
- destruct Hp as (rb' & Hi' & -> & <-). exists rb', stream. by destruct sizes.
- by rewrite Hp.
Qed.
End pump.
