(* ===== verification/Exec.v ===== *)
(** * Executing a request ([include/nativepg/protocol/connection_state.hpp],
    [include/nativepg/protocol/detail/exec_fsm.hpp], [src/src/exec_fsm.cpp],
    [setup_request] of [src/src/nativepg_internal/check_request.hpp])

    [exec_fsm] checks the request, sets the handler up, asks for the payload to
    be written and then reads messages until the response is complete.  Its
    coroutine is a function on its resume point.  [exec_session] plays the
    network: it performs the write and gives the server's bytes in reads of any
    size.  [exec_delivers] puts the parser, the buffer, the reader and the
    handler together. *)

From stdpp Require Import base list option.
From Stdlib Require Import ZArith Lia.
From S2P Require Import Prelude Errors ParseContext Views BackendMessages ParseMessage BackendWire BackendSpec.
From S2P Require Import Request ReadResponse ReadResponseSpec ReadResponseGrammar ReadBuffer MessagePump.

(** ** State *)

Record connection_state := CS {
  write_buffer : bytes;
  st_read_buffer : read_buffer;
  backend_process_id : Z;
  backend_secret_key : Z;
  shared_diag : bytes
}.

Definition set_read_buffer (rb : read_buffer) (st : connection_state) : connection_state :=
  CS (write_buffer st) rb (backend_process_id st) (backend_secret_key st) (shared_diag st).

(** [startup_fsm::result]: done, write a span, or read into the prepared area. *)
Inductive io_result := io_done (ec : error_code) | io_write (data : bytes) | io_read.

Record exec_fsm (H : Type) := Exec { resume_point_ : nat; read_fsm_ : read_response_fsm H }.
Arguments Exec {H} _ _.
Arguments resume_point_ {H} _.
Arguments read_fsm_ {H} _.

Section exec.
Context {alloc : Allocator} {H : Type} `{!ResponseHandler H}.

(** ** setup_request *)

Definition setup_request (req : request) (res : H) : option (error_code * H) :=
match check_request req with
| Some ec => Some (Some ec, res)
| None =>
'(r, res) ← setup req 0 res;
match hs_ec r with
| Some ec => Some (Some ec, res)
| None =>
if (hs_offset r =? length (rq_types req))%nat then Some (None, res)
else Some (Some (client incompatible_response_length), res)
end
end.

(** ** exec_fsm *)

Definition make_exec (req : request) (handler : H) : exec_fsm H :=
Exec 0 (make_fsm req handler false).

(** What the loop of [resume] does with a message. *)
Definition exec_step (msg : any_backend_message) (f : read_response_fsm H)
: option (option error_code * read_response_fsm H) :=
'(r, f') ← resume msg f;
Some (match r with Rdone ec => Some ec | Rread => None end, f').

Definition exec_loop (x : exec_fsm H) (st : connection_state)
: option (io_result * exec_fsm H * connection_state) :=
'(r, rb, f) ← pump exec_step (st_read_buffer st) (read_fsm_ x);
let st := set_read_buffer rb st in
Some match r with
| Pexit ec => (io_done ec, Exec (resume_point_ x) f, st)
| Perror e => (io_done (Some e), Exec (resume_point_ x) f, st)
| Pread => (io_read, Exec 2 f, st)
end.

Definition exec_resume (x : exec_fsm H) (st : connection_state) (ec : error_code) (bytes_transferred : Z)
: option (io_result * exec_fsm H * connection_state) :=
match resume_point_ x with
| 0%nat =>
let f := read_fsm_ x in
'(ec_req, h) ← setup_request (req_ f) (handler_ f);
let f := with_handler h f in
match ec_req with
| Some e => Some (io_done (Some e), Exec 0 f, st)
| None => Some (io_write (rq_buffer (req_ f)), Exec 1 f, st)
end
| 1%nat =>
match ec with
| Some e => Some (io_done (Some e), x, st)
| None => exec_loop x st
end
| 2%nat =>
match ec with
| Some e => Some (io_done (Some e), x, st)
| None => exec_loop x (set_read_buffer (commit bytes_transferred (st_read_buffer st)) st)
end
| _ => None
end.

(** [get_result] *)
Definition exec_get_result (x : exec_fsm H) (ec : error_code) : extended_error :=
match ec with
| Some e => EE (Some e) []
| None => result (handler_ (read_fsm_ x))
end.

(** ** The network *)

(** Reads of at most the given sizes, cut to the space there is, from what the
server has still to send. *)
Fixpoint exec_reads (sizes : list nat) (stream : bytes) (r : io_result) (x : exec_fsm H)
(st : connection_state) : option (io_result * exec_fsm H * connection_state) :=
match r, sizes with
| io_read, n :: sizes' =>
let rb := st_read_buffer st in
let data := take (Nat.min n (Z.to_nat (prepared_size rb))) stream in
'(r', x', st') ← exec_resume x (set_read_buffer (fill data rb) st) None (Z.of_nat (length data));
exec_reads sizes' (drop (length data) stream) r' x' st'
| _, _ => Some (r, x, st)
end.

(** The request is written without error, and the server answers with [stream].
The result is the last action asked for, with what was written. *)
Definition exec_session (sizes : list nat) (stream : bytes) (x : exec_fsm H) (st : connection_state)
: option (bytes * io_result * exec_fsm H * connection_state) :=
'(r, x, st) ← exec_resume x st None 0;
match r with
| io_write data =>
'(r, x, st) ← exec_resume x st None (Z.of_nat (length data));
'(r, x, st) ← exec_reads sizes stream r x st;
Some (data, r, x, st)
| _ => Some ([], r, x, st)
end.

Lemma exec_start req h h0 st : check_request req = None ->
setup req 0 h = Some (setup_ok (length (rq_types req)), h0) ->
exec_resume (make_exec req h) st None 0 =
Some (io_write (rq_buffer req), Exec 1 (make_fsm req h0 false), st).
Proof.
intros Hc Hs. unfold exec_resume, setup_request. cbn [make_exec resume_point_ read_fsm_ make_fsm req_ handler_].
rewrite Hc, Hs. cbn [mbind option_bind setup_ok hs_ec hs_offset]. by rewrite Nat.eqb_refl.
Qed.

(** The session on a request that passes the checks. *)
Lemma exec_session_start req h h0 st sizes stream : check_request req = None ->
setup req 0 h = Some (setup_ok (length (rq_types req)), h0) ->
exec_session sizes stream (make_exec req h) st =
('(r, x, st) ← exec_loop (Exec 1 (make_fsm req h0 false)) st;
'(r, x, st) ← exec_reads sizes stream r x st;
Some (rq_buffer req, r, x, st)).
Proof. intros Hc Hs. unfold exec_session. by rewrite (exec_start _ _ _ _ Hc Hs). Qed.

(** *** The session is the generic one *)

Definition exec_state (s : pump_result error_code * read_buffer * read_response_fsm H * bytes)
(rp : nat) (st : connection_state) (r : io_result) (x : exec_fsm H) (st' : connection_state) : Prop :=
let '(pr, rb, f, _) := s in
st' = set_read_buffer rb st /\
match pr with
| Pexit ec => r = io_done ec /\ read_fsm_ x = f
| Perror e => r = io_done (Some e) /\ read_fsm_ x = f
| Pread => r = io_read /\ x = Exec 2 f
end.

Lemma exec_reads_session sizes : forall stream rb f st,
match pump_session exec_step sizes stream (Pread, rb, f) with
| None => exec_reads sizes stream io_read (Exec 2 f) (set_read_buffer rb st) = None
| Some s => exists r x st',
exec_reads sizes stream io_read (Exec 2 f) (set_read_buffer rb st) = Some (r, x, st') /\
exec_state s 2 st r x st'
end.
Proof.
induction sizes as [|n sizes IH]; intros stream rb f st; [by eexists _, _, _|].
cbn [pump_session exec_reads]. set (data := take _ stream). unfold exec_resume, exec_loop.
cbn [resume_point_ read_fsm_ st_read_buffer set_read_buffer].
fold (receive data rb).
destruct (pump exec_step (receive data rb) f) as [[[[ec| |e] rb'] f']|]; cbn [mbind option_bind]; [| | |done].
- destruct sizes; by eexists _, _, _.
- exact (IH (drop (length data) stream) rb' f' st).
- destruct sizes; by eexists _, _, _.
Qed.
End exec.

(** ** Messages on the wire *)

(** [bs] is the frames of the messages [ms], in order. *)
Inductive encodes : list any_backend_message -> bytes -> Prop :=
| encodes_nil : encodes [] []
| encodes_cons m ms t body bs : wire_body m t body -> Forall is_byte body ->
    (Z.of_nat (length body) + 4 <= INT32_MAX)%Z -> encodes ms bs ->
    encodes (m :: ms) (frame t body ++ bs).

Section delivery.
Context {alloc : Allocator} {H : Type} `{!ResponseHandler H}.

Lemma exec_step_eq m (f : read_response_fsm H) : exec_step m f =
'(r, f') ← resume m f; Some (match r with Rdone ec => Some ec | Rread => None end, f').
Proof. done. Qed.

Lemma drive_encodes ms stream extra (f f' : read_response_fsm H) ec :
encodes ms stream -> feed ms f = Some (Rdone ec, f', []) ->
drive exec_step (stream ++ extra) f = Some (Dexit ec extra f').
Proof.
intros He. revert f. induction He as [|m ms t body bs Hw Hb Hl He IH]; intros f Hf; [done|].
rewrite <- app_assoc, drive_unfold, parse_message_frame by done.
rewrite (parse_any_message_complete _ _ _ Hb Hw). cbn [pm_ec pm_message pm_size].
rewrite <- (length_frame t), drop_app_length.
cbn [feed] in Hf. rewrite exec_step_eq. destruct (resume m f) as [[[ec'|] g]|]; [| |done];
cbn [mbind option_bind] in *.
- injection Hf as -> -> ->. by inversion He; subst.
- by apply IH.
Qed.

Lemma parse_message_error s e : pm_ec (parse_message s) = Some e ->
e = client needs_more \/ deserialization_error (Some e).
Proof.
unfold parse_message. destruct (length s <? 5)%nat; [intros [= <-]; by left|].
destruct (parse_header (take 5 s)) as [e'|h] eqn:Hh.
{ unfold parse_header in Hh. destruct (_ <? 4)%Z; [|done]. injection Hh as <-.
intros [= <-]. right. simpl. auto. }
destruct (length s <? _)%nat; [intros [= <-]; by left|].
destruct (parse_any_message _ _) as [e'|m] eqn:E; [|done]. intros [= <-]. right.
by eapply parse_any_message_error.
Qed.

Definition exec_outcome_ok (r : pump_result error_code) : Prop :=
match r with
| Pread => True
| Pexit ec => ec = None \/ ec = Some (client unexpected_message) \/ ec = Some (client copy_not_allowed)
| Perror e => deserialization_error (Some e)
end.

Lemma drive_safe `{!TotalHandler H} n : forall s (f : read_response_fsm H), (length s <= n)%nat -> fsm_inv f ->
exists d, drive exec_step s f = Some d /\
match d with
| Dexit ec _ _ => exec_outcome_ok (Pexit ec)
| Derror e _ _ => exec_outcome_ok (Perror e)
| Dwait _ _ f' => fsm_inv f'
end.
Proof.
induction n as [|n IH]; intros s f Hn Hi; rewrite drive_unfold.
{ destruct s; [|simpl in Hn; lia]. by eexists. }
destruct (pm_ec (parse_message s)) as [e|] eqn:E.
- apply parse_message_error in E as [->|E]; [by eexists|].
exists (Derror e s f). split; [|done]. destruct E as [->|[->| ->]]; done.
- apply parse_message_size in E. rewrite exec_step_eq.
destruct (resume_ok (pm_message (parse_message s)) f Hi) as (r & f' & -> & _ & Ho).
cbn [mbind option_bind]. destruct r as [ec|].
+ eexists. split; [done|]. simpl. destruct ec as [e|]; [|by left].
right. destruct Ho as [->| ->]; auto.
+ apply IH; [|done]. rewrite length_drop. lia.
Qed.

(** What one run of the loop leads to on a checked request. *)
Lemma exec_pump_safe `{!TotalHandler H} rb (f : read_response_fsm H) : rb_inv rb -> fsm_inv f ->
exists r rb' f', pump exec_step rb f = Some (r, rb', f') /\ rb_inv rb' /\
exec_outcome_ok r /\ (r = Pread -> fsm_inv f').
Proof.
intros Hrb Hi. pose proof (pump_loop_drive exec_step _ rb f Hrb (Nat.lt_succ_diag_r _)) as Hp.
destruct (drive_safe _ (committed_area rb) f (le_n _) Hi) as (d & Hd & Hok). rewrite Hd in Hp.
destruct Hp as (rb' & Hrb' & Hp). unfold pump. destruct d as [ec rest f'|m rest f'|e rest f'].
- destruct Hp as [-> _]. by exists (Pexit ec), rb', f'.
- destruct Hp as (-> & _). by exists Pread, rb', f'.
- destruct Hp as [-> _]. by exists (Perror e), rb', f'.
Qed.

(** The same for the session: what the machine may be asking for. *)
Definition io_outcome_ok (r : io_result) : Prop :=
match r with
| io_read => True
| io_write _ => False
| io_done None => True
| io_done (Some e) => e = client unexpected_message \/ e = client copy_not_allowed \/
          deserialization_error (Some e)
end.

Lemma exec_loop_safe `{!TotalHandler H} rp (f : read_response_fsm H) st : rb_inv (st_read_buffer st) ->
fsm_inv f ->
exists r x st', exec_loop (Exec rp f) st = Some (r, x, st') /\ io_outcome_ok r /\
rb_inv (st_read_buffer st') /\ (r = io_read -> exists f', x = Exec 2 f' /\ fsm_inv f').
Proof.
intros Hrb Hi. unfold exec_loop. cbn [read_fsm_ resume_point_].
destruct (exec_pump_safe _ f Hrb Hi) as (r & rb' & f' & -> & Hrb' & Hok & Hf).
cbn [mbind option_bind]. destruct r as [[e|]| |e]; eexists _, _, _; (split; [done|]);
(split; [|split; [exact Hrb'|]]); try done; simpl in *.
- destruct Hok as [?|[[= ->]|[= ->]]]; [done|auto..].
- intros _. exists f'. by auto.
- by auto.
Qed.

Lemma exec_reads_safe `{!TotalHandler H} sizes : forall stream (f : read_response_fsm H) st,
rb_inv (st_read_buffer st) -> fsm_inv f ->
exists r x st', exec_reads sizes stream io_read (Exec 2 f) st = Some (r, x, st') /\ io_outcome_ok r.
Proof.
induction sizes as [|n sizes IH]; intros stream f st Hrb Hi; [by eexists _, _, _|].
cbn [exec_reads]. set (data := take _ stream). unfold exec_resume. cbn [resume_point_].
set (st' := set_read_buffer _ _).
destruct (receive_ok data (st_read_buffer st) Hrb) as [Hrb' _].
{ unfold data. destruct Hrb as (a & b & c & Hl). rewrite (layout_prepared _ _ _ _ Hl), length_take. lia. }
destruct (exec_loop_safe 2 f st' Hrb' Hi) as (r & x & st'' & -> & Hok & Hrb'' & Hr).
cbn [mbind option_bind]. destruct r as [ec|data'|]; [destruct sizes; by eexists _, _, _|done|].
destruct (Hr eq_refl) as (f' & -> & Hi'). by apply IH.
Qed.
End delivery.

(** C7: Executing a request never fails an assertion and never stops halfway,
    whatever the server sends and however it arrives.  If the request passes
    [check_request] and the handler accepts all of it, the machine writes exactly
    the payload, and then waits for more input, or finishes without error, or
    finishes with one of five documented error codes. *)
Theorem exec_safe {alloc : Allocator} {H : Type} `{!ResponseHandler H, !TotalHandler H} req (h h0 : H) st sizes stream :
  check_request req = None ->
  setup req 0 h = Some (setup_ok (length (rq_types req)), h0) ->
  rb_inv (st_read_buffer st) ->
  exists r x st', exec_session sizes stream (make_exec req h) st = Some (rq_buffer req, r, x, st') /\
    match r with
    | io_read => True
    | io_write _ => False
    | io_done ec => ec = None \/ ec = Some (client unexpected_message) \/
        ec = Some (client copy_not_allowed) \/ ec = Some (client incomplete_message) \/
        ec = Some (client protocol_value_error) \/ ec = Some (client extra_bytes)
    end.
Proof.
  intros Hc Hs Hrb. rewrite (exec_session_start _ _ _ _ _ _ Hc Hs).
  destruct (exec_loop_safe 1 (make_fsm req h0 false) st Hrb (make_fsm_inv req h0 false Hc))
    as (r & x & st' & E & Hok & Hrb' & Hr).
  rewrite E.
  cbn [mbind option_bind].
  assert (exists r' x' st'', exec_reads sizes stream r x st' = Some (r', x', st'') /\ io_outcome_ok r')
    as (r' & x' & st'' & -> & Hok').
  { destruct r as [ec|data|]; [destruct sizes; by eexists _, _, _|done|].
    destruct (Hr eq_refl) as (f' & -> & Hi). by apply exec_reads_safe. }
  exists r', x', st''. split; [done|]. destruct r' as [[e|]|data|]; simpl in *; [|by left|done|done].
  right. destruct Hok' as [->|[->|[->|[->| ->]]]]; auto.
Qed.

Definition sample_state : connection_state := CS [] (@make_read_buffer zero_alloc 16) 0 0 [].

Lemma sample_state_inv : rb_inv (st_read_buffer sample_state).
Proof. apply make_read_buffer_inv. vm_compute. split; discriminate. Qed.

Lemma exec_safe_witness :
  exists r x st', @exec_session zero_alloc trace _ [3; 2; 9]%nat (frame (ch "1") [] ++ str "zzz")
      (make_exec sample_request []) sample_state = Some (rq_buffer sample_request, r, x, st') /\
    match r with
    | io_read => True
    | io_write _ => False
    | io_done ec => ec = None \/ ec = Some (client unexpected_message) \/
        ec = Some (client copy_not_allowed) \/ ec = Some (client incomplete_message) \/
        ec = Some (client protocol_value_error) \/ ec = Some (client extra_bytes)
    end.
Proof.
  apply (@exec_safe zero_alloc trace _ _ sample_request [] []); [reflexivity|reflexivity|apply sample_state_inv].
Defined.

(** A session in which the response machine completes on the messages of the stream. *)
Lemma exec_session_feed {alloc : Allocator} {H : Type} `{!ResponseHandler H} req (h h0 : H) ec f' st sizes
    ms response_bytes extra stream :
  check_request req = None ->
  setup req 0 h = Some (setup_ok (length (rq_types req)), h0) ->
  feed ms (make_fsm req h0 false) = Some (Rdone ec, f', []) ->
  encodes ms response_bytes ->
  rb_inv (st_read_buffer st) ->
  committed_area (st_read_buffer st) ++ stream = response_bytes ++ extra ->
  Forall (fun n => 0 < n)%nat sizes -> (length stream <= length sizes)%nat ->
  exists x st', exec_session sizes stream (make_exec req h) st =
      Some (rq_buffer req, io_done ec, x, st') /\
    handler_ (read_fsm_ x) = handler_ f' /\ exec_get_result x ec = (match ec with Some e => EE (Some e) [] | None => result (handler_ f') end) /\
    exists unread, committed_area (st_read_buffer st') ++ unread = extra.
Proof.
  intros Hc Hs Hfeed Henc Hrb Hstream Hpos Hlen.
  pose proof (drive_encodes _ _ extra _ _ _ Henc Hfeed) as Hd. rewrite <- Hstream in Hd.
  rewrite (exec_session_start _ _ _ _ _ _ Hc Hs).
  pose proof (pump_session_start exec_step sizes stream _ (make_fsm req h0 false) Hpos Hlen Hrb) as Hp.
  rewrite Hd in Hp. destruct Hp as (rb' & unread & Hrb' & Hp & Hrest).
  unfold exec_loop. cbn [read_fsm_ resume_point_].
  destruct (pump exec_step (st_read_buffer st) (make_fsm req h0 false)) as [[[r rb] f]|]; [|done].
  cbn [mbind option_bind] in *. destruct r as [ec'| |e].
  - assert (pump_session exec_step sizes stream (Pexit ec', rb, f) = Some (Pexit ec', rb, f, stream))
      as E by (by destruct sizes).
    rewrite E in Hp. injection Hp as -> -> -> <-.
    exists (Exec 1 f'), (set_read_buffer rb' st). split; [by destruct sizes|]. by eauto.
  - pose proof (exec_reads_session sizes stream rb f st) as He. rewrite Hp in He.
    destruct He as (r & x & st' & He & -> & -> & Hx). rewrite He. cbn [mbind option_bind].
    exists x, (set_read_buffer rb' st). split; [done|]. unfold exec_get_result. rewrite Hx. by eauto.
  - by destruct sizes.
Qed.

(** C3: Executing a request delivers its response, however the network cuts it
    up.  If what is in the buffer and what the server sends is the encoding of a
    response to the request, followed by anything, then for reads of any positive
    sizes the session writes the payload, finishes without error, has called the
    handler exactly as the response grammar says, and leaves what follows the
    response, none of it consumed, in the buffer and the stream. *)
Theorem exec_delivers {alloc : Allocator} {H : Type} `{!ResponseHandler H} req (h h0 h' : H) st sizes
    ms tr response_bytes extra stream :
  check_request req = None ->
  setup req 0 h = Some (setup_ok (length (rq_types req)), h0) ->
  response false 0 (rq_types req) (sync_part ms) tr -> ends_sync ms ->
  replay tr h0 = Some h' ->
  encodes ms response_bytes ->
  rb_inv (st_read_buffer st) ->
  committed_area (st_read_buffer st) ++ stream = response_bytes ++ extra ->
  Forall (fun n => 0 < n)%nat sizes -> (length stream <= length sizes)%nat ->
  exists x st', exec_session sizes stream (make_exec req h) st =
      Some (rq_buffer req, io_done None, x, st') /\
    handler_ (read_fsm_ x) = h' /\ exec_get_result x None = result h' /\
    exists unread, committed_area (st_read_buffer st') ++ unread = extra.
Proof.
  intros Hc Hs Hresp Hsync Hrep Henc Hrb Hstream Hpos Hlen.
  assert (rq_types req <> []) as Hne.
  { intros E. unfold check_request in Hc. by rewrite E in Hc. }
  destruct (proj2 (feed_response req h0 h' false ms Hne)) as (f' & Hfeed & <-).
  { split; [done|]. by exists tr. }
  by apply (exec_session_feed req h h0 None f' st sizes ms response_bytes).
Qed.

Definition begin_request : request := Req (str "Q...BEGIN") [rt_query] true.

(** The answer to BEGIN. *)
Definition begin_answer : list any_backend_message :=
  [Mcommand_complete {| tag := str "BEGIN" |}; Mready_for_query {| status := in_transaction |}].

Lemma begin_grammar : response false 0 (rq_types begin_request) (sync_part begin_answer)
  [(0%nat, Arow_description empty_row_description); (0%nat, Acommand_complete {| tag := str "BEGIN" |})].
Proof.
  apply (rs_ok false 0 rt_query [] [Mcommand_complete {| tag := str "BEGIN" |};
           Mready_for_query {| status := in_transaction |}] [Arow_description empty_row_description;
           Acommand_complete {| tag := str "BEGIN" |}] [] []); [|constructor].
  apply rp_query.
  apply (qis_item _ _ [Mcommand_complete _] [_; _] [Mready_for_query _] []); constructor.
Qed.

Lemma begin_encodes : encodes begin_answer (frame (ch "C") (str "BEGIN" ++ [0%Z]) ++ frame (ch "Z") [ch "T"]).
Proof.
  apply (encodes_cons _ _ _ (str "BEGIN" ++ [0%Z])).
  + apply (W_command_complete {| tag := str "BEGIN" |}). apply (bool_decide_unpack _). vm_compute. exact I.
  + apply (bool_decide_unpack _). vm_compute. exact I.
  + vm_compute. discriminate.
  + rewrite <- (app_nil_r (frame (ch "Z") [ch "T"])). apply (encodes_cons _ _ _ [ch "T"]).
    * by apply (W_ready_for_query {| status := in_transaction |}).
    * apply (bool_decide_unpack _). vm_compute. exact I.
    * vm_compute. discriminate.
    * constructor.
Qed.

Lemma exec_delivers_witness :
  exists x st', @exec_session zero_alloc trace _ (replicate 40 3%nat)
      (frame (ch "C") (str "BEGIN" ++ [0%Z]) ++ frame (ch "Z") [ch "T"]) (make_exec begin_request []) sample_state =
      Some (rq_buffer begin_request, io_done None, x, st') /\
    handler_ (read_fsm_ x) = [(0%nat, Arow_description empty_row_description);
                              (0%nat, Acommand_complete {| tag := str "BEGIN" |})] /\
    exec_get_result x None = no_error /\
    exists unread, committed_area (st_read_buffer st') ++ unread = [].
Proof.
  apply (@exec_delivers zero_alloc trace trace_handler begin_request [] []
    [(0%nat, Arow_description empty_row_description); (0%nat, Acommand_complete {| tag := str "BEGIN" |})]
    sample_state (replicate 40 3%nat)
    [Mcommand_complete {| tag := str "BEGIN" |}; Mready_for_query {| status := in_transaction |}]
    [(0%nat, Arow_description empty_row_description); (0%nat, Acommand_complete {| tag := str "BEGIN" |})]
    (frame (ch "C") (str "BEGIN" ++ [0%Z]) ++ frame (ch "Z") [ch "T"]) []
    (frame (ch "C") (str "BEGIN" ++ [0%Z]) ++ frame (ch "Z") [ch "T"])).
  - reflexivity.
  - reflexivity.
  - exact begin_grammar.
  - reflexivity.
  - reflexivity.
  - exact begin_encodes.
  - apply sample_state_inv.
  - reflexivity.
  - apply (bool_decide_unpack _). vm_compute. exact I.
  - vm_compute. lia.
Defined.
