(* ===== verification/ExecSome.v ===== *)
(** * Streaming execution
    ([include/nativepg/protocol/detail/exec_some_fsm.hpp], and the loops
    [read_some_messages] and [exec_some] of [src/src/co_connection.cpp])

    [exec_some_fsm] executes a request whose response may contain COPY data: it
    returns to its user at every COPY response, at every batch of data and at the
    end of the data.  The buffers it returns are spans over the read buffer, which
    is not touched until the user resumes; they are modelled by their bytes.
    [copy_session] is the user that resumes until the request is done, over a
    network that gives reads of any size. *)

From stdpp Require Import base list option.
From Stdlib Require Import ZArith Lia.
From S2P Require Import Prelude Errors ParseContext Views BackendMessages ParseMessage BackendWire BackendSpec.
From S2P Require Import Request ReadResponse ReadResponseSpec ReadResponseGrammar ReadBuffer MessagePump Exec.

(** [exec_some_fsm::result] *)
Inductive some_result :=
| some_write
| some_read
| some_copy_out (v : copy_response)
| some_copy_data
| some_copy_data_with_eof
| some_done (ec : error_code).

Record exec_some_fsm (H : Type) := ExecSome {
  es_resume_point : nat;
  consumed_ : nat;
  es_fsm : read_response_fsm H
}.
Arguments ExecSome {H} _ _ _.
Arguments es_resume_point {H} _.
Arguments consumed_ {H} _.
Arguments es_fsm {H} _.

Section exec_some.
Context {alloc : Allocator} {H : Type} `{!ResponseHandler H}.

Definition make_exec_some (req : request) (handler : H) : exec_some_fsm H :=
ExecSome 0 0 (make_fsm req handler true).

(** What a call of [resume] leaves: the result, the machine, the read buffer and
[copy_buffs]. *)
Definition some_state : Type := some_result * exec_some_fsm H * read_buffer * list bytes.

(** The top of the outer loop: a batch is asked for. *)
Definition get_batch (x : exec_some_fsm H) (rb : read_buffer) (copy_buffs : list bytes) : some_state :=
(some_read, ExecSome 2 0 (es_fsm x), consume (Z.of_nat (consumed_ x)) rb, copy_buffs).

(** The inner loop.  Every message has at least five bytes. *)
Fixpoint process_batch (fuel : nat) (x : exec_some_fsm H) (rb : read_buffer) (copy_buffs : list bytes)
: option some_state :=
match fuel with
| O => None
| S fuel' =>
let res := parse_message (drop (consumed_ x) (committed_area rb)) in
match pm_ec res with
| Some (client needs_more) =>
Some (match copy_buffs with
  | [] => get_batch x rb copy_buffs
  | _ => (some_copy_data, ExecSome 3 (consumed_ x) (es_fsm x), rb, copy_buffs)
  end)
| Some e => Some (some_done (Some e), x, rb, copy_buffs)
| None =>
let consumed := (consumed_ x + pm_size res)%nat in
'(r, f) ← resume (pm_message res) (es_fsm x);
let at_point p := ExecSome p consumed f in
match r with
| Rdone ec => Some (some_done ec, at_point (es_resume_point x), consume (Z.of_nat consumed) rb, copy_buffs)
| Rread =>
match pm_message res with
| Mcopy_out_response v => Some (some_copy_out v, at_point 4, rb, copy_buffs)
| Mcopy_data data => process_batch fuel' (at_point (es_resume_point x)) rb (copy_buffs ++ [data])
| Mcopy_done => Some (some_copy_data_with_eof, at_point 5, rb, copy_buffs)
| Merror_response _ => Some (some_copy_data_with_eof, at_point 6, rb, copy_buffs)
| _ => process_batch fuel' (at_point (es_resume_point x)) rb copy_buffs
end
end
end
end.

Definition batch (x : exec_some_fsm H) (rb : read_buffer) (copy_buffs : list bytes) : option some_state :=
process_batch (S (length (committed_area rb))) x rb copy_buffs.

Definition exec_some_resume (x : exec_some_fsm H) (rb : read_buffer) (copy_buffs : list bytes) : option some_state :=
match es_resume_point x with
| 0 =>
let f := es_fsm x in
'(req_ec, h) ← setup_request (req_ f) (handler_ f);
let f := with_handler h f in
match req_ec with
| Some e => Some (some_done (Some e), ExecSome 0 (consumed_ x) f, rb, copy_buffs)
| None => Some (some_write, ExecSome 1 (consumed_ x) f, rb, [])
end
| 1 => Some (get_batch x rb copy_buffs)
| 2 => batch x rb copy_buffs
| 3 => Some (get_batch x rb [])
| 4 => batch x rb copy_buffs
| 5 | 6 => batch x rb []
| _ => None
end%nat.

(** ** The connection around it *)

(** [read_some_messages]: reads of at most the given sizes, cut to the space
there is, until a message is complete.  The result is what is left of the sizes
and of what the server sends. *)
Fixpoint read_some_messages (sizes : list nat) (stream : bytes) (rb : read_buffer)
: option (list nat * bytes * read_buffer) :=
match message_missing_bytes (committed_area rb) with
| O => Some (sizes, stream, rb)
| missing_bytes =>
rb ← prepare (Z.of_nat missing_bytes) rb;
match sizes with
| [] => None
| n :: sizes' =>
let data := take (Nat.min n (Z.to_nat (prepared_size rb))) stream in
read_some_messages sizes' (drop (length data) stream) (receive data rb)
end
end.

(** What the user of [exec_some] sees. *)
Inductive copy_event :=
| Ev_copy_out (v : copy_response)
| Ev_data (buffers : list bytes) (eof : bool).

(** The loop of [exec_some], with its user calling it again until it is done. *)
Inductive copy_session : list nat -> bytes -> some_state -> bytes -> list copy_event -> error_code ->
exec_some_fsm H -> read_buffer -> bytes -> Prop :=
| cs_done sizes stream ec x rb buffs : copy_session sizes stream (some_done ec, x, rb, buffs) [] [] ec x rb stream
| cs_write sizes stream x rb buffs s written evs ec x' rb' rest : exec_some_resume x rb buffs = Some s ->
copy_session sizes stream s written evs ec x' rb' rest ->
copy_session sizes stream (some_write, x, rb, buffs) (rq_buffer (req_ (es_fsm x)) ++ written) evs ec x' rb' rest
| cs_read sizes stream sizes1 stream1 x rb rb1 buffs s written evs ec x' rb' rest :
read_some_messages sizes stream rb = Some (sizes1, stream1, rb1) -> exec_some_resume x rb1 buffs = Some s ->
copy_session sizes1 stream1 s written evs ec x' rb' rest ->
copy_session sizes stream (some_read, x, rb, buffs) written evs ec x' rb' rest
| cs_copy_out sizes stream v x rb buffs s written evs ec x' rb' rest : exec_some_resume x rb buffs = Some s ->
copy_session sizes stream s written evs ec x' rb' rest ->
copy_session sizes stream (some_copy_out v, x, rb, buffs) written (Ev_copy_out v :: evs) ec x' rb' rest
| cs_data sizes stream x rb buffs s written evs ec x' rb' rest : exec_some_resume x rb buffs = Some s ->
copy_session sizes stream s written evs ec x' rb' rest ->
copy_session sizes stream (some_copy_data, x, rb, buffs) written (Ev_data buffs false :: evs) ec x' rb' rest
| cs_eof sizes stream x rb buffs s written evs ec x' rb' rest : exec_some_resume x rb buffs = Some s ->
copy_session sizes stream s written evs ec x' rb' rest ->
copy_session sizes stream (some_copy_data_with_eof, x, rb, buffs) written (Ev_data buffs true :: evs) ec x' rb' rest.

(** ** What the user should see

The pieces of the events, and those of the messages. *)
Inductive copy_item := It_out (v : copy_response) | It_data (data : bytes) | It_eof.

Definition event_items (e : copy_event) : list copy_item :=
match e with
| Ev_copy_out v => [It_out v]
| Ev_data buffers eof => map It_data buffers ++ (if eof then [It_eof] else [])
end.

Definition message_items (m : any_backend_message) : list copy_item :=
match m with
| Mcopy_out_response v => [It_out v]
| Mcopy_data data => [It_data data]
| Mcopy_done | Merror_response _ => [It_eof]
| _ => []
end.
End exec_some.

(** ** Lemmas

Copy data only comes in two states, which end with CopyDone or an error. *)
Section copying.
Context {H : Type} `{!ResponseHandler H}.

Definition copying (f : read_response_fsm H) : bool :=
match state_ f with exec_copy_out | query_copy_out => true | _ => false end.

Lemma skip_to_sync_reads rest : forall (f : read_response_fsm H) r f', skip_to_sync rest f = Some (r, f') -> r = Rread.
Proof.
induction rest as [|t rest IH]; intros f r f' He; [done|].
destruct t; cbn [skip_to_sync] in He; try (by injection He as <- _); try (by eapply IH);
(destruct (call_handler _ f); [by eapply IH|done]).
Qed.

Lemma handle_error_reads e (f : read_response_fsm H) r f' : handle_error e f = Some (r, f') -> r = Rread.
Proof. unfold handle_error. destruct (call_handler _ f); [|done]. apply skip_to_sync_reads. Qed.

(** What [resume] can do about copies. *)
Definition copy_step (m : any_backend_message) (f : read_response_fsm H) (r : fsm_result) (f' : read_response_fsm H) : Prop :=
((exists data, m = Mcopy_data data) -> r = Rread -> copying f' = true) /\
(copying f = true -> r <> Rdone None /\
(r = Rread -> (copying f' = true /\ forall v, m <> Mcopy_out_response v) \/ m = Mcopy_done \/ exists e, m = Merror_response e)).

Lemma unexpected_step m (f : read_response_fsm H) r f' : unexpected f = Some (r, f') -> copy_step m f r f'.
Proof. intros [= <- <-]. split; [done|]. intros _. by split. Qed.

Lemma error_step e (f : read_response_fsm H) r f' : r = Rread -> copy_step (Merror_response e) f r f'.
Proof. intros ->. split; [by intros [data [=]]|]. intros _. split; [done|]. intros _. right. right. by eexists. Qed.

(** Outside of a copy, only data matters, and it is not expected. *)
Lemma other_step m (f : read_response_fsm H) r f' : copying f = false -> (forall data, m <> Mcopy_data data) -> copy_step m f r f'.
Proof. intros Hc Hm. split; [intros [data ->]; by destruct (Hm data)|]. by rewrite Hc. Qed.

Lemma handle_execute_step m (f : read_response_fsm H) r f' : handle_execute m f = Some (r, f') -> copy_step m f r f'.
Proof.
unfold handle_execute. intros He. destruct (state_ f) eqn:Es;
(destruct m; try (by eapply unexpected_step); try (apply error_step; by eapply handle_error_reads));
try (apply other_step; [unfold copying; by rewrite Es|done]).
- injection He as <- <-. unfold copy_step, copying. rewrite Es. split; [done|]. intros _. split; [done|]. intros _. by left.
- injection He as <- <-. split; [by intros [data [=]]|]. intros _. split; [done|]. intros _. right. by left.
Qed.

Lemma query_error_reads e (f : read_response_fsm H) r f' : query_error e f = Some (r, f') -> r = Rread.
Proof. unfold query_error. destruct (call_handler _ _); [|done]. by intros [= <- _]. Qed.

Lemma handle_query_step m (f : read_response_fsm H) r f' : handle_query m f = Some (r, f') -> copy_step m f r f'.
Proof.
unfold handle_query. intros He. destruct (state_ f) eqn:Es; try done;
(destruct m; try (by eapply unexpected_step); try (apply error_step; by eapply query_error_reads));
try (apply other_step; [unfold copying; by rewrite Es|done]).
- injection He as <- <-. unfold copy_step, copying. rewrite Es. split; [done|]. intros _. split; [done|]. intros _. by left.
- injection He as <- <-. split; [by intros [data [=]]|]. intros _. split; [done|]. intros _. right. by left.
Qed.

(** The handlers of the other request messages assert that no message has come. *)
Lemma first_step m (f : read_response_fsm H) k r f' : (if bool_decide (state_ f = msg_first) then k else None) = Some (r, f') ->
((exists data, m = Mcopy_data data) -> k = unexpected f) -> copy_step m f r f'.
Proof.
case_bool_decide as Es; [|done]. intros He Hk. assert (copying f = false) as Hc by (unfold copying; by rewrite Es).
split; [|by rewrite Hc]. intros Hm ->. rewrite (Hk Hm) in He. by injection He.
Qed.

Lemma resume_copy_step m (f : read_response_fsm H) r f' : resume m f = Some (r, f') -> copy_step m f r f'.
Proof.
unfold resume. destruct (is_async m) eqn:Ea.
{ intros [= <- <-]. split; [by intros [data ->]|]. intros Hc. split; [done|]. intros _. left. split; [done|]. by intros v ->. }
generalize (get_remaining_messages f) as rest. intros rest. revert f.
induction rest as [|t rest IH]; intros f He; [done|].
destruct t; cbn [dispatch] in He; try (by apply handle_execute_step); try (by apply handle_query_step).
all: try (eapply first_step; [exact He|]; by intros [data ->]).
exact (IH (incr_current f) He).
Qed.
End copying.

Section session.
Context {alloc : Allocator} {H : Type} `{!ResponseHandler H}.

(** A network that can still give everything the server sends. *)
Definition enough (sizes : list nat) (stream : bytes) : Prop :=
Forall (fun n => 0 < n)%nat sizes /\ (length stream <= length sizes)%nat.

(** Reading stops with a complete message in the buffer. *)
Lemma read_some_ok t body m rest : Forall is_byte body -> wire_body m t body -> (Z.of_nat (length body) + 4 <= INT32_MAX)%Z ->
forall sizes stream rb, rb_inv rb -> enough sizes stream -> committed_area rb ++ stream = frame t body ++ rest ->
exists sizes' stream' rb' u, read_some_messages sizes stream rb = Some (sizes', stream', rb') /\ rb_inv rb' /\
enough sizes' stream' /\ committed_area rb' = frame t body ++ u /\ u ++ stream' = rest.
Proof.
intros Hb Hw Hl. induction sizes as [|k sizes IH]; intros stream rb Hi Hen Hs; cbn [read_some_messages].
all: destruct (Nat.le_gt_cases (length (frame t body)) (length (committed_area rb))) as [Hc|Hc].
1, 3: destruct (app_longer _ _ _ _ Hs Hc) as (u & Hu & Hr); rewrite missing_complete by (by rewrite Hu, (parse_complete t body m));
by eexists _, stream, rb, u.
all: destruct Hen as [Hpos Hlen].
- exfalso. destruct stream; [|simpl in Hlen; lia]. rewrite app_nil_r in Hs. rewrite Hs, length_app in Hc. lia.
- pose proof (parse_incomplete t body m rest _ stream Hb Hw Hl Hs Hc) as He.
destruct (missing_incomplete _ He) as (n & Hm & Hsz). apply parse_message_needs_more in He as [Hp Hbd]. rewrite Hsz in *.
destruct (buffer_step_refines (Op_prepare (Z.of_nat (S n))) rb Hi) as (rb1 & Hst & Hi1 & Hc1 & Hroom).
{ unfold op_allowed, SIZE_MAX. unfold INT32_MAX in Hbd. lia. }
simpl in Hst, Hc1. rewrite Hm, Hst. cbn [mbind option_bind].
set (data := take _ stream).
assert (length data = Nat.min (Nat.min k (Z.to_nat (prepared_size rb1))) (length stream)) as Hd by apply length_take.
destruct (receive_ok data rb1 Hi1) as [Hi2 Hc2]; [lia|]. apply Forall_cons_iff in Hpos as [Hk Hpos].
apply (IH (drop (length data) stream) (receive data rb1)); [done| |].
+ split; [done|]. rewrite length_drop. simpl in Hlen. assert (0 < length stream \/ stream = [])%nat as [Hst'|Hst'] by (destruct stream; [by right|left; simpl; lia]); [lia|].
rewrite Hst'. simpl. lia.
+ rewrite Hc2, Hc1, <- app_assoc. unfold data. by rewrite take_drop_len.
Qed.

(** ** The session, from a batch on *)

(** What the user still sees: the buffers that have not been returned, and what
the messages before the last one bring. *)
Definition items_left (buffs : list bytes) (ms : list any_backend_message) : list copy_item :=
map It_data buffs ++ concat (map message_items (removelast ms)).

(** The rest of a session that succeeds. *)
Definition ends_well (sizes : list nat) (stream : bytes) (s : @some_state H) (items : list copy_item)
(f' : read_response_fsm H) (extra : bytes) : Prop :=
exists evs x' rb' rest, copy_session sizes stream s [] evs None x' rb' rest /\
concat (map event_items evs) = items /\ es_fsm x' = f' /\ rb_inv rb' /\ committed_area rb' ++ rest = extra.

(** The bytes that no message has been taken from. *)
Definition unread (x : exec_some_fsm H) (rb : read_buffer) : bytes := drop (consumed_ x) (committed_area rb).

(** Where a batch stands, with the messages [ms] still to come. *)
Definition batch_at (ms : list any_backend_message) (f' : read_response_fsm H) (extra : bytes)
(x : exec_some_fsm H) (rb : read_buffer) (buffs : list bytes) (sizes : list nat) (stream : bytes) : Prop :=
feed ms (es_fsm x) = Some (Rdone None, f', []) /\ (buffs <> [] -> copying (es_fsm x) = true) /\
rb_inv rb /\ (consumed_ x <= length (committed_area rb))%nat /\ enough sizes stream /\
exists bs, encodes ms bs /\ unread x rb ++ stream = bs ++ extra.

Definition batch_ends (ms : list any_backend_message) (f' : read_response_fsm H) (extra : bytes) : Prop :=
forall x rb buffs sizes stream fuel, batch_at ms f' extra x rb buffs sizes stream -> (length (unread x rb) < fuel)%nat ->
exists s, process_batch fuel x rb buffs = Some s /\ ends_well sizes stream s (items_left buffs ms) f' extra.

Lemma items_left_cons buffs m ms : ms <> [] -> items_left buffs (m :: ms) = map It_data buffs ++ message_items m ++ concat (map message_items (removelast ms)).
Proof. intros Hn. unfold items_left. destruct ms as [|m' ms]; [done|]. reflexivity. Qed.

(** A result that makes the user resume, which runs the batch on. *)
Lemma ends_well_resume sizes stream s r x rb buffs items items' f' extra ev :
exec_some_resume x rb buffs = Some s -> ends_well sizes stream s items f' extra ->
(forall written evs ec x' rb' rest, copy_session sizes stream s written evs ec x' rb' rest ->
copy_session sizes stream (r, x, rb, buffs) written (ev :: evs) ec x' rb' rest) ->
items' = event_items ev ++ items ->
ends_well sizes stream (r, x, rb, buffs) items' f' extra.
Proof.
intros Hr (evs & x' & rb' & rest & Hs & Hi & Hf & Hrb & Hc) Hstep ->.
exists (ev :: evs), x', rb', rest. split; [by apply Hstep|]. split; [cbn [map concat]; by rewrite Hi|done].
Qed.

(** The messages after the first: the machine has taken it. *)
Lemma batch_next m ms f' extra bs x rb buffs buffs' sizes stream t body u f1 p :
Forall is_byte body -> wire_body m t body -> unread x rb = frame t body ++ u -> encodes ms bs ->
u ++ stream = bs ++ extra -> feed ms f1 = Some (Rdone None, f', []) -> (buffs' <> [] -> copying f1 = true) ->
batch_at (m :: ms) f' extra x rb buffs sizes stream ->
batch_at ms f' extra (ExecSome p (consumed_ x + length (frame t body)) f1) rb buffs' sizes stream /\
(length (unread (ExecSome p (consumed_ x + length (frame t body)) f1) rb) < length (unread x rb))%nat.
Proof.
intros Hb Hw Hu He Hs Hf Hc (_ & _ & Hi & Hcon & Hen & _).
assert (unread (ExecSome p (consumed_ x + length (frame t body)) f1) rb = u) as Hu'.
{ unfold unread in *. cbn [consumed_]. rewrite <- drop_drop, Hu. apply drop_app_length. }
split; [|rewrite Hu', Hu, length_app, length_frame; lia]. split_and!; [done..|cbn [consumed_]|done|].
- pose proof (f_equal length Hu) as Hl. unfold unread in Hl. rewrite length_drop, length_app in Hl. rewrite length_frame in *. lia.
- exists bs. split; [done|]. by rewrite Hu'.
Qed.

(** The user gets an event and resumes. *)
Ltac user_resumes Hnext Hall p kept ev cs :=
let s := fresh "s" in let Hpb := fresh "Hpb" in let Hew := fresh "Hew" in
destruct (Hnext kept p ltac:(done) _ (Hall p)) as (s & Hpb & Hew); eexists; split; [reflexivity|];
eapply (ends_well_resume _ _ s _ _ _ _ _ _ _ _ ev);
[exact Hpb|exact Hew|intros; eapply cs; [exact Hpb|eassumption]|].

(** The first message has arrived. *)
Lemma batch_ready m ms t body f' extra x rb buffs sizes stream fuel u bs : batch_ends ms f' extra ->
Forall is_byte body -> wire_body m t body -> (Z.of_nat (length body) + 4 <= INT32_MAX)%Z -> encodes ms bs ->
batch_at (m :: ms) f' extra x rb buffs sizes stream -> unread x rb = frame t body ++ u -> u ++ stream = bs ++ extra ->
(length (unread x rb) < fuel)%nat ->
exists s, process_batch fuel x rb buffs = Some s /\ ends_well sizes stream s (items_left buffs (m :: ms)) f' extra.
Proof.
intros IH Hb Hw Hl He Hat Hu Hs Hfuel. pose proof Hat as (Hf & Hc & Hi & Hcon & Hen & _).
destruct fuel as [|fuel]; [lia|]. cbn [process_batch]. fold (unread x rb).
assert (parse_message (unread x rb) = {| pm_ec := None; pm_message := m; pm_size := length (frame t body) |}) as ->
by (rewrite Hu; by apply parse_complete). cbn [pm_ec pm_message pm_size].
cbn [feed] in Hf. destruct (resume m (es_fsm x)) as [[r f1]|] eqn:Er; [|done]. cbn [mbind option_bind] in *.
pose proof (resume_copy_step _ _ _ _ Er) as [Hdata Hcopy].
destruct r as [ec|].
- injection Hf as -> -> ->. assert (buffs = []) as -> by (destruct buffs; [done|]; by destruct (Hcopy (Hc ltac:(done)))).
eexists. split; [reflexivity|]. destruct (consume_ok (consumed_ x + length (frame t body)) rb Hi) as [Hi' Hc'].
eexists [], _, _, _. split; [apply cs_done|]. split_and!; [done..|]. rewrite Hc', <- drop_drop.
unfold unread in Hu. rewrite Hu, drop_app_length, Hs. by inversion He.
- assert (ms <> []) as Hms by (by destruct ms). rewrite items_left_cons by done.
assert (forall buffs' p, (buffs' <> [] -> copying f1 = true) -> forall fuel', (length (unread (ExecSome p (consumed_ x + length (frame t body)) f1) rb) < fuel')%nat ->
exists s, process_batch fuel' (ExecSome p (consumed_ x + length (frame t body)) f1) rb buffs' = Some s /\
ends_well sizes stream s (items_left buffs' ms) f' extra) as Hnext.
{ intros buffs' p Hc' fuel' Hfu. eapply IH; [|exact Hfu].
exact (proj1 (batch_next m ms f' extra bs x rb buffs buffs' sizes stream t body u f1 p Hb Hw Hu He Hs Hf Hc' Hat)). }
assert (forall p, (length (unread (ExecSome p (consumed_ x + length (frame t body)) f1) rb) < length (unread x rb))%nat) as Hless.
{ intros p. refine (proj2 (batch_next m ms f' extra bs x rb buffs [] sizes stream t body u f1 p Hb Hw Hu He Hs Hf _ Hat)). done. }
assert (forall p, length (unread (ExecSome p (consumed_ x + length (frame t body)) f1) rb) < S (length (committed_area rb)))%nat as Hall.
{ intros p. unfold unread. rewrite length_drop. lia. }
assert (buffs <> [] -> m <> Mcopy_done -> (forall e, m <> Merror_response e) -> copying f1 = true /\ forall v, m <> Mcopy_out_response v) as Hkeep.
{ intros Hn H1 H2. destruct (Hcopy (Hc Hn)) as [_ [H3|[H3|[e H3]]]]; [done|done|done|by destruct (H2 e)]. }
destruct m; cbn [message_items app]; try (apply (Hnext buffs); [intros Hn; by destruct (Hkeep Hn)|specialize (Hless (es_resume_point x)); lia]).
+ replace (map It_data buffs ++ _) with (items_left (buffs ++ [data]) ms) by (unfold items_left; by rewrite map_app, <- app_assoc).
apply Hnext; [by intros _; apply Hdata; [eexists|]|specialize (Hless (es_resume_point x)); lia].
+ user_resumes Hnext Hall 5%nat (@nil bytes) (Ev_data buffs true) cs_eof. cbn [event_items]. by rewrite <- app_assoc.
+ assert (buffs = []) as -> by (destruct buffs; [done|]; by destruct (proj2 (Hkeep ltac:(done) ltac:(done) ltac:(done)) v)).
by user_resumes Hnext Hall 4%nat (@nil bytes) (Ev_copy_out v) cs_copy_out.
+ user_resumes Hnext Hall 6%nat (@nil bytes) (Ev_data buffs true) cs_eof. cbn [event_items]. by rewrite <- app_assoc.
Qed.

(** A new batch is read: then its first message has arrived. *)
Lemma batch_read m ms t body f' extra x rb sizes stream bs : batch_ends ms f' extra ->
Forall is_byte body -> wire_body m t body -> (Z.of_nat (length body) + 4 <= INT32_MAX)%Z -> encodes ms bs ->
batch_at (m :: ms) f' extra x rb [] sizes stream -> unread x rb ++ stream = frame t body ++ bs ++ extra ->
ends_well sizes stream (get_batch x rb []) (items_left [] (m :: ms)) f' extra.
Proof.
intros IH Hb Hw Hl He (Hf & _ & Hi & Hcon & Hen & _) Hs. unfold get_batch.
destruct (consume_ok (consumed_ x) rb Hi) as [Hi' Hc']. fold (unread x rb) in Hc'. rewrite <- Hc' in Hs.
destruct (read_some_ok t body m _ Hb Hw Hl sizes stream _ Hi' Hen Hs) as (sizes1 & stream1 & rb1 & u & Hr & Hi1 & Hen1 & Hc1 & Hu).
assert (batch_at (m :: ms) f' extra (ExecSome 2 0 (es_fsm x)) rb1 [] sizes1 stream1) as Hat.
{ split_and!; [done..|cbn [consumed_]; lia|done|]. exists (frame t body ++ bs). split; [by apply encodes_cons with (m := m)|].
unfold unread. cbn [consumed_]. by rewrite drop_0, Hc1, <- !app_assoc, Hu. }
destruct (batch_ready m ms t body f' extra _ rb1 [] sizes1 stream1 (S (length (committed_area rb1))) u bs IH Hb Hw Hl He Hat)
as (s & Hp & evs & x' & rb' & rest & Hcs & Hrest).
- unfold unread. cbn [consumed_]. by rewrite drop_0.
- done.
- unfold unread. rewrite length_drop. lia.
- exists evs, x', rb', rest. split; [|exact Hrest]. eapply cs_read; [exact Hr|exact Hp|exact Hcs].
Qed.

(** Every batch of a response that succeeds ends well. *)
Lemma batches_end ms f' extra : batch_ends ms f' extra.
Proof.
induction ms as [|m ms IH]; intros x rb buffs sizes stream fuel Hat Hfuel; [by destruct Hat|].
pose proof Hat as (Hf & Hc & Hi & Hcon & Hen & bs' & He' & Hs).
inversion He' as [|? ? t body bs Hw Hb Hl He]; subst. rewrite <- app_assoc in Hs.
destruct (Nat.le_gt_cases (length (frame t body)) (length (unread x rb))) as [Hle|Hlt].
{ destruct (app_longer _ _ _ _ Hs Hle) as (u & Hu & Hr). by eapply batch_ready. }
destruct fuel as [|fuel]; [lia|]. cbn [process_batch]. fold (unread x rb).
rewrite (parse_incomplete t body m _ _ stream Hb Hw Hl Hs Hlt). eexists. split; [reflexivity|].
assert (forall p, batch_at (m :: ms) f' extra (ExecSome p (consumed_ x) (es_fsm x)) rb [] sizes stream) as Hat' by (by intros p; split_and!; [..|exists (frame t body ++ bs); split; [|rewrite <- app_assoc]]).
destruct buffs as [|b buffs].
- pose proof (batch_read m ms t body f' extra _ rb sizes stream bs IH Hb Hw Hl He (Hat' 0%nat) Hs) as Hread. exact Hread.
- pose proof (batch_read m ms t body f' extra _ rb sizes stream bs IH Hb Hw Hl He (Hat' 3%nat) Hs) as Hread.
eapply (ends_well_resume _ _ _ _ _ _ _ _ _ _ _ (Ev_data (b :: buffs) false)); [reflexivity|exact Hread|intros; eapply cs_data; [reflexivity|eassumption]|].
unfold items_left. cbn [event_items]. by rewrite app_nil_r.
Qed.
End session.

(** Streaming a request delivers the response and its COPY data.  If the buffer
    and the network hold a response of the grammar that allows copies, followed by
    anything, then for reads of any positive sizes the user who resumes until the
    request is done gets there without error: the payload is written, the handler
    has been called as the grammar says, the events show the COPY responses, the
    data and its ends in the order they came, and what follows the response is
    kept. *)
Theorem copy_delivers {alloc : Allocator} {H : Type} `{!ResponseHandler H} req (h h0 h' : H) rb sizes
    ms tr response_bytes extra stream :
  check_request req = None ->
  setup req 0 h = Some (setup_ok (length (rq_types req)), h0) ->
  response true 0 (rq_types req) (sync_part ms) tr -> ends_sync ms -> replay tr h0 = Some h' ->
  encodes ms response_bytes -> rb_inv rb -> committed_area rb ++ stream = response_bytes ++ extra ->
  Forall (fun n => 0 < n)%nat sizes -> (length stream <= length sizes)%nat ->
  exists s evs x rb' rest, exec_some_resume (make_exec_some req h) rb [] = Some s /\
    copy_session sizes stream s (rq_buffer req) evs None x rb' rest /\ handler_ (es_fsm x) = h' /\
    concat (map event_items evs) = concat (map message_items (removelast ms)) /\
    committed_area rb' ++ rest = extra.
Proof.
  intros Hc Hs Hresp Hsync Hrep Henc Hrb Hstream Hpos Hlen.
  assert (rq_types req <> []) as Hne by (intros He; unfold check_request in Hc; by rewrite He in Hc).
  destruct (proj2 (feed_response req h0 h' true ms Hne)) as (f' & Hfeed & Hh); [split; [done|by exists tr]|].
  set (x1 := ExecSome 1 0 (make_fsm req h0 true)). exists (some_write, x1, rb, []).
  assert (ends_well sizes stream (get_batch x1 rb []) (items_left [] ms) f' extra)
    as (evs & x & rb' & rest & Hcs & Hi & Hx & _ & Hr).
  { destruct Henc as [|m ms t body bs Hw Hb Hl He]; [done|]. rewrite <- app_assoc in Hstream.
    eapply (batch_read m ms t body); [apply batches_end|done..| |by unfold unread; cbn [consumed_ x1]; rewrite drop_0].
    split_and!; [done..|cbn; lia|done|]. exists (frame t body ++ bs). split; [by apply encodes_cons with (m := m)|].
    unfold unread. cbn [consumed_ x1]. by rewrite drop_0, <- app_assoc. }
  exists evs, x, rb', rest. split_and!; [|by rewrite <- (app_nil_r (rq_buffer req)); eapply cs_write; [reflexivity|exact Hcs]|by rewrite Hx|exact Hi|done].
  unfold exec_some_resume, setup_request. cbn [make_exec_some es_resume_point es_fsm make_fsm req_ handler_].
  rewrite Hc, Hs. cbn [mbind option_bind setup_ok hs_ec hs_offset]. by rewrite Nat.eqb_refl.
Qed.

(** COPY (SELECT 1) TO STDOUT, in two pieces of data. *)
Definition sample_copy : copy_response := {| overall_fmt_code := fmt_text; fmt_codes := RAPV (be_encode 2 0) 1 |}.

Definition copy_messages : list any_backend_message :=
  [Mcopy_out_response sample_copy; Mcopy_data (str "1"); Mcopy_data (str "2"); Mcopy_done;
   Mcommand_complete {| tag := str "COPY 2" |}; Mready_for_query {| status := idle |}].

Definition copy_bytes : bytes :=
  frame (ch "H") ([fmt_text] ++ be_encode 2 1 ++ be_encode 2 0) ++ frame (ch "d") (str "1") ++ frame (ch "d") (str "2") ++
  frame (ch "c") [] ++ frame (ch "C") (str "COPY 2" ++ [0%Z]) ++ frame (ch "Z") [ch "I"].

Lemma copy_bytes_encode : encodes copy_messages copy_bytes.
Proof.
  unfold copy_bytes, copy_messages. rewrite <- (app_nil_r (frame (ch "Z") [ch "I"])).
  repeat first [apply encodes_nil | refine (encodes_cons _ _ _ _ _ _ _ _ _); [|apply (bool_decide_unpack _); vm_compute; exact I|vm_compute; discriminate|]].
  - apply W_copy_out_response. exists [0%Z]. split_and!; try done; repeat constructor.
  - apply W_copy_data.
  - apply W_copy_data.
  - apply W_copy_done.
  - apply (W_command_complete {| tag := str "COPY 2" |}). apply (bool_decide_unpack _). vm_compute. exact I.
  - by apply (W_ready_for_query {| status := idle |}).
Qed.

Lemma copy_response_grammar : response true 0 (rq_types begin_request) (sync_part copy_messages)
  [(0%nat, Arow_description empty_row_description); (0%nat, Acommand_complete {| tag := str "COPY 2" |})].
Proof.
  apply (rs_ok true 0 rt_query [] copy_messages [Arow_description empty_row_description;
           Acommand_complete {| tag := str "COPY 2" |}] [] []); [|constructor].
  apply rp_query.
  apply (qis_item _ _ [Mcopy_out_response sample_copy; Mcopy_data (str "1"); Mcopy_data (str "2"); Mcopy_done;
    Mcommand_complete {| tag := str "COPY 2" |}] [_; _] [Mready_for_query _] []); [|constructor].
  apply qi_copy; [reflexivity|]. apply (ce_ok [str "1"; str "2"]).
Qed.

Lemma copy_delivers_witness :
  exists s evs x rb' rest,
    exec_some_resume (make_exec_some begin_request ([] : trace)) (st_read_buffer sample_state) [] = Some s /\
    @copy_session zero_alloc trace _ (replicate 90 3%nat) (copy_bytes ++ str "Z") s (rq_buffer begin_request) evs None x rb' rest /\
    handler_ (es_fsm x) = [(0%nat, Arow_description empty_row_description); (0%nat, Acommand_complete {| tag := str "COPY 2" |})] /\
    concat (map event_items evs) = [It_out sample_copy; It_data (str "1"); It_data (str "2"); It_eof] /\
    committed_area rb' ++ rest = str "Z".
Proof.
  apply (@copy_delivers zero_alloc trace _ begin_request [] []
    [(0%nat, Arow_description empty_row_description); (0%nat, Acommand_complete {| tag := str "COPY 2" |})]
    (st_read_buffer sample_state) (replicate 90 3%nat) copy_messages
    [(0%nat, Arow_description empty_row_description); (0%nat, Acommand_complete {| tag := str "COPY 2" |})] copy_bytes (str "Z")
    (copy_bytes ++ str "Z")).
  - reflexivity.
  - reflexivity.
  - exact copy_response_grammar.
  - reflexivity.
  - reflexivity.
  - exact copy_bytes_encode.
  - apply sample_state_inv.
  - reflexivity.
  - apply (bool_decide_unpack _). vm_compute. exact I.
  - vm_compute. lia.
Defined.

(** An error of a request without any COPY is reported to the user as the end of
    copy data. *)
Theorem error_signals_eof e t body rb (f : read_response_fsm trace) f1 : Forall is_byte body ->
  wire_body (Merror_response e) t body -> (Z.of_nat (length body) + 4 <= INT32_MAX)%Z ->
  committed_area rb = frame t body -> resume (Merror_response e) f = Some (Rread, f1) ->
  exec_some_resume (ExecSome 2 0 f) rb [] = Some (some_copy_data_with_eof, ExecSome 6 (length (frame t body)) f1, rb, []).
Proof.
  intros Hb Hw Hl Hc Hr. unfold exec_some_resume, batch. cbn [es_resume_point process_batch consumed_ es_fsm].
  rewrite drop_0, Hc, <- (app_nil_r (frame t body)), (parse_complete t body (Merror_response e)) by done.
  cbn [pm_ec pm_message pm_size]. rewrite Hr. cbn [mbind option_bind]. by rewrite app_nil_r.
Qed.
