(* ===== verification/Base64.v ===== *)
(** * Base64 ([src/src/nativepg_internal/base64.hpp], [src/src/nativepg_internal/base64.cpp])

    The decoder indexes its table with a [char] cast to [size_t], so what it does
    with a byte above 127 depends on the signedness of [char], which the language
    leaves to the platform: [char_signed] is an argument of the decoder. *)

From stdpp Require Import base list option.
From Stdlib Require Import ZArith Lia.
From S2P Require Import Prelude Errors.

#[local] Open Scope Z_scope.

(** ** Sizes and tables *)

Definition encoded_size (input : bytes) : nat := 4 * ((length input + 2) / 3).

(** Whether a character is ['=']. *)
Definition is_pad (c : Z) : bool := c =? ch "=".

(** [None] is the failed assertion. *)
Definition get_padding (input : bytes) : option nat :=
  if (4 <=? length input)%nat then
    back ← input !! (length input - 1)%nat;
    prev ← input !! (length input - 2)%nat;
    Some ((if is_pad back then 1 else 0) + (if is_pad prev then 1 else 0))%nat
  else None.

(** [None] is the failed assertion. *)
Definition decoded_size (input : bytes) : option nat :=
  if negb (length input mod 4 =? 0)%nat then None
  else match input with
       | [] => Some 0%nat
       | _ => padding ← get_padding input; Some (length input * 3 / 4 - padding)%nat
       end.

Definition alphabet : bytes :=
  str "ABCDEFGHIJKLMNOP" ++ str "QRSTUVWXYZabcdef" ++ str "ghijklmnopqrstuv" ++ str "wxyz0123456789+/".

Definition inverse_tab : list Z :=
  [-1; -1; -1; -1; -1; -1; -1; -1; -1; -1; -1; -1; -1; -1; -1; -1;
   -1; -1; -1; -1; -1; -1; -1; -1; -1; -1; -1; -1; -1; -1; -1; -1;
   -1; -1; -1; -1; -1; -1; -1; -1; -1; -1; -1; 62; -1; -1; -1; 63;
   52; 53; 54; 55; 56; 57; 58; 59; 60; 61; -1; -1; -1; -1; -1; -1;
   -1; 0; 1; 2; 3; 4; 5; 6; 7; 8; 9; 10; 11; 12; 13; 14;
   15; 16; 17; 18; 19; 20; 21; 22; 23; 24; 25; -1; -1; -1; -1; -1;
   -1; 26; 27; 28; 29; 30; 31; 32; 33; 34; 35; 36; 37; 38; 39; 40;
   41; 42; 43; 44; 45; 46; 47; 48; 49; 50; 51; -1; -1; -1; -1; -1;
   -1; -1; -1; -1; -1; -1; -1; -1; -1; -1; -1; -1; -1; -1; -1; -1;
   -1; -1; -1; -1; -1; -1; -1; -1; -1; -1; -1; -1; -1; -1; -1; -1;
   -1; -1; -1; -1; -1; -1; -1; -1; -1; -1; -1; -1; -1; -1; -1; -1;
   -1; -1; -1; -1; -1; -1; -1; -1; -1; -1; -1; -1; -1; -1; -1; -1;
   -1; -1; -1; -1; -1; -1; -1; -1; -1; -1; -1; -1; -1; -1; -1; -1;
   -1; -1; -1; -1; -1; -1; -1; -1; -1; -1; -1; -1; -1; -1; -1; -1;
   -1; -1; -1; -1; -1; -1; -1; -1; -1; -1; -1; -1; -1; -1; -1; -1;
   -1; -1; -1; -1; -1; -1; -1; -1; -1; -1; -1; -1; -1; -1; -1; -1].

(** ** Encoding *)

(** [tab\[i\]] *)
Definition tab (i : Z) : Z := nth (Z.to_nat i) alphabet 0.

(** The loop over groups of three bytes and the switch on what is left. *)
Fixpoint encode (src : bytes) : bytes :=
  match src with
  | b0 :: b1 :: b2 :: rest =>
      tab (Z.shiftr (Z.land b0 252) 2)
      :: tab (Z.shiftl (Z.land b0 3) 4 + Z.shiftr (Z.land b1 240) 4)
      :: tab (Z.shiftr (Z.land b2 192) 6 + Z.shiftl (Z.land b1 15) 2)
      :: tab (Z.land b2 63) :: encode rest
  | [b0; b1] =>
      [tab (Z.shiftr (Z.land b0 252) 2);
       tab (Z.shiftl (Z.land b0 3) 4 + Z.shiftr (Z.land b1 240) 4);
       tab (Z.shiftl (Z.land b1 15) 2); ch "="]
  | [b0] => [tab (Z.shiftr (Z.land b0 252) 2); tab (Z.shiftl (Z.land b0 3) 4); ch "="; ch "="]
  | [] => []
  end.

(** [resize] and the writes: what is appended has [encoded_size] characters. *)
Definition base64_encode (input to : bytes) : bytes :=
  write_at (length to) (encode input) (to ++ replicate (encoded_size input) 0).

(** ** Decoding *)

(** [inverse_tab\[static_cast<std::size_t>(c)\]]; [None] is a read outside the table. *)
Definition inverse (char_signed : bool) (c : Z) : option Z :=
  let index := if char_signed && (c >=? 128) then wrap64 (c - 256) else c in
  inverse_tab !! Z.to_nat index.

Definition dest0 (v0 v1 : Z) : Z := Z.shiftl v0 2 + Z.shiftr (Z.land v1 48) 4.
Definition dest1 (v1 v2 : Z) : Z := Z.shiftl (Z.land v1 15) 4 + Z.shiftr (Z.land v2 60) 2.
Definition dest2 (v2 v3 : Z) : Z := Z.shiftl (Z.land v2 3) 6 + v3.

(** The value returned and the bytes written to [dest].  The last four
    characters are the group with nothing after it. *)
Fixpoint decode (char_signed : bool) (from : bytes) : option (bool * bytes) :=
  match from with
  | [] => Some (true, [])
  | [c0; c1; c2; c3] =>
      padding ← get_padding [c0; c1; c2; c3];
      v0 ← inverse char_signed c0;
      v1 ← inverse char_signed c1;
      v2 ← (if (padding =? 2)%nat then Some 0 else inverse char_signed c2);
      v3 ← (if (0 <? padding)%nat then Some 0 else inverse char_signed c3);
      if (v0 =? -1) || (v1 =? -1) || (v2 =? -1) || (v3 =? -1) then Some (false, [])
      else Some (true, dest0 v0 v1 :: (if (padding <? 2)%nat then [dest1 v1 v2] else [])
                       ++ (if (padding =? 0)%nat then [dest2 v2 v3] else []))
  | c0 :: c1 :: c2 :: c3 :: rest =>
      v0 ← inverse char_signed c0;
      v1 ← inverse char_signed c1;
      v2 ← inverse char_signed c2;
      v3 ← inverse char_signed c3;
      if (v0 =? -1) || (v1 =? -1) || (v2 =? -1) || (v3 =? -1) then Some (false, [])
      else
        '(ok, written) ← decode char_signed rest;
        Some (ok, dest0 v0 v1 :: dest1 v1 v2 :: dest2 v2 v3 :: written)
  | _ => None
  end.

Definition base64_decode (char_signed : bool) (input output : bytes) : option (error_code * bytes) :=
  if negb (length input mod 4 =? 0)%nat then Some (Some (client invalid_base64), output)
  else
    size ← decoded_size input;
    let resized := output ++ replicate size 0 in
    '(ok, written) ← decode char_signed input;
    Some (if ok : bool then None else Some (client invalid_base64),
          write_at (length output) written resized).

(** ** Bytes and digits by computation *)

Lemma byte_cases (P : Z -> bool) n : forallb P (map Z.of_nat (seq 0 n)) = true ->
  forall b, 0 <= b < Z.of_nat n -> P b = true.
Proof.
  rewrite forallb_forall. intros H b Hb. apply H. apply in_map_iff.
  exists (Z.to_nat b). split; [lia|]. apply in_seq. lia.
Qed.

(** A digit and its character. *)
Lemma inverse_alphabet s i : 0 <= i < 64 -> inverse s (tab i) = Some i /\ is_pad (tab i) = false.
Proof.
  assert (forall s, forallb (fun i => bool_decide (inverse s (tab i) = Some i) && negb (is_pad (tab i)))
            (map Z.of_nat (seq 0 64)) = true) as H by (intros []; vm_compute; reflexivity).
  intros Hi. destruct (andb_prop _ _ (byte_cases _ 64 (H s) i Hi)) as [H1 H2].
  split; [by apply bool_decide_eq_true in H1|by apply negb_true_iff].
Qed.

Lemma encode_masks b : is_byte b ->
  Z.shiftr (Z.land b 252) 2 = b / 4 /\ Z.shiftl (Z.land b 3) 4 = (b mod 4) * 16 /\
  Z.shiftr (Z.land b 240) 4 = b / 16 /\ Z.shiftl (Z.land b 15) 2 = (b mod 16) * 4 /\
  Z.shiftr (Z.land b 192) 6 = b / 64 /\ Z.land b 63 = b mod 64.
Proof.
  intros Hb. pose proof (byte_cases (fun b => bool_decide (
    Z.shiftr (Z.land b 252) 2 = b / 4 /\ Z.shiftl (Z.land b 3) 4 = (b mod 4) * 16 /\
    Z.shiftr (Z.land b 240) 4 = b / 16 /\ Z.shiftl (Z.land b 15) 2 = (b mod 16) * 4 /\
    Z.shiftr (Z.land b 192) 6 = b / 64 /\ Z.land b 63 = b mod 64)) 256) as H.
  apply (bool_decide_eq_true_1 _ (H eq_refl _ Hb)).
Qed.

Lemma decode_masks v : 0 <= v < 64 ->
  Z.shiftl v 2 = v * 4 /\ Z.shiftr (Z.land v 48) 4 = v / 16 /\ Z.shiftl (Z.land v 15) 4 = (v mod 16) * 16 /\
  Z.shiftr (Z.land v 60) 2 = v / 4 /\ Z.shiftl (Z.land v 3) 6 = (v mod 4) * 64.
Proof.
  intros Hv. pose proof (byte_cases (fun v => bool_decide (
    Z.shiftl v 2 = v * 4 /\ Z.shiftr (Z.land v 48) 4 = v / 16 /\ Z.shiftl (Z.land v 15) 4 = (v mod 16) * 16 /\
    Z.shiftr (Z.land v 60) 2 = v / 4 /\ Z.shiftl (Z.land v 3) 6 = (v mod 4) * 64)) 64) as H.
  apply (bool_decide_eq_true_1 _ (H eq_refl _ Hv)).
Qed.

(** Three bytes and their four digits. *)
Lemma group_roundtrip b0 b1 b2 : is_byte b0 -> is_byte b1 -> is_byte b2 ->
  let v0 := b0 / 4 in let v1 := (b0 mod 4) * 16 + b1 / 16 in
  let v2 := b2 / 64 + (b1 mod 16) * 4 in let v3 := b2 mod 64 in
  (0 <= v0 < 64 /\ 0 <= v1 < 64 /\ 0 <= v2 < 64 /\ 0 <= v3 < 64) /\
  dest0 v0 v1 = b0 /\ dest1 v1 v2 = b1 /\ dest2 v2 v3 = b2.
Proof.
  intros H0 H1 H2 v0 v1 v2 v3. unfold is_byte in *.
  assert (0 <= v0 < 64 /\ 0 <= v1 < 64 /\ 0 <= v2 < 64 /\ 0 <= v3 < 64) as (R0 & R1 & R2 & R3).
  { unfold v0, v1, v2, v3. Z.to_euclidean_division_equations; lia. }
  split; [done|]. unfold dest0, dest1, dest2.
  destruct (decode_masks v0 R0) as (-> & _), (decode_masks v1 R1) as (_ & -> & -> & _),
    (decode_masks v2 R2) as (_ & _ & _ & -> & ->).
  unfold v0, v1, v2, v3. Z.to_euclidean_division_equations; lia.
Qed.

(** ** The language of the decoder

    [digit c v]: the character [c] stands for the six bits [v]. *)

Definition digit (c v : Z) : Prop := 0 <= v < 64 /\ c = tab v.

(** The 24 bits of four digits. *)
Definition bits24 (v0 v1 v2 v3 : Z) : Z := ((v0 * 64 + v1) * 64 + v2) * 64 + v3.

(** Groups of four digits, the last one possibly padded; bits of a padded group
    that do not make a byte may have any value. *)
Inductive base64_text : bytes -> bytes -> Prop :=
  | text_empty : base64_text [] []
  | text_group c0 c1 c2 c3 v0 v1 v2 v3 rest data :
      digit c0 v0 -> digit c1 v1 -> digit c2 v2 -> digit c3 v3 -> base64_text rest data ->
      base64_text (c0 :: c1 :: c2 :: c3 :: rest)
        (bits24 v0 v1 v2 v3 / 65536 :: bits24 v0 v1 v2 v3 / 256 mod 256 :: bits24 v0 v1 v2 v3 mod 256 :: data)
  | text_pad1 c0 c1 c2 v0 v1 v2 : digit c0 v0 -> digit c1 v1 -> digit c2 v2 ->
      base64_text [c0; c1; c2; ch "="] [bits24 v0 v1 v2 0 / 65536; bits24 v0 v1 v2 0 / 256 mod 256]
  | text_pad2 c0 c1 v0 v1 : digit c0 v0 -> digit c1 v1 ->
      base64_text [c0; c1; ch "="; ch "="] [bits24 v0 v1 0 0 / 65536].

Lemma dest_bits v0 v1 v2 v3 : 0 <= v0 < 64 -> 0 <= v1 < 64 -> 0 <= v2 < 64 -> 0 <= v3 < 64 ->
  dest0 v0 v1 = bits24 v0 v1 v2 v3 / 65536 /\ dest1 v1 v2 = bits24 v0 v1 v2 v3 / 256 mod 256 /\
  dest2 v2 v3 = bits24 v0 v1 v2 v3 mod 256.
Proof.
  intros R0 R1 R2 R3. unfold dest0, dest1, dest2, bits24.
  destruct (decode_masks v0 R0) as (-> & _), (decode_masks v1 R1) as (_ & -> & -> & _),
    (decode_masks v2 R2) as (_ & _ & _ & -> & ->).
  Z.to_euclidean_division_equations; lia.
Qed.

(** Where the table is never indexed outside: [char] unsigned, or ASCII input. *)
Definition indexable (char_signed : bool) (c : Z) : Prop := is_byte c /\ (char_signed = true -> c < 128).

Lemma inverse_cases s c : indexable s c ->
  (inverse s c = Some (-1) /\ forall v, ~ digit c v) \/ exists v, digit c v /\ inverse s c = Some v.
Proof.
  assert (forallb (fun c => let v := nth (Z.to_nat c) inverse_tab (-1) in
    bool_decide (inverse_tab !! Z.to_nat c = Some v) && (bool_decide (v = -1) || bool_decide (digit c v)))
    (map Z.of_nat (seq 0 256)) = true) as H by (vm_compute; reflexivity).
  intros [Hc Hs].
  assert (inverse s c = inverse_tab !! Z.to_nat c) as Hi.
  { unfold inverse. destruct s; [|done]. destruct (Z.geb_spec c 128); [specialize (Hs eq_refl); lia|done]. }
  destruct (andb_prop _ _ (byte_cases _ 256 H c Hc)) as [H1%bool_decide_eq_true_1 H2].
  apply orb_prop in H2 as [H2|H2]; apply bool_decide_eq_true_1 in H2.
  - left. rewrite Hi, H1, H2. split; [done|]. intros v [Hv ->].
    pose proof (proj1 (inverse_alphabet s v Hv)) as He. rewrite Hi, H1, H2 in He. injection He; lia.
  - right. eauto using eq_trans.
Qed.

Lemma digit_inverse s c v : digit c v -> inverse s c = Some v /\ is_pad c = false /\ v <> -1.
Proof. intros [Hv ->]. destruct (inverse_alphabet s v Hv). split_and!; [done|done|lia]. Qed.

Lemma inverse_pad s : inverse s (ch "=") = Some (-1).
Proof. by destruct s. Qed.

Lemma is_pad_true c : is_pad c = true -> c = ch "=".
Proof. unfold is_pad. lia. Qed.

Lemma get_padding_last c0 c1 c2 c3 : get_padding [c0; c1; c2; c3] =
  Some ((if is_pad c3 then 1 else 0) + (if is_pad c2 then 1 else 0))%nat.
Proof. done. Qed.

(** The part of the decoder that rejects characters out of the alphabet. *)
Definition check_digits (o0 o1 o2 o3 : option Z) (k : Z -> Z -> Z -> Z -> option (bool * bytes)) :=
  v0 ← o0; v1 ← o1; v2 ← o2; v3 ← o3;
  if (v0 =? -1) || (v1 =? -1) || (v2 =? -1) || (v3 =? -1) then Some (false, []) else k v0 v1 v2 v3.

Lemma check_digits_ok v0 v1 v2 v3 k : v0 <> -1 -> v1 <> -1 -> v2 <> -1 -> v3 <> -1 ->
  check_digits (Some v0) (Some v1) (Some v2) (Some v3) k = k v0 v1 v2 v3.
Proof. intros N0%Z.eqb_neq N1%Z.eqb_neq N2%Z.eqb_neq N3%Z.eqb_neq. cbn. by rewrite N0, N1, N2, N3. Qed.

Lemma check_digits_cases v0 v1 v2 v3 :
  (v0 <> -1 /\ v1 <> -1 /\ v2 <> -1 /\ v3 <> -1) \/
  forall k, check_digits (Some v0) (Some v1) (Some v2) (Some v3) k = Some (false, []).
Proof.
  destruct (decide (v0 = -1)) as [->|]; [by right|]. destruct (decide (v1 = -1)) as [->|];
    [right; intros k; cbn; by rewrite orb_true_r|]. destruct (decide (v2 = -1)) as [->|];
    [right; intros k; cbn; by rewrite orb_true_r|]. destruct (decide (v3 = -1)) as [->|]; [|by left].
  right. intros k. cbn. by rewrite orb_true_r.
Qed.

Lemma decode_more s c0 c1 c2 c3 rest : rest <> [] ->
  decode s (c0 :: c1 :: c2 :: c3 :: rest) =
    check_digits (inverse s c0) (inverse s c1) (inverse s c2) (inverse s c3) (fun v0 v1 v2 v3 =>
      '(ok, written) ← decode s rest;
      Some (ok, dest0 v0 v1 :: dest1 v1 v2 :: dest2 v2 v3 :: written)).
Proof. by destruct rest. Qed.

Lemma decode_last s c0 c1 c2 c3 :
  decode s [c0; c1; c2; c3] =
    (let padding := ((if is_pad c3 then 1 else 0) + (if is_pad c2 then 1 else 0))%nat in
     check_digits (inverse s c0) (inverse s c1)
       (if (padding =? 2)%nat then Some 0 else inverse s c2)
       (if (0 <? padding)%nat then Some 0 else inverse s c3) (fun v0 v1 v2 v3 =>
       Some (true, dest0 v0 v1 :: (if (padding <? 2)%nat then [dest1 v1 v2] else [])
                        ++ (if (padding =? 0)%nat then [dest2 v2 v3] else [])))).
Proof. done. Qed.

(** Everything in the language is decoded. *)
Lemma decode_complete s input data : base64_text input data -> decode s input = Some (true, data).
Proof.
  induction 1 as [|c0 c1 c2 c3 v0 v1 v2 v3 rest data D0 D1 D2 D3 _ IH
    |c0 c1 c2 v0 v1 v2 D0 D1 D2|c0 c1 v0 v1 D0 D1]; [done|..];
    destruct (digit_inverse s c0 v0 D0) as (E0 & _ & N0), (digit_inverse s c1 v1 D1) as (E1 & _ & N1).
  - destruct (dest_bits v0 v1 v2 v3 (proj1 D0) (proj1 D1) (proj1 D2) (proj1 D3)) as (<- & <- & <-).
    destruct (digit_inverse s c2 v2 D2) as (E2 & P2 & N2), (digit_inverse s c3 v3 D3) as (E3 & P3 & N3).
    destruct rest as [|r rest].
    + rewrite decode_last, E0, E1, E2, E3, P2, P3. cbn [Nat.add Nat.eqb Nat.ltb Nat.leb].
      rewrite check_digits_ok by done. injection IH as <-. done.
    + rewrite decode_more, E0, E1, E2, E3, check_digits_ok, IH by done. done.
  - destruct (dest_bits v0 v1 v2 0 (proj1 D0) (proj1 D1) (proj1 D2) ltac:(lia)) as (<- & <- & _).
    destruct (digit_inverse s c2 v2 D2) as (E2 & P2 & N2).
    rewrite decode_last, E0, E1, E2, P2. change (is_pad (ch "=")) with true. cbn [Nat.add Nat.eqb Nat.ltb Nat.leb].
    by rewrite check_digits_ok.
  - destruct (dest_bits v0 v1 0 0 (proj1 D0) (proj1 D1) ltac:(lia) ltac:(lia)) as (<- & _ & _).
    rewrite decode_last, E0, E1. change (is_pad (ch "=")) with true. cbn [Nat.add Nat.eqb Nat.ltb Nat.leb].
    by rewrite check_digits_ok.
Qed.

Lemma quads_ind (P : bytes -> Prop) : P [] ->
  (forall c0 c1 c2 c3 rest, (length rest mod 4 = 0)%nat -> P rest -> P (c0 :: c1 :: c2 :: c3 :: rest)) ->
  forall l, (length l mod 4 = 0)%nat -> P l.
Proof.
  intros H0 H4 l. induction l as [l IH] using (induction_ltof1 _ (@length Z)).
  destruct l as [|c0 [|c1 [|c2 [|c3 rest]]]]; try done. intros Hl.
  change (length (c0 :: c1 :: c2 :: c3 :: rest)) with (4 + length rest)%nat in Hl.
  assert (length rest mod 4 = 0)%nat as Hr 
    by (pose proof (Nat.Div0.mod_add (length rest) 1 4); rewrite Nat.add_comm in Hl; change (1 * 4)%nat with 4%nat in *; congruence).
  apply H4; [done|]. apply IH; [unfold ltof; simpl; lia|done].
Qed.

Lemma inverse_digit s c : indexable s c -> exists v, inverse s c = Some v /\ (v <> -1 -> digit c v).
Proof. intros [[-> _]|(v & Hd & ->)]%inverse_cases; [by exists (-1)|eauto]. Qed.

Lemma decode_sound_last s c0 c1 c2 c3 :
  indexable s c0 -> indexable s c1 -> indexable s c2 -> indexable s c3 ->
  (exists data, base64_text [c0; c1; c2; c3] data) \/ (exists written, decode s [c0; c1; c2; c3] = Some (false, written)).
Proof.
  intros (v0 & E0 & D0)%inverse_digit (v1 & E1 & D1)%inverse_digit (v2 & E2 & D2)%inverse_digit (v3 & E3 & D3)%inverse_digit.
  rewrite decode_last, E0, E1, E2, E3.
  destruct (is_pad c3) eqn:P3; [|destruct (is_pad c2) eqn:P2]; cbn [Nat.add Nat.eqb Nat.ltb Nat.leb].
  - apply is_pad_true in P3 as ->. destruct (is_pad c2) eqn:P2; cbn [Nat.add Nat.eqb Nat.ltb Nat.leb].
    + apply is_pad_true in P2 as ->. destruct (check_digits_cases v0 v1 0 0) as [(N0 & N1 & _)| ->]; eauto 10 using base64_text.
    + destruct (check_digits_cases v0 v1 v2 0) as [(N0 & N1 & N2 & _)| ->]; eauto 10 using base64_text.
  - apply is_pad_true in P2 as ->. rewrite inverse_pad in E2. injection E2 as <-.
    destruct (check_digits_cases v0 v1 (-1) 0) as [(_ & _ & ? & _)| ->]; eauto; done.
  - destruct (check_digits_cases v0 v1 v2 v3) as [(N0 & N1 & N2 & N3)| ->]; eauto 10 using base64_text.
Qed.

(** The decoder answers whatever it is given, and what it accepts is in the language. *)
Lemma decode_sound s input : (length input mod 4 = 0)%nat -> Forall (indexable s) input ->
  (exists data, base64_text input data) \/ (exists written, decode s input = Some (false, written)).
Proof.
  revert input. apply (quads_ind (fun input => Forall (indexable s) input -> _)); [left; eauto using base64_text|].
  intros c0 c1 c2 c3 rest Hrest IH (I0 & (I1 & (I2 & (I3 & HI)%Forall_cons_iff)%Forall_cons_iff)%Forall_cons_iff)%Forall_cons_iff.
  destruct rest as [|r rest]; [by apply decode_sound_last|].
  rewrite decode_more by done.
  apply inverse_digit in I0 as (v0 & E0 & D0), I1 as (v1 & E1 & D1), I2 as (v2 & E2 & D2), I3 as (v3 & E3 & D3).
  rewrite E0, E1, E2, E3. destruct (check_digits_cases v0 v1 v2 v3) as [(N0 & N1 & N2 & N3)| ->]; [|eauto].
  destruct (IH HI) as [[data Hdata]|[written Hw]]; [left; eauto 10 using base64_text|right].
  rewrite check_digits_ok, Hw by done. eauto.
Qed.

(** ** Room for the output *)

Lemma decoded_size_more c0 c1 c2 c3 rest size : rest <> [] -> decoded_size rest = Some size ->
  decoded_size (c0 :: c1 :: c2 :: c3 :: rest) = Some (3 + size)%nat.
Proof.
  unfold decoded_size, get_padding. intros Hne H.
  change (length (c0 :: c1 :: c2 :: c3 :: rest)) with (4 + length rest)%nat.
  destruct (Nat.eqb_spec (length rest mod 4) 0) as [Hm|]; [|done]. cbn [negb] in H.
  destruct rest as [|r rest]; [done|]. set (l := r :: rest) in *. clearbody l.
  destruct (Nat.leb_spec 4 (length l)) as [Hl|]; [|done].
  replace ((4 + length l) mod 4 =? 0)%nat with true
    by (symmetry; apply Nat.eqb_eq; pose proof (Nat.Div0.mod_add (length l) 1 4); rewrite Nat.add_comm;
        change (1 * 4)%nat with 4%nat in *; congruence).
  cbn [negb]. destruct (Nat.leb_spec 4 (4 + length l)); [|lia].
  replace (4 + length l - 1)%nat with (4 + (length l - 1))%nat by lia.
  replace (4 + length l - 2)%nat with (4 + (length l - 2))%nat by lia.
  change ((c0 :: c1 :: c2 :: c3 :: l) !! (4 + (length l - 1))%nat) with (l !! (length l - 1)%nat).
  change ((c0 :: c1 :: c2 :: c3 :: l) !! (4 + (length l - 2))%nat) with (l !! (length l - 2)%nat).
  destruct (l !! (length l - 1)%nat) as [b|]; [|done]. destruct (l !! (length l - 2)%nat) as [p|]; [|done].
  cbn [mbind option_bind] in *. apply (inj Some) in H as <-. f_equal.
  replace ((4 + length l) * 3)%nat with (length l * 3 + 3 * 4)%nat by lia. rewrite Nat.div_add by done.
  assert (3 <= length l * 3 / 4)%nat by (apply Nat.div_le_lower_bound; lia).
  destruct (is_pad b), (is_pad p); lia.
Qed.

Local Ltac if_case H := match type of H with (if ?b then _ else _) = _ => destruct b end.

Lemma decode_room s input : (length input mod 4 = 0)%nat ->
  exists size, decoded_size input = Some size /\
    forall ok written, decode s input = Some (ok, written) ->
      (length written <= size)%nat /\ (ok = true -> length written = size).
Proof.
  revert input. apply quads_ind; [exists 0%nat; split; [done|]; intros ok w [= <- <-]; simpl; lia|].
  intros c0 c1 c2 c3 rest Hrest (size & Hs & IH). destruct rest as [|r rest].
  - exists (3 - ((if is_pad c3 then 1 else 0) + (if is_pad c2 then 1 else 0)))%nat. split; [done|].
    intros ok w. rewrite decode_last. unfold check_digits. intros H.
    destruct (inverse s c0) as [v0|]; [|done]. destruct (inverse s c1) as [v1|]; [|done].
    destruct (is_pad c3), (is_pad c2); cbn [Nat.add Nat.eqb Nat.ltb Nat.leb mbind option_bind] in H;
      try (destruct (inverse s c2); cbn [mbind option_bind] in H; [|done]);
      try (destruct (inverse s c3); cbn [mbind option_bind] in H; [|done]);
      if_case H; injection H as <- <-; simpl; (split; [lia|try done]).
  - exists (3 + size)%nat. split; [by apply decoded_size_more|]. intros ok w. rewrite decode_more by done.
    unfold check_digits. intros H.
    destruct (inverse s c0); cbn [mbind option_bind] in H; [|done].
    destruct (inverse s c1); cbn [mbind option_bind] in H; [|done].
    destruct (inverse s c2); cbn [mbind option_bind] in H; [|done].
    destruct (inverse s c3); cbn [mbind option_bind] in H; [|done].
    if_case H; [injection H as <- <-; simpl; split; [lia|done]|].
    destruct (decode s (r :: rest)) as [[ok' w']|]; [|done]. injection H as <- <-.
    destruct (IH _ _ eq_refl). simpl. split; [lia|]. intros ->. f_equal. f_equal. f_equal. auto.
Qed.

Lemma base64_text_length input data : base64_text input data -> (length input mod 4 = 0)%nat.
Proof.
  induction 1 as [|c0 c1 c2 c3 v0 v1 v2 v3 rest data ? ? ? ? _ IH| |]; [done| |done..].
  change (length (c0 :: c1 :: c2 :: c3 :: rest)) with (4 + length rest)%nat.
  pose proof (Nat.Div0.mod_add (length rest) 1 4) as Hmod. change (1 * 4)%nat with 4%nat in Hmod.
  by rewrite Nat.add_comm, Hmod.
Qed.

(** The writes of the decoder after what the vector had. *)
Lemma base64_decode_text s input data out :
  base64_text input data -> base64_decode s input out = Some (None, out ++ data).
Proof.
  intros Ht. unfold base64_decode. pose proof (base64_text_length _ _ Ht) as Hm. rewrite Hm.
  cbn [negb Nat.eqb]. destruct (decode_room s input Hm) as (size & -> & Hroom).
  pose proof (decode_complete s _ _ Ht) as Hd. cbn [mbind option_bind]. rewrite Hd. cbn [mbind option_bind].
  destruct (Hroom _ _ Hd) as [_ <-]; [|done]. do 2 f_equal.
  pose proof (write_at_app out (replicate (length data) 0) [] data) as H.
  rewrite !app_nil_r in H. apply H. by rewrite length_replicate.
Qed.

Lemma base64_decode_answers s input out : Forall (indexable s) input ->
  (exists data, base64_text input data) \/
  exists junk, base64_decode s input out = Some (Some (client invalid_base64), out ++ junk).
Proof.
  intros HI. unfold base64_decode. destruct (Nat.eqb_spec (length input mod 4) 0) as [Hm|]; cbn [negb].
  2: { right. exists []. by rewrite app_nil_r. }
  destruct (decode_sound s input Hm HI) as [?|[w Hw]]; [by left|right].
  destruct (decode_room s input Hm) as (size & -> & Hroom). cbn [mbind option_bind]. rewrite Hw.
  cbn [mbind option_bind]. destruct (Hroom _ _ Hw) as [Hle _].
  exists (w ++ replicate (size - length w) 0). do 2 f_equal.
  replace (replicate size 0) with (replicate (length w) 0 ++ replicate (size - length w) 0)
    by (rewrite <- replicate_add; f_equal; lia).
  apply write_at_app. by rewrite length_replicate.
Qed.

(** ** Encoding *)

Lemma triples_ind (P : bytes -> Prop) : P [] -> (forall b0, P [b0]) -> (forall b0 b1, P [b0; b1]) ->
  (forall b0 b1 b2 rest, P rest -> P (b0 :: b1 :: b2 :: rest)) -> forall l, P l.
Proof.
  intros H0 H1 H2 H3 l. induction l as [l IH] using (induction_ltof1 _ (@length Z)).
  destruct l as [|b0 [|b1 [|b2 rest]]]; auto. apply H3, IH. unfold ltof. simpl. lia.
Qed.

Lemma encode_text data : Forall is_byte data -> base64_text (encode data) data.
Proof.
  assert (is_byte 0) as Z0 by (unfold is_byte; lia).
  induction data as [|b0|b0 b1|b0 b1 b2 rest IH] using triples_ind; [constructor|..].
  - intros [H0 _]%Forall_cons_iff. cbn [encode]. destruct (encode_masks b0 H0) as (-> & -> & _).
    destruct (group_roundtrip b0 0 0 H0 Z0 Z0) as ((R0 & R1 & _) & E0 & _).
    change (0 / 16) with 0 in *. rewrite Z.add_0_r in *.
    rewrite <- E0 at 3. destruct (dest_bits _ _ 0 0 R0 R1 ltac:(lia) ltac:(lia)) as (-> & _).
    by apply text_pad2.
  - intros [H0 [H1 _]%Forall_cons_iff]%Forall_cons_iff. cbn [encode].
    destruct (encode_masks b0 H0) as (-> & -> & _), (encode_masks b1 H1) as (_ & _ & -> & -> & _).
    destruct (group_roundtrip b0 b1 0 H0 H1 Z0) as ((R0 & R1 & R2 & _) & E0 & E1 & _).
    change (0 / 64) with 0 in *. rewrite Z.add_0_l in *.
    rewrite <- E0 at 3. rewrite <- E1 at 4. destruct (dest_bits _ _ _ 0 R0 R1 R2 ltac:(lia)) as (-> & -> & _).
    by apply text_pad1.
  - intros [H0 [H1 [H2 Hr]%Forall_cons_iff]%Forall_cons_iff]%Forall_cons_iff. cbn [encode].
    destruct (encode_masks b0 H0) as (-> & -> & _), (encode_masks b1 H1) as (_ & _ & -> & -> & _),
      (encode_masks b2 H2) as (_ & _ & _ & _ & -> & ->).
    destruct (group_roundtrip b0 b1 b2 H0 H1 H2) as ((R0 & R1 & R2 & R3) & E0 & E1 & E2).
    rewrite <- E0 at 3. rewrite <- E1 at 4. rewrite <- E2 at 4.
    destruct (dest_bits _ _ _ _ R0 R1 R2 R3) as (-> & -> & ->). apply text_group; auto; done.
Qed.

Lemma length_encode data : length (encode data) = encoded_size data.
Proof.
  unfold encoded_size. induction data as [|b0|b0 b1|b0 b1 b2 rest IH] using triples_ind; [done..|].
  cbn [encode length]. rewrite IH.
  replace (S (S (S (length rest))) + 2)%nat with (length rest + 2 + 1 * 3)%nat by lia.
  rewrite Nat.div_add by done. lia.
Qed.

(** ** Properties *)

(** C40: [base64_encode] appends exactly [encoded_size] characters, and
    [base64_decode] of them, whatever the signedness of [char], succeeds and
    appends the bytes that were encoded. *)
Theorem base64_roundtrip s data to out : Forall is_byte data ->
  exists chars, base64_encode data to = to ++ chars /\ length chars = encoded_size data /\
    base64_decode s chars out = Some (None, out ++ data).
Proof.
  intros Hd. exists (encode data). split_and!; [|apply length_encode|by apply base64_decode_text, encode_text].
  unfold base64_encode. pose proof (write_at_app to (replicate (encoded_size data) 0) [] (encode data)) as H.
  rewrite !app_nil_r in H. apply H. by rewrite length_replicate, length_encode.
Qed.

Lemma base64_roundtrip_witness :
  base64_encode (str "nativepg") [7] = [7] ++ str "bmF0aXZlcGc=" /\
  exists chars, base64_encode (str "nativepg") [7] = [7] ++ chars /\
    length chars = encoded_size (str "nativepg") /\
    base64_decode true chars [9] = Some (None, [9] ++ str "nativepg").
Proof.
  split; [vm_compute; reflexivity|].
  apply (base64_roundtrip true (str "nativepg") [7] [9]). repeat constructor; vm_compute; intuition congruence.
Defined.

(** Where [char] is unsigned or the input is ASCII, [base64_decode] accepts
    exactly the texts of the base64 grammar, appending the bytes they stand for;
    any other input gives [invalid_base64], with the output vector only extended. *)
Theorem base64_decode_exact s input out : Forall (indexable s) input ->
  (forall data, base64_decode s input out = Some (None, out ++ data) <-> base64_text input data) /\
  ((forall data, ~ base64_text input data) ->
     exists junk, base64_decode s input out = Some (Some (client invalid_base64), out ++ junk)).
Proof.
  intros HI. destruct (base64_decode_answers s input out HI) as [[d Hd]|[junk Hj]].
  - split; [|intros Hno; by destruct (Hno d)]. intros data. split; [|apply base64_decode_text].
    rewrite (base64_decode_text s _ _ out Hd). intros [= ->%app_inv_head]. done.
  - split; [|eauto]. intros data. split; [by rewrite Hj|]. intros Ht.
    rewrite (base64_decode_text s _ _ out Ht) in Hj. done.
Qed.

Lemma base64_decode_exact_witness :
  let accepts := base64_decode true (str "aGk=") [] = Some (None, str "hi") in
  accepts /\ (accepts <-> base64_text (str "aGk=") (str "hi")).
Proof.
  split; [vm_compute; reflexivity|].
  apply (base64_decode_exact true (str "aGk=") []).
  repeat constructor; vm_compute; intuition congruence.
Defined.

(** Where [char] is signed, a byte above 127 in the input makes
    [base64_decode] read outside its table: the cast to [size_t] sign-extends. *)
Theorem base64_decode_reads_outside c0 c1 c2 c3 out : 128 <= c0 < 256 ->
  base64_decode true [c0; c1; c2; c3] out = None.
Proof.
  intros Hc. unfold base64_decode. cbn [length Nat.eqb negb].
  change (decoded_size [c0; c1; c2; c3]) with
    (padding ← get_padding [c0; c1; c2; c3]; Some (4 * 3 / 4 - padding)%nat).
  rewrite get_padding_last, decode_last. cbn [mbind option_bind].
  assert (inverse true c0 = None) as ->; [|done].
  unfold inverse. replace (true && (c0 >=? 128)) with true by (symmetry; apply Z.geb_le; lia).
  apply lookup_ge_None_2. unfold wrap64.
  replace ((c0 - 256) mod 18446744073709551616) with (c0 - 256 + 18446744073709551616)
    by (apply Z.mod_unique_pos with (-1); lia).
  change (length inverse_tab) with 256%nat. lia.
Qed.

Lemma base64_decode_reads_outside_witness :
  base64_decode true (200 :: str "AAA") [] = None /\
  base64_decode false (200 :: str "AAA") [] = Some (Some (client invalid_base64), [0; 0; 0]).
Proof.
  split; [|vm_compute; reflexivity]. apply (base64_decode_reads_outside 200 65 65 65 []). lia.
Defined.
