(* ===== verification/CommandTag.v ===== *)
(** * Command tags ([parse_command_complete_tag] of [src/src/messages.cpp])

    The tag of a CommandComplete message and the number of affected rows some of
    them carry.  [from_chars] is [std::from_chars] for [std::uint64_t] in base ten. *)

From stdpp Require Import base list option sets.
From Stdlib Require Import ZArith Lia.
From S2P Require Import Prelude Errors.

#[local] Open Scope Z_scope.

(** ** std::from_chars *)

Definition is_digit (c : Z) : bool := (ch "0" <=? c) && (c <=? ch "9").

Fixpoint digits_prefix (p : bytes) : bytes * bytes :=
  match p with
  | [] => ([], [])
  | c :: p' => if is_digit c then let '(ds, r) := digits_prefix p' in (c :: ds, r) else ([], p)
  end.

Definition digits_value (ds : bytes) : Z := foldl (fun n c => n * 10 + (c - ch "0")) 0 ds.

(** The number and the rest of the input, or the error. *)
Definition from_chars (p : bytes) : errc + Z * bytes :=
  let '(ds, r) := digits_prefix p in
  match ds with
  | [] => inl invalid_argument
  | _ => if digits_value ds <=? SIZE_MAX then inr (digits_value ds, r) else inl result_out_of_range
  end.

(** ** The code *)

(** A pointer into the tag is what follows it. *)
Fixpoint skip_prefix (tag prefix : bytes) {struct prefix} : option bytes :=
  match prefix, tag with
  | [], _ => Some tag
  | c :: prefix', c' :: tag' => if c =? c' then skip_prefix tag' prefix' else None
  | _ :: _, [] => None
  end.

(** What is returned and what [output], reset by the caller, becomes. *)
Definition parse_affected_rows (p : bytes) : error_code * option Z :=
  match from_chars p with
  | inl e => (Some (generic e), None)
  | inr (num, []) => (None, Some num)
  | inr (_, _ :: _) => (Some (client extra_bytes), None)
  end.

(** The loop that skips the OID, up to the space after it. *)
Fixpoint skip_oid (p : bytes) : option bytes :=
  match p with
  | [] => None
  | c :: p' => if c =? ch " " then Some p' else skip_oid p'
  end.

Definition counted_commands : list bytes :=
  [str "DELETE"; str "UPDATE"; str "MERGE"; str "SELECT"; str "MOVE"; str "FETCH"; str "COPY"].

(** The chain of [(p = skip_prefix(tag, ...)) || ...]. *)
Fixpoint skip_prefixes (tag : bytes) (prefixes : list bytes) : option bytes :=
  match prefixes with
  | [] => None
  | prefix :: rest =>
      match skip_prefix tag prefix with Some p => Some p | None => skip_prefixes tag rest end
  end.

Definition parse_command_complete_tag (tag : bytes) : error_code * option Z :=
  match skip_prefix tag (str "INSERT") with
  | Some [] => (Some (client incomplete_message), None)
  | Some (c :: p) =>
      if negb (c =? ch " ") then (None, None)
      else match skip_oid p with
           | None => (Some (client incomplete_message), None)
           | Some p => parse_affected_rows p
           end
  | None =>
      match skip_prefixes tag counted_commands with
      | Some [] => (Some (client incomplete_message), None)
      | Some (c :: p) => if negb (c =? ch " ") then (None, None) else parse_affected_rows p
      | None => (None, None)
      end
  end.

(** ** Specification *)

Definition all_digits (ds : bytes) : Prop := Forall (fun c => is_digit c = true) ds.
Definition no_digit_first (r : bytes) : Prop := forall c r', r = c :: r' -> is_digit c = false.

(** What follows the last space of a tag with a row count. *)
Inductive count_outcome : bytes -> error_code * option Z -> Prop :=
  | count_none s : no_digit_first s -> count_outcome s (Some (generic invalid_argument), None)
  | count_too_big ds r : all_digits ds -> no_digit_first r -> SIZE_MAX < digits_value ds ->
      count_outcome (ds ++ r) (Some (generic result_out_of_range), None)
  | count_extra ds r : all_digits ds -> ds <> [] -> no_digit_first r -> r <> [] ->
      digits_value ds <= SIZE_MAX -> count_outcome (ds ++ r) (Some (client extra_bytes), None)
  | count_ok ds : all_digits ds -> ds <> [] -> digits_value ds <= SIZE_MAX ->
      count_outcome ds (None, Some (digits_value ds)).

Definition commands : list bytes := str "INSERT" :: counted_commands.

Definition no_space (s : bytes) : Prop := ch " " ∉ s.

Inductive tag_outcome : bytes -> error_code * option Z -> Prop :=
  | tag_other tag : (forall cmd, cmd ∈ commands -> forall r, tag <> cmd ++ r) -> tag_outcome tag (None, None)
  | tag_longer cmd c r : cmd ∈ commands -> c <> ch " " -> tag_outcome (cmd ++ c :: r) (None, None)
  | tag_bare cmd : cmd ∈ commands -> tag_outcome cmd (Some (client incomplete_message), None)
  | tag_no_oid s : no_space s ->
      tag_outcome (str "INSERT " ++ s) (Some (client incomplete_message), None)
  | tag_insert oid s res : no_space oid -> count_outcome s res ->
      tag_outcome (str "INSERT " ++ oid ++ ch " " :: s) res
  | tag_count cmd s res : cmd ∈ counted_commands -> count_outcome s res ->
      tag_outcome (cmd ++ ch " " :: s) res.

(** ** Lemmas *)

Lemma digits_prefix_app ds r : all_digits ds -> no_digit_first r -> digits_prefix (ds ++ r) = (ds, r).
Proof.
  induction 1 as [|c ds Hc _ IH]; intros Hr; cbn [app digits_prefix].
  - destruct r as [|c r]; [done|]. cbn [digits_prefix]. by rewrite (Hr c r eq_refl).
  - rewrite Hc, IH by done. done.
Qed.

Lemma digits_prefix_spec p : exists ds r, p = ds ++ r /\ all_digits ds /\ no_digit_first r.
Proof.
  induction p as [|c p IH]; [exists [], []; split_and!; [done|constructor|by intros ? ?]|].
  destruct (is_digit c) eqn:E.
  - destruct IH as (ds & r & -> & Hd & Hr). exists (c :: ds), r. split_and!; [done|by constructor|done].
  - exists [], (c :: p). split_and!; [done|constructor|by intros ? ? [= <- <-]].
Qed.

Lemma count_sound s : count_outcome s (parse_affected_rows s).
Proof.
  destruct (digits_prefix_spec s) as (ds & r & -> & Hd & Hr).
  unfold parse_affected_rows, from_chars. rewrite digits_prefix_app by done.
  destruct ds as [|d ds]; [by apply count_none|]. destruct (Z.leb_spec (digits_value (d :: ds)) SIZE_MAX) as [Hv|Hv].
  - destruct r as [|c r]; [rewrite app_nil_r; by apply count_ok|by apply count_extra].
  - by apply count_too_big.
Qed.

Lemma count_complete s res : count_outcome s res -> parse_affected_rows s = res.
Proof.
  unfold parse_affected_rows, from_chars. destruct 1 as [s Hs|ds r Hd Hr Hv|ds r Hd Hn Hr Hr0 Hv|ds Hd Hn Hv].
  - pose proof (digits_prefix_app [] s (List.Forall_nil _) Hs) as H. cbn [app] in H. by rewrite H.
  - rewrite digits_prefix_app by done. destruct ds as [|d ds]; [by vm_compute in Hv|].
    destruct (Z.leb_spec (digits_value (d :: ds)) SIZE_MAX); [lia|done].
  - rewrite digits_prefix_app by done. destruct ds as [|d ds]; [done|].
    destruct (Z.leb_spec (digits_value (d :: ds)) SIZE_MAX); [|lia]. by destruct r.
  - rewrite <- (app_nil_r ds) at 1. rewrite digits_prefix_app by (done || by intros ? ?). destruct ds as [|d ds]; [done|].
    destruct (Z.leb_spec (digits_value (d :: ds)) SIZE_MAX); [done|lia].
Qed.

Lemma skip_prefix_app prefix r : skip_prefix (prefix ++ r) prefix = Some r.
Proof. induction prefix as [|c prefix IH]; [by destruct r|]. cbn [app skip_prefix]. by rewrite Z.eqb_refl. Qed.

Lemma skip_prefix_Some prefix tag r : skip_prefix tag prefix = Some r -> tag = prefix ++ r.
Proof.
  revert tag. induction prefix as [|c prefix IH]; intros tag; [destruct tag; by intros [= <-]|].
  destruct tag as [|c' tag]; [done|]. cbn [skip_prefix]. destruct (Z.eqb_spec c c') as [->|]; [|done].
  intros ->%IH. done.
Qed.

Lemma skip_prefix_None prefix tag : skip_prefix tag prefix = None -> forall r, tag <> prefix ++ r.
Proof. intros H r ->. by rewrite skip_prefix_app in H. Qed.

Lemma skip_oid_app oid s : no_space oid -> skip_oid (oid ++ ch " " :: s) = Some s.
Proof.
  unfold no_space. induction oid as [|c oid IH]; intros Hno; [done|]. cbn [app skip_oid].
  apply not_elem_of_cons in Hno as [Hc Hno]. destruct (Z.eqb_spec c (ch " ")); [congruence|auto].
Qed.

Lemma skip_oid_cases p :
  (skip_oid p = None /\ no_space p) \/ exists oid s, p = oid ++ ch " " :: s /\ no_space oid /\ skip_oid p = Some s.
Proof.
  unfold no_space. induction p as [|c p IH]; [left; split; [done|set_solver]|].
  cbn [skip_oid]. destruct (Z.eqb_spec c (ch " ")) as [->|Hc].
  - right. exists [], p. split_and!; [done|set_solver|done].
  - destruct IH as [[IH1 IH2]|(oid & s & -> & Ho & Hs)]; [left; split; [done|set_solver]|].
    right. exists (c :: oid), s. split_and!; [done|set_solver|done].
Qed.

(** No command is a prefix of another. *)
Lemma skip_prefixes_app cmd r : cmd ∈ counted_commands ->
  skip_prefix (cmd ++ r) (str "INSERT") = None /\ skip_prefixes (cmd ++ r) counted_commands = Some r.
Proof. unfold counted_commands. rewrite !elem_of_cons, elem_of_nil. intuition (subst; reflexivity). Qed.

Lemma skip_prefixes_Some tag r prefixes : skip_prefixes tag prefixes = Some r ->
  exists cmd, cmd ∈ prefixes /\ tag = cmd ++ r.
Proof.
  induction prefixes as [|cmd rest IH]; [done|]. cbn [skip_prefixes].
  destruct (skip_prefix tag cmd) eqn:E; [intros [= <-]; exists cmd; split; [left|by apply skip_prefix_Some]|].
  intros (cmd' & Hin & ->)%IH. exists cmd'. split; [by right|done].
Qed.

Lemma skip_prefixes_None tag prefixes : skip_prefixes tag prefixes = None ->
  forall cmd, cmd ∈ prefixes -> forall r, tag <> cmd ++ r.
Proof.
  induction prefixes as [|cmd rest IH]; [by intros _ cmd Hin%not_elem_of_nil|]. cbn [skip_prefixes].
  destruct (skip_prefix tag cmd) eqn:E; [done|]. intros H cmd' [->|Hin]%elem_of_cons; [by apply skip_prefix_None|auto].
Qed.

(** ** The property *)

(** [parse_command_complete_tag] on every tag does what the grammar of command
    tags says: the number of rows of the eight commands that carry one, nothing
    for other commands, and which error for which malformation. *)
Theorem command_tag_exact tag res : parse_command_complete_tag tag = res <-> tag_outcome tag res.
Proof.
  split.
  - intros <-. unfold parse_command_complete_tag. destruct (skip_prefix tag (str "INSERT")) as [p|] eqn:E.
    + apply skip_prefix_Some in E as ->. destruct p as [|c p]; [rewrite app_nil_r; by apply tag_bare; left|].
      destruct (Z.eqb_spec c (ch " ")) as [->|Hc]; cbn [negb]; [|by apply tag_longer; [left|]].
      destruct (skip_oid_cases p) as [[-> Hp]|(oid & s & -> & Ho & ->)]; [by apply (tag_no_oid p)|].
      apply (tag_insert oid s); [done|apply count_sound].
    + destruct (skip_prefixes tag counted_commands) as [p|] eqn:E2.
      * apply skip_prefixes_Some in E2 as (cmd & Hin & ->).
        destruct p as [|c p]; [rewrite app_nil_r; by apply tag_bare; right|].
        destruct (Z.eqb_spec c (ch " ")) as [->|Hc]; cbn [negb]; [|by apply tag_longer; [right|]].
        apply tag_count; [done|apply count_sound].
      * apply tag_other. intros cmd [->|Hin]%elem_of_cons; [by apply skip_prefix_None|].
        by apply (skip_prefixes_None _ counted_commands).
  - unfold parse_command_complete_tag. intros [tag' Hno|cmd c r Hin Hc|cmd Hin|s Hs|oid s res' Ho Hs|cmd s res' Hin Hs].
    + destruct (skip_prefix tag' (str "INSERT")) as [p|] eqn:E; [|destruct (skip_prefixes tag' counted_commands) as [p|] eqn:E2].
      * apply skip_prefix_Some in E. exfalso. by apply (Hno (str "INSERT") ltac:(left) p).
      * apply skip_prefixes_Some in E2 as (cmd & Hin & E2). exfalso. by apply (Hno cmd ltac:(by right) p).
      * done.
    + apply Z.eqb_neq in Hc. apply elem_of_cons in Hin as [->|Hin]; [rewrite skip_prefix_app; by rewrite Hc|].
      destruct (skip_prefixes_app cmd (c :: r) Hin) as [-> ->]. by rewrite Hc.
    + apply elem_of_cons in Hin as [->|Hin]; [done|].
      rewrite <- (app_nil_r cmd). by destruct (skip_prefixes_app cmd [] Hin) as [-> ->].
    + change (str "INSERT " ++ s) with (str "INSERT" ++ ch " " :: s). rewrite skip_prefix_app. cbn [negb Z.eqb].
      rewrite Z.eqb_refl. cbn [negb]. destruct (skip_oid_cases s) as [[-> _]|(oid & s' & -> & _)]; [done|].
      exfalso. apply Hs. set_solver.
    + change (str "INSERT " ++ oid ++ ch " " :: s) with (str "INSERT" ++ ch " " :: oid ++ ch " " :: s).
      rewrite skip_prefix_app, Z.eqb_refl. cbn [negb]. rewrite skip_oid_app by done. by apply count_complete.
    + destruct (skip_prefixes_app cmd (ch " " :: s) Hin) as [-> ->]. rewrite Z.eqb_refl. cbn [negb]. by apply count_complete.
Qed.
