(* ===== verification/ErrorText.v ===== *)
(** * Texts of errors ([src/src/error.cpp], [include/nativepg/client_errc.hpp],
    [include/nativepg/extended_error.hpp])

    The category of the library's own errors and the exceptions made of an
    [extended_error].  An error value is an [int]; the enumerators count from 1. *)

From stdpp Require Import base list option.
From Stdlib Require Import ZArith Lia.
From S2P Require Import Prelude Errors BackendMessages Request ReadResponse CommandTag.

#[local] Open Scope Z_scope.

(** ** client_category *)

Definition unknown_error : bytes := str "<unknown nativepg client error>".

Definition error_to_string (error : client_errc) : bytes :=
  match error with
  | incomplete_message => str "An incomplete message was received from the server"
  | protocol_value_error => str "An unexpected value was found in a server-received message"
  | extra_bytes => str "Unexpected extra bytes at the end of a message were received"
  | value_too_big => str "value_too_big"
  | invalid_base64 => str "invalid_base64"
  | invalid_scram_message => str "invalid_scram_message"
  | mandatory_scram_extension_not_supported => str "mandatory_scram_extension_not_supported"
  | scram_mechanisms_unsupported => str "scram_mechanisms_unsupported"
  | scram_invalid_nonce => str "scram_invalid_nonce"
  | scram_invalid_server_signature => str "scram_invalid_server_signature"
  | unexpected_message => str "unexpected_message"
  | incompatible_response_length => str "incompatible_response_length"
  | incompatible_response_type => str "incompatible_response_type"
  | unexpected_null => str "unexpected_null"
  | incompatible_field_type => str "incompatible_field_type"
  | field_not_found => str "field_not_found"
  | auth_kerberos_v5_unsupported => str "auth_kerberos_v5_unsupported"
  | auth_cleartext_password_unsupported => str "auth_cleartext_password_unsupported"
  | auth_md5_password_unsupported => str "auth_md5_password_unsupported"
  | auth_gss_unsupported => str "auth_gss_unsupported"
  | auth_sspi_unsupported => str "auth_sspi_unsupported"
  | empty_request => str "empty_request"
  | request_ends_without_sync => str "request_ends_without_sync"
  | request_mixes_simple_advanced_protocols => str "request_mixes_simple_advanced_protocols"
  | step_skipped => str "step_skipped"
  | unknown_openssl_error => str "unknown_openssl_error"
  | _ => unknown_error
  end.

(** The enumerators, in the order of their values. *)
Definition all_errors : list client_errc :=
  [incomplete_message; protocol_value_error; extra_bytes; value_too_big; invalid_base64; invalid_scram_message; mandatory_scram_extension_not_supported; scram_mechanisms_unsupported; scram_invalid_nonce; scram_invalid_server_signature; unexpected_message; incompatible_response_length; incompatible_response_type; unexpected_null; incompatible_field_type; field_not_found; auth_kerberos_v5_unsupported; auth_cleartext_password_unsupported; auth_md5_password_unsupported; auth_gss_unsupported; auth_sspi_unsupported; empty_request; request_ends_without_sync; request_mixes_simple_advanced_protocols; step_skipped; unknown_openssl_error; unmatched_request; needs_more; copy_not_allowed].

(** [static_cast<client_errc>(ev)], for the values that have an enumerator. *)
Definition to_client_errc (ev : Z) : option client_errc :=
  if 1 <=? ev then all_errors !! Z.to_nat (ev - 1) else None.

(** [static_cast<int>(error)] *)
Definition errc_value (error : client_errc) : Z :=
  match list_find (fun e => e = error) all_errors with Some (i, _) => Z.of_nat i + 1 | None => 0 end.

Definition category_name : bytes := str "nativepg.client".

(** [client_category::message] *)
Definition category_message (ev : Z) : bytes :=
  match to_client_errc ev with Some e => error_to_string e | None => unknown_error end.

(** ** Exceptions *)

(** [std::system_error]: the code, and the text it was made with. *)
Record system_error := SystemError { se_code : error_code; se_text : bytes }.

Definition not_an_error (d : extended_error) : bool := match code d with None => true | Some _ => false end.

(** [throw_exception] and [to_exception_ptr] of the disposition traits. *)
Definition disposition_exception (d : extended_error) : system_error := SystemError (code d) (diag d).

(** [None]: nothing is thrown. *)
Definition throw_exception_from_error (err : extended_error) : option system_error :=
  if not_an_error err then None else Some (SystemError (code err) (diag err)).

(** [error_notice_fields::parsed_line_number] *)
Definition parsed_line_number (e : error_notice_fields) : option Z :=
  match line_number e with
  | None => None
  | Some s => match from_chars s with inr (res, []) => Some res | _ => None end
  end.

(** ** Properties *)

(** An enumerator is recovered from its value. *)
Lemma to_errc_value e : to_client_errc (errc_value e) = Some e.
Proof. by destruct e. Qed.

(** Errors that are told apart by their text. *)
Definition has_text (e : client_errc) : bool := negb (bool_decide (error_to_string e = unknown_error)).

Lemma error_texts_distinct e e' : has_text e = true -> error_to_string e = error_to_string e' -> e = e'.
Proof. destruct e, e'; try done; vm_compute; intros; discriminate. Qed.

(** Every enumerator has a text of its own, except three, whose text is that of the
    values that are no enumerator. *)
Theorem category_message_exact e e' :
  (has_text e = true -> category_message (errc_value e) = category_message (errc_value e') -> e = e') /\
  (has_text e = false <-> e = unmatched_request \/ e = needs_more \/ e = copy_not_allowed).
Proof.
  split.
  - unfold category_message. rewrite !to_errc_value. apply error_texts_distinct.
  - split; [|by intros [-> |[-> | ->]]]. destruct e; try (vm_compute; discriminate); auto.
Qed.

(** An exception is thrown exactly for an error, with its code and its message. *)
Theorem throws_exactly_errors d :
  (not_an_error d = true <-> throw_exception_from_error d = None) /\
  (forall e, throw_exception_from_error d = Some e -> e = disposition_exception d /\ se_code e = code d /\ se_text e = diag d).
Proof.
  unfold throw_exception_from_error. destruct (not_an_error d); split; try done. by intros e [= <-].
Qed.

(** The line number is the one the field writes in decimal, if it does and it fits. *)
Theorem line_number_exact e n : parsed_line_number e = Some n <->
  exists ds, line_number e = Some ds /\ ds <> [] /\ all_digits ds /\ digits_value ds = n /\ n <= SIZE_MAX.
Proof.
  unfold parsed_line_number. split.
  - destruct (line_number e) as [s|]; [|done]. destruct (digits_prefix_spec s) as (ds & r & -> & Hd & Hr).
    unfold from_chars. rewrite digits_prefix_app by done. destruct ds as [|c ds]; [done|].
    destruct (Z.leb_spec (digits_value (c :: ds)) SIZE_MAX); [|done]. destruct r; [|done]. intros [= <-].
    exists (c :: ds). by rewrite app_nil_r.
  - intros (ds & -> & Hn & Hd & <- & Hm). unfold from_chars. rewrite <- (app_nil_r ds) at 1.
    rewrite digits_prefix_app by (done || by intros ? ?). destruct ds as [|c ds]; [done|].
    by rewrite (proj2 (Z.leb_le _ _)) by done.
Qed.
