(* ===== verification/Responses.v ===== *)
(** * Response handlers ([src/src/responses.cpp], [include/nativepg/responses/])

    The handlers that check a response ([check], [check_execute], [check_parse],
    [check_close]) and what they share: storing server errors, filling a
    [command_info], and the [setup] functions that match a handler with the
    request messages it consumes.  Each handler is an instance of
    [ResponseHandler]; a failed [BOOST_ASSERT] or an access past the request is
    [None].  A [command_info] a handler points to is part of its state. *)

From stdpp Require Import base list option sets.
From Stdlib Require Import ZArith Lia.
From S2P Require Import Prelude Errors Views BackendMessages Request Sqlstate CommandTag ReadResponse ReadResponseSpec ReadResponseGrammar.

(** ** Errors ([responses/detail/response_utils.hpp], [src/src/error.cpp]) *)

(** [diagnostics::assign] *)
Definition diagnostics_assign (err : error_notice_fields) : bytes :=
  default (str "<Server error with unknown severity>") (severity err) ++ str ": " ++
  default (str "<unknown SQLSTATE>") (sqlstate err) ++ str ": " ++
  default (str "<unknown error>") (message err).

Definition store_error (err : error_notice_fields) (to : extended_error) : extended_error :=
  EE (parse_sqlstate (default [] (sqlstate err))) (diagnostics_assign err).

Definition maybe_store_error (err : error_notice_fields) (to : extended_error) : extended_error :=
  match code to with None => store_error err to | Some _ => to end.

(** The overload on any message. *)
Definition maybe_store_error_any (msg : any_request_message) (to : extended_error) : extended_error :=
  match msg with Aerror_response err => maybe_store_error err to | _ => to end.

(** ** command_info *)

Record command_info := CI {
  command_complete_tag : bytes;
  affected_rows : option Z;
  portal_suspended : bool
}.

Definition reset_info (obj : command_info) : command_info := CI [] None false.

Definition from_command_complete (obj : command_info) (msg : command_complete) : command_info :=
  let '(ec, rows) := parse_command_complete_tag (tag msg) in
  CI (tag msg) rows (portal_suspended obj).

(** ** Setup

    An iterator over the messages is the list from it to the end, so its
    distance from the beginning is a difference of lengths. *)

Definition distance (req : request) (it : list request_message_type) : nat := length (rq_types req) - length it.

(** [req.messages().subspan(offset)] *)
Definition subspan (req : request) (offset : nat) : option (list request_message_type) :=
  if (offset <=? length (rq_types req))%nat then Some (drop offset (rq_types req)) else None.

Definition incompatible : handler_setup_result := setup_failed (Some (client incompatible_response_type)).

(** The loops over syncs and flushes. *)
Fixpoint skip_syncs (it : list request_message_type) : list request_message_type :=
  match it with
  | rt_sync :: it' | rt_flush :: it' => skip_syncs it'
  | _ => it
  end.

(** The loop over an extended query: [None] is its early return, and the result
    otherwise is [execute_found] and the iterator. *)
Fixpoint setup_loop (it : list request_message_type) (describe_found execute_found : bool)
    : option (bool * list request_message_type) :=
  match it with
  | [] => Some (execute_found, [])
  | t :: it' =>
      if execute_found then Some (execute_found, it)
      else
        match t with
        | rt_sync => setup_loop it' describe_found execute_found
        | rt_flush | rt_parse | rt_bind => setup_loop it' describe_found execute_found
        | rt_describe => if describe_found then None else setup_loop it' true execute_found
        | rt_execute => if negb describe_found || execute_found then None else setup_loop it' describe_found true
        | _ => None
        end
  end.

(** Reading [*it] at the end of the messages is [None]. *)
Definition resultset_setup (req : request) (offset : nat) : option handler_setup_result :=
  msgs ← subspan req offset;
  let it := skip_syncs msgs in
  match it with
  | [] => None
  | rt_query :: it' => Some (setup_ok (distance req it'))
  | _ =>
      match setup_loop it false false with
      | None => Some incompatible
      | Some (execute_found, it) =>
          Some (if execute_found : bool then setup_ok (distance req (skip_syncs it)) else incompatible)
      end
  end.

Definition check_setup_impl (req : request) (offset : nat) (type : request_message_type)
    : option handler_setup_result :=
  msgs ← subspan req offset;
  match skip_syncs msgs with
  | [] => Some incompatible
  | t :: it => if bool_decide (t <> type) then Some incompatible else Some (setup_ok (distance req (skip_syncs it)))
  end.

(** ** The handlers ([responses/check.hpp]) *)

Record check := Check { check_err : extended_error }.

#[global] Instance check_handler : ResponseHandler check := {
  setup req _ h := Some (setup_ok (length (rq_types req)), Check no_error);
  on_message msg _ h := Some (Check (maybe_store_error_any msg (check_err h)));
  result := check_err
}.

Record check_parse := CheckParse { check_parse_err : extended_error }.

#[global] Instance check_parse_handler : ResponseHandler check_parse := {
  setup req offset h := r ← check_setup_impl req offset rt_parse; Some (r, CheckParse no_error);
  on_message msg _ h := Some (CheckParse (maybe_store_error_any msg (check_parse_err h)));
  result := check_parse_err
}.

Record check_close := CheckClose { check_close_err : extended_error }.

#[global] Instance check_close_handler : ResponseHandler check_close := {
  setup req offset h := r ← check_setup_impl req offset rt_close; Some (r, CheckClose no_error);
  on_message msg _ h := Some (CheckClose (maybe_store_error_any msg (check_close_err h)));
  result := check_close_err
}.

(** [ce_info] is the object [info_] points to; [None] is the null pointer. *)
Record check_execute := CheckExecute { ce_info : option command_info; ce_err : extended_error }.

Definition check_execute_message (msg : any_request_message) (h : check_execute) : option check_execute :=
  match msg with
  | Abind_complete | Aparse_complete | Arow_description _ | Adata_row _ => Some h
  | Acommand_complete v =>
      Some (CheckExecute (match ce_info h with Some info => Some (from_command_complete info v) | None => None end)
                         (ce_err h))
  | Aportal_suspended =>
      Some (CheckExecute (match ce_info h with
                          | Some info => Some (CI (command_complete_tag info) (affected_rows info) true)
                          | None => None
                          end) (ce_err h))
  | Aerror_response err => Some (CheckExecute (ce_info h) (maybe_store_error err (ce_err h)))
  | Aclose_complete | Aparameter_description _ | Aempty_query_response | Amessage_skipped => None
  end.

#[global] Instance check_execute_handler : ResponseHandler check_execute := {
  setup req offset h :=
    let info := match ce_info h with Some info => Some (reset_info info) | None => None end in
    r ← resultset_setup req offset; Some (r, CheckExecute info no_error);
  on_message msg _ h := check_execute_message msg h;
  result := ce_err
}.

(** ** What the setup functions match *)

Definition is_syncing (t : request_message_type) : Prop := t = rt_sync \/ t = rt_flush.
Definition is_ignored (t : request_message_type) : Prop := t = rt_sync \/ t = rt_flush \/ t = rt_parse \/ t = rt_bind.

(** [it] does not start with a sync or flush. *)
Definition syncs_end (it : list request_message_type) : Prop := forall t it', it = t :: it' -> ~ is_syncing t.

(** The request messages of one resultset, from the first that is not a sync or flush. *)
Inductive resultset_messages : list request_message_type -> list request_message_type -> Prop :=
  | rm_query rest : resultset_messages [rt_query] rest
  | rm_extended pre mid tail rest : Forall is_ignored pre -> Forall is_ignored mid ->
      Forall is_syncing tail -> syncs_end rest ->
      resultset_messages (pre ++ rt_describe :: mid ++ rt_execute :: tail) rest.

Lemma skip_syncs_spec it : exists syncs rest,
  it = syncs ++ rest /\ Forall is_syncing syncs /\ syncs_end rest /\ skip_syncs it = rest.
Proof.
  induction it as [|t it (syncs & rest & -> & Hs & Hr & E)]; [exists [], []; split_and!; try done; constructor|].
  destruct (decide (is_syncing t)) as [Ht|Ht].
  - exists (t :: syncs), rest. split_and!; [done|by constructor|done|]. by destruct Ht as [-> | ->].
  - exists [], (t :: syncs ++ rest). split_and!; [done|constructor|by intros ? ? [= <- <-]|].
    unfold is_syncing in Ht. destruct t; try done; destruct Ht; auto.
Qed.

Lemma skip_syncs_app syncs rest : Forall is_syncing syncs -> syncs_end rest -> skip_syncs (syncs ++ rest) = rest.
Proof.
  induction 1 as [|t syncs [-> | ->] _ IH]; intros Hr; cbn [app]; [|by apply IH..].
  destruct rest as [|t rest]; [done|]. specialize (Hr t rest eq_refl). unfold is_syncing in Hr.
  destruct t; try done; destruct Hr; auto.
Qed.

(** The loop, once the portal has been described. *)
Lemma setup_loop_described it res : setup_loop it true false = Some (true, res) <->
  exists mid, Forall is_ignored mid /\ it = mid ++ rt_execute :: res.
Proof.
  split.
  - induction it as [|t it IH]; [done|]. intros H.
    assert (is_ignored t \/ t = rt_execute) as [Ht|Ht] by (unfold is_ignored; destruct t; try done; tauto).
    + assert (setup_loop it true false = Some (true, res)) as H' by (destruct Ht as [->|[->|[-> | ->]]]; exact H).
      destruct (IH H') as (mid & Hm & ->). exists (t :: mid). split; [by constructor|done].
    + subst t. exists []. split; [constructor|]. cbn in *. destruct it as [|t it]; cbn in H; congruence.
  - intros (mid & Hm & ->). induction Hm as [|t mid Ht _ IH]; [by destruct res|].
    destruct Ht as [->|[->|[-> | ->]]]; exact IH.
Qed.

Lemma setup_loop_spec it res : setup_loop it false false = Some (true, res) <->
  exists pre mid, Forall is_ignored pre /\ Forall is_ignored mid /\ it = pre ++ rt_describe :: mid ++ rt_execute :: res.
Proof.
  split.
  - induction it as [|t it IH]; [done|]. intros H.
    assert (is_ignored t \/ t = rt_describe) as [Ht|Ht] by (unfold is_ignored; destruct t; try done; tauto).
    + assert (setup_loop it false false = Some (true, res)) as H' by (destruct Ht as [->|[->|[-> | ->]]]; exact H).
      destruct (IH H') as (pre & mid & Hp & Hm & ->). exists (t :: pre), mid. split_and!; [by constructor|done..].
    + subst t. apply setup_loop_described in H as (mid & Hm & ->). exists [], mid. split_and!; [constructor|done..].
  - intros (pre & mid & Hp & Hm & ->). induction Hp as [|t pre Ht _ IH].
    + cbn [app]. apply setup_loop_described. eauto.
    + destruct Ht as [->|[->|[-> | ->]]]; exact IH.
Qed.

Lemma setup_loop_total it d : exists r, setup_loop it d false = r /\
  match r with Some (true, _) => True | Some (false, res) => res = [] | None => True end.
Proof.
  revert d. induction it as [|t it IH]; intros d; [by eexists|].
  destruct t; cbn [setup_loop]; try by eexists.
  all: try apply IH.
  - destruct d; [by eexists|apply IH].
  - destruct d; [|by eexists]. cbn. destruct it as [|t' it']; [by eexists|]. by destruct t'; eexists.
Qed.

(** What [resultset_setup] takes from the messages that are left. *)
Definition takes_resultset (ts rest : list request_message_type) : Prop :=
  exists lead body, ts = lead ++ body ++ rest /\ Forall is_syncing lead /\ resultset_messages body rest.

(** The part of [resultset_setup] after the leading syncs. *)
Definition setup_after (req : request) (it : list request_message_type) : option handler_setup_result :=
  match it with
  | [] => None
  | rt_query :: it' => Some (setup_ok (distance req it'))
  | _ =>
      match setup_loop it false false with
      | None => Some incompatible
      | Some (execute_found, it) =>
          Some (if execute_found : bool then setup_ok (distance req (skip_syncs it)) else incompatible)
      end
  end.

Lemma resultset_setup_eq req offset : (offset <= length (rq_types req))%nat ->
  resultset_setup req offset = setup_after req (skip_syncs (drop offset (rq_types req))).
Proof. intros H. unfold resultset_setup, subspan. by destruct (Nat.leb_spec offset (length (rq_types req))); [|lia]. Qed.

Lemma setup_after_loop req t it : t <> rt_query ->
  setup_after req (t :: it) =
    match setup_loop (t :: it) false false with
    | None => Some incompatible
    | Some (execute_found, it) =>
        Some (if execute_found : bool then setup_ok (distance req (skip_syncs it)) else incompatible)
    end.
Proof. by destruct t. Qed.

Lemma skip_syncs_ignored lead pre t it : Forall is_syncing lead -> Forall is_ignored pre -> ~ is_syncing t ->
  exists pre', Forall is_ignored pre' /\ skip_syncs (lead ++ pre ++ t :: it) = pre' ++ t :: it.
Proof.
  intros Hl Hp Ht. destruct (skip_syncs_spec (pre ++ t :: it)) as (syncs & r & E & Hs & Hr & _).
  exists (drop (length syncs) pre). assert (length syncs <= length pre)%nat as Hle.
  { apply Nat.nlt_ge. intros Hlt. apply Ht. rewrite Forall_lookup in Hs. apply (Hs (length pre)).
    rewrite <- (lookup_app_l _ r) by done. rewrite <- E. by rewrite lookup_app_r, Nat.sub_diag. }
  split; [by apply Forall_drop|].
  assert (r = drop (length syncs) pre ++ t :: it) as <-.
  { rewrite <- (drop_app_length syncs r), <- E. by apply drop_app_le. }
  rewrite E, app_assoc. apply skip_syncs_app; [by apply Forall_app|done].
Qed.

Lemma resultset_setup_takes req offset rest : (offset <= length (rq_types req))%nat ->
  takes_resultset (drop offset (rq_types req)) rest ->
  resultset_setup req offset = Some (setup_ok (distance req rest)).
Proof.
  intros Ho (lead & body & E & Hl & Hb). rewrite resultset_setup_eq by done. rewrite E.
  destruct Hb as [rest|pre mid tail rest Hp Hm Ht Hr].
  - rewrite skip_syncs_app; [done|done|]. by intros ? ? [= <- <-] [?|?].
  - rewrite <- app_assoc. cbn [app].
    destruct (skip_syncs_ignored lead pre rt_describe ((mid ++ rt_execute :: tail) ++ rest)) as (pre' & Hp' & ->);
      [done..|by intros [?|?]|].
    assert (setup_loop (pre' ++ rt_describe :: (mid ++ rt_execute :: tail) ++ rest) false false = Some (true, tail ++ rest)) as Hs.
    { apply setup_loop_spec. exists pre', mid. split_and!; [done..|]. by rewrite <- app_assoc. }
    assert (exists t it, pre' ++ rt_describe :: (mid ++ rt_execute :: tail) ++ rest = t :: it /\ t <> rt_query)
      as (t & it & Et & Hq).
    { destruct Hp' as [|t pre'' Hq _]; eexists _, _; split; [done|done|done|]. by destruct Hq as [->|[->|[-> | ->]]]. }
    rewrite Et in *. by rewrite setup_after_loop, Hs, skip_syncs_app.
Qed.

Lemma resultset_setup_cases req offset : (offset <= length (rq_types req))%nat ->
  let ts := drop offset (rq_types req) in
  (Forall is_syncing ts /\ resultset_setup req offset = None) \/
  (exists rest, takes_resultset ts rest /\ resultset_setup req offset = Some (setup_ok (distance req rest))) \/
  resultset_setup req offset = Some incompatible.
Proof.
  intros Ho ts. rewrite resultset_setup_eq by done. fold ts.
  destruct (skip_syncs_spec ts) as (lead & it & E & Hl & Hit & ->).
  destruct it as [|t it]; [left; by rewrite app_nil_r in E; subst|]. right.
  destruct (decide (t = rt_query)) as [->|Hq].
  { left. exists it. split; [|done]. exists lead, [rt_query]. split_and!; [done..|constructor]. }
  destruct (setup_loop_total (t :: it) false) as (r & Hr & Hok). rewrite setup_after_loop, Hr by done.
  destruct r as [[[] res]|]; [|by right..]. left.
  apply setup_loop_spec in Hr as (pre & mid & Hp & Hm & Ei).
  destruct (skip_syncs_spec res) as (tail & rest & -> & Ht & Hrest & ->). exists rest. split; [|done].
  exists lead, (pre ++ rt_describe :: mid ++ rt_execute :: tail). split_and!; [|done|by constructor].
  rewrite E, Ei. rewrite <- !app_assoc. cbn [app]. by rewrite <- app_assoc.
Qed.

(** [resultset_setup] accepts a suffix of the request exactly when, after
    syncs and flushes, it starts with a simple query, or with an extended query
    that describes and then executes one portal; it then returns the offset after
    it and the syncs that follow.  It reads past the end of the request when
    there are only syncs left, and reports [incompatible_response_type] otherwise. *)
Theorem resultset_setup_exact req offset : (offset <= length (rq_types req))%nat ->
  let ts := drop offset (rq_types req) in
  (forall rest, takes_resultset ts rest -> resultset_setup req offset = Some (setup_ok (distance req rest))) /\
  (Forall is_syncing ts -> resultset_setup req offset = None) /\
  (~ Forall is_syncing ts -> (forall rest, ~ takes_resultset ts rest) -> resultset_setup req offset = Some incompatible).
Proof.
  intros Ho ts. split_and!; [by intros; apply resultset_setup_takes|..].
  - intros Hs. rewrite resultset_setup_eq by done. fold ts. rewrite <- (app_nil_r ts). by rewrite (skip_syncs_app ts []).
  - intros Hn Hno. by destruct (resultset_setup_cases req offset Ho) as [[? _]|[(rest & ? & _)|?]]; [|destruct (Hno rest)|].
Qed.

Lemma resultset_setup_exact_witness :
  (0 <= length (rq_types sample_request))%nat /\
  resultset_setup sample_request 0 = Some (setup_ok 1) /\
  resultset_setup (Req [] [rt_query; rt_sync] false) 1 = None.
Proof.
  split_and!; [simpl; lia|..].
  - refine (proj1 (resultset_setup_exact sample_request 0 _) (drop 1 (rq_types sample_request)) _); [simpl; lia|].
    exists [], [rt_query]. split_and!; [reflexivity|constructor|constructor].
  - refine (proj1 (proj2 (resultset_setup_exact (Req [] [rt_query; rt_sync] false) 1 _)) _); [simpl; lia|].
    repeat constructor.
Defined.

(** ** Handlers that store the first error

    The interface the handlers promise to whoever looks at their result. *)

Class ErrorStore (H : Type) `{!ResponseHandler H} :=
  on_message_result : forall m i (h h' : H), on_message m i h = Some h' ->
    result h' = maybe_store_error_any m (result h).

#[global] Instance check_error_store : ErrorStore check.
Proof. by intros m i h h' [= <-]. Qed.

#[global] Instance check_parse_error_store : ErrorStore check_parse.
Proof. by intros m i h h' [= <-]. Qed.

#[global] Instance check_close_error_store : ErrorStore check_close.
Proof. by intros m i h h' [= <-]. Qed.

#[global] Instance check_execute_error_store : ErrorStore check_execute.
Proof. intros m i h h'. by destruct m; intros [= <-]. Qed.

#[global] Instance check_total : TotalHandler check.
Proof. intros m i h. by eexists. Qed.

(** The error responses among the messages, and among the calls. *)
Definition errors_of (ms : list any_backend_message) : list error_notice_fields :=
  omap (fun m => match m with Merror_response e => Some e | _ => None end) ms.

Definition error_calls (cs : list any_request_message) : list error_notice_fields :=
  omap (fun c => match c with Aerror_response e => Some e | _ => None end) cs.

(** The error code an error response becomes. *)
Definition server_code (e : error_notice_fields) : error_code := parse_sqlstate (default [] (sqlstate e)).

Lemma errors_of_app a b : errors_of (a ++ b) = errors_of a ++ errors_of b.
Proof. apply omap_app. Qed.

Lemma error_calls_app a b : error_calls (a ++ b) = error_calls a ++ error_calls b.
Proof. apply omap_app. Qed.

Lemma errors_of_map {A} (f : A -> any_backend_message) xs : (forall x, errors_of [f x] = []) -> errors_of (map f xs) = [].
Proof. intros Hf. induction xs as [|x xs IH]; [done|]. change (map f (x :: xs)) with ([f x] ++ map f xs).
  by rewrite errors_of_app, Hf, IH. Qed.

Lemma error_calls_map {A} (f : A -> any_request_message) xs : (forall x, error_calls [f x] = []) -> error_calls (map f xs) = [].
Proof. intros Hf. induction xs as [|x xs IH]; [done|]. change (map f (x :: xs)) with ([f x] ++ map f xs).
  by rewrite error_calls_app, Hf, IH. Qed.

Ltac errors_simpl :=
  rewrite ?errors_of_app, ?error_calls_app, ?errors_of_map, ?error_calls_map by done; cbn [app].

Lemma copy_end_errors ms cs b : copy_end ms cs b -> errors_of ms = error_calls cs.
Proof. destruct 1; errors_simpl; done. Qed.

Lemma rows_end_errors ms cs b : rows_end ms cs b -> errors_of ms = error_calls cs.
Proof. destruct 1; errors_simpl; done. Qed.

Lemma execute_reply_errors ac ms cs b : execute_reply ac ms cs b -> errors_of ms = error_calls cs.
Proof.
  destruct 1 as [ms cs b Hr| | |rows c ms cs b _ Hc]; [by eapply rows_end_errors|errors_simpl; done..|].
  errors_simpl. by apply copy_end_errors in Hc.
Qed.

Lemma query_item_errors ac ms cs b : query_item ac ms cs b -> errors_of ms = error_calls cs.
Proof.
  destruct 1 as [d ms cs b Hr| |c ms cs b _ Hc|]; [by apply rows_end_errors in Hr|done|by apply copy_end_errors in Hc|done].
Qed.

Lemma query_items_errors ac first ms cs : query_items ac first ms cs -> errors_of ms = error_calls cs.
Proof.
  induction 1 as [|? ? ? ? ? Hi _ IH|? ? ? ? Hi|]; [done| | |done]; apply query_item_errors in Hi; errors_simpl.
  - by rewrite Hi, IH.
  - by rewrite Hi, app_nil_r.
Qed.

Lemma reply_errors ac t ms cs b : reply ac t ms cs b -> errors_of ms = error_calls cs.
Proof. destruct 1; try done; [by eapply execute_reply_errors|by eapply query_items_errors]. Qed.

Lemma snd_calls_at i cs : map snd (calls_at i cs) = cs.
Proof. unfold calls_at. rewrite map_map. apply map_id. Qed.

Lemma skipped_no_errors pre : forall i, error_calls (map snd (skipped_calls i pre)) = [].
Proof. induction pre as [|t pre IH]; intros i; [done|]. destruct t; apply IH. Qed.

(** Every error response in a response reaches the handler, in order. *)
Lemma response_errors ac i ts ms tr : response ac i ts ms tr -> errors_of ms = error_calls (map snd tr).
Proof.
  induction 1 as [|? ? ? ? ? _ IH|? ? ? ? ? ? ? Hr _ IH|? ? ? ? ? ? ? ? Hr _ _ IH]; [done|done|..];
    apply reply_errors in Hr; errors_simpl; rewrite !map_app, snd_calls_at, !error_calls_app, Hr, IH; [done|].
  by rewrite skipped_no_errors.
Qed.

Lemma errors_of_sync_part ms : errors_of (sync_part ms) = errors_of ms.
Proof.
  induction ms as [|m ms IH]; [done|]. change (m :: ms) with ([m] ++ ms). rewrite errors_of_app, <- IH.
  by destruct m.
Qed.

Section first_error.
Context {H : Type} `{ErrorStore H}.

(** The state of a handler after a run depends on the errors only. *)
Lemma replay_result tr : forall (h h' : H), replay tr h = Some h' ->
result h' = foldl (fun to e => maybe_store_error e to) (result h) (error_calls (map snd tr)).
Proof.
induction tr as [|[i m] tr IH]; intros h h' E; [by injection E as <-|]. cbn [replay] in E.
destruct (on_message m i h) as [h1|] eqn:E1; [|done]. cbn [mbind option_bind] in E.
rewrite (IH _ _ E), (on_message_result _ _ _ _ E1). by destruct m.
Qed.

Lemma fold_stored es : forall to, code to <> None -> foldl (fun to e => maybe_store_error e to) to es = to.
Proof.
induction es as [|e es IH]; intros to Hc; [done|]. cbn [foldl].
assert (maybe_store_error e to = to) as -> by (unfold maybe_store_error; by destruct (code to)). auto.
Qed.

Lemma fold_first_error pre : forall e post to, code to = None -> Forall (fun e => server_code e = None) pre ->
server_code e <> None -> foldl (fun to e => maybe_store_error e to) to (pre ++ e :: post) = store_error e no_error.
Proof.
induction pre as [|p pre IH]; intros e post to Hc Hp He; cbn [app foldl];
unfold maybe_store_error at 2; rewrite Hc.
- by apply fold_stored.
- apply Forall_cons_iff in Hp as [Hp Hps]. by apply IH.
Qed.

Lemma fold_no_error es : forall to, code to = None -> Forall (fun e => server_code e = None) es ->
code (foldl (fun to e => maybe_store_error e to) to es) = None.
Proof.
induction es as [|e es IH]; intros to Hc Hp; [done|]. cbn [foldl]. apply Forall_cons_iff in Hp as [Hp Hps].
apply IH; [|done]. unfold maybe_store_error. by rewrite Hc.
Qed.

End first_error.

(** The request messages of [request::add_query] without a simple query. *)
Definition query_types : list request_message_type := [rt_parse; rt_bind; rt_describe; rt_execute; rt_sync].

Definition syntax_error : error_notice_fields :=
  ENF None None (Some (str "42601")) (Some (str "syntax error")) None None None None None
      None None None None None None None None None.

(** Two errors, each of which makes the server skip a batch. *)
Definition two_errors : list any_backend_message :=
  [Merror_response syntax_error; Mready_for_query {| status := idle |};
   Merror_response no_fields; Mready_for_query {| status := idle |}].

Definition two_queries : request := Req [] (query_types ++ query_types) true.


(** [check_execute] cannot take a failure of the steps before the execution:
    when the server rejects the Parse of a query, as it does on any syntax error,
    the skipped steps fail an assertion. *)
Theorem check_execute_asserts_on_parse_error buffer autosync info e rest :
  feed (Merror_response e :: rest)
    (make_fsm (Req buffer query_types autosync) (CheckExecute info no_error) false) = None.
Proof. reflexivity. Qed.
