(* ===== verification/Response.v ===== *)
(** * response<Handlers...> ([include/nativepg/responses/response.hpp])

    The handler made of a tuple of handlers, each of which takes a range of the
    request's messages.  The tuple is a list of handlers of one type: handlers of
    two types are values of the sum, which is a handler too.  [offsets_\[k\]] is
    the end of the range of handler [k] and [current_] the handler in use. *)

From stdpp Require Import base list option sorting sets.
From Stdlib Require Import ZArith Lia.
From S2P Require Import Prelude Errors BackendMessages Request ReadResponse ReadResponseSpec ReadResponseGrammar Responses.

(** ** Handlers of two types *)

#[global] Instance sum_handler {A B} `{!ResponseHandler A, !ResponseHandler B} : ResponseHandler (A + B) := {
  setup req offset h :=
    match h with
    | inl a => '(r, a) ← setup req offset a; Some (r, inl a)
    | inr b => '(r, b) ← setup req offset b; Some (r, inr b)
    end;
  on_message m i h :=
    match h with
    | inl a => a ← on_message m i a; Some (inl a)
    | inr b => b ← on_message m i b; Some (inr b)
    end;
  result h := match h with inl a => result a | inr b => result b end
}.

(** ** The code *)

Record response (H : Type) := Response {
  handlers_ : list H;
  offsets_ : list nat;
  current_handler : nat
}.
Arguments Response {H} _ _ _.
Arguments handlers_ {H} _.
Arguments offsets_ {H} _.
Arguments current_handler {H} _.

Section response.
Context {H : Type} `{!ResponseHandler H}.

(** [offsets_{}] and [current_{}]. *)
Definition make_response (hs : list H) : response H := Response hs (replicate (length hs) 0) 0.

(** The result, the handlers and the offsets after the recursion over the
handlers; [out_offsets] is the array from the pointer of that name on. *)
Fixpoint response_setup (req : request) (initial_offset : nat) (out_offsets : list nat) (hs : list H)
: option (handler_setup_result * list H * list nat) :=
match hs, out_offsets with
| h0 :: hrest, o0 :: orest =>
'(h0_res, h0) ← setup req initial_offset h0;
match hs_ec h0_res with
| Some _ => Some (h0_res, h0 :: hrest, o0 :: orest)
| None =>
match hrest with
| [] => Some (setup_ok (hs_offset h0_res), [h0], hs_offset h0_res :: orest)
| _ =>
'(r, hrest, orest) ← response_setup req (hs_offset h0_res) orest hrest;
Some (r, h0 :: hrest, hs_offset h0_res :: orest)
end
end
| _, _ => None
end.

Fixpoint response_get_result (hs : list H) : option extended_error :=
match hs with
| [] => None
| h0 :: hrest => match code (result h0) with Some _ => Some (result h0) | None => response_get_result hrest end
end.

Definition response_result (r : response H) : extended_error :=
match response_get_result (handlers_ r) with
| Some err => err
| None => match handlers_ r with h0 :: _ => result h0 | [] => no_error end
end.

Definition response_on_setup (req : request) (offset : nat) (r : response H) : option (handler_setup_result * response H) :=
'(res, hs, offsets) ← response_setup req offset (offsets_ r) (handlers_ r);
Some (res, Response hs offsets (current_handler r)).

(** [None] also when [offsets_] is indexed out of range. *)
Definition response_on_message (msg : any_request_message) (offset : nat) (r : response H) : option (response H) :=
end_ ← offsets_ r !! current_handler r;
let current := if (end_ <=? offset)%nat then S (current_handler r) else current_handler r in
end_ ← offsets_ r !! current;
if (offset <? end_)%nat then
h ← handlers_ r !! current;
h ← on_message msg offset h;
Some (Response (<[current := h]> (handlers_ r)) (offsets_ r) current)
else None.
End response.

#[global] Instance response_handler {H} `{!ResponseHandler H} : ResponseHandler (response H) := {
  setup := response_on_setup;
  on_message := response_on_message;
  result := response_result
}.

(** ** Specification *)

(** The calls at the offsets from [lo] to [hi]. *)
Definition calls_between (lo hi : nat) (tr : trace) : trace := filter (fun c => lo <= c.1 < hi)%nat tr.

Section routing.
Context {H : Type} `{!ResponseHandler H}.

(** Every handler makes the calls of its own range. *)
Fixpoint replay_ranges (tr : trace) (lo : nat) (ends : list nat) (hs : list H) : option (list H) :=
match ends, hs with
| hi :: ends', h :: hs' =>
h ← replay (calls_between lo hi tr) h;
hs' ← replay_ranges tr hi ends' hs';
Some (h :: hs')
| _, _ => Some []
end.
End routing.

(** The interface of a handler to [response]: a successful setup takes a range
    with a message other than syncs and flushes. *)
Class TakesMessage (H : Type) `{!ResponseHandler H} :=
  setup_takes : forall req offset (h : H) r h', setup req offset h = Some (r, h') -> hs_ec r = None ->
    (hs_offset r <= length (rq_types req))%nat /\
    exists j t, (offset <= j < hs_offset r)%nat /\ rq_types req !! j = Some t /\ ~ is_syncing t.

Lemma skip_syncs_length it : (length (skip_syncs it) <= length it)%nat.
Proof. induction it as [|t it IH]; [done|]. destruct t; simpl; lia. Qed.

Lemma lookup_drop_app (ts lead rest : list request_message_type) offset t :
  drop offset ts = lead ++ t :: rest -> ts !! (offset + length lead)%nat = Some t.
Proof. intros E. rewrite <- lookup_drop, E, lookup_app_r by done. by rewrite Nat.sub_diag. Qed.

Lemma check_setup_takes req offset type r : check_setup_impl req offset type = Some r -> hs_ec r = None -> ~ is_syncing type ->
  (hs_offset r <= length (rq_types req))%nat /\
  exists j t, (offset <= j < hs_offset r)%nat /\ rq_types req !! j = Some t /\ ~ is_syncing t.
Proof.
  unfold check_setup_impl, subspan. intros E He Ht. destruct (Nat.leb_spec offset (length (rq_types req))); [|done].
  cbn [mbind option_bind] in E. destruct (skip_syncs_spec (drop offset (rq_types req))) as (syncs & it & Ed & _ & _ & Es).
  rewrite Es in E. destruct it as [|t it]; [by injection E as <-|].
  destruct (bool_decide_reflect (t <> type)) as [|Hd]; [by injection E as <-|]. apply dec_stable in Hd as ->.
  injection E as <-. unfold setup_ok, distance. cbn [hs_offset]. split; [lia|].
  exists (offset + length syncs)%nat, type. split_and!; [lia| |by eapply lookup_drop_app|done].
  apply (f_equal length) in Ed. rewrite length_drop, length_app in Ed. cbn [length] in Ed.
  pose proof (skip_syncs_length it). lia.
Qed.

#[global] Instance check_parse_takes : TakesMessage check_parse.
Proof.
  intros req offset h r h' E He. cbn [setup check_parse_handler] in E.
  destruct (check_setup_impl req offset rt_parse) as [r'|] eqn:E'; [|done]. injection E as <- <-.
  eapply check_setup_takes; [done..|]. by intros [?|?].
Qed.

#[global] Instance check_close_takes : TakesMessage check_close.
Proof.
  intros req offset h r h' E He. cbn [setup check_close_handler] in E.
  destruct (check_setup_impl req offset rt_close) as [r'|] eqn:E'; [|done]. injection E as <- <-.
  eapply check_setup_takes; [done..|]. by intros [?|?].
Qed.

Lemma resultset_setup_message req offset r : resultset_setup req offset = Some r -> hs_ec r = None ->
  (hs_offset r <= length (rq_types req))%nat /\
  exists j t, (offset <= j < hs_offset r)%nat /\ rq_types req !! j = Some t /\ ~ is_syncing t.
Proof.
  intros E He. assert (offset <= length (rq_types req))%nat as Ho.
  { unfold resultset_setup, subspan in E. by destruct (Nat.leb_spec offset (length (rq_types req))). }
  destruct (resultset_setup_cases req offset Ho) as [[_ E']|[(rest & (lead & body & Ed & _ & Hb) & E')|E']];
    rewrite E' in E; [done| |by injection E as <-]. injection E as <-.
  unfold setup_ok, distance. cbn [hs_offset]. split; [lia|].
  pose proof (f_equal length Ed) as Hlen. rewrite length_drop, !length_app in Hlen.
  destruct Hb as [rest|pre mid tail rest].
  - exists (offset + length lead)%nat, rt_query. cbn [length] in Hlen.
    split_and!; [lia|lia|by eapply lookup_drop_app|by intros [?|?]].
  - exists (offset + length (lead ++ pre))%nat, rt_describe.
    rewrite !length_app in *. cbn [length] in Hlen.
    split_and!; [lia|lia| |by intros [?|?]]. rewrite <- length_app.
    apply (lookup_drop_app _ _ ((mid ++ rt_execute :: tail) ++ rest)). rewrite Ed. rewrite <- !app_assoc. cbn [app]. by rewrite <- !app_assoc.
Qed.

#[global] Instance check_execute_takes : TakesMessage check_execute.
Proof.
  intros req offset h r h' E He. cbn [setup check_execute_handler] in E.
  destruct (resultset_setup req offset) as [r'|] eqn:E'; [|done]. injection E as <- <-.
  by apply resultset_setup_message.
Qed.

#[global] Instance sum_takes {A B} `{!ResponseHandler A, !ResponseHandler B, !TakesMessage A, !TakesMessage B} : TakesMessage (A + B).
Proof.
  intros req offset [a|b] r h' E He; cbn [setup sum_handler] in E.
  - destruct (setup req offset a) as [[r' a']|] eqn:E'; [|done]. injection E as <- <-.
    exact (setup_takes req offset a r' a' E' He).
  - destruct (setup req offset b) as [[r' b']|] eqn:E'; [|done]. injection E as <- <-.
    exact (setup_takes req offset b r' b' E' He).
Qed.

(** ** Setup *)

(** Consecutive ranges, each with a message in it, that end at [n]. *)
Inductive ranges (types : list request_message_type) : nat -> list nat -> nat -> Prop :=
  | ranges_last lo hi : (exists j t, (lo <= j < hi)%nat /\ types !! j = Some t /\ ~ is_syncing t) ->
      ranges types lo [hi] hi
  | ranges_more lo hi ends n : (exists j t, (lo <= j < hi)%nat /\ types !! j = Some t /\ ~ is_syncing t) ->
      ranges types hi ends n -> ranges types lo (hi :: ends) n.

Lemma response_setup_ranges {H} `{TakesMessage H} req : forall (hs : list H) lo offsets r hs' offsets',
  length offsets = length hs -> response_setup req lo offsets hs = Some (r, hs', offsets') -> hs_ec r = None ->
  ranges (rq_types req) lo offsets' (hs_offset r) /\ length hs' = length offsets'.
Proof.
  induction hs as [|h hs IH]; intros lo [|o offsets] r hs' offsets' Hl E He; try done. cbn [response_setup] in E.
  destruct (setup req lo h) as [[r0 h0]|] eqn:E0; [|done]. cbn [mbind option_bind] in E.
  destruct (hs_ec r0) as [ec|] eqn:Ec; [injection E as <- <- <-; by rewrite Ec in He|].
  pose proof (setup_takes _ _ _ _ _ E0 Ec) as [_ Hm].
  destruct hs as [|h1 hs].
  - injection E as <- <- <-. destruct offsets; [|done]. split; [by constructor|done].
  - destruct (response_setup req (hs_offset r0) offsets (h1 :: hs)) as [[[r1 hs1] os1]|] eqn:E1; [|done].
    injection E as <- <- <-. injection Hl as Hl. destruct (IH _ _ _ _ _ Hl E1 He) as [Hr Hlen].
    split; [by constructor|]. simpl. by rewrite Hlen.
Qed.

(** ** Ranges of a trace *)

Definition at_or_after (lo : nat) (tr : trace) : trace := filter (fun c => lo <= c.1)%nat tr.

Lemma filter_none {A} (P : A -> Prop) `{!forall x, Decision (P x)} l : Forall (fun x => ~ P x) l -> filter P l = [].
Proof. induction 1 as [|x l Hx _ IH]; [done|]. by rewrite filter_cons_False. Qed.

(** Offsets never decrease. *)
Definition ordered (tr : trace) : Prop := StronglySorted (fun a b => a.1 <= b.1)%nat tr.

Lemma split_at tr lo hi : ordered tr -> (lo <= hi)%nat ->
  at_or_after lo tr = calls_between lo hi tr ++ at_or_after hi tr.
Proof.
  unfold at_or_after, calls_between. intros Hs Hle.
  induction Hs as [|[i c] tr _ IH Hf]; [done|]. rewrite !filter_cons. cbn [fst].
  destruct (decide (lo <= i)%nat) as [Hlo|Hlo].
  - rewrite IH. destruct (decide (hi <= i)%nat) as [Hhi|Hhi].
    + rewrite decide_False by lia. 
      assert (filter (fun c => lo <= c.1 < hi)%nat tr = []) as ->; [|done].
      apply filter_none. rewrite Forall_forall in Hf |- *. intros x Hx ?. specialize (Hf x Hx). simpl in *. lia.
    + by rewrite decide_True by lia.
  - rewrite !decide_False by lia. done.
Qed.

(** ** Routing *)

Section route.
Context {H : Type} `{!ResponseHandler H}.

(** A call for handler [length done], in use already or the next one. *)
Lemma on_message_routed (before after : list H) (h : H) os cur m i hi :
os !! length before = Some hi -> (i < hi)%nat ->
(cur = length before \/ S cur = length before /\ exists lo, os !! cur = Some lo /\ (lo <= i)%nat) ->
on_message m i (Response (before ++ h :: after) os cur) =
(h' ← on_message m i h; Some (Response (before ++ h' :: after) os (length before))).
Proof.
intros Hhi Hi Hcur. cbn [on_message response_handler]. unfold response_on_message. cbn [offsets_ current_handler handlers_].
assert (exists e, os !! cur = Some e /\ (if (e <=? i)%nat then S cur else cur) = length before) as (e & -> & He).
{ destruct Hcur as [->|(Hc & lo & Hlo & Hle)].
- exists hi. split; [done|]. by destruct (Nat.leb_spec hi i); [lia|].
- exists lo. split; [done|]. by destruct (Nat.leb_spec lo i); [|lia]. }
cbn [mbind option_bind]. rewrite He, Hhi. cbn [mbind option_bind].
destruct (Nat.ltb_spec i hi); [|lia]. rewrite lookup_app_r, Nat.sub_diag by done. cbn [lookup list_lookup mbind option_bind].
destruct (on_message m i h) as [h'|]; [|done]. cbn [mbind option_bind]. by rewrite insert_app_r_alt, Nat.sub_diag.
Qed.

Lemma replay_routed part : forall (before after : list H) h os cur hi,
os !! length before = Some hi -> Forall (fun c => c.1 < hi)%nat part ->
(cur = length before \/ S cur = length before /\ exists lo, os !! cur = Some lo /\ Forall (fun c => lo <= c.1)%nat part) ->
part <> [] ->
replay part (Response (before ++ h :: after) os cur) =
(h' ← replay part h; Some (Response (before ++ h' :: after) os (length before))).
Proof.
induction part as [|[i m] part IH]; intros before after h os cur hi Hhi Hlt Hcur Hne; [done|].
apply Forall_cons_iff in Hlt as [Hi Hlt]. cbn [replay].
rewrite (on_message_routed before after h os cur m i hi); [|done|done|].
2: { destruct Hcur as [?|(? & lo & ? & Hf)]; [by left|right]. apply Forall_cons_iff in Hf as [? _]. eauto. }
destruct (on_message m i h) as [h'|]; [|done]. cbn [mbind option_bind].
destruct part as [|c part]; [done|]. apply (IH _ _ _ _ _ hi); auto; done.
Qed.
(** Every message other than syncs and flushes causes a call. *)
Definition covers (types : list request_message_type) (tr : trace) : Prop :=
forall j t, types !! j = Some t -> ~ is_syncing t -> exists c, (j, c) ∈ tr.

Lemma calls_between_nonempty types tr lo hi : covers types tr ->
(exists j t, (lo <= j < hi)%nat /\ types !! j = Some t /\ ~ is_syncing t) -> calls_between lo hi tr <> [].
Proof.
intros Hc (j & t & Hj & Ht & Hs) E. destruct (Hc j t Ht Hs) as [c Hin].
assert ((j, c) ∈ calls_between lo hi tr) as Hin' by by apply list_elem_of_filter.
rewrite E in Hin'. by apply not_elem_of_nil in Hin'.
Qed.

Lemma calls_between_bounds lo hi tr :
Forall (fun c => c.1 < hi)%nat (calls_between lo hi tr) /\ Forall (fun c => lo <= c.1)%nat (calls_between lo hi tr).
Proof. rewrite !Forall_forall. split; intros c [? _]%list_elem_of_filter; lia. Qed.

Lemma replay_response types tr lo ends n : ranges types lo ends n ->
ordered tr -> Forall (fun c => c.1 < n)%nat tr -> covers types tr ->
forall (before hs : list H) pre cur, length hs = length ends -> length pre = length before ->
(cur = length before \/ S cur = length before /\ pre !! cur = Some lo) ->
replay (at_or_after lo tr) (Response (before ++ hs) (pre ++ ends) cur) =
(hs' ← replay_ranges tr lo ends hs;
Some (Response (before ++ hs') (pre ++ ends) (length before + length hs - 1))).
Proof.
intros Hr Ho Hn Hcov. induction Hr as [lo hi Hm|lo hi ends n Hm Hr IH];
intros before hs pre cur Hl Hp Hcur; destruct hs as [|h hs]; try done; injection Hl as Hl;
assert (lo <= hi)%nat as Hle by (destruct Hm as (j & _ & ? & _); lia);
rewrite (split_at tr lo hi Ho Hle), replay_app; destruct (calls_between_bounds lo hi tr) as [Hb1 Hb2].
all: rewrite (replay_routed _ before hs h _ cur hi);
[|by rewrite <- Hp, lookup_app_r, Nat.sub_diag|done| |by eapply calls_between_nonempty].
2, 4: destruct Hcur as [?|[? ?]]; [by left|right]; split; [done|]; exists lo; split; [by apply lookup_app_l_Some|done].
all: cbn [replay_ranges]; destruct (replay (calls_between lo hi tr) h) as [h'|]; [|done]; cbn [mbind option_bind].
- destruct hs; [|done]. assert (at_or_after hi tr = []) as ->.
{ apply filter_none. eapply Forall_impl; [exact Hn|]. simpl. lia. }
cbn [replay mbind option_bind]. do 2 f_equal. simpl. lia.
- replace (before ++ h' :: hs) with ((before ++ [h']) ++ hs) by by rewrite <- app_assoc.
replace (pre ++ hi :: ends) with ((pre ++ [hi]) ++ ends) by by rewrite <- app_assoc.
rewrite (IH Hn (before ++ [h']) hs (pre ++ [hi])).
+ destruct (replay_ranges tr hi ends hs) as [hs'|]; [|done]. cbn [mbind option_bind].
rewrite <- !app_assoc. cbn [app]. do 2 f_equal. rewrite length_app. simpl. lia.
+ done.
+ rewrite !length_app. simpl. lia.
+ right. rewrite length_app. simpl. split; [lia|]. by rewrite <- Hp, lookup_app_r, Nat.sub_diag.
Qed.
End route.

(** ** The trace of a response *)

Lemma ordered_app mid a b : ordered a -> ordered b -> Forall (fun c => c.1 <= mid)%nat a ->
  Forall (fun c => mid <= c.1)%nat b -> ordered (a ++ b).
Proof.
  intros Ha Hb. induction Ha as [|x a _ IH Hx]; intros Hla Hlb; [done|]. cbn [app].
  apply Forall_cons_iff in Hla as [Hxm Hla]. constructor; [by apply IH|].
  apply Forall_app. split; [done|]. eapply Forall_impl; [exact Hlb|]. simpl. intros; lia.
Qed.

(** Ordered, within [[lo, hi)]. *)
Definition within (lo hi : nat) (tr : trace) : Prop := ordered tr /\ Forall (fun c => lo <= c.1 < hi)%nat tr.

Lemma within_app lo mid hi a b : (lo <= mid <= hi)%nat -> within lo mid a -> within mid hi b -> within lo hi (a ++ b).
Proof.
  intros Hle [Ha Hla] [Hb Hlb]. split.
  - apply (ordered_app mid); [done..| |]; eapply Forall_impl; try done; simpl; intros; lia.
  - apply Forall_app. split; eapply Forall_impl; try done; simpl; intros; lia.
Qed.

Lemma within_calls_at i cs : within i (S i) (calls_at i cs).
Proof.
  unfold within, ordered, calls_at. induction cs as [|c cs [IH1 IH2]]; [split; constructor|].
  split; constructor; try done; [|simpl; lia]. eapply Forall_impl; [exact IH2|]. simpl. intros; lia.
Qed.

Lemma within_skipped pre : forall i, within i (i + length pre) (skipped_calls i pre).
Proof.
  induction pre as [|t pre IH]; intros i; [split; constructor|].
  destruct (IH (S i)) as [H1 H2]. replace (S i + length pre)%nat with (i + length (t :: pre))%nat in H2 by (simpl; lia).
  assert (within i (i + length (t :: pre)) (skipped_calls (S i) pre)) as Hw
    by (split; [done|]; eapply Forall_impl; [exact H2|]; simpl; intros; lia).
  destruct t; try exact Hw; split; (constructor; [done||(simpl; lia)|]); try exact (proj2 Hw);
    (eapply Forall_impl; [exact H2|]; simpl; intros; lia).
Qed.

Lemma skipped_covers pre : forall i j t, pre !! j = Some t -> ~ is_syncing t -> (rt_sync ∉ pre) ->
  exists c, ((i + j)%nat, c) ∈ skipped_calls i pre.
Proof.
  induction pre as [|t0 pre IH]; intros i [|j] t Hj Ht Hs; try done; apply not_elem_of_cons in Hs as [Hs0 Hs].
  - injection Hj as ->. rewrite Nat.add_0_r. unfold is_syncing in Ht. exists Amessage_skipped. destruct t; try (by left); tauto.
  - destruct (IH (S i) j t Hj Ht Hs) as [c Hc]. exists c. replace (i + S j)%nat with (S i + j)%nat by lia.
    destruct t0; try (by right); done.
Qed.

Lemma query_item_calls ac ms cs b : query_item ac ms cs b -> cs <> [].
Proof. by destruct 1. Qed.

Lemma reply_calls ac t ms cs b : reply ac t ms cs b -> t <> rt_sync -> cs <> [].
Proof.
  assert (forall c ms cs b, rows_end ms cs b -> c ++ cs <> []) as Hrows by (intros c; by destruct 1, c as [|? ?]; try (destruct rows)).
  destruct 1 as [| | | | | |ms cs b He|ms cs Hq|]; try done; intros _.
  - destruct He as [ms cs b Hr|rows|rows|rows]; [apply (Hrows [] _ _ _ Hr)|by destruct rows..].
  - inversion Hq as [|first ms1 cs1 ms2 cs2 Hi|first ms1 cs1 s Hi|]; subst; try done; apply query_item_calls in Hi; [by destruct cs1|done].
Qed.

Lemma calls_at_in i cs : cs <> [] -> exists c, (i, c) ∈ calls_at i cs.
Proof. destruct cs as [|c cs]; [done|]. exists c. left. Qed.

Lemma response_trace ac i ts ms tr : ReadResponseGrammar.response ac i ts ms tr ->
  within i (i + length ts) tr /\
  forall j t, ts !! j = Some t -> ~ is_syncing t -> exists c, ((i + j)%nat, c) ∈ tr.
Proof.
  induction 1 as [i|i ts ms tr _ _ [[IH1 IH1'] IH2]|i t ts ms cs ms' tr Hr _ [IH1 IH2]|i t pre ts ms cs ms' tr Hr Hs _ [IH1 IH2]].
  - split; [split; constructor|done].
  - split; [split; [done|]; eapply Forall_impl; [exact IH1'|]; simpl; intros; lia|].
    intros [|j] t Hj Ht; [injection Hj as <-; destruct Ht; by right|]. rewrite Nat.add_succ_r. exact (IH2 j t Hj Ht).
  - split. { apply (within_app i (S i)); [simpl; lia|apply within_calls_at|]. cbn [length]. by rewrite Nat.add_succ_r. }
    intros [|j] t' Hj Ht.
    + injection Hj as <-. rewrite Nat.add_0_r. destruct (calls_at_in i cs) as [c Hc]; [|exists c; set_solver].
      apply (reply_calls _ _ _ _ _ Hr). intros ->. apply Ht. by left.
    + destruct (IH2 j t' Hj Ht) as [c Hc]. exists c. replace (i + S j)%nat with (S i + j)%nat by lia. set_solver.
  - assert (t <> rt_sync) as Hts by (intros ->; inversion Hr; naive_solver).
    split.
    { cbn [length]. rewrite length_app. cbn [length].
      apply (within_app i (S i)); [lia|apply within_calls_at|].
      apply (within_app (S i) (S i + length pre)); [lia|apply within_skipped|].
      replace (i + S (length pre + S (length ts)))%nat with (S i + length pre + length (rt_sync :: ts))%nat by (simpl; lia). done. }
    intros [|j] t' Hj Ht.
    + injection Hj as <-. rewrite Nat.add_0_r. destruct (calls_at_in i cs) as [c Hc]; [|exists c; set_solver].
      by apply (reply_calls _ _ _ _ _ Hr).
    + change ((pre ++ rt_sync :: ts) !! j = Some t') in Hj. rewrite Nat.add_succ_r. destruct (decide (j < length pre)%nat) as [Hlt|Hge].
      * rewrite lookup_app_l in Hj by done. destruct (skipped_covers pre (S i) j t' Hj Ht Hs) as [c Hc].
        exists c. change (S (i + j)) with (S i + j)%nat. set_solver.
      * rewrite lookup_app_r in Hj by lia. destruct (IH2 (j - length pre)%nat t' Hj Ht) as [c Hc].
        exists c. replace (S (i + j)) with (S i + length pre + (j - length pre))%nat by lia. set_solver.
Qed.

(** ** Properties *)

Lemma setup_make_response {H} `{TakesMessage H} req (hs : list H) n r :
  setup req 0 (make_response hs) = Some (setup_ok n, r) ->
  ranges (rq_types req) 0 (offsets_ r) n /\ length (handlers_ r) = length (offsets_ r) /\ current_handler r = 0%nat.
Proof.
  cbn [setup response_handler]. unfold response_on_setup. cbn [make_response offsets_ handlers_ current_handler]. intros E.
  destruct (response_setup req 0 (replicate (length hs) 0%nat) hs) as [[[res hs'] os]|] eqn:E1; [|done].
  injection E as -> <-. cbn [offsets_ handlers_ current_handler].
  destruct (response_setup_ranges req hs 0 _ _ _ _ (length_replicate _ _) E1 eq_refl) as [Hr Hl]. done.
Qed.


(** A prepared statement and its execution. *)
Definition prepare_and_execute : request := Req [] [rt_parse; rt_sync; rt_bind; rt_describe; rt_execute; rt_sync] true.

Definition parse_then_execute : list (check_parse + check_execute) :=
  [inl (CheckParse no_error); inr (CheckExecute (Some (CI [] None false)) no_error)].

Definition executed : list any_backend_message :=
  [Mparse_complete; Mready_for_query {| status := idle |}; Mbind_complete; Mno_data;
   Mcommand_complete {| tag := str "UPDATE 3" |}; Mready_for_query {| status := idle |}].


(** [setup] does not start [response<Handlers...>] over: the object used for
    one request and set up for another still gives the first message to the
    handler it had reached, not to its first handler. *)
Theorem response_reuse_misroutes {H} `{ResponseHandler H} req n (r r' : response H) k o (h : H) m :
  current_handler r = S k -> setup req 0 r = Some (setup_ok n, r') ->
  offsets_ r' !! S k = Some o -> (0 < o)%nat -> handlers_ r' !! S k = Some h ->
  on_message m 0 r' =
    (h' ← on_message m 0 h; Some (Response (<[S k := h']> (handlers_ r')) (offsets_ r') (S k))).
Proof.
  intros Hk Hs Ho Hlt Hh. cbn [setup response_handler] in Hs. unfold response_on_setup in Hs.
  destruct (response_setup req 0 (offsets_ r) (handlers_ r)) as [[[res hs] os]|]; [|done].
  injection Hs as _ <-. cbn [offsets_ handlers_] in *. cbn [on_message response_handler]. unfold response_on_message.
  cbn [offsets_ handlers_ current_handler]. rewrite Hk, Ho. cbn [mbind option_bind].
  destruct (Nat.leb_spec o 0); [lia|]. rewrite Ho. cbn [mbind option_bind].
  destruct (Nat.ltb_spec 0 o); [|lia]. by rewrite Hh.
Qed.

(** The second time, [check_parse] sees none of the messages, and the error of
    the Parse is the result of the other handler. *)
Lemma response_reuse_misroutes_witness :
  let used := Response parse_then_execute [2; 6]%nat 1 in
  setup prepare_and_execute 0 used = Some (setup_ok 6, used) /\
  on_message (Aerror_response syntax_error) 0 used =
    Some (Response [inl (CheckParse no_error);
                    inr (CheckExecute (Some (CI [] None false)) (store_error syntax_error no_error))] [2; 6]%nat 1).
Proof.
  split; [vm_compute; reflexivity|].
  rewrite (response_reuse_misroutes prepare_and_execute 6 (Response parse_then_execute [2; 6]%nat 1) _ 0 6
    (inr (CheckExecute (Some (CI [] None false)) no_error))); [reflexivity|reflexivity|vm_compute; reflexivity|reflexivity|lia|reflexivity].
Defined.
