(* ===== verification/Resultsets.v ===== *)
(** * Resultsets ([include/nativepg/responses/resultsets.hpp], [resultsets_handler.hpp],
    [resultset_view.hpp], [rows_view.hpp], [detail/dynamic_utils.hpp], [src/src/responses.cpp])

    A [resultsets] object keeps any number of resultsets in four vectors: names
    and values as bytes, and offsets into them.  The views read it back.  An
    access out of bounds or a failed [BOOST_ASSERT] is [None].  [resultsets_handler]
    fills the object from a response; it is part of the handler's state. *)

From stdpp Require Import base list option sets.
From Stdlib Require Import ZArith Lia.
From S2P Require Import Prelude Errors Views BackendMessages BackendWire Request ReadResponse ReadResponseSpec ReadResponseGrammar Responses.

#[local] Open Scope Z_scope.

(** ** Offsets and lengths: both are [size_t] *)

Record offset_and_length := OL { offset : Z; length_ : Z }.

(** The bytes from [data + offset]. *)
Definition span_at (data : bytes) (p : offset_and_length) : option bytes :=
  if offset p + length_ p <=? Z.of_nat (length data)
  then Some (take (Z.to_nat (length_ p)) (drop (Z.to_nat (offset p)) data)) else None.

Definition to_field_view (data : bytes) (p : offset_and_length) : option field_view :=
  if length_ p =? SIZE_MAX then Some None else v ← span_at data p; Some (Some v).

Definition to_string_view (data : bytes) (p : offset_and_length) : option bytes := span_at data p.

Record offsetted_field_description := OFD {
  ofd_name : offset_and_length;
  ofd_table_oid : Z;
  ofd_column_attribute : Z;
  ofd_type_oid : Z;
  ofd_type_length : Z;
  ofd_type_modifier : Z;
  ofd_fmt_code : format_code
}.

Definition to_field_description (data : bytes) (d : offsetted_field_description) : option field_description :=
  name ← to_string_view data (ofd_name d);
  Some {| fd_name := name; table_oid := ofd_table_oid d; column_attribute := ofd_column_attribute d;
          type_oid := ofd_type_oid d; type_length := ofd_type_length d;
          type_modifier := ofd_type_modifier d; fmt_code := ofd_fmt_code d |}.

Definition insert_data (to value : bytes) : option (offset_and_length * bytes) :=
  if Z.of_nat (length value) =? SIZE_MAX then None
  else Some (OL (Z.of_nat (length to)) (Z.of_nat (length value)), to ++ value).

(** ** The object *)

Record resultset_descriptor := RD {
  rd_err : extended_error;
  rd_info : command_info;
  rd_descr : offset_and_length;
  rd_values : offset_and_length
}.

Record resultsets := RS {
  field_descr_ : list offsetted_field_description;
  values_ : list offset_and_length;
  resultsets_ : list resultset_descriptor;
  data_ : bytes
}.

(** [clear()], whatever the object was. *)
Definition clear : resultsets := RS [] [] [] [].

(** The loop of [add_row_description] over the descriptions. *)
Fixpoint push_descriptions (ds : list field_description) (rs : resultsets) : option resultsets :=
  match ds with
  | [] => Some rs
  | d :: ds' =>
      '(name, data) ← insert_data (data_ rs) (fd_name d);
      push_descriptions ds' (RS (field_descr_ rs ++ [OFD name (table_oid d) (column_attribute d) (type_oid d)
                                   (type_length d) (type_modifier d) (fmt_code d)])
                                (values_ rs) (resultsets_ rs) data)
  end.

Definition add_row_description (row_descr : row_description) (rs : resultsets) : option resultsets :=
  ds ← fpv_range (field_descriptions row_descr);
  push_descriptions ds rs.

(** The loop of [add_row] over the columns. *)
Fixpoint push_values (fvs : list field_view) (rs : resultsets) : option resultsets :=
  match fvs with
  | [] => Some rs
  | None :: fvs' => push_values fvs' (RS (field_descr_ rs) (values_ rs ++ [OL 0 SIZE_MAX]) (resultsets_ rs) (data_ rs))
  | Some v :: fvs' =>
      '(p, data) ← insert_data (data_ rs) v;
      push_values fvs' (RS (field_descr_ rs) (values_ rs ++ [p]) (resultsets_ rs) data)
  end.

Definition add_row (row : data_row) (rs : resultsets) : option resultsets :=
  fvs ← fpv_range (columns row);
  push_values fvs rs.

Definition finish_resultset (num_rows num_cols : Z) (info : command_info) (err : extended_error) (rs : resultsets)
    : option resultsets :=
  let num_values := wrap64 (num_cols * num_rows) in
  let descr_size := Z.of_nat (length (field_descr_ rs)) in
  let values_size := Z.of_nat (length (values_ rs)) in
  if (num_cols <=? descr_size) && (num_values <=? values_size)
  then Some (RS (field_descr_ rs) (values_ rs)
               (resultsets_ rs ++ [RD err info (OL (descr_size - num_cols) num_cols)
                                      (OL (values_size - num_values) num_values)]) (data_ rs))
  else None.

(** ** The views *)

(** A range of a vector: [{p + offset, length}]. *)
Definition subrange {A} (xs : list A) (p : offset_and_length) : option (list A) :=
  if offset p + length_ p <=? Z.of_nat (length xs)
  then Some (take (Z.to_nat (length_ p)) (drop (Z.to_nat (offset p)) xs)) else None.

(** [rows_view]: the rows one after the other, each a range of [num_columns]. *)
Fixpoint rows_from (size : nat) (num_columns : nat) (values : list offset_and_length) : list (list offset_and_length) :=
  match size with
  | O => []
  | S size' => take num_columns values :: rows_from size' num_columns (drop num_columns values)
  end.

Definition rows_view (values : list offset_and_length) (num_columns : nat) : option (list (list offset_and_length)) :=
  match values, num_columns with
  | [], _ => Some []
  | _, O => None
  | _, S _ =>
      if (length values mod num_columns =? 0)%nat
      then Some (rows_from (length values / num_columns) num_columns values) else None
  end.

(** What a [resultset_view] gives access to. *)
Record resultset := {
  rs_columns : list field_description;
  rs_rows : list (list field_view);
  rs_info : command_info;
  rs_error : extended_error
}.

Definition resultset_view (rs : resultsets) (r : resultset_descriptor) : option resultset :=
  descrs ← subrange (field_descr_ rs) (rd_descr r);
  cols ← mapM (to_field_description (data_ rs)) descrs;
  vals ← subrange (values_ rs) (rd_values r);
  rows ← rows_view vals (Z.to_nat (length_ (rd_descr r)));
  cells ← mapM (mapM (to_field_view (data_ rs))) rows;
  Some {| rs_columns := cols; rs_rows := cells; rs_info := rd_info r; rs_error := rd_err r |}.

(** From [begin()] to [end()]. *)
Definition resultset_views (rs : resultsets) : option (list resultset) := mapM (resultset_view rs) (resultsets_ rs).

(** ** The handler *)

Inductive handler_state := parsing_meta | parsing_data.

#[global] Instance handler_state_eq_dec : EqDecision handler_state.
Proof. solve_decision. Defined.

Record resultsets_handler := RH {
  obj_ : resultsets;
  rh_err : extended_error;
  rh_state : handler_state;
  num_cols_ : Z;
  num_rows_ : Z
}.

Definition reset_state (obj : resultsets) (err : extended_error) : resultsets_handler := RH obj err parsing_meta 0 0.

(** The loop of [setup]. *)
Fixpoint setup_all (fuel : nat) (req : request) (res : handler_setup_result) : option handler_setup_result :=
  match hs_ec res with
  | Some _ => Some res
  | None =>
      if (length (rq_types req) <=? hs_offset res)%nat then Some res
      else match fuel with
           | O => None
           | S fuel' => res ← resultset_setup req (hs_offset res); setup_all fuel' req res
           end
  end.

Definition resultsets_setup (req : request) (offset : nat) (h : resultsets_handler)
    : option (handler_setup_result * resultsets_handler) :=
  res ← resultset_setup req offset;
  res ← setup_all (length (rq_types req)) req res;
  Some (res, reset_state clear no_error).

Definition no_info : command_info := CI [] None false.

(** [finish_resultset] and [reset_state]. *)
Definition finish (info : command_info) (err : extended_error) (stored : extended_error) (h : resultsets_handler)
    : option resultsets_handler :=
  obj ← finish_resultset (num_rows_ h) (num_cols_ h) info err (obj_ h);
  Some (reset_state obj stored).

Definition resultsets_message (msg : any_request_message) (h : resultsets_handler) : option resultsets_handler :=
  match msg with
  | Abind_complete | Aparse_complete => Some h
  | Arow_description d =>
      if bool_decide (rh_state h = parsing_meta) then
        obj ← add_row_description d (obj_ h);
        Some (RH obj (rh_err h) parsing_data (Z.of_nat (fpv_size (field_descriptions d))) (num_rows_ h))
      else None
  | Adata_row v =>
      if bool_decide (rh_state h = parsing_data) then
        obj ← add_row v (obj_ h);
        Some (RH obj (rh_err h) (rh_state h) (num_cols_ h) (wrap64 (num_rows_ h + 1)))
      else None
  | Acommand_complete v =>
      if bool_decide (rh_state h = parsing_data) then finish (from_command_complete no_info v) no_error (rh_err h) h
      else None
  | Aportal_suspended =>
      if bool_decide (rh_state h = parsing_data) then finish (CI [] None true) no_error (rh_err h) h
      else None
  | Aerror_response e => finish no_info (store_error e no_error) (maybe_store_error e (rh_err h)) h
  | Aclose_complete | Aparameter_description _ | Aempty_query_response | Amessage_skipped => None
  end.

#[global] Instance resultsets_handler_inst : ResponseHandler resultsets_handler := {
  setup := resultsets_setup;
  on_message msg _ h := resultsets_message msg h;
  result := rh_err
}.

#[global] Instance resultsets_error_store : ErrorStore resultsets_handler.
Proof.
  intros m i h h'. cbn [on_message resultsets_handler_inst result]. intros E.
  destruct m; cbn [resultsets_message] in E; try done; try case_bool_decide; try done; unfold finish in E;
    repeat match type of E with (?o ≫= _) = _ => destruct o; [|done]; cbn [mbind option_bind] in E end;
    by injection E as <-.
Qed.

(** ** Specification

    The resultsets of a response, without any representation: those complete,
    and the columns and rows of the one being received. *)

Definition progress : Type := list resultset * option (list field_description * list (list field_view)).

Definition collect_message (msg : any_request_message) (p : progress) : option progress :=
  let '(sets, cur) := p in
  match msg, cur with
  | Abind_complete, _ | Aparse_complete, _ => Some p
  | Arow_description d, None =>
      cols ← fpv_range (field_descriptions d);
      if bool_decide (fpv_size (field_descriptions d) = length cols) then Some (sets, Some (cols, [])) else None
  | Adata_row v, Some (cols, rows) =>
      row ← fpv_range (columns v);
      if bool_decide (length row = length cols) then Some (sets, Some (cols, rows ++ [row])) else None
  | Acommand_complete v, Some (cols, rows) =>
      Some (sets ++ [{| rs_columns := cols; rs_rows := rows;
                        rs_info := from_command_complete no_info v; rs_error := no_error |}], None)
  | Aportal_suspended, Some (cols, rows) =>
      Some (sets ++ [{| rs_columns := cols; rs_rows := rows; rs_info := CI [] None true; rs_error := no_error |}], None)
  | Aerror_response e, _ =>
      let '(cols, rows) := default ([], []) cur in
      Some (sets ++ [{| rs_columns := cols; rs_rows := rows; rs_info := no_info; rs_error := store_error e no_error |}], None)
  | _, _ => None
  end.

Fixpoint collect (calls : trace) (p : progress) : option progress :=
  match calls with
  | [] => Some p
  | (_, m) :: calls' => p ← collect_message m p; collect calls' p
  end.

(** Rows without columns are not shown. *)
Definition shown (s : resultset) : resultset :=
  {| rs_columns := rs_columns s; rs_rows := match rs_columns s with [] => [] | _ => rs_rows s end;
     rs_info := rs_info s; rs_error := rs_error s |}.

(** Sizes a [size_t] can count. *)
Definition small (cols : list field_description) (rows : list (list field_view)) : Prop :=
  Forall (fun d => Z.of_nat (length (fd_name d)) < SIZE_MAX) cols /\
  Forall (fun v => Z.of_nat (length (default [] v)) < SIZE_MAX) (concat rows) /\
  Z.of_nat (length (concat rows)) <= SIZE_MAX.

Definition small_set (s : resultset) : Prop := small (rs_columns s) (rs_rows s).

(** ** Reading back what was stored *)

Lemma span_at_app data more p v : span_at data p = Some v -> span_at (data ++ more) p = Some v \/ offset p < 0 \/ length_ p < 0.
Proof.
  unfold span_at. destruct (Z.leb_spec (offset p + length_ p) (Z.of_nat (length data))); [|done]. intros [= <-].
  destruct (Z.ltb_spec (offset p) 0); [by auto|]. destruct (Z.ltb_spec (length_ p) 0); [by auto|]. left.
  rewrite length_app. destruct (Z.leb_spec (offset p + length_ p) (Z.of_nat (length data + length more))); [|lia].
  f_equal. rewrite drop_app_le, take_app_le by (rewrite ?length_drop; lia). done.
Qed.

(** Offsets as [insert_data] makes them. *)
Definition stored (data : bytes) (p : offset_and_length) (v : bytes) : Prop :=
  0 <= offset p /\ 0 <= length_ p /\ span_at data p = Some v /\ length_ p <> SIZE_MAX.

Lemma stored_app data more p v : stored data p v -> stored (data ++ more) p v.
Proof. intros (Ho & Hl & Hs & Hm). destruct (span_at_app data more p v Hs) as [?|[?|?]]; [done|lia|lia]. Qed.

Lemma insert_data_stored data v : Z.of_nat (length v) < SIZE_MAX ->
  exists p, insert_data data v = Some (p, data ++ v) /\ stored (data ++ v) p v.
Proof.
  intros Hv. unfold insert_data. destruct (Z.eqb_spec (Z.of_nat (length v)) SIZE_MAX); [lia|].
  eexists. split; [done|]. unfold stored, span_at. cbn [offset length_]. split_and!; [lia|lia| |done].
  rewrite length_app. destruct (Z.leb_spec (Z.of_nat (length data) + Z.of_nat (length v)) (Z.of_nat (length data + length v))); [|lia].
  rewrite !Nat2Z.id. by rewrite drop_app_length, take_ge.
Qed.

(** What an entry of the vectors of offsets stands for. *)
Definition value_stored (data : bytes) (p : offset_and_length) (v : field_view) : Prop :=
  match v with None => p = OL 0 SIZE_MAX | Some v => stored data p v end.

Definition description_stored (data : bytes) (o : offsetted_field_description) (d : field_description) : Prop :=
  stored data (ofd_name o) (fd_name d) /\ ofd_table_oid o = table_oid d /\
  ofd_column_attribute o = column_attribute d /\ ofd_type_oid o = type_oid d /\ ofd_type_length o = type_length d /\
  ofd_type_modifier o = type_modifier d /\ ofd_fmt_code o = fmt_code d.

Lemma value_stored_app data more p v : value_stored data p v -> value_stored (data ++ more) p v.
Proof. destruct v; [apply stored_app|done]. Qed.

Lemma description_stored_app data more o d : description_stored data o d -> description_stored (data ++ more) o d.
Proof. intros (Hs & ?). split; [by apply stored_app|done]. Qed.

Lemma to_field_view_stored data p v : value_stored data p v -> to_field_view data p = Some v.
Proof.
  unfold to_field_view. destruct v as [v|]; [|by intros ->]. intros (_ & _ & Hs & Hm).
  destruct (Z.eqb_spec (length_ p) SIZE_MAX); [done|]. by rewrite Hs.
Qed.

Lemma to_field_description_stored data o d : description_stored data o d -> to_field_description data o = Some d.
Proof.
  intros ((_ & _ & Hs & _) & E1 & E2 & E3 & E4 & E5 & E6). unfold to_field_description, to_string_view.
  rewrite Hs. cbn [mbind option_bind]. rewrite E1, E2, E3, E4, E5, E6. by destruct d.
Qed.

(** ** Filling the object *)

(** All the descriptions and values stored, in order. *)
Definition contents (rs : resultsets) (cols : list field_description) (vals : list field_view) : Prop :=
  Forall2 (description_stored (data_ rs)) (field_descr_ rs) cols /\
  Forall2 (value_stored (data_ rs)) (values_ rs) vals.

Lemma push_descriptions_ok ds : forall rs cols vals, contents rs cols vals ->
  Forall (fun d => Z.of_nat (length (fd_name d)) < SIZE_MAX) ds ->
  exists rs', push_descriptions ds rs = Some rs' /\ contents rs' (cols ++ ds) vals /\ resultsets_ rs' = resultsets_ rs.
Proof.
  induction ds as [|d ds IH]; intros rs cols vals [Hc Hv] Hs; [exists rs; rewrite app_nil_r; done|].
  apply Forall_cons_iff in Hs as [Hd Hs]. cbn [push_descriptions].
  destruct (insert_data_stored (data_ rs) (fd_name d) Hd) as (p & -> & Hp). cbn [mbind option_bind].
  edestruct (IH (RS (field_descr_ rs ++ [OFD p (table_oid d) (column_attribute d) (type_oid d) (type_length d)
      (type_modifier d) (fmt_code d)]) (values_ rs) (resultsets_ rs) (data_ rs ++ fd_name d)) (cols ++ [d]) vals)
    as (rs' & E & Hc' & Hr); [|done|exists rs'; rewrite E, <- app_assoc in *; done].
  split; cbn [field_descr_ values_ data_].
  - apply Forall2_app; [|constructor; [|constructor]; by split].
    eapply Forall2_impl; [exact Hc|]. intros; by apply description_stored_app.
  - eapply Forall2_impl; [exact Hv|]. intros; by apply value_stored_app.
Qed.

Lemma push_values_ok fvs : forall rs cols vals, contents rs cols vals ->
  Forall (fun v => Z.of_nat (length (default [] v)) < SIZE_MAX) fvs ->
  exists rs', push_values fvs rs = Some rs' /\ contents rs' cols (vals ++ fvs) /\ resultsets_ rs' = resultsets_ rs.
Proof.
  induction fvs as [|v fvs IH]; intros rs cols vals [Hc Hv] Hs; [exists rs; rewrite app_nil_r; done|].
  apply Forall_cons_iff in Hs as [Hd Hs]. destruct v as [v|]; cbn [push_values].
  - destruct (insert_data_stored (data_ rs) v Hd) as (p & -> & Hp). cbn [mbind option_bind].
    edestruct (IH (RS (field_descr_ rs) (values_ rs ++ [p]) (resultsets_ rs) (data_ rs ++ v)) cols (vals ++ [Some v]))
      as (rs' & E & Hc' & Hr); [|done|exists rs'; rewrite E, <- app_assoc in *; done].
    split; cbn [field_descr_ values_ data_].
    + eapply Forall2_impl; [exact Hc|]. intros; by apply description_stored_app.
    + apply Forall2_app; [|by constructor]. eapply Forall2_impl; [exact Hv|]. intros; by apply value_stored_app.
  - edestruct (IH (RS (field_descr_ rs) (values_ rs ++ [OL 0 SIZE_MAX]) (resultsets_ rs) (data_ rs)) cols (vals ++ [None]))
      as (rs' & E & Hc' & Hr); [|done|exists rs'; rewrite E, <- app_assoc in *; done].
    split; [done|]. apply Forall2_app; [done|by constructor].
Qed.

(** The descriptors of consecutive resultsets, after [d] descriptions and [v] values. *)
Fixpoint descriptors (d v : nat) (sets : list resultset) : list resultset_descriptor :=
  match sets with
  | [] => []
  | s :: sets' =>
      let nd := length (rs_columns s) in
      let nv := length (concat (rs_rows s)) in
      RD (rs_error s) (rs_info s) (OL (Z.of_nat d) (Z.of_nat nd)) (OL (Z.of_nat v) (Z.of_nat nv))
      :: descriptors (d + nd) (v + nv) sets'
  end.

Definition all_columns (sets : list resultset) : list field_description := concat (map rs_columns sets).
Definition all_values (sets : list resultset) : list field_view := concat (map (fun s => concat (rs_rows s)) sets).

Lemma all_columns_snoc sets s : all_columns (sets ++ [s]) = all_columns sets ++ rs_columns s.
Proof. unfold all_columns. rewrite map_app, concat_app. cbn [map concat]. by rewrite app_nil_r. Qed.

Lemma all_values_snoc sets s : all_values (sets ++ [s]) = all_values sets ++ concat (rs_rows s).
Proof. unfold all_values. rewrite map_app, concat_app. cbn [map concat]. by rewrite app_nil_r. Qed.

Lemma descriptors_snoc sets s : forall d v, descriptors d v (sets ++ [s]) =
  descriptors d v sets ++ descriptors (d + length (all_columns sets)) (v + length (all_values sets)) [s].
Proof.
  induction sets as [|s0 sets IH]; intros d v; [cbn [app descriptors all_columns all_values map concat length]; by rewrite !Nat.add_0_r|].
  cbn [app descriptors]. rewrite IH. unfold all_columns, all_values. cbn [map concat]. rewrite !length_app, !Nat.add_assoc. done.
Qed.

(** Rows as wide as their columns. *)
Definition rectangular (cols : list field_description) (rows : list (list field_view)) : Prop :=
  Forall (fun row => length row = length cols) rows.

Lemma rectangular_length cols rows : rectangular cols rows -> length (concat rows) = (length cols * length rows)%nat.
Proof. induction 1 as [|row rows Hr _ IH]; [simpl; lia|]. cbn [concat length]. rewrite length_app, Hr, IH. lia. Qed.

(** The state of the handler and the progress it stands for. *)
Definition represents (h : resultsets_handler) (p : progress) : Prop :=
  let '(sets, cur) := p in
  let '(cols, rows) := default ([], []) cur in
  contents (obj_ h) (all_columns sets ++ cols) (all_values sets ++ concat rows) /\
  resultsets_ (obj_ h) = descriptors 0 0 sets /\
  Forall (fun s => rectangular (rs_columns s) (rs_rows s)) sets /\ rectangular cols rows /\
  rh_state h = match cur with Some _ => parsing_data | None => parsing_meta end /\
  num_cols_ h = Z.of_nat (length cols) /\ num_rows_ h = wrap64 (Z.of_nat (length rows)).

Definition small_progress (p : progress) : Prop :=
  let '(sets, cur) := p in
  let '(cols, rows) := default ([], []) cur in Forall small_set sets /\ small cols rows.

(** Ending a resultset. *)
Lemma finish_represents h sets cur info err st :
  represents h (sets, cur) -> small_progress (sets, cur) ->
  let '(cols, rows) := default ([], []) cur in
  exists h', finish info err st h = Some h' /\ rh_err h' = st /\
    represents h' (sets ++ [{| rs_columns := cols; rs_rows := rows; rs_info := info; rs_error := err |}], None).
Proof.
  unfold represents, small_progress. destruct (default ([], []) cur) as [cols rows].
  intros ((Hc & Hv) & Hr & Hsets & Hrect & _ & Hnc & Hnr) (_ & _ & _ & Hs).
  pose proof (rectangular_length _ _ Hrect) as Hlen.
  pose proof (Forall2_length _ _ _ Hc) as Lc. pose proof (Forall2_length _ _ _ Hv) as Lv. rewrite length_app in Lc, Lv.
  assert (wrap64 (num_cols_ h * num_rows_ h) = Z.of_nat (length (concat rows))) as Ew.
  { rewrite Hnc, Hnr. unfold wrap64. rewrite Zmult_mod_idemp_r, <- Nat2Z.inj_mul, <- Hlen. apply Z.mod_small.
    unfold SIZE_MAX in Hs. lia. }
  unfold finish, finish_resultset. rewrite Ew, Hnc, Lc, Lv.
  destruct (Z.leb_spec (Z.of_nat (length cols)) (Z.of_nat (length (all_columns sets) + length cols))); [|lia].
  destruct (Z.leb_spec (Z.of_nat (length (concat rows))) (Z.of_nat (length (all_values sets) + length (concat rows)))); [|lia].
  cbn [andb mbind option_bind]. eexists. split; [done|]. split; [done|]. cbn [from_option id reset_state obj_ rh_state num_cols_ num_rows_].
  rewrite all_columns_snoc, all_values_snoc. cbn [rs_columns rs_rows concat app]. rewrite !app_nil_r.
  split_and!; [by split| |by apply Forall_app; split; [|constructor]|constructor|done..].
  cbn [resultsets_]. rewrite descriptors_snoc, Hr. cbn [descriptors Nat.add rs_columns rs_rows rs_error rs_info].
  do 2 f_equal. f_equal; f_equal; lia.
Qed.

(** One call of the handler is one step of the specification. *)
Lemma message_represents m h p p' :
  represents h p -> small_progress p' -> collect_message m p = Some p' ->
  exists h', resultsets_message m h = Some h' /\ represents h' p'.
Proof.
  destruct p as [sets cur]. intros Hrep Hsm E.
  pose proof (finish_represents h sets cur) as Hfin.
  destruct m, cur as [[cols rows]|]; cbn [collect_message] in E; try discriminate;
    try (injection E as <-; by eexists).
  - (* CommandComplete *)
    injection E as <-. destruct Hrep as (Hc & Hr & Hsets & Hrect & Hst & Hn). cbn [resultsets_message].
    rewrite Hst. rewrite bool_decide_true by done. cbn [from_option id] in *.
    destruct Hsm as [[Hss [Hs _]%Forall_cons_iff]%Forall_app _].
    destruct (Hfin (from_command_complete no_info v) no_error (rh_err h)) as (h' & -> & _ & Hrep'); [done|done|eauto].
  - (* DataRow *)
    cbn [resultsets_message]. destruct Hrep as (Hc & Hr & Hsets & Hrect & Hst & Hnc & Hnr). cbn [from_option id] in *.
    rewrite Hst. rewrite bool_decide_true by done. unfold add_row.
    destruct (fpv_range (columns v)) as [row|]; [|done]. cbn [mbind option_bind] in *.
    destruct (bool_decide_reflect (length row = length cols)) as [Hw|]; [|done]. injection E as <-.
    destruct Hsm as (_ & _ & Hsv & _). rewrite concat_app in Hsv. apply Forall_app in Hsv as [_ Hsv]. simpl in Hsv.
    rewrite app_nil_r in Hsv.
    destruct (push_values_ok row (obj_ h) _ _ Hc Hsv) as (obj & -> & Hc' & Hr'). cbn [mbind option_bind].
    eexists. split; [done|]. unfold represents. cbn [from_option id obj_ rh_state num_cols_ num_rows_].
    rewrite concat_app. cbn [concat]. rewrite app_nil_r, app_assoc, Hr'.
    split_and!; [done|done|done|by apply Forall_app; split; [|constructor]|done|done|].
    rewrite Hnr, length_app. unfold wrap64. rewrite Zplus_mod_idemp_l. f_equal. simpl. lia.
  - (* RowDescription *)
    cbn [resultsets_message]. destruct Hrep as (Hc & Hr & Hsets & Hrect & Hst & Hnc & Hnr). cbn [from_option id] in *.
    rewrite Hst. rewrite bool_decide_true by done. unfold add_row_description.
    destruct (fpv_range (field_descriptions v)) as [cols|]; [|done]. cbn [mbind option_bind] in *.
    destruct (bool_decide_reflect (fpv_size (field_descriptions v) = length cols)) as [Hw|]; [|done]. injection E as <-.
    destruct Hsm as (_ & Hsc & _). destruct (push_descriptions_ok cols (obj_ h) _ _ Hc Hsc) as (obj & -> & Hc' & Hr').
    cbn [mbind option_bind]. eexists. split; [done|]. unfold represents. cbn [from_option id obj_ rh_state num_cols_ num_rows_].
    rewrite app_nil_r in Hc'. rewrite Hr'. split_and!; [done|done|done|constructor|done|by rewrite Hw|done].
  - (* PortalSuspended *)
    injection E as <-. destruct Hrep as (Hc & Hr & Hsets & Hrect & Hst & Hn). cbn [resultsets_message].
    rewrite Hst. rewrite bool_decide_true by done. cbn [from_option id] in *.
    destruct Hsm as [[Hss [Hs _]%Forall_cons_iff]%Forall_app _].
    destruct (Hfin (CI [] None true) no_error (rh_err h)) as (h' & -> & _ & Hrep'); [done|done|eauto].
  - injection E as <-. cbn [resultsets_message from_option id] in *.
    destruct Hsm as [[Hss [Hs _]%Forall_cons_iff]%Forall_app _].
    destruct (Hfin no_info (store_error v no_error) (maybe_store_error v (rh_err h))) as (h' & -> & _ & Hrep'); [done|done|eauto].
  - injection E as <-. cbn [resultsets_message from_option id] in *.
    destruct Hsm as [[Hss [Hs _]%Forall_cons_iff]%Forall_app _].
    destruct (Hfin no_info (store_error v no_error) (maybe_store_error v (rh_err h))) as (h' & -> & _ & Hrep'); [done|done|eauto].
Qed.

(** What is small at the end was small before. *)
Lemma collect_message_small m p p' : collect_message m p = Some p' -> small_progress p' -> small_progress p.
Proof.
  assert (small [] []) as Hnil by (split_and!; [constructor..|unfold SIZE_MAX; simpl; lia]).
  destruct p as [sets [[cols rows]|]]; destruct m; cbn [collect_message]; intros E Hsm; try discriminate;
    try (injection E as <-; done);
    try (injection E as <-; destruct Hsm as [[Hss [Hs _]%Forall_cons_iff]%Forall_app _]; by split).
  - destruct (fpv_range (columns v)) as [row|]; [|done]. cbn [mbind option_bind] in E. case_bool_decide; [|done].
    injection E as <-. destruct Hsm as (Hss & Hsc & Hsv & Hsl). rewrite concat_app in Hsv, Hsl.
    apply Forall_app in Hsv as [Hsv _]. rewrite length_app in Hsl. split; [done|]. split; [done|]. split; [done|lia].
  - destruct (fpv_range (field_descriptions v)) as [cols|]; [|done]. cbn [mbind option_bind] in E. case_bool_decide; [|done].
    injection E as <-. destruct Hsm as (Hss & _). by split.
Qed.

Lemma collect_small calls : forall p p', collect calls p = Some p' -> small_progress p' -> small_progress p.
Proof.
  induction calls as [|[i m] calls IH]; intros p p' E Hs; [by injection E as <-|]. cbn [collect] in E.
  destruct (collect_message m p) as [p1|] eqn:E1; [|done]. eauto using collect_message_small.
Qed.

Lemma replay_represents calls : forall h p p', represents h p -> collect calls p = Some p' -> small_progress p' ->
  exists h', replay calls h = Some h' /\ represents h' p'.
Proof.
  induction calls as [|[i m] calls IH]; intros h p p' Hr E Hs; [injection E as <-; by exists h|].
  cbn [collect] in E. cbn [replay on_message resultsets_handler_inst].
  destruct (collect_message m p) as [p1|] eqn:E1; [|done]. cbn [mbind option_bind] in E.
  destruct (message_represents m h p p1 Hr) as (h1 & -> & Hr1); [by eapply collect_small|done|]. cbn [mbind option_bind]. eauto.
Qed.

(** ** Reading the object back *)

Lemma subrange_slice {A B} (R : A -> B -> Prop) xs pre mid post : Forall2 R xs (pre ++ mid ++ post) ->
  exists ys, subrange xs (OL (Z.of_nat (length pre)) (Z.of_nat (length mid))) = Some ys /\ Forall2 R ys mid.
Proof.
  intros H. apply Forall2_app_inv_r in H as (xs1 & xs' & H1 & H & ->). apply Forall2_app_inv_r in H as (xs2 & xs3 & H2 & H3 & ->).
  apply Forall2_length in H1 as L1. apply Forall2_length in H2 as L2. exists xs2. split; [|done].
  unfold subrange. cbn [offset length_]. rewrite !length_app, L1, L2.
  destruct (Z.leb_spec (Z.of_nat (length pre) + Z.of_nat (length mid)) (Z.of_nat (length pre + (length mid + length xs3)))); [|lia].
  rewrite !Nat2Z.id, <- L1, drop_app_length, <- L2, take_app_length. done.
Qed.

Lemma mapM_stored {A B} (f : A -> option B) (R : A -> B -> Prop) xs ys :
  (forall x y, R x y -> f x = Some y) -> Forall2 R xs ys -> mapM f xs = Some ys.
Proof. intros Hf H. apply mapM_Some. eapply Forall2_impl; [exact H|]. auto. Qed.

Lemma rows_from_cells {R : offset_and_length -> field_view -> Prop} n rows : forall vals,
  Forall (fun row : list field_view => length row = n) rows -> Forall2 R vals (concat rows) ->
  Forall2 (Forall2 R) (rows_from (length rows) n vals) rows.
Proof.
  induction rows as [|row rows IH]; intros vals Hw H; [constructor|].
  apply Forall_cons_iff in Hw as [Hr Hw]. cbn [concat] in H.
  apply Forall2_app_inv_r in H as (v1 & v2 & H1 & H2 & ->). apply Forall2_length in H1 as L1. cbn [length rows_from].
  rewrite <- Hr, <- L1, take_app_length, drop_app_length. constructor; [done|]. rewrite L1, Hr. auto.
Qed.

Lemma rows_view_cells data cols rows vals : rectangular cols rows ->
  Forall2 (value_stored data) vals (concat rows) ->
  exists ranges, rows_view vals (length cols) = Some ranges /\
    mapM (mapM (to_field_view data)) ranges = Some (match cols with [] => [] | _ => rows end).
Proof.
  intros Hrect Hv. pose proof (rectangular_length _ _ Hrect) as Hlen. pose proof (Forall2_length _ _ _ Hv) as Lv.
  rewrite Hlen in Lv. destruct cols as [|c cols].
  { destruct vals; [|done]. by exists []. }
  assert (exists n, length (c :: cols) = S n) as [n En] by by eexists.
  exists (rows_from (length rows) (length (c :: cols)) vals). split.
  - rewrite En in *. destruct vals as [|v vals]; [destruct rows; [done|simpl in Lv; lia]|].
    unfold rows_view. rewrite Lv, Nat.mul_comm, Nat.Div0.mod_mul, Nat.div_mul by done. done.
  - apply (mapM_stored _ (Forall2 (value_stored data))); [|by apply rows_from_cells].
    intros xs ys H. apply (mapM_stored _ (value_stored data)); [|done]. intros. by apply to_field_view_stored.
Qed.

Lemma views_from sets : forall rs cpre vpre, contents rs (cpre ++ all_columns sets) (vpre ++ all_values sets) ->
  Forall (fun s => rectangular (rs_columns s) (rs_rows s)) sets ->
  mapM (resultset_view rs) (descriptors (length cpre) (length vpre) sets) = Some (map shown sets).
Proof.
  induction sets as [|s sets IH]; intros rs cpre vpre [Hc Hv] Hrect; [done|].
  apply Forall_cons_iff in Hrect as [Hs Hrect]. unfold all_columns, all_values in Hc, Hv. cbn [map concat] in Hc, Hv.
  cbn [descriptors mapM map]. 
  assert (resultset_view rs (RD (rs_error s) (rs_info s) (OL (Z.of_nat (length cpre)) (Z.of_nat (length (rs_columns s))))
    (OL (Z.of_nat (length vpre)) (Z.of_nat (length (concat (rs_rows s)))))) = Some (shown s)) as ->.
  { unfold resultset_view. cbn [rd_descr rd_values rd_info rd_err length_].
    destruct (subrange_slice _ _ cpre _ _ Hc) as (ds & -> & Hds). destruct (subrange_slice _ _ vpre _ _ Hv) as (vs & -> & Hvs).
    cbn [mbind option_bind]. rewrite (mapM_stored _ (description_stored (data_ rs)) ds (rs_columns s)); [|by apply to_field_description_stored|done].
    cbn [mbind option_bind]. rewrite Nat2Z.id. destruct (rows_view_cells _ _ _ _ Hs Hvs) as (ranges & -> & E).
    cbn [mbind option_bind]. by rewrite E. }
  cbn [mbind option_bind]. rewrite <- !length_app, (IH rs); [done| |done].
  split; rewrite <- app_assoc; done.
Qed.

Lemma represents_views h sets : represents h (sets, None) -> resultset_views (obj_ h) = Some (map shown sets).
Proof.
  intros (Hc & Hr & Hrect & _). unfold resultset_views. rewrite Hr.
  apply (views_from sets (obj_ h) [] []); [|done]. simpl in *. by rewrite !app_nil_r in Hc.
Qed.

(** ** Setup *)

(** The messages are those of one or more resultsets. *)
Inductive resultset_sequence : list request_message_type -> Prop :=
  | rseq_one ts : takes_resultset ts [] -> resultset_sequence ts
  | rseq_more ts rest : takes_resultset ts rest -> resultset_sequence rest -> resultset_sequence ts.

Lemma takes_suffix req offset rest : (offset <= length (rq_types req))%nat ->
  takes_resultset (drop offset (rq_types req)) rest ->
  (offset < distance req rest <= length (rq_types req))%nat /\ drop (distance req rest) (rq_types req) = rest.
Proof.
  intros Ho (lead & body & E & _ & Hb). pose proof (f_equal length E) as Hl. rewrite length_drop, !length_app in Hl.
  assert (0 < length body)%nat as Hpos by (destruct Hb; [simpl; lia|rewrite length_app; simpl; lia]).
  unfold distance. split; [lia|].
  assert (rq_types req = (take offset (rq_types req) ++ lead ++ body) ++ rest) as Et
    by by rewrite <- !app_assoc, <- E, take_drop.
  rewrite Et at 2. replace (length (rq_types req) - length rest)%nat
    with (length (take offset (rq_types req) ++ lead ++ body)) by (rewrite !length_app, length_take; lia).
  apply drop_app_length.
Qed.

Lemma setup_all_sequence req fuel : forall offset, (length (rq_types req) - offset <= fuel)%nat ->
  (offset <= length (rq_types req))%nat ->
  (forall r, (res ← resultset_setup req offset; setup_all fuel req res) = Some r ->
     hs_ec r = None -> r = setup_ok (length (rq_types req)) /\ resultset_sequence (drop offset (rq_types req))) /\
  (resultset_sequence (drop offset (rq_types req)) ->
     (res ← resultset_setup req offset; setup_all fuel req res) = Some (setup_ok (length (rq_types req)))).
Proof.
  induction fuel as [|fuel IH]; intros offset Hf Ho.
  - rewrite drop_ge by lia. assert (resultset_setup req offset = None) as ->.
    { destruct (resultset_setup_cases req offset Ho) as [[_ ?]|Hc]; [done|].
      rewrite resultset_setup_eq by done. by rewrite drop_ge by lia. }
    split; [done|]. intros Hs. assert (forall rest, ~ takes_resultset [] rest) as Hno.
    { intros rest (lead & body & E & _ & Hb). symmetry in E. apply app_eq_nil in E as [_ [-> _]%app_eq_nil].
      inversion Hb as [|[|] ? ? ? ? ? ? ? E]; done. }
    inversion Hs as [ts Ht|ts rest Ht]; by destruct (Hno _ Ht).
  - destruct (resultset_setup_cases req offset Ho) as [[Hsync ->]|[(rest & Ht & ->)|E]].
    + split; [done|]. intros Hs. exfalso.
      assert (exists rest, takes_resultset (drop offset (rq_types req)) rest) as (rest & Ht) by (inversion Hs; eauto).
      destruct Ht as (lead & body & E & _ & Hb). rewrite E in Hsync. apply Forall_app in Hsync as [_ [Hb' _]%Forall_app].
      destruct Hb as [|pre mid tail rest']; [apply Forall_cons_iff in Hb' as [[?|?] _]; done|].
      apply Forall_app in Hb' as [_ [[?|?] _]%Forall_cons_iff]; done.
    + destruct (takes_suffix req offset rest Ho Ht) as [Hd Hdrop]. cbn [mbind option_bind setup_all setup_ok hs_ec hs_offset].
      destruct (IH (distance req rest) ltac:(lia) ltac:(lia)) as [IH1 IH2]. rewrite Hdrop in IH1, IH2.
      destruct (Nat.leb_spec (length (rq_types req)) (distance req rest)) as [Hend|Hend].
      * assert (rest = []) as -> by (apply nil_length_inv; rewrite <- Hdrop, length_drop; lia).
        assert (distance req [] = length (rq_types req)) as Ed by (unfold distance; simpl; lia). split.
        -- intros r [= <-] _. unfold setup_ok. rewrite Ed. split; [done|]. by apply rseq_one.
        -- intros _. unfold setup_ok. by rewrite Ed.
      * split.
        -- intros r Hr He. destruct (IH1 r Hr He) as [-> Hseq]. split; [done|]. by apply (rseq_more _ rest).
        -- intros Hs. apply IH2.
           assert (forall rest', takes_resultset (drop offset (rq_types req)) rest' -> rest' = rest) as Huniq.
           { intros rest' Ht'. destruct (takes_suffix req offset rest' Ho Ht') as [Hd' Hdrop'].
             pose proof (resultset_setup_takes req offset rest Ho Ht) as E1.
             rewrite (resultset_setup_takes req offset rest' Ho Ht') in E1. injection E1 as E1. by rewrite <- Hdrop', E1, Hdrop. }
           inversion Hs as [ts Ht'|ts rest' Ht' Hs']; subst ts.
           ++ rewrite <- (Huniq [] Ht') in Hend. unfold distance in Hend. simpl in Hend. lia.
           ++ by rewrite <- (Huniq rest' Ht').
    + rewrite E. cbn [mbind option_bind setup_all incompatible setup_failed hs_ec]. split; [by intros r [= <-]|].
      intros Hs. exfalso. assert (exists rest, takes_resultset (drop offset (rq_types req)) rest) as (rest & Ht) by (inversion Hs; eauto).
      by rewrite (resultset_setup_takes req offset rest Ho Ht) in E.
Qed.

(** ** Properties *)

(** [resultsets_handler::setup] terminates, and accepts what is left of a
    request exactly when it is made of the messages of one or more resultsets; it
    then takes all of them and starts from an empty object. *)
Theorem resultsets_setup_exact req offset h : (offset <= length (rq_types req))%nat ->
  (exists r h', setup req offset h = Some (r, h') /\ hs_ec r = None) <->
  resultset_sequence (drop offset (rq_types req)) /\
  setup req offset h = Some (setup_ok (length (rq_types req)), reset_state clear no_error).
Proof.
  intros Ho. destruct (setup_all_sequence req (length (rq_types req)) offset ltac:(lia) Ho) as [H1 H2].
  assert (setup req offset h = (res ← (res ← resultset_setup req offset; setup_all (length (rq_types req)) req res);
    Some (res, reset_state clear no_error))) as E.
  { cbn [setup resultsets_handler_inst]. unfold resultsets_setup. by destruct (resultset_setup req offset). }
  rewrite E. split.
  - intros (r & h' & Er & He). destruct (res ← resultset_setup req offset; setup_all (length (rq_types req)) req res) as [res|]; [|done].
    injection Er as <- <-. by destruct (H1 res eq_refl He) as [-> Hs].
  - intros [Hs E']. eexists _, _. split; [exact E'|done].
Qed.


Lemma resultsets_setup_exact_witness :
  (0 <= length (rq_types two_queries))%nat /\
  resultset_sequence (rq_types two_queries) /\
  setup two_queries 0 (reset_state clear no_error) = Some (setup_ok 10, reset_state clear no_error).
Proof.
  split; [simpl; lia|].
  apply (resultsets_setup_exact two_queries 0 (reset_state clear no_error)); [simpl; lia|].
  eexists _, _. split; [vm_compute; reflexivity|reflexivity].
Defined.

(** Two simple queries: a resultset with a NULL, and an error after a row. *)
Definition sample_column (name : bytes) : field_description :=
  {| fd_name := name; table_oid := 0; column_attribute := 0; type_oid := 23; type_length := 4;
     type_modifier := -1; fmt_code := fmt_text |}.

Definition sample_description : row_description :=
  {| field_descriptions := FPV 2 (items_enc [sample_column (str "id"); sample_column (str "n")]) |}.

Definition sample_row (a b : field_view) : data_row := {| columns := FPV 2 (items_enc [a; b]) |}.

Definition two_resultsets : list any_backend_message :=
  [Mrow_description sample_description; Mdata_row (sample_row (Some (str "7")) None);
   Mdata_row (sample_row (Some (str "8")) (Some (str "ab"))); Mcommand_complete {| tag := str "SELECT 2" |};
   Mready_for_query {| status := idle |};
   Mrow_description sample_description; Mdata_row (sample_row None None); Merror_response syntax_error;
   Mready_for_query {| status := idle |}].

Definition two_sets : list resultset :=
  [{| rs_columns := [sample_column (str "id"); sample_column (str "n")];
      rs_rows := [[Some (str "7"); None]; [Some (str "8"); Some (str "ab")]];
      rs_info := CI (str "SELECT 2") (Some 2) false; rs_error := no_error |};
   {| rs_columns := [sample_column (str "id"); sample_column (str "n")];
      rs_rows := [[None; None]]; rs_info := no_info; rs_error := store_error syntax_error no_error |}].

Definition two_resultsets_calls : trace :=
  calls_at 0 [Arow_description sample_description; Adata_row (sample_row (Some (str "7")) None);
              Adata_row (sample_row (Some (str "8")) (Some (str "ab")));
              Acommand_complete {| tag := str "SELECT 2" |}] ++
  calls_at 1 [Arow_description sample_description; Adata_row (sample_row None None); Aerror_response syntax_error].

