(* ===== verification/ResultsetIterators.v ===== *)
(** * The iterators of the resultsets ([include/nativepg/responses/resultsets.hpp],
    [rows_view.hpp], [row_view.hpp], [field_descriptions_view.hpp], [field_descriptions.hpp])

    Four ranges: the resultsets of an object, the rows of a resultset, the fields of
    a row and the descriptions of the columns.  Their iterators are pointers into
    the vectors of the object, here indices; that of the rows moves by the number
    of columns.  They are proved to implement the interface of [Iterators], and the
    loops over them to read what the model of [Resultsets] reads. *)

From stdpp Require Import base list option.
From Stdlib Require Import ZArith Lia.
From S2P Require Import Prelude Errors Views Iterators BackendMessages Resultsets.

#[local] Open Scope Z_scope.

(** The element a pointer into a vector points to. *)
Definition element {A} (xs : list A) (it : Z) : option A := if 0 <=? it then xs !! Z.to_nat it else None.

(** ** row_view *)

Section row_view.
Context (values : list offset_and_length) (data : bytes).

Definition row_deref (it : Z) : option field_view := p ← element values it; to_field_view data p.
Definition row_ops : iterator_ops Z field_view := pointer_ops row_deref.
Definition row_begin : Z := 0.
Definition row_end : Z := Z.of_nat (length values).
Definition row_size : nat := length values.
Definition row_empty : bool := match values with [] => true | _ => false end.
Definition row_index (i : nat) : option field_view := p ← values !! i; to_field_view data p.
Definition row_front : option field_view := p ← list.head values; to_field_view data p.
Definition row_back : option field_view := p ← list.last values; to_field_view data p.
End row_view.

(** ** field_descriptions_view, and field_descriptions through it *)

Section field_descriptions_view.
Context (descrs : list offsetted_field_description) (data : bytes).

Definition fields_deref (it : Z) : option field_description := d ← element descrs it; to_field_description data d.
Definition fields_ops : iterator_ops Z field_description := pointer_ops fields_deref.
Definition fields_begin : Z := 0.
Definition fields_end : Z := Z.of_nat (length descrs).
Definition fields_index (i : nat) : option field_description := d ← descrs !! i; to_field_description data d.
Definition fields_front : option field_description := d ← list.head descrs; to_field_description data d.
Definition fields_back : option field_description := d ← list.last descrs; to_field_description data d.
End field_descriptions_view.

(** ** resultsets *)

Section resultsets.
Context (rs : resultsets).

Definition sets_deref (it : Z) : option resultset := r ← element (resultsets_ rs) it; resultset_view rs r.
Definition sets_ops : iterator_ops Z resultset := pointer_ops sets_deref.
Definition sets_begin : Z := 0.
Definition sets_end : Z := Z.of_nat (length (resultsets_ rs)).
Definition sets_index (i : nat) : option resultset := r ← resultsets_ rs !! i; resultset_view rs r.
Definition sets_front : option resultset := sets_index 0.
Definition sets_back : option resultset := sets_index (length (resultsets_ rs) - 1).
End resultsets.

(** ** rows_view *)

Section rows_view.
Context (values : list offset_and_length) (num_columns : nat).

(** [span{p, num_cols}], a row. *)
Definition rows_deref (p : Z) : option (list offset_and_length) :=
if 0 <=? p then subrange values (OL p (Z.of_nat num_columns)) else None.

Definition rows_difference (lhs rhs : Z) : Z :=
if (num_columns =? 0)%nat then 0 else Z.quot (lhs - rhs) (Z.of_nat num_columns).

Definition rows_ops : iterator_ops Z (list offset_and_length) := {|
it_succ it := it + Z.of_nat num_columns;
it_pred it := it - Z.of_nat num_columns;
it_add it n := it + n * Z.of_nat num_columns;
it_sub it n := it - n * Z.of_nat num_columns;
it_diff := rows_difference;
it_eq lhs rhs := lhs =? rhs;
it_cmp lhs rhs := lhs ?= rhs;
it_deref := rows_deref;
it_at it n := rows_deref (it + n * Z.of_nat num_columns)
|}.

Definition rows_size : nat := if (num_columns =? 0)%nat then O else (length values / num_columns)%nat.
Definition rows_empty : bool := (rows_size =? 0)%nat.
Definition rows_begin : Z := 0.
Definition rows_end : Z := Z.of_nat (rows_size * num_columns).
Definition rows_index (i : nat) : option (list offset_and_length) :=
subrange values (OL (Z.of_nat (i * num_columns)) (Z.of_nat num_columns)).
Definition rows_front : option (list offset_and_length) := rows_index 0.
Definition rows_back : option (list offset_and_length) := rows_index (rows_size - 1).

Definition row_position (k : Z) : Z := k * Z.of_nat num_columns.

Lemma rows_random_access : (0 < num_columns)%nat -> random_access rows_ops row_position rows_size rows_index.
Proof.
intros Hn. unfold row_position. split; cbn [it_succ it_pred it_add it_sub it_diff it_eq it_cmp it_deref it_at rows_ops].
- intros. lia.
- intros. lia.
- intros. lia.
- intros. lia.
- intros k j _ _. unfold rows_difference. rewrite (proj2 (Nat.eqb_neq _ _)) by lia.
rewrite <- Z.mul_sub_distr_r. apply Z.quot_mul. lia.
- intros k j _ _. destruct (Z.eqb_spec k j) as [->|H]; [by apply Z.eqb_refl|]. apply Z.eqb_neq. nia.
- intros k j _ _. rewrite !(Z.mul_comm _ (Z.of_nat num_columns)). symmetry. apply Zmult_compare_compat_l. lia.
- intros k Hk. unfold rows_deref, rows_index. rewrite (proj2 (Z.leb_le _ _)) by nia. f_equal. f_equal. nia.
- intros k d Hk Hd. unfold rows_deref, rows_index. rewrite (proj2 (Z.leb_le _ _)) by nia. f_equal. f_equal. nia.
Qed.

Lemma rows_differences : (0 < num_columns)%nat -> full_differences rows_ops row_position rows_size.
Proof.
intros Hn k j _ _. cbn. unfold rows_difference, row_position. rewrite (proj2 (Nat.eqb_neq _ _)) by lia.
rewrite <- Z.mul_sub_distr_r. apply Z.quot_mul. lia.
Qed.
End rows_view.

(** ** Loops *)

Lemma mapM_index {A B} (f : A -> option B) (xs : list A) : forall pre,
  mapM (fun i => (pre ++ xs) !! i ≫= f) (seq (length pre) (length xs)) = mapM f xs.
Proof.
  induction xs as [|x xs IH]; intros pre; [done|]. cbn [length seq mapM].
  rewrite list_lookup_middle by done. cbn [mbind option_bind]. specialize (IH (pre ++ [x])).
  rewrite <- app_assoc, length_app, Nat.add_1_r in IH. cbn [app] in IH. by rewrite IH.
Qed.

(** The loop over pointers into a vector, and over its elements. *)
Lemma pointer_loop {A B} (f : A -> option B) (xs : list A) :
  forward_loop (pointer_ops (fun it => element xs it ≫= f)) (length xs) 0 (Z.of_nat (length xs)) = mapM f xs.
Proof.
  assert (random_access (pointer_ops (fun it => element xs it ≫= f)) id (length xs) (fun i => xs !! i ≫= f)) as Hra.
  { apply pointer_random_access. intros k Hk. unfold element. by rewrite (proj2 (Z.leb_le _ _)) by lia. }
  change 0 with (id 0). change (Z.of_nat (length xs)) with (id (Z.of_nat (length xs))).
  rewrite (forward_loop_all Hra). exact (mapM_index f xs []).
Qed.

Lemma rows_from_index n : forall k values num_columns, (0 < num_columns)%nat -> (length values = (k + n) * num_columns)%nat ->
  mapM (rows_index values num_columns) (seq k n) = Some (rows_from n num_columns (drop (k * num_columns) values)).
Proof.
  induction n as [|n IH]; intros k values c Hc Hl; [done|]. cbn [seq mapM rows_from].
  assert (rows_index values c k = Some (take c (drop (k * c) values))) as ->.
  { unfold rows_index, subrange. cbn [offset length_]. rewrite (proj2 (Z.leb_le _ _)) by nia. by rewrite !Nat2Z.id. }
  cbn [mbind option_bind].
  rewrite IH by nia. rewrite drop_drop. by replace (k * c + c)%nat with (S k * c)%nat by lia.
Qed.

(** The loop over the rows reads what [rows_view] gives. *)
Lemma rows_loop values num_columns rows : (0 < num_columns)%nat -> rows_view values num_columns = Some rows ->
  forward_loop (rows_ops values num_columns) (rows_size values num_columns) rows_begin (rows_end values num_columns) = Some rows.
Proof.
  intros Hc Hr. change rows_begin with (row_position num_columns 0).
  replace (rows_end values num_columns) with (row_position num_columns (Z.of_nat (rows_size values num_columns))) by (unfold row_position, rows_end; lia).
  rewrite (forward_loop_all (rows_random_access values num_columns Hc)). unfold rows_size.
  rewrite (proj2 (Nat.eqb_neq _ _)) by lia. destruct values as [|v vs].
  { injection Hr as <-. rewrite Nat.div_0_l by lia. done. }
  destruct num_columns as [|c]; [lia|]. unfold rows_view in Hr. revert Hr. generalize (v :: vs). intros values.
  destruct (Nat.eqb_spec (length values mod S c) 0) as [Hm|]; [|done]. intros [= <-].
  rewrite (rows_from_index _ 0); [done|lia|]. pose proof (Nat.div_mod (length values) (S c)). lia.
Qed.

(** ** Properties *)

(** C15: The iterators of the resultsets implement their ranges: those of the
    resultsets, of the columns and of the cells are positions, with distances in
    both directions; those of the rows are positions that move by the number of
    columns; and the loops from [begin()] to [end()] read exactly the resultsets,
    the columns, the rows and the cells that the views stand for. *)
Theorem resultset_iterators_refine (rs : resultsets) descrs values num_columns rows cells :
  (0 < num_columns)%nat -> rows_view values num_columns = Some rows ->
  (random_access (sets_ops rs) id (length (resultsets_ rs)) (sets_index rs) /\
   full_differences (sets_ops rs) id (length (resultsets_ rs)) /\
   forward_loop (sets_ops rs) (length (resultsets_ rs)) sets_begin (sets_end rs) = resultset_views rs) /\
  (random_access (fields_ops descrs (data_ rs)) id (length descrs) (fields_index descrs (data_ rs)) /\
   full_differences (fields_ops descrs (data_ rs)) id (length descrs) /\
   forward_loop (fields_ops descrs (data_ rs)) (length descrs) fields_begin (fields_end descrs) =
     mapM (to_field_description (data_ rs)) descrs) /\
  (random_access (rows_ops values num_columns) (row_position num_columns) (rows_size values num_columns) (rows_index values num_columns) /\
   full_differences (rows_ops values num_columns) (row_position num_columns) (rows_size values num_columns) /\
   forward_loop (rows_ops values num_columns) (rows_size values num_columns) rows_begin (rows_end values num_columns) = Some rows) /\
  (random_access (row_ops cells (data_ rs)) id (length cells) (row_index cells (data_ rs)) /\
   full_differences (row_ops cells (data_ rs)) id (length cells) /\
   forward_loop (row_ops cells (data_ rs)) (length cells) row_begin (row_end cells) = mapM (to_field_view (data_ rs)) cells).
Proof.
  intros Hc Hr.
  split_and!; try apply pointer_differences; try apply pointer_loop;
    [| |by apply rows_random_access|by apply rows_differences|by apply rows_loop|];
    apply pointer_random_access; intros k Hk; unfold sets_deref, fields_deref, row_deref, element; by rewrite (proj2 (Z.leb_le _ _)) by lia.
Qed.

Lemma resultset_iterators_refine_witness :
  let cells := [OL 0 1; OL 1 SIZE_MAX; OL 1 2; OL 0 3] in
  let rs := RS [] cells [] (str "abc") in
  (random_access (sets_ops rs) id 0 (sets_index rs) /\
   full_differences (sets_ops rs) id 0 /\
   forward_loop (sets_ops rs) 0 sets_begin (sets_end rs) = resultset_views rs) /\
  (random_access (fields_ops [] (data_ rs)) id 0 (fields_index [] (data_ rs)) /\
   full_differences (fields_ops [] (data_ rs)) id 0 /\
   forward_loop (fields_ops [] (data_ rs)) 0 fields_begin (fields_end []) = mapM (to_field_description (data_ rs)) []) /\
  (random_access (rows_ops cells 2) (row_position 2) 2 (rows_index cells 2) /\
   full_differences (rows_ops cells 2) (row_position 2) 2 /\
   forward_loop (rows_ops cells 2) 2 rows_begin (rows_end cells 2) = Some [[OL 0 1; OL 1 SIZE_MAX]; [OL 1 2; OL 0 3]]) /\
  (random_access (row_ops cells (data_ rs)) id 4 (row_index cells (data_ rs)) /\
   full_differences (row_ops cells (data_ rs)) id 4 /\
   forward_loop (row_ops cells (data_ rs)) 4 row_begin (row_end cells) = mapM (to_field_view (data_ rs)) cells).
Proof.
  exact (resultset_iterators_refine (RS [] [OL 0 1; OL 1 SIZE_MAX; OL 1 2; OL 0 3] [] (str "abc")) []
    [OL 0 1; OL 1 SIZE_MAX; OL 1 2; OL 0 3] 2 [[OL 0 1; OL 1 SIZE_MAX]; [OL 1 2; OL 0 3]] [OL 0 1; OL 1 SIZE_MAX; OL 1 2; OL 0 3]
    ltac:(lia) eq_refl).
Defined.

(** The accessors of the ends agree with the subscript. *)
Theorem row_ends values data :
  row_front values data = row_index values data 0 /\ row_back values data = row_index values data (length values - 1).
Proof.
  unfold row_front, row_back, row_index. rewrite head_lookup, last_lookup. split; [done|]. by rewrite Nat.sub_1_r.
Qed.

Theorem field_ends descrs data :
  fields_front descrs data = fields_index descrs data 0 /\ fields_back descrs data = fields_index descrs data (length descrs - 1).
Proof.
  unfold fields_front, fields_back, fields_index. rewrite head_lookup, last_lookup. split; [done|]. by rewrite Nat.sub_1_r.
Qed.
