(* ===== verification/Describe.v ===== *)
(** * Row metadata: describe_into and compute_pos_map ([src/src/responses.cpp],
    [include/nativepg/responses/describe_into.hpp], [field_descriptions.hpp], [resultset_callback.hpp])

    [describe_into] keeps the description of a portal.  [compute_pos_map] finds,
    for every member of the C++ row type, the field of the server's rows that
    has its name. *)

From stdpp Require Import base list option sets.
From Stdlib Require Import ZArith Lia.
From S2P Require Import Prelude Errors Views BackendMessages BackendWire Request ReadResponse ReadResponseSpec ReadResponseGrammar Responses Resultsets.

#[local] Open Scope Z_scope.

(** ** field_descriptions *)

Record field_descriptions_store := FDS { fds_descr : list offsetted_field_description; fds_data : bytes }.

(** The loop of [assign]. *)
Fixpoint assign_loop (ds : list field_description) (s : field_descriptions_store) : option field_descriptions_store :=
  match ds with
  | [] => Some s
  | d :: ds' =>
      '(name, data) ← insert_data (fds_data s) (fd_name d);
      assign_loop ds' (FDS (fds_descr s ++ [OFD name (table_oid d) (column_attribute d) (type_oid d)
                              (type_length d) (type_modifier d) (fmt_code d)]) data)
  end.

Definition assign (row_descr : row_description) : option field_descriptions_store :=
  ds ← fpv_range (field_descriptions row_descr);
  assign_loop ds (FDS [] []).

(** From [begin()] to [end()] of the view. *)
Definition field_descriptions_view (s : field_descriptions_store) : option (list field_description) :=
  mapM (to_field_description (fds_data s)) (fds_descr s).

(** ** describe_into *)

Record describe_into := DescribeInto { di_obj : field_descriptions_store; di_err : extended_error }.

Definition describe_into_message (msg : any_request_message) (h : describe_into) : option describe_into :=
  match msg with
  | Arow_description d => obj ← assign d; Some (DescribeInto obj (di_err h))
  | Aparameter_description _ => Some h
  | Aerror_response e => Some (DescribeInto (di_obj h) (maybe_store_error e (di_err h)))
  | _ => None
  end.

#[global] Instance describe_into_handler : ResponseHandler describe_into := {
  setup req offset h := r ← check_setup_impl req offset rt_describe; Some (r, DescribeInto (FDS [] []) no_error);
  on_message msg _ h := describe_into_message msg h;
  result := di_err
}.

#[global] Instance describe_into_error_store : ErrorStore describe_into.
Proof.
  intros m i h h'. cbn [on_message describe_into_handler result]. destruct m; cbn [describe_into_message]; try done.
  - by intros [= <-].
  - destruct (assign v); [|done]. by intros [= <-].
  - by intros [= <-].
Qed.

(** ** compute_pos_map *)

Record pos_map_entry := PME { db_index : Z; pm_type_oid : Z; pm_fmt_code : format_code }.

Definition invalid_pos : Z := SIZE_MAX.

(** [std::find] in the name table, as an index. *)
Fixpoint find_name (name : bytes) (table : list bytes) : option nat :=
  match table with
  | [] => None
  | n :: table' => if bool_decide (n = name) then Some 0%nat else S <$> find_name name table'
  end.

(** The loop over the fields. *)
Fixpoint map_fields (fields : list field_description) (db : Z) (name_table : list bytes) (output : list pos_map_entry)
    : list pos_map_entry :=
  match fields with
  | [] => output
  | field :: fields' =>
      let output :=
        match find_name (fd_name field) name_table with
        | Some cpp_index => <[cpp_index := PME db (type_oid field) (fmt_code field)]> output
        | None => output
        end in
      map_fields fields' (wrap64 (db + 1)) name_table output
  end.

(** [output] has as many elements as the name table, or an assertion fails. *)
Definition compute_pos_map (meta : row_description) (name_table : list bytes) (output : list pos_map_entry)
    : option (error_code * list pos_map_entry) :=
  if (length name_table =? length output)%nat then
    let output := map (fun _ => PME invalid_pos 0 0) output in
    fields ← fpv_range (field_descriptions meta);
    let output := map_fields fields 0 name_table output in
    Some (if existsb (fun ent => db_index ent =? invalid_pos) output then Some (client field_not_found) else None,
          output)
  else None.

(** ** Lemmas *)

Lemma assign_loop_ok ds : forall s done_, Forall (fun d => Z.of_nat (length (fd_name d)) < SIZE_MAX) ds ->
  Forall2 (description_stored (fds_data s)) (fds_descr s) done_ ->
  exists s', assign_loop ds s = Some s' /\ Forall2 (description_stored (fds_data s')) (fds_descr s') (done_ ++ ds).
Proof.
  induction ds as [|d ds IH]; intros s done_ Hs Hd; [exists s; by rewrite app_nil_r|].
  apply Forall_cons_iff in Hs as [Hn Hs]. cbn [assign_loop].
  destruct (insert_data_stored (fds_data s) (fd_name d) Hn) as (p & -> & Hp). cbn [mbind option_bind].
  replace (done_ ++ d :: ds) with ((done_ ++ [d]) ++ ds) by by rewrite <- app_assoc.
  apply IH; [done|]. cbn [fds_data fds_descr]. apply Forall2_app; [|constructor; [by split|constructor]].
  eapply Forall2_impl; [exact Hd|]. intros; by apply description_stored_app.
Qed.

Lemma find_name_Some name table i : find_name name table = Some i -> table !! i = Some name.
Proof.
  revert i. induction table as [|n table IH]; intros i; [done|]. cbn [find_name]. case_bool_decide; [by intros [= <-]; subst|].
  destruct (find_name name table) as [j|]; [|done]. intros [= <-]. by apply IH.
Qed.

Lemma find_name_lookup name table i : NoDup table -> table !! i = Some name -> find_name name table = Some i.
Proof.
  intros Hnd. revert i. induction Hnd as [|n table Hn _ IH]; intros i; [done|]. destruct i as [|i]; cbn [find_name].
  - intros [= ->]. by rewrite bool_decide_true.
  - intros Hi. rewrite bool_decide_false by (intros ->; apply Hn; by eapply list_elem_of_lookup_2). by rewrite (IH i Hi).
Qed.

(** The last field with a name, if any, after an entry [init]. *)
Fixpoint last_named (name : bytes) (fields : list field_description) (db : Z) (init : pos_map_entry) : pos_map_entry :=
  match fields with
  | [] => init
  | f :: fields' =>
      last_named name fields' (wrap64 (db + 1))
        (if bool_decide (fd_name f = name) then PME db (type_oid f) (fmt_code f) else init)
  end.

Lemma map_fields_lookup fields table : NoDup table -> forall db output i name e, length output = length table ->
  table !! i = Some name -> output !! i = Some e ->
  map_fields fields db table output !! i = Some (last_named name fields db e).
Proof.
  intros Hnd. induction fields as [|f fields IH]; intros db output i name e Hl Ht Ho; [done|]. cbn [map_fields last_named].
  apply IH; [|done|].
  - destruct (find_name (fd_name f) table); [by rewrite length_insert|done].
  - pose proof (lookup_lt_Some _ _ _ Ho) as Hlt.
    case_bool_decide as Hn.
    + rewrite Hn, (find_name_lookup _ _ _ Hnd Ht). by apply list_lookup_insert_eq.
    + destruct (find_name (fd_name f) table) as [j|] eqn:Ej; [|done]. rewrite list_lookup_insert_ne; [done|].
      intros ->. apply find_name_Some in Ej. congruence.
Qed.

Lemma map_fields_length fields table : forall db output, length (map_fields fields db table output) = length output.
Proof.
  induction fields as [|f fields IH]; intros db output; [done|]. cbn [map_fields]. rewrite IH.
  destruct (find_name _ _); [by rewrite length_insert|done].
Qed.

Lemma last_named_none name fields : forall db init, Forall (fun f => fd_name f <> name) fields ->
  last_named name fields db init = init.
Proof.
  induction fields as [|f fields IH]; intros db init H; [done|]. apply Forall_cons_iff in H as [Hf H]. cbn [last_named].
  rewrite bool_decide_false by done. by apply IH.
Qed.

Lemma last_named_app name pre f post : forall db init, 0 <= db -> db + Z.of_nat (length pre) < SIZE_MAX ->
  fd_name f = name -> Forall (fun f => fd_name f <> name) post ->
  last_named name (pre ++ f :: post) db init = PME (db + Z.of_nat (length pre)) (type_oid f) (fmt_code f).
Proof.
  induction pre as [|p pre IH]; intros db init H0 Hlt Hf Hpost; cbn [app last_named].
  - rewrite bool_decide_true by done. rewrite last_named_none by done. f_equal. simpl. lia.
  - assert (wrap64 (db + 1) = db + 1) as -> by (unfold wrap64; apply Z.mod_small; unfold SIZE_MAX in Hlt; simpl in Hlt; lia).
    rewrite IH; [|lia|simpl in Hlt; lia|done|done]. f_equal. simpl. lia.
Qed.

(** The last field with a name. *)
Lemma last_occurrence name (fields : list field_description) :
  Forall (fun f => fd_name f <> name) fields \/
  exists pre f post, fields = pre ++ f :: post /\ fd_name f = name /\ Forall (fun f => fd_name f <> name) post.
Proof.
  induction fields as [|f fields [IH|(pre & g & post & -> & Hg & Hp)]]; [left; constructor| |].
  - destruct (decide (fd_name f = name)) as [Hf|Hf]; [|left; by constructor]. right. by exists [], f, fields.
  - right. by exists (f :: pre), g, post.
Qed.

Lemma compute_pos_map_spec meta table output fields :
  NoDup table -> length output = length table ->
  fpv_range (field_descriptions meta) = Some fields -> Z.of_nat (length fields) < SIZE_MAX ->
  exists ec out, compute_pos_map meta table output = Some (ec, out) /\
    ec = (if bool_decide (Forall (fun name => name ∈ map fd_name fields) table) then None
          else Some (client field_not_found)) /\
    forall i name pre f post, table !! i = Some name -> fields = pre ++ f :: post -> fd_name f = name ->
      Forall (fun f => fd_name f <> name) post ->
      out !! i = Some (PME (Z.of_nat (length pre)) (type_oid f) (fmt_code f)).
Proof.
  intros Hnd Hl Hf Hlen. unfold compute_pos_map. rewrite Hl, Nat.eqb_refl, Hf. cbn [mbind option_bind].
  set (init := map _ output). assert (length init = length table) as Hli by (unfold init; by rewrite length_map).
  assert (forall i name, table !! i = Some name ->
    map_fields fields 0 table init !! i = Some (last_named name fields 0 (PME invalid_pos 0 0))) as Hlook.
  { intros i name Hi. apply map_fields_lookup; [done|done|done|]. unfold init. rewrite list_lookup_fmap.
    apply lookup_lt_Some in Hi. rewrite <- Hl in Hi. apply lookup_lt_is_Some in Hi as [x ->]. done. }
  assert (forall i name pre f post, table !! i = Some name -> fields = pre ++ f :: post -> fd_name f = name ->
      Forall (fun f => fd_name f <> name) post ->
      map_fields fields 0 table init !! i = Some (PME (Z.of_nat (length pre)) (type_oid f) (fmt_code f))) as Hlast.
  { intros i name pre f post Hi -> Hn Hp. rewrite (Hlook i name Hi), last_named_app; [done|lia| |done|done].
    rewrite length_app in Hlen. lia. }
  eexists _, _. split; [done|]. split; [|exact Hlast]. case_bool_decide as Hall.
  - destruct (existsb _ _) eqn:Ex; [|done]. exfalso. apply existsb_exists in Ex as (e & Hin & He).
    apply list_elem_of_In, list_elem_of_lookup in Hin as [i Hi].
    pose proof (lookup_lt_Some _ _ _ Hi) as Hlt. rewrite map_fields_length, Hli in Hlt.
    apply lookup_lt_is_Some in Hlt as [name Hname]. rewrite Forall_forall in Hall.
    destruct (last_occurrence name fields) as [Hnone|(pre & f & post & Ef & Hn & Hp)].
    + pose proof (Hall name (list_elem_of_lookup_2 _ _ _ Hname)) as Hin. apply list_elem_of_fmap in Hin as (f & Ef & Hin).
      rewrite Forall_forall in Hnone. by apply (Hnone f Hin).
    + rewrite (Hlast i name pre f post Hname Ef Hn Hp) in Hi. injection Hi as <-. cbn [db_index] in He.
      unfold invalid_pos in He. subst fields. rewrite length_app in Hlen. lia.
  - assert (existsb (fun ent => db_index ent =? invalid_pos) (map_fields fields 0 table init) = true) as ->; [|done].
    apply not_Forall_Exists in Hall; [|intros name; apply _]. apply Exists_exists in Hall as (name & Hin & Hno).
    apply list_elem_of_lookup in Hin as [i Hi]. apply existsb_exists. exists (PME invalid_pos 0 0). split; [|apply Z.eqb_refl].
    pose proof (Hlook i name Hi) as E. rewrite last_named_none in E.
    + apply list_elem_of_In. by eapply list_elem_of_lookup_2.
    + apply Forall_forall. intros f Hf' Hn. apply Hno. apply list_elem_of_fmap. by exists f.
Qed.

(** ** Properties *)

(** [compute_pos_map], for a name table without repetitions: every name that
    the server's row has is mapped to the last field of that name, with its
    position, type and format, and the result is [field_not_found] exactly when
    some name has no field. *)
Theorem compute_pos_map_exact meta table output fields :
  NoDup table -> length output = length table ->
  fpv_range (field_descriptions meta) = Some fields -> Z.of_nat (length fields) < SIZE_MAX ->
  exists ec out, compute_pos_map meta table output = Some (ec, out) /\
    ec = (if bool_decide (Forall (fun name => name ∈ map fd_name fields) table) then None
          else Some (client field_not_found)) /\
    forall i name pre f post, table !! i = Some name -> fields = pre ++ f :: post -> fd_name f = name ->
      Forall (fun f => fd_name f <> name) post ->
      out !! i = Some (PME (Z.of_nat (length pre)) (type_oid f) (fmt_code f)).
Proof. apply compute_pos_map_spec. Qed.

Lemma compute_pos_map_exact_witness :
  exists ec out,
    compute_pos_map sample_description [str "n"; str "id"] [PME 0 0 0; PME 0 0 0] = Some (ec, out) /\
    ec = None /\ out !! 0%nat = Some (PME 1 23 0).
Proof.
  destruct (compute_pos_map_exact sample_description [str "n"; str "id"] [PME 0 0 0; PME 0 0 0]
    [sample_column (str "id"); sample_column (str "n")]) as (ec & out & E & Hec & Hmap).
  - repeat constructor; vm_compute; set_solver.
  - reflexivity.
  - vm_compute. reflexivity.
  - vm_compute. reflexivity.
  - exists ec, out. split; [exact E|]. split; [rewrite Hec; vm_compute; reflexivity|].
    exact (Hmap 0%nat (str "n") [sample_column (str "id")] (sample_column (str "n")) [] eq_refl eq_refl eq_refl (List.Forall_nil _)).
Defined.

(** A description of a portal that [describe_into] receives replaces whatever
    it held: the view over the object gives back every field description the
    server sent. *)
Theorem describe_into_stores d ds i (h : describe_into) :
  fpv_range (field_descriptions d) = Some ds ->
  Forall (fun d => Z.of_nat (length (fd_name d)) < SIZE_MAX) ds ->
  exists h', on_message (Arow_description d) i h = Some h' /\
    field_descriptions_view (di_obj h') = Some ds /\ result h' = result h.
Proof.
  intros Hr Hs. cbn [on_message describe_into_handler describe_into_message result]. unfold assign. rewrite Hr.
  cbn [mbind option_bind]. destruct (assign_loop_ok ds (FDS [] []) [] Hs) as (s & -> & Hd); [constructor|].
  cbn [mbind option_bind]. eexists. split; [done|]. split; [|done]. cbn [di_obj]. unfold field_descriptions_view.
  apply (mapM_stored _ (description_stored (fds_data s))); [by apply to_field_description_stored|done].
Qed.

Lemma describe_into_stores_witness :
  fpv_range (field_descriptions sample_description) = Some [sample_column (str "id"); sample_column (str "n")] /\
    exists h', on_message (Arow_description sample_description) 0 (DescribeInto (FDS [] [1; 2]) no_error) = Some h' /\
    field_descriptions_view (di_obj h') = Some [sample_column (str "id"); sample_column (str "n")] /\
    result h' = no_error.
Proof.
  split; [vm_compute; reflexivity|].
  apply (describe_into_stores sample_description _ 0 (DescribeInto (FDS [] [1; 2]) no_error)); [vm_compute; reflexivity|].
  repeat constructor.
Defined.
