(* ===== verification/ScramMessages.v ===== *)
(** * SCRAM-SHA-256 messages ([src/src/nativepg_internal/scram_sha256_messages.hpp])

    The two messages the client sends, as serializers over
    [serialization_context], and the two it receives, as parsers.  A pointer into
    the input is what follows it.  [None] is a read of the base64 table out of
    range; [char_signed] is the signedness of [char], as in [Base64]. *)

From stdpp Require Import base list option sets.
From Stdlib Require Import ZArith Lia.
From S2P Require Import Prelude Errors ParseMessage BackendMessages FrontendMessages FrontendSpec Base64 CommandTag.

#[local] Open Scope Z_scope.

(** ** client_first_message *)

Record client_first_message := { cfm_mechanism : bytes; cfm_nonce : bytes }.

(** The error, the vector, and the range of the vector that is
    client-first-message-bare. *)
Definition serialize_client_first (msg : client_first_message) (to : bytes) : error_code * bytes * (nat * nat) :=
  let ctx := add_header (ch "p") (make_sc to) in
  let ctx := add_string (cfm_mechanism msg) ctx in
  let length_offset := length (buffer_ ctx) in
  let ctx := add_bytes (zeros 4) ctx in
  let ctx := add_bytes (str "n,,") ctx in
  let bare_start_offset := length (buffer_ ctx) in
  let ctx := add_bytes (str "n=,r=") ctx in
  let ctx := add_bytes (cfm_nonce msg) ctx in
  let bare_end_offset := length (buffer_ ctx) in
  let data_length := wrap64 (Z.of_nat (length (buffer_ ctx)) - Z.of_nat length_offset - 4) in
  let ctx :=
    if data_length >? INT32_MAX then sc_add_error (Some (client value_too_big)) ctx
    else SC (write_at length_offset (be_encode 4 data_length) (buffer_ ctx)) (header_offset_ ctx) (err_ ctx) in
  let '(ec, ctx) := finalize_message ctx in
  (ec, buffer_ ctx, (bare_start_offset, bare_end_offset)).

(** ** server_first_message *)

Record server_first_message := { sf_nonce : bytes; sf_salt : bytes; sf_iteration_count : Z }.

Definition scram_is_printable (c : Z) : bool := ((33 <=? c) && (c <=? 43)) || ((45 <=? c) && (c <=? 126)).

(** [if (p == last || *p++ != c) return invalid_scram_message;] *)
Definition expect (c : Z) (p : bytes) : E bytes :=
  match p with
  | c' :: p' => if c' =? c then Some (inr p') else fail invalid_scram_message
  | [] => fail invalid_scram_message
  end.

(** The loop over the nonce: the nonce and what follows its comma. *)
Fixpoint scan_nonce (p : bytes) : E (bytes * bytes) :=
  match p with
  | [] => fail invalid_scram_message
  | c :: p' =>
      if c =? ch "," then Some (inr ([], p'))
      else if negb (scram_is_printable c) then fail invalid_scram_message
      else let! (nonce, r) := scan_nonce p' in Some (inr (c :: nonce, r))
  end.

(** The loop over the salt. *)
Fixpoint scan_salt (p : bytes) : E (bytes * bytes) :=
  match p with
  | [] => fail invalid_scram_message
  | c :: p' =>
      if c =? ch "," then Some (inr ([], p'))
      else let! (salt, r) := scan_salt p' in Some (inr (c :: salt, r))
  end.

(** [base64_decode] into an empty vector. *)
Definition decode_value (char_signed : bool) (text : bytes) : E bytes :=
  '(ec, out) ← base64_decode char_signed text [];
  Some (match ec with Some e => inl e | None => inr out end).

(** [std::find(p, last, ',')]: what comes before the comma. *)
Fixpoint before_comma (p : bytes) : bytes :=
  match p with
  | [] => []
  | c :: p' => if c =? ch "," then [] else c :: before_comma p'
  end.

(** [std::from_chars] for [std::uint32_t], which must use up the input. *)
Definition parse_iteration_count (p : bytes) : E Z :=
  let '(ds, r) := digits_prefix p in
  match ds, r with
  | [], _ => fail invalid_scram_message
  | _, [] => if digits_value ds <=? 4294967295 then Some (inr (digits_value ds)) else fail invalid_scram_message
  | _, _ => fail invalid_scram_message
  end.

Definition parse_server_first_rest (char_signed : bool) (p : bytes) : E server_first_message :=
  let! p := expect (ch "r") p in
  let! p := expect (ch "=") p in
  let! (nonce, p) := scan_nonce p in
  let! p := expect (ch "s") p in
  let! p := expect (ch "=") p in
  let! (salt_text, p) := scan_salt p in
  let! salt := decode_value char_signed salt_text in
  let! p := expect (ch "i") p in
  let! p := expect (ch "=") p in
  let! iteration_count := parse_iteration_count (before_comma p) in
  Some (inr {| sf_nonce := nonce; sf_salt := salt; sf_iteration_count := iteration_count |}).

Definition parse_server_first (char_signed : bool) (data : bytes) : E server_first_message :=
  match data with
  | c :: p =>
      if c =? ch "m" then
        match p with
        | c' :: _ => if negb (c' =? ch ",") then fail invalid_scram_message
                     else fail mandatory_scram_extension_not_supported
        | [] => fail invalid_scram_message
        end
      else parse_server_first_rest char_signed data
  | [] => parse_server_first_rest char_signed data
  end.

(** ** client_final_message_serializer *)

(** The context and the client-final-message-without-proof. *)
Definition serialize_without_proof (nonce : bytes) (ctx : serialization_context)
    : error_code * serialization_context * bytes :=
  let ctx := add_header (ch "p") ctx in
  let offset_first := length (buffer_ ctx) in
  let ctx := add_bytes (str "c=biws,r=") ctx in
  let ctx := add_bytes nonce ctx in
  match err_ ctx with
  | Some e => (Some e, ctx, [])
  | None => (None, ctx, drop offset_first (buffer_ ctx))
  end.

Definition serialize_proof (proof : bytes) (ctx : serialization_context) : error_code * serialization_context :=
  let ctx := add_bytes (str ",p=") ctx in
  let ctx := SC (base64_encode proof (buffer_ ctx)) (header_offset_ ctx) (err_ ctx) in
  finalize_message ctx.

(** ** server_final_message *)

(** The server signature. *)
Definition parse_server_final (char_signed : bool) (data : bytes) : E bytes :=
  let! p := expect (ch "v") data in
  let! p := expect (ch "=") p in
  decode_value char_signed (before_comma p).

(** ** The grammar *)

Definition no_comma (s : bytes) : Prop := ch "," ∉ s.

(** [nothing], or a comma and anything. *)
Definition ignored_extensions (s : bytes) : Prop := s = [] \/ exists r, s = ch "," :: r.

(** server-first-message, as far as the client reads it. *)
Inductive server_first_text : bytes -> server_first_message -> Prop :=
  | server_first_text_intro nonce salt_text salt digits ext :
      Forall (fun c => scram_is_printable c = true) nonce -> base64_text salt_text salt ->
      all_digits digits -> digits <> [] -> digits_value digits <= 4294967295 -> ignored_extensions ext ->
      server_first_text
        (str "r=" ++ nonce ++ str ",s=" ++ salt_text ++ str ",i=" ++ digits ++ ext)
        {| sf_nonce := nonce; sf_salt := salt; sf_iteration_count := digits_value digits |}.

(** server-final-message with a verifier. *)
Definition server_final_text (data signature : bytes) : Prop :=
  exists text ext, data = str "v=" ++ text ++ ext /\ base64_text text signature /\ ignored_extensions ext.

(** ** Lemmas *)

Lemma expect_inr c p p' : expect c p = Some (inr p') <-> p = c :: p'.
Proof.
  destruct p as [|c' p]; simpl; [done|]. destruct (Z.eqb_spec c' c) as [->|]; [naive_solver|].
  split; [done|]. intros [= <- _]. done.
Qed.

Lemma comma_not_printable : scram_is_printable (ch ",") = false.
Proof. done. Qed.

Lemma scan_nonce_inr p n r : scan_nonce p = Some (inr (n, r)) <->
  p = n ++ ch "," :: r /\ Forall (fun c => scram_is_printable c = true) n.
Proof.
  revert n r. induction p as [|c p IH]; intros n r; cbn [scan_nonce].
  - split; [done|]. intros [Hp _]. by destruct n.
  - destruct (Z.eqb_spec c (ch ",")) as [->|Hc].
    + split; [intros [= <- <-]; by split; [|constructor]|]. intros [Hp Hn].
      destruct n as [|c n]; [by injection Hp as ->|]. injection Hp as <- _.
      apply Forall_cons_iff in Hn as [Hn _]. by rewrite comma_not_printable in Hn.
    + destruct (scram_is_printable c) eqn:E; cbn [negb].
      * rewrite ebind_inr. split.
        -- intros ([n' r'] & [-> Hn]%IH & [= <- <-]). split; [done|by constructor].
        -- intros [Hp Hn]. destruct n as [|c' n]; [by injection Hp|]. injection Hp as <- Hp.
           apply Forall_cons_iff in Hn as [_ Hn]. exists (n, r). split; [by apply IH|done].
      * split; [done|]. intros [Hp Hn]. destruct n as [|c' n]; [by injection Hp|]. injection Hp as <- Hp.
        apply Forall_cons_iff in Hn as [Hn _]. congruence.
Qed.

Lemma scan_salt_inr p s r : scan_salt p = Some (inr (s, r)) <-> p = s ++ ch "," :: r /\ no_comma s.
Proof.
  unfold no_comma. revert s r. induction p as [|c p IH]; intros s r; cbn [scan_salt].
  - split; [done|]. intros [Hp _]. by destruct s.
  - destruct (Z.eqb_spec c (ch ",")) as [->|Hc].
    + split; [intros [= <- <-]; split; [done|apply not_elem_of_nil]|]. intros [Hp Hn].
      destruct s as [|c s]; [by injection Hp as ->|]. injection Hp as <- _. destruct Hn. left.
    + rewrite ebind_inr. split.
      * intros ([s' r'] & [-> Hs]%IH & [= <- <-]). split; [done|]. by apply not_elem_of_cons.
      * intros [Hp Hs]. destruct s as [|c' s]; [by injection Hp|]. injection Hp as <- Hp.
        apply not_elem_of_cons in Hs as [_ Hs]. exists (s, r). split; [by apply IH|done].
Qed.

Lemma before_comma_spec p : exists ext, p = before_comma p ++ ext /\ no_comma (before_comma p) /\ ignored_extensions ext.
Proof.
  unfold no_comma, ignored_extensions. induction p as [|c p (ext & E & Hn & He)].
  - exists []. split_and!; [done|apply not_elem_of_nil|by left].
  - cbn [before_comma]. destruct (Z.eqb_spec c (ch ",")) as [->|Hc].
    + exists (ch "," :: p). split_and!; [done|apply not_elem_of_nil|by right; eexists].
    + exists ext. split_and!; [cbn [app]; by rewrite <- E|by apply not_elem_of_cons|done].
Qed.

Lemma before_comma_app s ext : no_comma s -> ignored_extensions ext -> before_comma (s ++ ext) = s.
Proof.
  unfold no_comma. intros Hs He. induction s as [|c s IH]; cbn [app before_comma].
  - by destruct He as [->|[r ->]].
  - apply not_elem_of_cons in Hs as [Hc Hs]. destruct (Z.eqb_spec c (ch ",")); [congruence|]. by rewrite IH.
Qed.

Lemma parse_iteration_count_inr p n : parse_iteration_count p = Some (inr n) <->
  all_digits p /\ p <> [] /\ digits_value p <= 4294967295 /\ n = digits_value p.
Proof.
  unfold parse_iteration_count. destruct (digits_prefix_spec p) as (ds & r & -> & Hd & Hr).
  rewrite digits_prefix_app by done. split.
  - destruct ds as [|d ds]; [done|]. destruct r; [|done]. rewrite app_nil_r.
    destruct (Z.leb_spec (digits_value (d :: ds)) 4294967295); [|done]. by intros [= <-].
  - intros (Had & Hne & Hv & ->). assert (r = []) as ->.
    { destruct r as [|c r]; [done|]. specialize (Hr c r eq_refl). apply Forall_app in Had as [_ [Hc _]%Forall_cons_iff]. congruence. }
    rewrite app_nil_r in *. destruct ds as [|d ds]; [done|].
    destruct (Z.leb_spec (digits_value (d :: ds)) 4294967295); [done|lia].
Qed.

Lemma decode_value_inr cs text v : Forall (indexable cs) text ->
  decode_value cs text = Some (inr v) <-> base64_text text v.
Proof.
  intros HI. unfold decode_value. split.
  - destruct (base64_decode_answers cs text [] HI) as [[d Hd]|[junk ->]]; [|done].
    rewrite (base64_decode_text cs text d [] Hd). intros [= <-]. done.
  - intros Ht. by rewrite (base64_decode_text cs text v [] Ht).
Qed.

Lemma digit_printable c v : digit c v -> scram_is_printable c = true /\ 0 <= c < 128.
Proof.
  assert (forallb (fun v => scram_is_printable (tab v) && (0 <=? tab v) && (tab v <? 128)) (map Z.of_nat (seq 0 64)) = true)
    as H by (vm_compute; reflexivity).
  intros [Hv ->]. pose proof (byte_cases _ 64 H v Hv) as Hc. simpl in Hc.
  apply andb_prop in Hc as [[? ?]%andb_prop ?]. split; [done|lia].
Qed.

(** Base64 is printable ASCII without commas. *)
Lemma text_printable s d : base64_text s d -> Forall (fun c => scram_is_printable c = true /\ 0 <= c < 128) s.
Proof.
  assert (scram_is_printable (ch "=") = true /\ 0 <= ch "=" < 128) by (by vm_compute).
  induction 1; repeat constructor; try done; by eapply digit_printable.
Qed.

Lemma printable_no_comma s : Forall (fun c => scram_is_printable c = true) s -> no_comma s.
Proof. intros Hs Hin. rewrite Forall_forall in Hs. specialize (Hs _ Hin). by rewrite comma_not_printable in Hs. Qed.

Lemma text_no_comma s d : base64_text s d -> no_comma s.
Proof. intros Ht%text_printable. apply printable_no_comma. eapply Forall_impl; [exact Ht|]. by intros ? []. Qed.

Lemma text_indexable cs s d : base64_text s d -> Forall (indexable cs) s.
Proof. intros Ht%text_printable. eapply Forall_impl; [exact Ht|]. intros c [_ ?]. split; [unfold is_byte|]; lia. Qed.

Lemma digits_no_comma ds : all_digits ds -> no_comma ds.
Proof. intros Hd Hin. unfold all_digits in Hd. rewrite Forall_forall in Hd. by specialize (Hd _ Hin). Qed.

Lemma ebind_total {A B} (m : E A) (k : A -> E B) : (exists r, m = Some r) ->
  (forall a, m = Some (inr a) -> exists r, k a = Some r) -> exists r, ebind m k = Some r.
Proof. intros [[e|a] ->] Hk; [by eexists|by apply Hk]. Qed.

Lemma expect_total c p : exists r, expect c p = Some r.
Proof. destruct p as [|c' p]; simpl; [by eexists|]. destruct (c' =? c); by eexists. Qed.

Lemma scan_nonce_total p : exists r, scan_nonce p = Some r.
Proof.
  induction p as [|c p IH]; cbn [scan_nonce]; [by eexists|]. destruct (c =? ch ","); [by eexists|].
  destruct (scram_is_printable c); cbn [negb]; [|by eexists]. apply ebind_total; [done|]. intros []; by eexists.
Qed.

Lemma scan_salt_total p : exists r, scan_salt p = Some r.
Proof.
  induction p as [|c p IH]; cbn [scan_salt]; [by eexists|]. destruct (c =? ch ","); [by eexists|].
  apply ebind_total; [done|]. intros []; by eexists.
Qed.

Lemma parse_iteration_count_total p : exists r, parse_iteration_count p = Some r.
Proof.
  unfold parse_iteration_count. destruct (digits_prefix p) as [[|d ds] [|c r]]; try by eexists.
  destruct (digits_value (d :: ds) <=? 4294967295); by eexists.
Qed.

Lemma decode_value_total cs text : Forall (indexable cs) text -> exists r, decode_value cs text = Some r.
Proof.
  intros HI. unfold decode_value. destruct (base64_decode_answers cs text [] HI) as [[d Hd]|[junk ->]]; [|by eexists].
  rewrite (base64_decode_text cs text d [] Hd). by eexists.
Qed.

Lemma parse_server_first_text cs data m : server_first_text data m -> parse_server_first cs data = Some (inr m).
Proof.
  destruct 1 as [nonce text salt ds ext Hn Ht Hd Hne Hv He].
  change (parse_server_first cs (str "r=" ++ nonce ++ str ",s=" ++ text ++ str ",i=" ++ ds ++ ext)) with
    (parse_server_first_rest cs (str "r=" ++ nonce ++ str ",s=" ++ text ++ str ",i=" ++ ds ++ ext)).
  unfold parse_server_first_rest.
  do 2 (apply ebind_inr; eexists; split; [by apply expect_inr|]).
  apply ebind_inr. eexists (_, _). split; [by apply scan_nonce_inr|].
  do 2 (apply ebind_inr; eexists; split; [by apply expect_inr|]).
  apply ebind_inr. eexists (_, _). split; [apply scan_salt_inr; split; [done|by eapply text_no_comma]|].
  apply ebind_inr. eexists. split; [apply decode_value_inr; [by eapply text_indexable|done]|].
  do 2 (apply ebind_inr; eexists; split; [by apply expect_inr|]).
  apply ebind_inr. eexists. split; [|done]. rewrite before_comma_app; [|by apply digits_no_comma|done].
  by apply parse_iteration_count_inr.
Qed.

Lemma parse_server_first_rest_inr cs data m : Forall (indexable cs) data ->
  parse_server_first_rest cs data = Some (inr m) -> server_first_text data m.
Proof.
  intros HI H. unfold parse_server_first_rest in H.
  apply ebind_inr in H as (p1 & ->%expect_inr & H). apply ebind_inr in H as (p2 & ->%expect_inr & H).
  apply ebind_inr in H as ([nonce p3] & [-> Hn]%scan_nonce_inr & H).
  apply ebind_inr in H as (p4 & ->%expect_inr & H). apply ebind_inr in H as (p5 & ->%expect_inr & H).
  apply ebind_inr in H as ([text p6] & [-> Ht]%scan_salt_inr & H).
  apply ebind_inr in H as (salt & Hs & H). apply ebind_inr in H as (p7 & ->%expect_inr & H).
  apply ebind_inr in H as (p8 & ->%expect_inr & H). apply ebind_inr in H as (n & Hc & [= <-]).
  apply parse_iteration_count_inr in Hc as (Hd & Hne & Hv & ->).
  destruct (before_comma_spec p8) as (ext & Ep & _ & He).
  apply decode_value_inr in Hs; [|rewrite !Forall_cons_iff, Forall_app, !Forall_cons_iff, Forall_app in HI; naive_solver].
  rewrite Ep at 1. exact (server_first_text_intro nonce text salt _ ext Hn Hs Hd Hne Hv He).
Qed.

Lemma parse_server_first_total cs data : Forall (indexable cs) data -> exists r, parse_server_first cs data = Some r.
Proof.
  intros HI. assert (exists r, parse_server_first_rest cs data = Some r) as Hrest.
  { unfold parse_server_first_rest.
    apply ebind_total; [apply expect_total|]. intros p1 ->%expect_inr.
    apply ebind_total; [apply expect_total|]. intros p2 ->%expect_inr.
    apply ebind_total; [apply scan_nonce_total|]. intros [nonce p3] [-> _]%scan_nonce_inr.
    apply ebind_total; [apply expect_total|]. intros p4 ->%expect_inr.
    apply ebind_total; [apply expect_total|]. intros p5 ->%expect_inr.
    apply ebind_total; [apply scan_salt_total|]. intros [text p6] [-> _]%scan_salt_inr.
    apply ebind_total.
    { apply decode_value_total. rewrite !Forall_cons_iff, Forall_app, !Forall_cons_iff, Forall_app in HI. naive_solver. }
    intros salt _. apply ebind_total; [apply expect_total|]. intros p7 _.
    apply ebind_total; [apply expect_total|]. intros p8 _.
    apply ebind_total; [apply parse_iteration_count_total|]. intros n _. by eexists. }
  unfold parse_server_first. destruct data as [|c p]; [done|]. destruct (c =? ch "m"); [|done].
  destruct p as [|c' p]; [by eexists|]. destruct (c' =? ch ","); by eexists.
Qed.

Lemma parse_server_final_text cs data sig : server_final_text data sig -> parse_server_final cs data = Some (inr sig).
Proof.
  intros (text & ext & -> & Ht & He). unfold parse_server_final.
  do 2 (apply ebind_inr; eexists; split; [by apply expect_inr|]).
  rewrite before_comma_app; [|by eapply text_no_comma|done].
  apply decode_value_inr; [by eapply text_indexable|done].
Qed.

Lemma parse_server_final_inr cs data sig : Forall (indexable cs) data ->
  parse_server_final cs data = Some (inr sig) -> server_final_text data sig.
Proof.
  intros HI H. unfold parse_server_final in H.
  apply ebind_inr in H as (p1 & ->%expect_inr & H). apply ebind_inr in H as (p2 & ->%expect_inr & H).
  destruct (before_comma_spec p2) as (ext & Ep & _ & He). exists (before_comma p2), ext.
  split; [by rewrite Ep at 1|]. split; [|done]. apply decode_value_inr in H; [done|].
  rewrite Ep, !Forall_cons_iff, Forall_app in HI. naive_solver.
Qed.

(** ** What the serializers write *)

Definition client_first_data (nonce : bytes) : bytes := str "n,,n=,r=" ++ nonce.

Definition client_first_body (mechanism nonce : bytes) : bytes :=
  cstr mechanism ++ be_encode 4 (Z.of_nat (length (client_first_data nonce))) ++ client_first_data nonce.

(** Filling in the length of the data of a message under composition. *)
Lemma write_length_composing to t pre data size : 
  write_at (length (buffer_ (composing to t pre))) (be_encode 4 size) (buffer_ (composing to t (pre ++ zeros 4 ++ data))) =
    buffer_ (composing to t (pre ++ be_encode 4 size ++ data)).
Proof.
  unfold composing. cbn [buffer_].
  replace (to ++ t :: zeros 4 ++ pre ++ zeros 4 ++ data) with ((to ++ t :: zeros 4 ++ pre) ++ zeros 4 ++ data)
    by by rewrite <- app_assoc.
  rewrite write_at_app by (by rewrite length_be_encode). by rewrite <- !app_assoc.
Qed.

Lemma length_composing to t pre : length (buffer_ (composing to t pre)) = (length to + 5 + length pre)%nat.
Proof. unfold composing. cbn [buffer_]. rewrite length_app. simpl. lia. Qed.

Lemma serialize_client_first_ok mechanism nonce to : vec_ok to ->
  Z.of_nat (length (client_first_body mechanism nonce)) + 4 <= INT32_MAX ->
  serialize_client_first {| cfm_mechanism := mechanism; cfm_nonce := nonce |} to =
    (None, to ++ frame (ch "p") (client_first_body mechanism nonce),
     (length to + 5 + length (cstr mechanism) + 7, length to + 5 + length (cstr mechanism) + 12 + length nonce)%nat).
Proof.
  intros Hto Hlen. unfold serialize_client_first. cbn [cfm_mechanism cfm_nonce]. autorewrite with compose.
  rewrite app_nil_l.
  set (m := cstr mechanism) in *. set (c1 := composing to (ch "p") m).
  set (data := str "n,," ++ str "n=,r=" ++ nonce).
  assert (client_first_data nonce = data) as Ed by done.
  replace ((((m ++ zeros 4) ++ str "n,,") ++ str "n=,r=") ++ nonce) with (m ++ zeros 4 ++ data)
    by (unfold data; by rewrite <- !app_assoc).
  assert (length (client_first_body mechanism nonce) = length m + (4 + length data))%nat as Lb.
  { unfold client_first_body. rewrite Ed. rewrite !length_app, length_be_encode. done. }
  rewrite Lb in Hlen.
  rewrite !length_composing, !length_app. change (length (zeros 4)) with 4%nat. change (length (str "n,,")) with 3%nat.
  assert (wrap64 (Z.of_nat (length to + 5 + (length m + (4 + length data))) - Z.of_nat (length (buffer_ c1)) - 4)
    = Z.of_nat (length data)) as -> by (unfold c1; rewrite length_composing; rewrite wrap64_small; [lia|unfold INT32_MAX, SIZE_MAX in *; lia]).
  destruct (Z.gtb_spec (Z.of_nat (length data)) INT32_MAX); [lia|].
  unfold c1. rewrite write_length_composing.
  change (SC (buffer_ (composing to (ch "p") (m ++ be_encode 4 (Z.of_nat (length data)) ++ data)))
    (header_offset_ (composing to (ch "p") (m ++ zeros 4 ++ data))) (err_ (composing to (ch "p") (m ++ zeros 4 ++ data))))
    with (composing to (ch "p") (m ++ be_encode 4 (Z.of_nat (length data)) ++ data)).
  pose proof (finalized_composing to (ch "p") (m ++ be_encode 4 (Z.of_nat (length data)) ++ data) Hto) as Hfin.
  rewrite !length_app, length_be_encode in Hfin. specialize (Hfin ltac:(lia)). unfold finalized in Hfin.
  destruct (finalize_message _) as [ec ctx]. injection Hfin as -> ->.
  unfold client_first_body. rewrite Ed. fold m. f_equal. f_equal; [lia|].
  unfold data. rewrite !length_app. change (length (str "n=,r=")) with 5%nat. change (length (str "n,,")) with 3%nat. lia.
Qed.

Definition client_final_bare (nonce : bytes) : bytes := str "c=biws,r=" ++ nonce.

(** The channel binding data of the client-final-message is the gs2-header. *)
Lemma channel_binding : base64_text (str "biws") (str "n,,").
Proof. exact (encode_text (str "n,,") ltac:(repeat constructor; vm_compute; intuition congruence)). Qed.

Lemma serialize_final_ok nonce proof : Forall is_byte proof ->
  Z.of_nat (length (client_final_bare nonce ++ str ",p=" ++ encode proof)) + 4 <= INT32_MAX ->
  exists ctx, serialize_without_proof nonce (make_sc []) = (None, ctx, client_final_bare nonce) /\
    exists ctx', serialize_proof proof ctx = (None, ctx') /\
      buffer_ ctx' = frame (ch "p") (client_final_bare nonce ++ str ",p=" ++ encode proof).
Proof.
  intros Hp Hlen. unfold serialize_without_proof. autorewrite with compose. rewrite app_nil_l.
  eexists. split; [done|]. unfold serialize_proof. autorewrite with compose.
  assert (forall b, base64_encode proof b = b ++ encode proof) as Henc.
  { intros b. unfold base64_encode. pose proof (write_at_app b (replicate (encoded_size proof) 0) [] (encode proof)) as H.
    rewrite !app_nil_r in H. apply H. by rewrite length_replicate, length_encode. }
  rewrite Henc.
  change (SC (buffer_ (composing [] (ch "p") ((str "c=biws,r=" ++ nonce) ++ str ",p=")) ++ encode proof)
    (header_offset_ (composing [] (ch "p") ((str "c=biws,r=" ++ nonce) ++ str ",p=")))
    (err_ (composing [] (ch "p") ((str "c=biws,r=" ++ nonce) ++ str ",p="))))
    with (add_bytes (encode proof) (composing [] (ch "p") ((str "c=biws,r=" ++ nonce) ++ str ",p="))).
  autorewrite with compose. rewrite <- app_assoc. change (str "c=biws,r=" ++ nonce) with (client_final_bare nonce).
  pose proof (finalized_composing [] (ch "p") (client_final_bare nonce ++ str ",p=" ++ encode proof)) as Hfin.
  specialize (Hfin ltac:(by vm_compute) Hlen). unfold finalized in Hfin.
  destruct (finalize_message _) as [ec ctx]. injection Hfin as -> Hb. exists ctx. split; [done|]. by rewrite Hb.
Qed.

(** ** Properties *)

(** The parser of the server-first-message accepts, where the base64 table is
    not indexed out of range, exactly the messages of the grammar, and returns
    their nonce, decoded salt and iteration count; on every other input it
    returns an error. *)
Theorem server_first_exact cs data : Forall (indexable cs) data ->
  (forall m, parse_server_first cs data = Some (inr m) <-> server_first_text data m) /\
  ((forall m, ~ server_first_text data m) -> exists e, parse_server_first cs data = Some (inl e)).
Proof.
  intros HI. assert (forall m, parse_server_first cs data = Some (inr m) <-> server_first_text data m) as Hiff.
  { intros m. split; [|apply parse_server_first_text]. unfold parse_server_first.
    destruct data as [|c p]; [by apply parse_server_first_rest_inr|].
    destruct (c =? ch "m"); [|by apply parse_server_first_rest_inr].
    destruct p as [|c' p]; [done|]. by destruct (c' =? ch ","). }
  split; [done|]. intros Hno. destruct (parse_server_first_total cs data HI) as [[e|m] E]; [by eexists|].
  apply Hiff in E. by destruct (Hno m).
Qed.

Lemma server_first_exact_witness :
  server_first_text (str "r=abc,s=aGk=,i=4096,x=1")
    {| sf_nonce := str "abc"; sf_salt := str "hi"; sf_iteration_count := 4096 |}.
Proof.
  apply (server_first_exact true); [|vm_compute; reflexivity].
  repeat constructor; vm_compute; intuition congruence.
Defined.

(** A message that starts with a mandatory extension, [m=] in the grammar of
    the SCRAM specification, is reported as malformed: the parser looks for a comma where the
    equals sign is, so [mandatory_scram_extension_not_supported] is only reported
    for messages that are malformed. *)
Theorem mandatory_extension_misreported cs rest :
  parse_server_first cs (str "m=" ++ rest) = Some (inl (client invalid_scram_message)) /\
  parse_server_first cs (str "m," ++ rest) = Some (inl (client mandatory_scram_extension_not_supported)).
Proof. done. Qed.
