(* ===== verification/Scram.v ===== *)
(** * The SCRAM-SHA-256 exchange ([src/src/nativepg_internal/scram_sha256_crypt.hpp],
    [src/src/scram_sha256_fsm.cpp], [include/nativepg/protocol/detail/scram_sha256_fsm.hpp])

    [OpenSSL] holds the primitives of that library the code calls: HMAC and
    SHA-256, which may fail.  [Digests] is a pair of total functions, and [works]
    says that OpenSSL computes them; the theorems that need the primitives to
    succeed assume it.  [char_signed] is as in [Base64]. *)

From stdpp Require Import base list option sets.
From Stdlib Require Import ZArith Lia.
From S2P Require Import Prelude Errors ParseMessage FrontendMessages FrontendSpec Base64 CommandTag ScramMessages.

#[local] Open Scope Z_scope.

(** ** OpenSSL *)

(** [evp_mac_ctx]: whether the HMAC context can be created and configured;
    [evp_hmac key data]: [EVP_MAC_init], [EVP_MAC_update] and [EVP_MAC_final];
    [evp_sha256]: the calls of [compute_sha256]. *)
Class OpenSSL := {
  evp_mac_ctx : error_code;
  evp_hmac : bytes -> bytes -> error + bytes;
  evp_sha256 : bytes -> error + bytes
}.

(** ** The computations *)

Abbreviation digest := bytes (only parsing).
Definition digest_size : nat := 32.

Definition sasl_prep (input : bytes) : error_code * bytes := (None, input).

Definition normalize_password (input : bytes) : bytes :=
  let '(ec, output) := sasl_prep input in
  match ec with Some _ => input | None => output end.

Definition compute_xor (lhs rhs : digest) : digest := zip_with Z.lxor lhs rhs.

Section crypt.
Context {ssl : OpenSSL}.

(** The assertion is that the output has the size of a digest; the overload on
two pieces of data is the concatenation. *)
Definition compute_hmac (key data : bytes) : E digest :=
let! out := Some (evp_hmac key data) in
if (length out =? digest_size)%nat then Some (inr out) else None.

Definition compute_sha256 (data : bytes) : E digest :=
let! out := Some (evp_sha256 data) in
if (length out =? digest_size)%nat then Some (inr out) else None.

(** The loop of [compute_hi]: [n] iterations are left. *)
Fixpoint hi_loop (n : nat) (str_ : bytes) (ucurrent hi : digest) : E digest :=
match n with
| O => Some (inr hi)
| S n' =>
let! unext := compute_hmac str_ ucurrent in
hi_loop n' str_ unext (compute_xor hi unext)
end.

Definition compute_hi (str_ salt : bytes) (iteration_count : Z) : E digest :=
let! u1 := compute_hmac str_ (salt ++ be_encode 4 1) in
hi_loop (Z.to_nat iteration_count - 1) str_ u1 u1.

(** The client proof and the server signature. *)
Definition compute_proofs (password salt : bytes) (iteration_count : Z) (auth_message : bytes) : E (digest * digest) :=
match evp_mac_ctx with
| Some e => Some (inl e)
| None =>
let normalized_password := normalize_password password in
let! salted_password := compute_hi normalized_password salt iteration_count in
let! client_key := compute_hmac salted_password (str "Client Key") in
let! stored_key := compute_sha256 client_key in
let! client_signature := compute_hmac stored_key auth_message in
let client_proof := compute_xor client_key client_signature in
let! server_key := compute_hmac salted_password (str "Server Key") in
let! server_signature := compute_hmac server_key auth_message in
Some (inr (client_proof, server_signature))
end.

(** [raw] is what [RAND_bytes] gives. *)
Definition generate_nonce (raw : error + bytes) : error + bytes :=
match raw with
| inl e => inl e
| inr raw => inr (base64_encode raw [])
end.

Definition crypto_equal (lhs rhs : bytes) : bool := bool_decide (lhs = rhs).

(** ** scram_sha256_fsm *)

(** [client_first_msg_] is a span: a range of the write buffer. *)
Record scram_sha256_fsm := Scram {
nonce_ : bytes;
client_first_msg_ : nat * nat;
server_signature_ : digest
}.

Definition make_scram : scram_sha256_fsm := Scram [] (0%nat, 0%nat) (replicate digest_size 0).

(** The error, the machine and the write buffer. *)
Definition on_init (nonce_gen : error + bytes) (f : scram_sha256_fsm) (write_buffer : bytes)
: error_code * scram_sha256_fsm * bytes :=
match nonce_gen with
| inl e => (Some e, f, write_buffer)
| inr nonce =>
let f := Scram nonce (client_first_msg_ f) (server_signature_ f) in
let '(ec, write_buffer, bare) :=
serialize_client_first {| cfm_mechanism := str "SCRAM-SHA-256"; cfm_nonce := nonce |} [] in
match ec with
| Some e => (Some e, f, write_buffer)
| None => (None, Scram nonce bare (server_signature_ f), write_buffer)
end
end.

(** [std::string_view::starts_with] *)
Fixpoint starts_with (s prefix : bytes) {struct prefix} : bool :=
match prefix, s with
| [], _ => true
| c :: prefix', c' :: s' => (c =? c') && starts_with s' prefix'
| _ :: _, [] => false
end.

(** A range of the write buffer; reading outside it is [None]. *)
Definition read_range (buffer : bytes) (r : nat * nat) : option bytes :=
if (fst r <=? snd r)%nat && (snd r <=? length buffer)%nat
then Some (take (snd r - fst r) (drop (fst r) buffer)) else None.

Definition on_server_first (char_signed : bool) (msg password : bytes) (f : scram_sha256_fsm) (write_buffer : bytes)
: option (error_code * scram_sha256_fsm * bytes) :=
r ← parse_server_first char_signed msg;
match r with
| inl e => Some (Some e, f, write_buffer)
| inr server_msg =>
if (length (sf_nonce server_msg) =? 0)%nat || negb (starts_with (sf_nonce server_msg) (nonce_ f))
then Some (Some (client scram_invalid_nonce), f, write_buffer)
else if (sf_iteration_count server_msg =? 0) || (sf_iteration_count server_msg >? 65535)
then Some (Some (client protocol_value_error), f, write_buffer)
else
auth_message ← read_range write_buffer (client_first_msg_ f);
let '(ec, ctx, without_proof) := serialize_without_proof (sf_nonce server_msg) (make_sc []) in
match ec with
| Some e => Some (Some e, f, buffer_ ctx)
| None =>
let auth_message := auth_message ++ [ch ","] ++ msg ++ [ch ","] ++ without_proof in
r ← compute_proofs password (sf_salt server_msg) (sf_iteration_count server_msg) auth_message;
match r with
| inl e => Some (Some e, f, buffer_ ctx)
| inr (client_proof, server_signature) =>
    let f := Scram (nonce_ f) (client_first_msg_ f) server_signature in
    let '(ec, ctx) := serialize_proof client_proof ctx in
    Some (ec, f, buffer_ ctx)
end
end
end.

Definition on_server_final (char_signed : bool) (msg : bytes) (f : scram_sha256_fsm) : option error_code :=
r ← parse_server_final char_signed msg;
match r with
| inl e => Some (Some e)
| inr server_signature =>
Some (if crypto_equal server_signature (server_signature_ f) then None
else Some (client scram_invalid_server_signature))
end.
End crypt.

(** ** The algorithm, from RFC 5802

    On any HMAC and hash with the sizes of SHA-256. *)

Class Digests := {
  HMAC : bytes -> bytes -> bytes;
  SHA256 : bytes -> bytes;
  HMAC_digest k d : length (HMAC k d) = digest_size /\ Forall is_byte (HMAC k d);
  SHA256_digest d : length (SHA256 d) = digest_size /\ Forall is_byte (SHA256 d)
}.

Definition works (ssl : OpenSSL) (dg : Digests) : Prop :=
  evp_mac_ctx = None /\ (forall k d, evp_hmac k d = inr (HMAC k d)) /\ (forall d, evp_sha256 d = inr (SHA256 d)).

Section rfc.
Context {dg : Digests}.

(** [U n] is U_(n+1) of the specification. *)
Fixpoint U (str_ salt : bytes) (n : nat) : digest :=
match n with
| O => HMAC str_ (salt ++ be_encode 4 1)
| S n' => HMAC str_ (U str_ salt n')
end.

(** U_1 XOR ... XOR U_(n+1). *)
Fixpoint Hi (str_ salt : bytes) (n : nat) : digest :=
match n with
| O => U str_ salt 0
| S n' => compute_xor (Hi str_ salt n') (U str_ salt n)
end.

Definition SaltedPassword (password salt : bytes) (i : nat) : digest := Hi password salt (i - 1).
Definition ClientKey (salted : digest) : digest := HMAC salted (str "Client Key").
Definition StoredKey (salted : digest) : digest := SHA256 (ClientKey salted).
Definition ServerKey (salted : digest) : digest := HMAC salted (str "Server Key").
Definition ServerSignature (salted : digest) (auth : bytes) : digest := HMAC (ServerKey salted) auth.

(** What a server does with a proof: it has only the stored key. *)
Definition server_verifies (stored_key : digest) (auth : bytes) (proof : digest) : Prop :=
SHA256 (compute_xor proof (HMAC stored_key auth)) = stored_key.

Definition AuthMessage (nonce server_first server_nonce : bytes) : bytes :=
str "n=,r=" ++ nonce ++ [ch ","] ++ server_first ++ [ch ","] ++ client_final_bare server_nonce.
End rfc.

(** ** The code computes the algorithm *)

Lemma compute_xor_length a b : length a = digest_size -> length b = digest_size -> length (compute_xor a b) = digest_size.
Proof. intros Ha Hb. unfold compute_xor. rewrite length_zip_with, Ha, Hb. done. Qed.

Lemma compute_xor_cancel a : forall b, length a = length b -> compute_xor (compute_xor a b) b = a.
Proof.
  unfold compute_xor. induction a as [|x a IH]; intros [|y b] H; try done. simpl. injection H as H.
  rewrite IH by done. f_equal. by rewrite Z.lxor_assoc, Z.lxor_nilpotent, Z.lxor_0_r.
Qed.

Lemma is_byte_lxor x y : is_byte x -> is_byte y -> is_byte (Z.lxor x y).
Proof.
  unfold is_byte. intros Hx Hy. assert (0 <= Z.lxor x y) by (apply Z.lxor_nonneg; lia). split; [done|].
  destruct (Z.eq_dec (Z.lxor x y) 0) as [->|Hn]; [lia|]. apply Z.log2_lt_pow2 with (b := 8); [lia|].
  pose proof (Z.log2_lxor x y ltac:(lia) ltac:(lia)) as Hl.
  assert (forall z, 0 <= z < 256 -> Z.log2 z < 8) as Hz.
  { intros z Hz. destruct (Z.eq_dec z 0) as [->|]; [done|]. apply Z.log2_lt_pow2; lia. }
  pose proof (Hz x Hx). pose proof (Hz y Hy). lia.
Qed.

Lemma compute_xor_bytes a : forall b, Forall is_byte a -> Forall is_byte b -> Forall is_byte (compute_xor a b).
Proof.
  unfold compute_xor. induction a as [|x a IH]; intros [|y b] Ha Hb; try constructor; simpl.
  - apply Forall_cons_iff in Ha as [? _]. apply Forall_cons_iff in Hb as [? _]. by apply is_byte_lxor.
  - apply Forall_cons_iff in Ha as [_ ?]. apply Forall_cons_iff in Hb as [_ ?]. by apply IH.
Qed.

Section works.
Context {ssl : OpenSSL} {dg : Digests} (Hw : works ssl dg).

Lemma compute_hmac_works key data : compute_hmac key data = Some (inr (HMAC key data)).
Proof.
destruct Hw as (_ & Hh & _). unfold compute_hmac. rewrite Hh. cbn [ebind].
by rewrite (proj1 (HMAC_digest key data)), Nat.eqb_refl.
Qed.

Lemma compute_sha256_works data : compute_sha256 data = Some (inr (SHA256 data)).
Proof.
destruct Hw as (_ & _ & Hs). unfold compute_sha256. rewrite Hs. cbn [ebind].
by rewrite (proj1 (SHA256_digest data)), Nat.eqb_refl.
Qed.

Lemma hi_loop_works n : forall k password salt,
hi_loop n password (U password salt k) (Hi password salt k) = Some (inr (Hi password salt (k + n))).
Proof.
induction n as [|n IH]; intros k password salt; cbn [hi_loop]; [by rewrite Nat.add_0_r|].
rewrite compute_hmac_works. cbn [ebind]. rewrite Nat.add_succ_r. apply (IH (S k)).
Qed.

Lemma compute_hi_works password salt i : 1 <= i ->
compute_hi password salt i = Some (inr (SaltedPassword password salt (Z.to_nat i))).
Proof.
intros Hi1. unfold compute_hi, SaltedPassword. rewrite compute_hmac_works. cbn [ebind].
apply (hi_loop_works (Z.to_nat i - 1) 0).
Qed.

Lemma compute_proofs_works password salt i auth : 1 <= i ->
let salted := SaltedPassword password salt (Z.to_nat i) in
compute_proofs password salt i auth =
Some (inr (compute_xor (ClientKey salted) (HMAC (StoredKey salted) auth), ServerSignature salted auth)).
Proof.
intros Hi1 salted. unfold compute_proofs. rewrite (proj1 Hw). rewrite compute_hi_works by done. cbn [ebind].
rewrite !compute_hmac_works. cbn [ebind]. rewrite compute_sha256_works. cbn [ebind].
rewrite !compute_hmac_works. cbn [ebind]. done.
Qed.

Lemma proof_verified salted auth :
server_verifies (StoredKey salted) auth (compute_xor (ClientKey salted) (HMAC (StoredKey salted) auth)).
Proof.
unfold server_verifies. rewrite compute_xor_cancel; [done|].
unfold ClientKey. by rewrite (proj1 (HMAC_digest _ _)), (proj1 (HMAC_digest _ _)).
Qed.

Lemma proof_digest salted auth : let proof := compute_xor (ClientKey salted) (HMAC (StoredKey salted) auth) in
length proof = digest_size /\ Forall is_byte proof.
Proof.
split; [apply compute_xor_length; apply HMAC_digest|apply compute_xor_bytes; apply HMAC_digest].
Qed.
End works.

(** ** The exchange *)

Lemma starts_with_app prefix r : starts_with (prefix ++ r) prefix = true.
Proof. induction prefix as [|c prefix IH]; [by destruct r|]. cbn [app starts_with]. by rewrite Z.eqb_refl. Qed.

Lemma starts_with_spec s prefix : starts_with s prefix = true -> exists r, s = prefix ++ r.
Proof.
  revert s. induction prefix as [|c prefix IH]; intros s; [by exists s|]. destruct s as [|c' s]; [done|].
  cbn [starts_with]. intros [->%Z.eqb_eq Hs]%andb_prop. destruct (IH s Hs) as [r ->]. by exists r.
Qed.

Lemma generate_nonce_encode raw : generate_nonce (inr raw) = inr (encode raw).
Proof.
  unfold generate_nonce, base64_encode. f_equal.
  pose proof (write_at_app [] (replicate (encoded_size raw) 0) [] (encode raw)) as H.
  rewrite !app_nil_r in H. apply H. by rewrite length_replicate, length_encode.
Qed.

Lemma encode_printable data : Forall is_byte data -> Forall (fun c => scram_is_printable c = true) (encode data).
Proof. intros Hd%encode_text%text_printable. eapply Forall_impl; [exact Hd|]. by intros ? []. Qed.

Definition scram_mechanism : bytes := str "SCRAM-SHA-256".

(** The first message, and the range of its bare part. *)
Lemma on_init_ok nonce f wb : Z.of_nat (length nonce) <= 1000000000 ->
  on_init (inr nonce) f wb =
    (None, Scram nonce (26, 31 + length nonce)%nat (server_signature_ f),
     frame (ch "p") (client_first_body scram_mechanism nonce)).
Proof.
  intros Hn. unfold on_init. rewrite serialize_client_first_ok.
  - cbn [nonce_ client_first_msg_ server_signature_ app]. done.
  - by vm_compute.
  - unfold client_first_body, client_first_data. rewrite !length_app, length_be_encode.
    unfold INT32_MAX. simpl. lia.
Qed.

Lemma read_client_first nonce :
  read_range (frame (ch "p") (client_first_body scram_mechanism nonce)) (26, 31 + length nonce)%nat =
    Some (str "n=,r=" ++ nonce).
Proof.
  unfold read_range. cbn [fst snd].
  assert (exists pre, frame (ch "p") (client_first_body scram_mechanism nonce) = pre ++ str "n=,r=" ++ nonce /\ length pre = 26%nat)
    as (pre & -> & Hpre).
  { exists ([ch "p"] ++ be_encode 4 (Z.of_nat (length (client_first_body scram_mechanism nonce)) + 4) ++ cstr scram_mechanism ++
      be_encode 4 (Z.of_nat (length (client_first_data nonce))) ++ str "n,,").
    split; [|rewrite !length_app, !length_be_encode; done].
    unfold frame, client_first_body, client_first_data. rewrite <- !app_assoc. done. }
  rewrite !length_app, Hpre. change (length (str "n=,r=")) with 5%nat.
  destruct (Nat.leb_spec 26 (31 + length nonce)); [|lia].
  destruct (Nat.leb_spec (31 + length nonce) (26 + (5 + length nonce))); [|lia]. cbn [andb].
  f_equal. replace (drop 26 (pre ++ str "n=,r=" ++ nonce)) with (str "n=,r=" ++ nonce)
    by (rewrite <- Hpre; by rewrite drop_app_length).
  apply take_ge. rewrite length_app.
  change (length (str "n=,r=")) with 5%nat. lia.
Qed.

(** A server-first-message that continues the client's nonce. *)
Definition server_first (nonce server_part salt digits ext : bytes) : bytes :=
  str "r=" ++ (nonce ++ server_part) ++ str ",s=" ++ encode salt ++ str ",i=" ++ digits ++ ext.

(** The requirements of the protocol on what the server chooses, and the sizes
    that fit a message. *)
Record server_parameters (server_part salt digits ext : bytes) : Prop := {
  sp_part : Forall (fun c => scram_is_printable c = true) server_part;
  sp_part_length : Z.of_nat (length server_part) <= 1000000000;
  sp_salt : Forall is_byte salt;
  sp_digits : all_digits digits;
  sp_count : 1 <= digits_value digits <= 65535;
  sp_ext : ignored_extensions ext
}.

Lemma server_first_parses nonce server_part salt digits ext cs :
  Forall (fun c => scram_is_printable c = true) nonce -> server_parameters server_part salt digits ext ->
  parse_server_first cs (server_first nonce server_part salt digits ext) =
    Some (inr {| sf_nonce := nonce ++ server_part; sf_salt := salt; sf_iteration_count := digits_value digits |}).
Proof.
  intros Hn []. apply parse_server_first_text. constructor; [by apply Forall_app|by apply encode_text|done| |lia|done].
  intros ->. change (digits_value []) with 0 in *. lia.
Qed.

Section exchange.
Context {ssl : OpenSSL} {dg : Digests} (Hw : works ssl dg).

Lemma on_server_first_ok cs password nonce sig0 server_part salt digits ext :
Forall (fun c => scram_is_printable c = true) nonce -> nonce <> [] -> Z.of_nat (length nonce) <= 1000000000 ->
server_parameters server_part salt digits ext ->
let msg := server_first nonce server_part salt digits ext in
let salted := SaltedPassword password salt (Z.to_nat (digits_value digits)) in
let auth := AuthMessage nonce msg (nonce ++ server_part) in
let proof := compute_xor (ClientKey salted) (HMAC (StoredKey salted) auth) in
let r := (26, 31 + length nonce)%nat in
on_server_first cs msg password (Scram nonce r sig0) (frame (ch "p") (client_first_body scram_mechanism nonce)) =
Some (None, Scram nonce r (ServerSignature salted auth),
frame (ch "p") (client_final_bare (nonce ++ server_part) ++ str ",p=" ++ encode proof)).
Proof.
intros Hn Hne Hlen Hsp msg salted auth proof r. unfold on_server_first. subst msg.
rewrite server_first_parses by done. cbn [mbind option_bind sf_nonce sf_salt sf_iteration_count nonce_ client_first_msg_].
rewrite starts_with_app. destruct Hsp as [Hpart Hpl Hsalt Hds Hcount Hext].
destruct (Nat.eqb_spec (length (nonce ++ server_part)) 0) as [Hz|_]; [destruct nonce; [done|simpl in Hz; lia]|].
cbn [orb negb]. destruct (Z.eqb_spec (digits_value digits) 0); [lia|].
destruct (Z.gtb_spec (digits_value digits) 65535); [lia|]. cbn [orb].
unfold r. rewrite read_client_first. cbn [mbind option_bind].
destruct (proof_digest salted auth) as [Hpl' Hpb]. fold proof in Hpl', Hpb.
assert (length (encode proof) = 44)%nat as Henc by (rewrite length_encode; unfold encoded_size; by rewrite Hpl').
destruct (serialize_final_ok (nonce ++ server_part) proof Hpb) as (ctx & -> & ctx' & Hp & Hb).
{ unfold client_final_bare. rewrite !length_app, Henc. unfold INT32_MAX. simpl. lia. }
cbn [mbind option_bind]. rewrite compute_proofs_works by (done || lia). fold salted. cbn [mbind option_bind].
replace ((str "n=,r=" ++ nonce) ++ [ch ","] ++ server_first nonce server_part salt digits ext ++ [ch ","] ++
client_final_bare (nonce ++ server_part)) with auth by (unfold auth, AuthMessage; by rewrite <- !app_assoc).
fold proof. rewrite Hp, Hb. done.
Qed.

Lemma on_server_final_iff cs msg f : Forall (indexable cs) msg ->
on_server_final cs msg f = Some None <-> server_final_text msg (server_signature_ f).
Proof.
intros HI. unfold on_server_final. split.
- destruct (parse_server_final cs msg) as [[e|sig]|] eqn:E; cbn [mbind option_bind]; try done.
unfold crypto_equal. case_bool_decide; [|done]. subst sig. intros _. by eapply parse_server_final_inr.
- intros Ht. rewrite (parse_server_final_text cs _ _ Ht). cbn [mbind option_bind]. unfold crypto_equal.
by rewrite bool_decide_true.
Qed.
End exchange.

(** ** Properties *)


(** A stand-in for the digests: 32 bytes that depend on every input. *)
Definition toy_digest (b : bytes) : bytes := map (fun i => (foldr Z.add (Z.of_nat i) b) mod 256) (seq 0 digest_size).

Lemma toy_digest_ok b : length (toy_digest b) = digest_size /\ Forall is_byte (toy_digest b).
Proof.
  split; [unfold toy_digest; by rewrite length_map, length_seq|]. unfold toy_digest. apply List.Forall_forall.
  intros x (i & <- & _)%in_map_iff. apply Z.mod_pos_bound. lia.
Qed.

Definition toy_digests : Digests := {|
  HMAC k d := toy_digest (k ++ d);
  SHA256 d := toy_digest d;
  HMAC_digest k d := toy_digest_ok (k ++ d);
  SHA256_digest d := toy_digest_ok d
|}.

Definition toy_openssl : OpenSSL := {|
  evp_mac_ctx := None;
  evp_hmac k d := inr (toy_digest (k ++ d));
  evp_sha256 d := inr (toy_digest d)
|}.

