(* ===== verification/Startup.v ===== *)
(** * Session startup ([include/nativepg/protocol/startup_fsm.hpp], [src/src/startup_fsm.cpp])

    [startup_fsm_impl] is the login conversation, a machine on messages;
    [startup_fsm] runs it over the connection's buffers.  Their coroutines are
    functions on the resume point, and [None] is a failed assertion.  What
    [RAND_bytes] gives when the SCRAM nonce is generated is part of the machine. *)

From stdpp Require Import base list option sets.
From Stdlib Require Import ZArith Lia.
From S2P Require Import Prelude Errors Views BackendMessages ParseMessage BackendWire BackendSpec.
From S2P Require Import FrontendMessages FrontendSpec Sqlstate Base64 ScramMessages Scram Request ReadResponse Responses.
From S2P Require Import ReadBuffer MessagePump Exec.

(** ** Data *)

Record connect_params := CP { username : bytes; password : bytes; cp_database : bytes }.

Inductive impl_result := impl_done (ec : error_code) | impl_read | impl_write.

Record startup_fsm_impl := Impl {
  impl_point : nat;
  params_ : connect_params;
  scram_fsm_ : scram_sha256_fsm;
  random_ : error + bytes
}.

Definition make_impl (params : connect_params) (random : error + bytes) : startup_fsm_impl :=
  Impl 0 params make_scram random.

(** ** Helpers *)

(** The error code, and the diagnostics [diag] becomes. *)
Definition process_error (err : error_notice_fields) : error_code * bytes :=
  (parse_sqlstate (default [] (sqlstate err)), diagnostics_assign err).

Definition check_unknown_auth_methods (msg : any_backend_message) : error_code :=
  match msg with
  | Mauthentication_kerberos_v5 => Some (client auth_kerberos_v5_unsupported)
  | Mauthentication_cleartext_password => Some (client auth_cleartext_password_unsupported)
  | Mauthentication_md5_password _ => Some (client auth_md5_password_unsupported)
  | Mauthentication_gss => Some (client auth_gss_unsupported)
  | Mauthentication_sspi => Some (client auth_sspi_unsupported)
  | _ => None
  end.

Definition handle_auth_response (msg : any_backend_message) (diag : bytes) : error_code * bytes :=
  match msg with
  | Merror_response e => process_error e
  | Mauthentication_ok => (None, diag)
  | _ => (Some (client unexpected_message), diag)
  end.

Definition make_startup_message (params : connect_params) : startup_message :=
  {| user := username params;
     database := match cp_database params with [] => None | _ => Some (cp_database params) end;
     params := [] |}.

Definition supports_scram_sha256 (msg : authentication_sasl) : option bool :=
  ms ← fpv_range (mechanisms msg);
  Some (bool_decide (str "SCRAM-SHA-256" ∈ ms)).

Definition set_write_buffer (wb : bytes) (st : connection_state) : connection_state :=
  CS wb (st_read_buffer st) (backend_process_id st) (backend_secret_key st) (shared_diag st).

Definition set_backend_key (key : backend_key_data) (st : connection_state) : connection_state :=
  CS (write_buffer st) (st_read_buffer st) (bkd_process_id key) (bkd_secret_key key) (shared_diag st).

(** ** startup_fsm_impl::resume *)

Section impl.
Context {ssl : OpenSSL} (char_signed : bool).

(** The machine, the connection state and the diagnostics. *)
Abbreviation login := (startup_fsm_impl * connection_state * bytes)%type.

Definition at_point (p : nat) (x : startup_fsm_impl) : startup_fsm_impl :=
Impl p (params_ x) (scram_fsm_ x) (random_ x).
Definition set_scram (f : scram_sha256_fsm) (x : startup_fsm_impl) : startup_fsm_impl :=
Impl (impl_point x) (params_ x) f (random_ x).

(** From the check of the authentication result to the first read of the loop. *)
Definition after_authentication (msg : any_backend_message) (s : login) : impl_result * login :=
let '(x, st, diag) := s in
let '(ec, diag) := handle_auth_response msg diag in
match ec with
| Some e => (impl_done (Some e), (x, st, diag))
| None => (impl_read, (at_point 8 x, st, diag))
end.

Definition authentication_request (msg : any_backend_message) (s : login) : option (impl_result * login) :=
let '(x, st, diag) := s in
match msg with
| Mauthentication_sasl m =>
supported ← supports_scram_sha256 m;
if negb supported then Some (impl_done (Some (client scram_mechanisms_unsupported)), s)
else
let '(ec, f, wb) := on_init (generate_nonce (random_ x)) (scram_fsm_ x) (write_buffer st) in
let x := set_scram f x in
let st := set_write_buffer wb st in
match ec with
| Some e => Some (impl_done (Some e), (x, st, diag))
| None => Some (impl_write, (at_point 3 x, st, diag))
end
| _ =>
match check_unknown_auth_methods msg with
| Some e => Some (impl_done (Some e), s)
| None => Some (after_authentication msg s)
end
end.

Definition server_first_message_step (msg : any_backend_message) (s : login) : option (impl_result * login) :=
let '(x, st, diag) := s in
match msg with
| Merror_response e => let '(ec, diag) := process_error e in Some (impl_done ec, (x, st, diag))
| Mauthentication_sasl_continue data =>
'(ec, f, wb) ← on_server_first char_signed data (password (params_ x)) (scram_fsm_ x) (write_buffer st);
let x := set_scram f x in
let st := set_write_buffer wb st in
match ec with
| Some e => Some (impl_done (Some e), (x, st, diag))
| None => Some (impl_write, (at_point 5 x, st, diag))
end
| _ => Some (impl_done (Some (client unexpected_message)), s)
end.

Definition server_final_message_step (msg : any_backend_message) (s : login) : option (impl_result * login) :=
let '(x, st, diag) := s in
match msg with
| Merror_response e => let '(ec, diag) := process_error e in Some (impl_done ec, (x, st, diag))
| Mauthentication_sasl_final data =>
ec ← on_server_final char_signed data (scram_fsm_ x);
match ec with
| Some e => Some (impl_done (Some e), s)
| None => Some (impl_read, (at_point 7 x, st, diag))
end
| _ => Some (impl_done (Some (client unexpected_message)), s)
end.

Definition startup_message_step (msg : any_backend_message) (s : login) : impl_result * login :=
let '(x, st, diag) := s in
match msg with
| Mbackend_key_data key => (impl_read, (x, set_backend_key key st, diag))
| Mparameter_status _ => (impl_read, s)
| Merror_response e => let '(ec, diag) := process_error e in (impl_done ec, (x, st, diag))
| Mnotice_response _ => (impl_read, s)
| Mready_for_query _ => (impl_done None, s)
| _ => (impl_done (Some (client unexpected_message)), s)
end.

Definition impl_resume (msg : any_backend_message) (s : login) : option (impl_result * login) :=
let '(x, st, diag) := s in
match impl_point x with
| 0 =>
let '(ec, wb) := serialize_startup (make_startup_message (params_ x)) [] in
let st := set_write_buffer wb st in
match ec with
| Some e => Some (impl_done (Some e), (x, st, diag))
| None => Some (impl_write, (at_point 1 x, st, diag))
end
| 1 => Some (impl_read, (at_point 2 x, st, diag))
| 2 => authentication_request msg s
| 3 => Some (impl_read, (at_point 4 x, st, diag))
| 4 => server_first_message_step msg s
| 5 => Some (impl_read, (at_point 6 x, st, diag))
| 6 => server_final_message_step msg s
| 7 => Some (after_authentication msg s)
| 8 => Some (startup_message_step msg s)
| _ => None
end.

(** ** startup_fsm::resume *)

Record startup_fsm := SFsm { sf_point : nat; impl_ : startup_fsm_impl }.

Definition make_startup (params : connect_params) (random : error + bytes) : startup_fsm :=
SFsm 0 (make_impl params random).

Context {alloc : Allocator}.

(** A message for the machine: reading goes on, or the loop ends. *)
Definition startup_step (msg : any_backend_message) (s : login) : option (option impl_result * login) :=
'(r, s) ← impl_resume msg s;
Some (match r with impl_read => None | _ => Some r end, s).

(** Whatever ends the inner loop; [None] for a result that does not. *)
Definition startup_action (r : impl_result) (point : nat) (s : login)
: option (io_result * startup_fsm * connection_state * bytes) :=
let '(x, st, diag) := s in
match r with
| impl_done ec => Some (io_done ec, SFsm point x, st, diag)
| impl_write => Some (io_write (write_buffer st), SFsm 1 x, st, diag)
| impl_read => None
end.

(** The inner loop, which reads messages. *)
Definition startup_reading (point : nat) (s : login) : option (io_result * startup_fsm * connection_state * bytes) :=
let '(x, st, diag) := s in
'(r, rb, s) ← pump startup_step (st_read_buffer st) s;
let '(x, st, diag) := s in
let st := set_read_buffer rb st in
match r with
| Pexit r => startup_action r point (x, st, diag)
| Pread => Some (io_read, SFsm 2 x, st, diag)
| Perror e => Some (io_done (Some e), SFsm point x, st, diag)
end.

(** The outer loop, after [impl_.resume] without a message. *)
Definition startup_loop (point : nat) (r : impl_result) (s : login)
: option (io_result * startup_fsm * connection_state * bytes) :=
match r with
| impl_read => startup_reading point s
| _ => startup_action r point s
end.

Definition startup_resume (x : startup_fsm) (st : connection_state) (diag : bytes) (io_error : error_code)
(bytes_read : Z) : option (io_result * startup_fsm * connection_state * bytes) :=
match sf_point x with
| 0 => '(r, s) ← impl_resume Mnone (impl_ x, st, diag); startup_loop 0 r s
| 1 =>
match io_error with
| Some e => Some (io_done (Some e), x, st, diag)
| None => '(r, s) ← impl_resume Mnone (impl_ x, st, diag); startup_loop 1 r s
end
| 2 =>
match io_error with
| Some e => Some (io_done (Some e), x, st, diag)
| None => startup_reading 2 (impl_ x, set_read_buffer (commit bytes_read (st_read_buffer st)) st, diag)
end
| _ => None
end.
End impl.

(** ** The conversation, message by message

    What a session does with the messages of the server: what the machine wants
    written is written, with the machine resumed after it. *)

Section conversation.
Context {ssl : OpenSSL} (char_signed : bool).

Abbreviation login := (startup_fsm_impl * connection_state * bytes)%type.

(** The state of the login, and what has been written. *)
Definition login_step (msg : any_backend_message) (s : login * list bytes)
: option (option error_code * (login * list bytes)) :=
let '(l, written) := s in
'(r, l) ← impl_resume char_signed msg l;
match r with
| impl_done ec => Some (Some ec, (l, written))
| impl_read => Some (None, (l, written))
| impl_write =>
let written := written ++ [write_buffer l.1.2] in
'(r, l) ← impl_resume char_signed Mnone l;
match r with
| impl_read => Some (None, (l, written))
| _ => None
end
end.

Fixpoint login_feed (ms : list any_backend_message) (s : login * list bytes)
: option (option error_code * (login * list bytes) * list any_backend_message) :=
match ms with
| [] => Some (None, s, [])
| m :: ms' =>
'(r, s) ← login_step m s;
match r with
| Some ec => Some (Some ec, s, ms')
| None => login_feed ms' s
end
end.

(** ** The conversations that end well *)

(** What authenticates the client: nothing, or the SCRAM exchange, with the
messages the client writes. *)
Inductive authenticated (params : connect_params) (random : error + bytes) (wb : bytes)
: list any_backend_message -> list bytes -> Prop :=
| auth_trusted : authenticated params random wb [Mauthentication_ok] []
| auth_scram m mechanisms_ data1 data2 f1 wb1 f2 wb2 :
fpv_range (mechanisms m) = Some mechanisms_ -> scram_mechanism ∈ mechanisms_ ->
on_init (generate_nonce random) make_scram wb = (None, f1, wb1) ->
on_server_first char_signed data1 (password params) f1 wb1 = Some (None, f2, wb2) ->
on_server_final char_signed data2 f2 = Some None ->
authenticated params random wb
[Mauthentication_sasl m; Mauthentication_sasl_continue data1; Mauthentication_sasl_final data2;
Mauthentication_ok] [wb1; wb2].

(** The messages up to ReadyForQuery, and the connection state they leave. *)
Inductive becomes_ready : list any_backend_message -> connection_state -> connection_state -> Prop :=
| ready_now s st : becomes_ready [Mready_for_query s] st st
| ready_parameter p ms st st' : becomes_ready ms st st' -> becomes_ready (Mparameter_status p :: ms) st st'
| ready_notice e ms st st' : becomes_ready ms st st' -> becomes_ready (Mnotice_response e :: ms) st st'
| ready_key k ms st st' : becomes_ready ms (set_backend_key k st) st' ->
becomes_ready (Mbackend_key_data k :: ms) st st'.

(** No error response that would be taken for success. *)
Definition real_errors (ms : list any_backend_message) : Prop :=
Forall (fun m => forall e, m = Merror_response e -> server_code e <> None) ms.

(** The session succeeds on [ms], with this connection state and these writes. *)
Definition succeeds (ms : list any_backend_message) (s : login * list bytes) (st' : connection_state)
(written : list bytes) : Prop :=
exists x' diag', login_feed ms s = Some (Some None, (x', st', diag', written), []).

Lemma succeeds_cons m ms s st' ws' : succeeds (m :: ms) s st' ws' <->
match login_step m s with
| Some (None, s') => succeeds ms s' st' ws'
| Some (Some ec, (x, st, diag, ws)) => ec = None /\ ms = [] /\ st = st' /\ ws = ws'
| None => False
end.
Proof.
unfold succeeds. cbn [login_feed].
destruct (login_step m s) as [[[ec|] [[[x st] diag] ws]]|]; cbn [mbind option_bind]; [|done|naive_solver].
split; [by intros (? & ? & [= -> <- <- <- <- <-])|]. intros (-> & -> & -> & ->). by eexists _, _.
Qed.

Lemma succeeds_nil s st' ws' : ~ succeeds [] s st' ws'.
Proof. by intros (? & ? & [=]). Qed.

Lemma succeeds_ready ms : forall x st diag ws st' ws', impl_point x = 8%nat -> real_errors ms ->
succeeds ms (x, st, diag, ws) st' ws' <-> becomes_ready ms st st' /\ ws = ws'.
Proof.
induction ms as [|m ms IH]; intros x st diag ws st' ws' Hx He.
- split; [by intros ?%succeeds_nil|]. intros [Hr _]. inversion Hr.
- apply Forall_cons_iff in He as [Hm He]. rewrite succeeds_cons. cbn [login_step impl_resume]. rewrite Hx.
cbn [mbind option_bind startup_message_step]. split.
+ destruct m; cbn [mbind option_bind]; try (by intros [[=] _]); try (by intros [? _]%IH).
* intros [? ?]%IH; [by split; [constructor|]|done|done].
* unfold process_error. cbn [mbind option_bind]. intros (Hc & _). by destruct (Hm _ eq_refl).
* intros [? ?]%IH; [by split; [constructor|]|done|done].
* intros [? ?]%IH; [by split; [constructor|]|done|done].
* intros (_ & -> & -> & ->). split; [constructor|done].
+ intros [Hr ->]. inversion Hr as [s st0|p ms' st0 st1 Hr'|e ms' st0 st1 Hr'|k ms' st0 st1 Hr']; subst; cbn [mbind option_bind];
[done|by apply IH..].
Qed.

(** The result of the authentication, then the rest. *)
Lemma succeeds_authenticated ms x st diag ws st' ws' : impl_point x = 7%nat -> real_errors ms ->
succeeds ms (x, st, diag, ws) st' ws' <->
exists ms', ms = Mauthentication_ok :: ms' /\ becomes_ready ms' st st' /\ ws = ws'.
Proof.
intros Hx He. destruct ms as [|m ms]; [split; [by intros ?%succeeds_nil|by intros (? & [=] & _)]|].
apply Forall_cons_iff in He as [Hm He]. rewrite succeeds_cons. cbn [login_step impl_resume]. rewrite Hx.
cbn [mbind option_bind]. unfold after_authentication. split.
- destruct m; cbn [handle_auth_response mbind option_bind]; try (by intros [[=] _]).
+ intros [Hr Hw]%succeeds_ready; [by eexists|done|done].
+ unfold process_error. fold (server_code v). destruct (server_code v) eqn:E; [by intros [[=] _]|].
by destruct (Hm v eq_refl).
- intros (ms' & [= -> <-] & Hr & ->). cbn [handle_auth_response mbind option_bind]. by apply succeeds_ready.
Qed.

Lemma succeeds_final ms x st diag ws st' ws' : impl_point x = 6%nat -> real_errors ms ->
succeeds ms (x, st, diag, ws) st' ws' <->
exists data ms', ms = Mauthentication_sasl_final data :: Mauthentication_ok :: ms' /\
on_server_final char_signed data (scram_fsm_ x) = Some None /\ becomes_ready ms' st st' /\ ws = ws'.
Proof.
intros Hx He. destruct ms as [|m ms]; [split; [by intros ?%succeeds_nil|by intros (? & ? & [=] & _)]|].
apply Forall_cons_iff in He as [Hm He]. rewrite succeeds_cons. cbn [login_step impl_resume]. rewrite Hx. cbn [mbind option_bind].
split.
- destruct m; cbn [server_final_message_step mbind option_bind]; try (by intros [[=] _]).
+ destruct (on_server_final char_signed data (scram_fsm_ x)) as [[e|]|] eqn:E; cbn [mbind option_bind]; [by intros [[=] _]| |done].
intros (ms' & -> & Hr & Hw)%succeeds_authenticated; [|done|done]. by eexists _, _.
+ unfold process_error. cbn [mbind option_bind]. intros (Hc & _). by destruct (Hm _ eq_refl).
- intros (data & ms' & [= -> ->] & Hf & Hr & ->). cbn [server_final_message_step]. rewrite Hf. cbn [mbind option_bind].
apply succeeds_authenticated; [done|done|]. by eexists.
Qed.

Lemma succeeds_first ms x st diag ws st' ws' : impl_point x = 4%nat -> real_errors ms ->
succeeds ms (x, st, diag, ws) st' ws' <->
exists data1 data2 f wb ms',
ms = Mauthentication_sasl_continue data1 :: Mauthentication_sasl_final data2 :: Mauthentication_ok :: ms' /\
on_server_first char_signed data1 (password (params_ x)) (scram_fsm_ x) (write_buffer st) = Some (None, f, wb) /\
on_server_final char_signed data2 f = Some None /\
becomes_ready ms' (set_write_buffer wb st) st' /\ ws' = ws ++ [wb].
Proof.
intros Hx He. destruct ms as [|m ms]; [split; [by intros ?%succeeds_nil|by intros (? & ? & ? & ? & ? & [=] & _)]|].
apply Forall_cons_iff in He as [Hm He]. rewrite succeeds_cons. cbn [login_step impl_resume]. rewrite Hx. cbn [mbind option_bind].
split.
- destruct m; cbn [server_first_message_step mbind option_bind]; try (by intros [[=] _]).
+ destruct (on_server_first char_signed data _ (scram_fsm_ x) (write_buffer st)) as [[[[e|] f] wb]|] eqn:E;
cbn [mbind option_bind]; [by intros [[=] _]| |done]. cbn [impl_resume at_point impl_point mbind option_bind fst snd].
intros (data2 & ms' & -> & Hf & Hr & <-)%succeeds_final; [|done|done]. by eexists _, _, _, _, _.
+ unfold process_error. cbn [mbind option_bind]. intros (Hc & _). by destruct (Hm _ eq_refl).
- intros (data1 & data2 & f & wb & ms' & [= -> ->] & E & Hf & Hr & ->). cbn [server_first_message_step]. rewrite E.
cbn [mbind option_bind impl_resume at_point impl_point fst snd].
apply succeeds_final; [done|done|]. by eexists _, _.
Qed.

(** The whole conversation after the startup message. *)
Lemma succeeds_iff ms x st diag ws st' ws' : impl_point x = 2%nat -> scram_fsm_ x = make_scram -> real_errors ms ->
succeeds ms (x, st, diag, ws) st' ws' <->
exists a b sent, ms = a ++ b /\ authenticated (params_ x) (random_ x) (write_buffer st) a sent /\
becomes_ready b (set_write_buffer (List.last sent (write_buffer st)) st) st' /\ ws' = ws ++ sent.
Proof.
intros Hx Hscram He. destruct ms as [|m ms].
{ split; [by intros ?%succeeds_nil|]. intros (a & b & sent & E & Ha & _). symmetry in E. apply app_eq_nil in E as [-> ->]. inversion Ha. }
apply Forall_cons_iff in He as [Hm He]. rewrite succeeds_cons. cbn [login_step impl_resume]. rewrite Hx. cbn [mbind option_bind].
assert (set_write_buffer (write_buffer st) st = st) as Hst by by destruct st. split.
- destruct m; cbn [authentication_request check_unknown_auth_methods mbind option_bind]; unfold after_authentication;
cbn [handle_auth_response mbind option_bind]; try (by intros [[=] _]).
+ intros [Hr Hw]%succeeds_ready; [|done|done]. exists [Mauthentication_ok], ms, []. cbn [List.last]. rewrite Hst, app_nil_r.
split_and!; [done|constructor|done|done].
+ unfold supports_scram_sha256. destruct (fpv_range (mechanisms v)) as [mechs|] eqn:Em; [|done]. cbn [mbind option_bind].
case_bool_decide as Hin; cbn [negb]; [|by intros [[=] _]]. rewrite Hscram.
destruct (on_init (generate_nonce (random_ x)) make_scram (write_buffer st)) as [[[e|] f] wb] eqn:Ei;
cbn [mbind option_bind]; [by intros [[=] _]|]. cbn [impl_resume at_point impl_point fst snd mbind option_bind].
intros (data1 & data2 & f2 & wb2 & ms' & -> & Hs & Hf & Hr & ->)%succeeds_first; [|done|done].
eexists _, ms', [_; _]. split; [|split; [exact (auth_scram _ _ _ _ _ _ _ _ _ _ _ Em Hin Ei Hs Hf)|]]; [done|].
split; [exact Hr|]. cbn [set_scram set_write_buffer write_buffer]. by rewrite <- app_assoc.
+ unfold process_error. fold (server_code v). destruct (server_code v) eqn:E; [by intros [[=] _]|].
by destruct (Hm v eq_refl).
- intros (a & b & sent & E & Ha & Hr & ->). inversion Ha as [Ea|m' mechs data1 data2 f1 wb1 f2 wb2 Em Hin Ei Hs Hf Ea]; subst a sent.
+ injection E as -> ->. cbn [authentication_request check_unknown_auth_methods mbind option_bind]. unfold after_authentication.
cbn [handle_auth_response mbind option_bind List.last] in *. rewrite Hst in Hr. rewrite app_nil_r. by apply succeeds_ready.
+ injection E as -> ->. cbn [authentication_request]. unfold supports_scram_sha256. rewrite Em. cbn [mbind option_bind].
rewrite bool_decide_true by done. cbn [negb]. rewrite Hscram, Ei. cbn [mbind option_bind impl_resume at_point impl_point fst snd].
apply succeeds_first; [done|done|]. eexists _, _, _, _, _. split; [done|].
split; [exact Hs|]. split; [exact Hf|]. split; [exact Hr|]. by rewrite <- app_assoc.
Qed.
End conversation.
