(* ===== verification/StartupSession.v ===== *)
(** * A session of the startup machine

    [startup_run] plays the network for [startup_fsm]: its writes are performed and
    the server's bytes arrive in reads of any size.  [startup_succeeds] puts the
    parser, the buffer, the login machine and SCRAM together. *)

From stdpp Require Import base list option sets.
From Stdlib Require Import ZArith Lia.
From S2P Require Import Prelude Errors Views BackendMessages ParseMessage BackendWire BackendSpec.
From S2P Require Import FrontendMessages FrontendSpec Sqlstate Base64 ScramMessages Scram Request ReadResponse Responses.
From S2P Require Import ReadBuffer MessagePump Exec Startup.

Lemma set_read_buffer_twice rb rb' st : set_read_buffer rb (set_read_buffer rb' st) = set_read_buffer rb st.
Proof. done. Qed.

Lemma set_read_buffer_same st : set_read_buffer (st_read_buffer st) st = st.
Proof. by destruct st. Qed.

(** A change of state that the consumer does not see. *)
Definition drive_result_map {R S} (g : S -> S) (d : drive_result R S) : drive_result R S :=
  match d with
  | Dexit r rest x => Dexit r rest (g x)
  | Dwait n rest x => Dwait n rest (g x)
  | Derror e rest x => Derror e rest (g x)
  end.

Lemma drive_map {R S} (step : any_backend_message -> S -> option (option R * S)) (g : S -> S) :
  (forall m x, step m (g x) = ('(r, y) ← step m x; Some (r, g y))) ->
  forall n s x, (length s <= n)%nat -> drive step s (g x) = (d ← drive step s x; Some (drive_result_map g d)).
Proof.
  intros Hg n. induction n as [|n IH]; intros s x Hn; rewrite !(drive_unfold step s).
  - by destruct s; [|simpl in Hn; lia].
  - destruct (pm_ec (parse_message s)) as [e|] eqn:E; [by destruct e as [[]| | |]|].
    apply parse_message_size in E. rewrite Hg. destruct (step _ x) as [[[r|] y]|]; [done| |done].
    cbn [mbind option_bind]. apply IH. rewrite length_drop. lia.
Qed.

Section session.
Context {ssl : OpenSSL} (char_signed : bool) {alloc : Allocator}.

Abbreviation login := (startup_fsm_impl * connection_state * bytes)%type.

(** ** The network *)

(** Every element of [net] lets the machine go on once: a write is performed, or
at most that many bytes of [stream] are read, cut to the space there is. *)
Fixpoint startup_session (net : list nat) (stream : bytes) (r : io_result) (x : startup_fsm) (st : connection_state)
(diag : bytes) (written : list bytes)
: option (io_result * startup_fsm * connection_state * bytes * list bytes * bytes) :=
match r, net with
| io_write data, _ :: net' =>
'(r, x, st, diag) ← startup_resume char_signed x st diag None (Z.of_nat (length data));
startup_session net' stream r x st diag (written ++ [data])
| io_read, n :: net' =>
let rb := st_read_buffer st in
let data := take (Nat.min n (Z.to_nat (prepared_size rb))) stream in
'(r, x, st, diag) ←
startup_resume char_signed x (set_read_buffer (fill data rb) st) diag None (Z.of_nat (length data));
startup_session net' (drop (length data) stream) r x st diag written
| _, _ => Some (r, x, st, diag, written, stream)
end.

Definition startup_run (net : list nat) (stream : bytes) (params : connect_params) (random : error + bytes)
(st : connection_state) (diag : bytes) :=
'(r, x, st, diag) ← startup_resume char_signed (make_startup params random) st diag None 0;
startup_session net stream r x st diag [].

(** ** What a result waits for *)
Definition startup_waits (r : io_result) (x : startup_fsm) : Prop :=
match r with io_write _ => sf_point x = 1%nat | io_read => sf_point x = 2%nat | io_done _ => True end.

Lemma startup_reading_waits p l r x st diag : startup_reading char_signed p l = Some (r, x, st, diag) -> startup_waits r x.
Proof.
unfold startup_reading. destruct l as [[x0 st0] diag0]. destruct (pump _ _ _) as [[[r' rb] [[x1 st1] d1]]|]; [|done].
cbn [mbind option_bind]. destruct r' as [[]| |]; try done; by intros [= <- <- _ _].
Qed.

Lemma startup_resume_waits x st diag ec n r x' st' diag' :
startup_resume char_signed x st diag ec n = Some (r, x', st', diag') -> startup_waits r x'.
Proof.
assert (forall p i s, startup_loop char_signed p i s = Some (r, x', st', diag') -> startup_waits r x') as Hl.
{ intros p i [[x1 st1] diag1]. destruct i; cbn [startup_loop startup_action]; [|apply startup_reading_waits|]; by intros [= <- <- _ _]. }
unfold startup_resume. destruct (sf_point x) as [|[|[|]]]; [| | |done].
- destruct (impl_resume _ _ _) as [[i s]|]; [apply Hl|done].
- destruct ec; [by intros [= <- _ _ _]|]. destruct (impl_resume _ _ _) as [[i s]|]; [apply Hl|done].
- destruct ec; [by intros [= <- _ _ _]|apply startup_reading_waits].
Qed.

(** ** The read buffer is none of the machine's business *)

Definition with_buffer (rb : read_buffer) (l : login) : login :=
let '(x, st, diag) := l in (x, set_read_buffer rb st, diag).

Lemma impl_resume_buffer rb m l :
impl_resume char_signed m (with_buffer rb l) =
('(r, l) ← impl_resume char_signed m l; Some (r, with_buffer rb l)).
Proof.
destruct l as [[x st] diag]. cbn [with_buffer impl_resume].
destruct (impl_point x) as [|[|[|[|[|[|[|[|[|]]]]]]]]]; cbn [mbind option_bind]; try done.
- destruct (serialize_startup _ _) as [[e|] wb]; done.
- unfold authentication_request. destruct m; cbn [check_unknown_auth_methods mbind option_bind]; try done;
unfold after_authentication; cbn [handle_auth_response]; try done.
+ destruct (supports_scram_sha256 v) as [[]|]; cbn [negb mbind option_bind]; try done.
cbn [set_read_buffer write_buffer].
destruct (on_init (generate_nonce (random_ x)) (scram_fsm_ x) (write_buffer st)) as [[[e|] f] wb]; done.
+ destruct (process_error v) as [[e|] d]; done.
- unfold server_first_message_step. destruct m; try done. cbn [set_read_buffer write_buffer].
destruct (on_server_first char_signed data _ (scram_fsm_ x) (write_buffer st)) as [[[[e|] f] wb]|]; done.
- unfold server_final_message_step. destruct m; try done.
destruct (on_server_final char_signed data (scram_fsm_ x)) as [[e|]|]; done.
- unfold after_authentication. destruct (handle_auth_response m diag) as [[e|] d]; done.
- unfold startup_message_step. destruct m; done.
Qed.

Lemma impl_resume_keeps m l r l' : impl_resume char_signed m l = Some (r, l') -> st_read_buffer l'.1.2 = st_read_buffer l.1.2.
Proof.
intros Hr. pose proof (impl_resume_buffer (st_read_buffer l.1.2) m l) as Hb. destruct l as [[x st] diag], l' as [[x' st'] diag'].
cbn [with_buffer fst snd] in *. rewrite set_read_buffer_same, Hr in Hb. cbn [mbind option_bind with_buffer] in Hb.
injection Hb as Hb. by rewrite Hb.
Qed.

Definition with_buffer_w (rb : read_buffer) (s : login * list bytes) : login * list bytes :=
let '(l, ws) := s in (with_buffer rb l, ws).

Lemma login_step_buffer rb m s : login_step char_signed m (with_buffer_w rb s) =
('(r, s) ← login_step char_signed m s; Some (r, with_buffer_w rb s)).
Proof.
destruct s as [l ws]. cbn [with_buffer_w login_step]. rewrite impl_resume_buffer.
destruct (impl_resume char_signed m l) as [[[ec| |] l']|]; cbn [mbind option_bind]; try done.
rewrite impl_resume_buffer. assert (write_buffer (with_buffer rb l').1.2 = write_buffer l'.1.2) as -> by by destruct l' as [[? ?] ?].
destruct (impl_resume char_signed Mnone l') as [[[| |] l'']|]; done.
Qed.

(** ** Driving the login *)

(** The loop ends to write; the conversation goes on after it. *)
Lemma drive_login n : forall s l ws, (length s <= n)%nat ->
drive (login_step char_signed) s (l, ws) =
match drive (startup_step char_signed) s l with
| None => None
| Some (Dexit (impl_done ec) rest l') => Some (Dexit ec rest (l', ws))
| Some (Dexit impl_write rest l') =>
'(r, l'') ← impl_resume char_signed Mnone l';
match r with
| impl_read => drive (login_step char_signed) rest (l'', ws ++ [write_buffer l'.1.2])
| _ => None
end
| Some (Dexit impl_read _ _) => None
| Some (Dwait m rest l') => Some (Dwait m rest (l', ws))
| Some (Derror e rest l') => Some (Derror e rest (l', ws))
end.
Proof.
induction n as [|n IH]; intros s l ws Hn; rewrite (drive_unfold _ s), (drive_unfold (startup_step char_signed) s).
- by destruct s; [|simpl in Hn; lia].
- destruct (pm_ec (parse_message s)) as [e|] eqn:E; [by destruct e as [[]| | |]|].
apply parse_message_size in E. cbn [login_step]. unfold startup_step.
destruct (impl_resume char_signed (pm_message (parse_message s)) l) as [[[ec| |] l']|]; cbn [mbind option_bind]; try done.
+ rewrite IH by (rewrite length_drop; lia). done.
+ destruct (impl_resume char_signed Mnone l') as [[[| |] l'']|]; done.
Qed.
End session.

(** ** Invariants of a run of the loop *)

Section drive_invariants.
Context {R S : Type} (step : any_backend_message -> S -> option (option R * S)) (P : S -> Prop).
Context (Pstep : forall m x r y, step m x = Some (r, y) -> P x -> P y).

(** The state where the loop waits; the state before the message it ends on. *)
Lemma drive_inv n : forall s x d, (length s <= n)%nat -> drive step s x = Some d -> P x ->
match d with
| Dexit r _ y => exists m z, P z /\ step m z = Some (Some r, y)
| Dwait _ _ y | Derror _ _ y => P y
end.
Proof.
induction n as [|n IH]; intros s x d Hn Hd Hx; rewrite drive_unfold in Hd.
- destruct s; [|simpl in Hn; lia]. by injection Hd as <-.
- destruct (pm_ec (parse_message s)) as [e|] eqn:E; [by destruct e as [[]| | |]; injection Hd as <-|].
apply parse_message_size in E. destruct (step _ x) as [[r y]|] eqn:Es; [|done]. cbn [mbind option_bind] in Hd.
destruct r as [r|]; [injection Hd as <-; by eexists _, _|].
apply (IH _ _ _) in Hd; [done|rewrite length_drop; lia|by eapply Pstep].
Qed.
End drive_invariants.

(** ** Every session of a conversation that succeeds *)

Section succeeds.
Context {ssl : OpenSSL} (char_signed : bool) {alloc : Allocator}.

Abbreviation login := (startup_fsm_impl * connection_state * bytes)%type.

(** How many writes the machine has still to see performed, at most. *)
Definition writes_left (l : login) : nat :=
match impl_point l.1.1 with 0 | 1 => 3 | 2 | 3 => 2 | 4 | 5 => 1 | _ => 0 end.

Definition writing (l : login) : Prop := impl_point l.1.1 = 1%nat \/ impl_point l.1.1 = 3%nat \/ impl_point l.1.1 = 5%nat.

(** One outcome of a resumption. *)
Ltac one_outcome :=
intros [= <- <-]; cbn;
repeat match goal with H : impl_point _ = _ |- _ => rewrite ?H; clear H end;
split_and!; (done || lia || auto).

Lemma impl_resume_writes m l r l' : impl_resume char_signed m l = Some (r, l') ->
(writes_left l' <= writes_left l)%nat /\ (r = impl_write -> writing l') /\
(writing l -> (writes_left l' < writes_left l)%nat).
Proof.
destruct l as [[x st] diag]. cbn [impl_resume]. unfold writing, writes_left. cbn [fst snd].
destruct (impl_point x) as [|[|[|[|[|[|[|[|[|]]]]]]]]] eqn:Ex; try done; try one_outcome.
- destruct (serialize_startup _ _) as [[e|] wb]; one_outcome.
- unfold authentication_request, after_authentication.
destruct m; cbn [check_unknown_auth_methods handle_auth_response mbind option_bind]; try one_outcome.
+ destruct (supports_scram_sha256 v) as [[]|]; cbn [negb mbind option_bind]; [|one_outcome|done].
destruct (on_init (generate_nonce (random_ x)) (scram_fsm_ x) (write_buffer st)) as [[[e|] f] wb]; one_outcome.
+ destruct (process_error v) as [[e|] d]; one_outcome.
- unfold server_first_message_step. destruct m; try one_outcome.
destruct (on_server_first char_signed data _ (scram_fsm_ x) (write_buffer st)) as [[[[e|] f] wb]|]; [one_outcome..|done].
- unfold server_final_message_step. destruct m; try one_outcome.
destruct (on_server_final char_signed data (scram_fsm_ x)) as [[e|]|]; [one_outcome..|done].
- unfold after_authentication. destruct (handle_auth_response m diag) as [[e|] d]; one_outcome.
- unfold startup_message_step. destruct m; one_outcome.
Qed.

(** What the loop leaves to write. *)
Lemma drive_writes s l d : drive (startup_step char_signed) s l = Some d ->
match d with
| Dexit r _ y => (writes_left y <= writes_left l)%nat /\ (r = impl_write -> writing y)
| Dwait _ _ y | Derror _ _ y => (writes_left y <= writes_left l)%nat
end.
Proof.
intros Hd. apply (drive_inv _ (fun y => writes_left y <= writes_left l)%nat) with (n := length s) in Hd; [|..|done]; [| |done].
- destruct d as [r rest y| |]; [|done..]. destruct Hd as (m & z & Hz & Hs). unfold startup_step in Hs.
destruct (impl_resume char_signed m z) as [[r' z']|] eqn:E; [|done]. cbn [mbind option_bind] in Hs.
injection Hs as Hr ->. apply impl_resume_writes in E as (Hle & Hw & _). split; [lia|]. intros ->. apply Hw. by destruct r'.
- intros m z r y Hs Hz. unfold startup_step in Hs. destruct (impl_resume char_signed m z) as [[r' z']|] eqn:E; [|done].
cbn [mbind option_bind] in Hs. injection Hs as Hr ->. apply impl_resume_writes in E as (Hle & _). lia.
Qed.

(** From an inner loop on: what the session does is what [login_feed] says. *)
Definition finishes (net : list nat) (stream : bytes) (ws : list bytes)
(next : option (io_result * startup_fsm * connection_state * bytes)) (extra : bytes) (l' : login) (ws' : list bytes) : Prop :=
exists xf rbf unread,
('(r, x, st, diag) ← next; startup_session char_signed net stream r x st diag ws) =
Some (io_done None, xf, set_read_buffer rbf l'.1.2, l'.2, ws', unread) /\
rb_inv rbf /\ committed_area rbf ++ unread = extra.

Lemma drive_login_buffer rb s x st diag ws extra x' st' diag' ws' :
drive (login_step char_signed) s ((x, st, diag), ws) = Some (Dexit None extra ((x', st', diag'), ws')) ->
drive (login_step char_signed) s ((x, set_read_buffer rb st, diag), ws) =
Some (Dexit None extra ((x', set_read_buffer rb st', diag'), ws')).
Proof.
intros Hd. pose proof (drive_map _ _ (login_step_buffer char_signed rb) _ s ((x, st, diag), ws) (le_n _)) as Hm.
cbn [with_buffer_w with_buffer] in Hm. by rewrite Hm, Hd.
Qed.

(** One run of the loop in such a session. *)
Inductive reading_step (point : nat) (l : login) (ws : list bytes) (stream extra : bytes) (l' : login) (ws' : list bytes)
: option (io_result * startup_fsm * connection_state * bytes) -> Prop :=
| reading_done rb' : rb_inv rb' -> committed_area rb' ++ stream = extra -> ws = ws' ->
reading_step point l ws stream extra l' ws'
(Some (io_done None, SFsm point l'.1.1, set_read_buffer rb' l'.1.2, l'.2))
| reading_writes rb' l1 l2 : rb_inv rb' ->
impl_resume char_signed Mnone l1 = Some (impl_read, l2) -> (writes_left l2 < writes_left l)%nat ->
drive (login_step char_signed) (committed_area rb' ++ stream) (l2, ws ++ [write_buffer l1.1.2]) =
Some (Dexit None extra (l', ws')) ->
reading_step point l ws stream extra l' ws'
(Some (io_write (write_buffer l1.1.2), SFsm 1 l1.1.1, set_read_buffer rb' l1.1.2, l1.2))
| reading_reads rb' l1 : rb_inv rb' -> stream <> [] -> (0 < prepared_size rb')%Z -> (writes_left l1 <= writes_left l)%nat ->
drive (login_step char_signed) (committed_area rb' ++ stream) (l1, ws) = Some (Dexit None extra (l', ws')) ->
reading_step point l ws stream extra l' ws' (Some (io_read, SFsm 2 l1.1.1, set_read_buffer rb' l1.1.2, l1.2)).

Lemma reading_cases stream point l ws extra l' ws' : rb_inv (st_read_buffer l.1.2) ->
drive (login_step char_signed) (committed_area (st_read_buffer l.1.2) ++ stream) (l, ws) =
Some (Dexit None extra (l', ws')) ->
reading_step point l ws stream extra l' ws' (startup_reading char_signed point l).
Proof.
destruct l as [[x st] diag]. cbn [fst snd]. intros Hrb Hd. pose proof Hd as Hd'.
rewrite (drive_app _ _ _ _ _ (le_n _)), (drive_login _ _ _ _ _ (le_n _)) in Hd.
pose proof (pump_loop_drive (startup_step char_signed) _ (st_read_buffer st) (x, st, diag) Hrb (Nat.lt_succ_diag_r _)) as Hp.
pose proof (drive_writes (committed_area (st_read_buffer st)) (x, st, diag)) as Hw.
unfold startup_reading, pump.
destruct (drive (startup_step char_signed) (committed_area (st_read_buffer st)) (x, st, diag)) as
[[[ec| |] rest [[x1 st1] diag1]|m rest [[x1 st1] diag1]|e rest [[x1 st1] diag1]]|] eqn:Ed; try done;
specialize (Hw _ eq_refl); destruct Hp as (rb' & Hrb' & Hp).
- destruct Hp as [-> <-]. injection Hd as -> <- <- <-. by apply (reading_done point _ ws stream _ (x1, st1, diag1)).
- destruct Hp as [-> <-]. destruct Hw as [Hle Hw].
destruct (impl_resume char_signed Mnone (x1, st1, diag1)) as [[[| |] l2]|] eqn:E2; try done. cbn [mbind option_bind] in Hd.
pose proof (impl_resume_writes _ _ _ _ E2) as (_ & _ & Hlt). specialize (Hlt (Hw eq_refl)).
apply (reading_writes point _ ws stream extra l' ws' rb' (x1, st1, diag1) l2); [done|done|lia|].
by rewrite (drive_app _ _ _ _ _ (le_n _)).
- destruct Hp as (-> & <- & Hn & Hroom).
apply (reading_reads point _ ws stream extra l' ws' rb' (x1, st1, diag1)); [done| |lia|done|done].
intros ->. rewrite app_nil_r, (drive_login _ _ _ _ _ (le_n _)) in Hd.
by rewrite (drive_wait _ _ _ _ _ _ _ (le_n _) Ed) in Hd.
Qed.

Lemma reading_succeeds net : forall stream point l ws extra l' ws',
Forall (fun n => 0 < n)%nat net -> (length stream + writes_left l <= length net)%nat ->
rb_inv (st_read_buffer l.1.2) ->
drive (login_step char_signed) (committed_area (st_read_buffer l.1.2) ++ stream) (l, ws) =
Some (Dexit None extra (l', ws')) ->
finishes net stream ws (startup_reading char_signed point l) extra l' ws'.
Proof.
induction net as [|n net IH]; intros stream point l ws extra [[x' st'] diag'] ws' Hpos Hlen Hrb Hd;
destruct (reading_cases _ point _ _ _ _ _ Hrb Hd) as
[rb' Hrb' Hc Hws|rb' [[x1 st1] diag1] [[x2 st2] diag2] Hrb' E2 Hlt Hd2|rb' [[x1 st1] diag1] Hrb' Hne Hroom Hle Hd1];
unfold finishes; cbn [mbind option_bind startup_session fst snd] in *.
- eexists _, rb', stream. by rewrite Hws.
- cbn [length] in Hlen. lia.
- destruct stream; [done|simpl in Hlen; lia].
- eexists _, rb', stream. by rewrite Hws.
- inversion_clear Hpos as [|? ? Hn Hpos']. unfold startup_resume. cbn [sf_point impl_].
assert (impl_resume char_signed Mnone (x1, set_read_buffer rb' st1, diag1) =
Some (impl_read, (x2, set_read_buffer rb' st2, diag2))) as ->.
{ pose proof (impl_resume_buffer char_signed rb' Mnone (x1, st1, diag1)) as Hb. cbn [with_buffer] in Hb. by rewrite Hb, E2. }
cbn [mbind option_bind startup_loop set_read_buffer write_buffer].
apply (IH stream 1%nat (x2, set_read_buffer rb' st2, diag2) _ extra (x', set_read_buffer rb' st', diag'));
[done| |done|by apply drive_login_buffer]. unfold writes_left in *. cbn [fst snd] in *. cbn [length] in Hlen. lia.
- inversion_clear Hpos as [|? ? Hn Hpos']. unfold startup_resume. cbn [sf_point impl_ st_read_buffer set_read_buffer].
set (data := take _ stream).
assert (length data = Nat.min (Nat.min n (Z.to_nat (prepared_size rb'))) (length stream)) as Hdl by apply length_take.
destruct (receive_ok data rb' Hrb') as [Hrb'' Hc]; [lia|]. fold (receive data rb').
assert (0 < length stream)%nat as Hsl by (destruct stream; [done|simpl; lia]).
apply (IH (drop (length data) stream) 2%nat (x1, set_read_buffer (receive data rb') st1, diag1) ws extra
(x', set_read_buffer (receive data rb') st', diag')); [done| |done|].
+ rewrite length_drop. unfold writes_left in *. cbn [fst snd] in *. cbn [length] in Hlen. lia.
+ cbn [fst snd st_read_buffer set_read_buffer]. rewrite Hc, <- app_assoc. unfold data at 1 2. rewrite take_drop_len.
by apply (drive_login_buffer (receive data rb')).
Qed.

(** The encoding of a conversation drives the login as the messages do. *)
Lemma drive_login_encodes ms stream extra s s' ec : encodes ms stream -> login_feed char_signed ms s = Some (Some ec, s', []) ->
drive (login_step char_signed) (stream ++ extra) s = Some (Dexit ec extra s').
Proof.
intros He. revert s. induction He as [|m ms t body bs Hw Hb Hl He IH]; intros s Hf; [done|].
rewrite <- app_assoc, drive_unfold, parse_message_frame by done.
rewrite (parse_any_message_complete _ _ _ Hb Hw). cbn [pm_ec pm_message pm_size].
rewrite <- (length_frame t), drop_app_length. cbn [login_feed] in Hf.
destruct (login_step char_signed m s) as [[[ec'|] s1]|]; [| |done]; cbn [mbind option_bind] in *.
- injection Hf as -> -> ->. by inversion He; subst.
- by apply IH.
Qed.
End succeeds.

(** ** Properties *)

(** Logging in succeeds whatever the network does.  Say what is in the buffer
    and what the server sends is the encoding of a conversation that
    authenticates the client, directly or through SCRAM, and becomes ready,
    followed by anything.  Then for reads of any positive sizes the machine
    writes the startup message and the messages of the authentication, finishes
    without error, holds the backend key the server sent, and leaves what follows
    the conversation, none of it consumed, in the buffer and the stream. *)
Theorem startup_succeeds {ssl : OpenSSL} {alloc : Allocator} cs net stream params random st diag
    startup_bytes ms1 ms2 sent st' conversation extra :
  serialize_startup (make_startup_message params) [] = (None, startup_bytes) ->
  authenticated cs params random startup_bytes ms1 sent ->
  becomes_ready ms2 (set_write_buffer (List.last sent startup_bytes) st) st' ->
  real_errors (ms1 ++ ms2) -> encodes (ms1 ++ ms2) conversation ->
  rb_inv (st_read_buffer st) ->
  committed_area (st_read_buffer st) ++ stream = conversation ++ extra ->
  Forall (fun n => 0 < n)%nat net -> (length stream + 3 <= length net)%nat ->
  exists x rb diag' unread,
    startup_run cs net stream params random st diag =
      Some (io_done None, x, set_read_buffer rb st', diag', startup_bytes :: sent, unread) /\
    rb_inv rb /\ committed_area rb ++ unread = extra.
Proof.
  intros Hser Hauth Hready Herr Henc Hrb Hstream Hpos Hlen.
  assert (succeeds cs (ms1 ++ ms2) ((Impl 2 params make_scram random, set_write_buffer startup_bytes st, diag), [startup_bytes])
    st' (startup_bytes :: sent)) as (x' & diag' & Hf) by (apply succeeds_iff; [done..|]; by exists ms1, ms2, sent).
  pose proof (drive_login_encodes _ _ _ extra _ _ _ Henc Hf) as Hd. rewrite <- Hstream in Hd.
  destruct net as [|n net]; [simpl in Hlen; lia|]. inversion_clear Hpos as [|? ? Hn Hpos'].
  destruct (reading_succeeds cs net stream 1 (Impl 2 params make_scram random, set_write_buffer startup_bytes st, diag)
    [startup_bytes] extra (x', st', diag') (startup_bytes :: sent)) as (xf & rbf & unread & Hrun & Hrbf & Hc);
    [done|cbn [length] in Hlen; unfold writes_left; cbn [fst snd impl_point]; lia|done|exact Hd|].
  exists xf, rbf, diag', unread. split; [|done]. cbn [fst snd] in Hrun. rewrite <- Hrun.
  unfold startup_run, startup_resume. cbn [make_startup sf_point impl_ make_impl impl_resume impl_point params_].
  rewrite Hser. by cbn [mbind option_bind startup_loop startup_action startup_session sf_point impl_ at_point impl_resume impl_point app write_buffer set_write_buffer].
Qed.

Definition sample_params : connect_params := CP (str "me") (str "secret") [].

Definition sample_key : backend_key_data := {| bkd_process_id := 7; bkd_secret_key := 99 |}.

Definition sample_conversation : bytes :=
  frame (ch "R") (be_encode 4 0) ++ frame (ch "K") (be_encode 4 7 ++ be_encode 4 99) ++ frame (ch "Z") [ch "I"].

Lemma sample_conversation_encodes :
  encodes ([Mauthentication_ok] ++ [Mbackend_key_data sample_key; Mready_for_query {| status := idle |}]) sample_conversation.
Proof.
  unfold sample_conversation. rewrite <- (app_nil_r (frame (ch "Z") _)).
  repeat (apply encodes_cons; [|apply (bool_decide_unpack _); vm_compute; exact I|vm_compute; discriminate|]).
  - apply W_authentication_ok.
  - apply (W_backend_key_data sample_key); apply int_ok_4; vm_compute; split; congruence.
  - by apply (W_ready_for_query {| status := idle |}).
  - constructor.
Qed.

Lemma startup_succeeds_witness :
  exists x rb diag' unread,
    @startup_run toy_openssl true zero_alloc (replicate 60 3%nat) (sample_conversation ++ str "Z") sample_params
        (inr (repeat 7%Z 18)) sample_state [] =
      Some (io_done None, x, set_read_buffer rb (CS (str "" ++ be_encode 4 17 ++ be_encode 4 196608 ++ str "user" ++ [0%Z] ++ str "me" ++ [0%Z; 0%Z])
              (st_read_buffer sample_state) 7 99 []), diag',
            [be_encode 4 17 ++ be_encode 4 196608 ++ str "user" ++ [0%Z] ++ str "me" ++ [0%Z; 0%Z]], unread) /\
    rb_inv rb /\ committed_area rb ++ unread = str "Z".
Proof.
  apply (@startup_succeeds toy_openssl zero_alloc true (replicate 60 3%nat) _ sample_params (inr (repeat 7%Z 18)) sample_state []
    _ [Mauthentication_ok] [Mbackend_key_data sample_key; Mready_for_query {| status := idle |}] []
    _ sample_conversation (str "Z")).
  - reflexivity.
  - constructor.
  - apply ready_key. apply ready_now.
  - unfold real_errors. cbn [app]. repeat (apply Forall_cons; split; [intros e; discriminate|]). constructor.
  - exact sample_conversation_encodes.
  - exact sample_state_inv.
  - reflexivity.
  - apply (bool_decide_unpack _). vm_compute. exact I.
  - vm_compute. lia.
Defined.



Lemma process_error_success err : sqlstate err = Some (str "00000") -> process_error err = (None, diagnostics_assign err).
Proof. intros He. unfold process_error. rewrite He. f_equal. Qed.

(** An ErrorResponse with SQLSTATE 00000 is no error to the login: as the
    first answer of the server it authenticates the client, and where
    ReadyForQuery is due it ends the login with success. *)
Theorem startup_accepts_error {ssl : OpenSSL} cs params random st diag err : sqlstate err = Some (str "00000") ->
  login_feed cs [Merror_response err; Mready_for_query {| status := idle |}] (Impl 2 params make_scram random, st, diag, []) =
    Some (Some None, (Impl 8 params make_scram random, st, diagnostics_assign err, []), []) /\
  login_feed cs [Mauthentication_ok; Merror_response err] (Impl 2 params make_scram random, st, diag, []) =
    Some (Some None, (Impl 8 params make_scram random, st, diagnostics_assign err, []), []).
Proof.
  intros He. pose proof (process_error_success err He) as Hp.
  split; cbn -[process_error]; unfold after_authentication; cbn -[process_error]; rewrite Hp; reflexivity.
Qed.

Lemma startup_accepts_error_witness :
  exists err, sqlstate err = Some (str "00000") /\
  @login_feed toy_openssl true [Mauthentication_ok; Merror_response err] (Impl 2 sample_params make_scram (inr []), sample_state, [], []) =
    Some (Some None, (Impl 8 sample_params make_scram (inr []), sample_state, diagnostics_assign err, []), []).
Proof.
  exists (set_sqlstate (str "00000") no_fields). split; [reflexivity|].
  refine (proj2 (@startup_accepts_error toy_openssl true sample_params (inr []) sample_state [] (set_sqlstate (str "00000") no_fields) _)). reflexivity.
Defined.
