(* ===== verification/Connect.v ===== *)
(** * Connecting ([include/nativepg/protocol/detail/connect_fsm.hpp], [src/src/connect_fsm.cpp])

    [connect_fsm] asks for the physical connection, runs [startup_fsm] over it and
    asks for a close when either fails.  [connect_run] and [startup_trace] list
    what the machines ask for as their I/O completes; [connect_exact] relates
    them. *)

From stdpp Require Import base list option.
From Stdlib Require Import ZArith Lia.
From S2P Require Import Prelude Errors BackendMessages FrontendMessages Scram ReadBuffer Exec Startup.

(** ** State *)

Inductive connect_result :=
  | connect_done (ec : error_code) | connect_read | connect_write (data : bytes) | connect_connect | connect_close.

Record connect_fsm := Cfsm { cf_point : nat; stored_ec_ : error_code; startup_ : startup_fsm }.

Definition make_connect (params : connect_params) (random : error + bytes) : connect_fsm :=
  Cfsm 0 None (make_startup params random).

(** [None] is the assertion: a finished startup is not converted. *)
Definition to_connect_result (r : io_result) : option connect_result :=
  match r with
  | io_read => Some connect_read
  | io_write data => Some (connect_write data)
  | io_done _ => None
  end.

Definition set_shared_diag (diag : bytes) (st : connection_state) : connection_state :=
  CS (write_buffer st) (st_read_buffer st) (backend_process_id st) (backend_secret_key st) diag.

(** ** connect_fsm::resume *)

Section connect.
Context {ssl : OpenSSL} (char_signed : bool) {alloc : Allocator}.

(** One iteration of the loop over the startup, and what follows it. *)
Definition connect_startup (x : connect_fsm) (st : connection_state) (ec : error_code) (bytes_transferred : Z)
: option (connect_result * connect_fsm * connection_state) :=
'(r, s, st, diag) ← startup_resume char_signed (startup_ x) st (shared_diag st) ec bytes_transferred;
let st := set_shared_diag diag st in
match r with
| io_done (Some e) => Some (connect_close, Cfsm 4 (Some e) s, st)
| io_done None => Some (connect_done None, Cfsm (cf_point x) (stored_ec_ x) s, st)
| _ => c ← to_connect_result r; Some (c, Cfsm 3 (stored_ec_ x) s, st)
end.

Definition connect_resume (x : connect_fsm) (st : connection_state) (ec : error_code) (bytes_transferred : Z)
: option (connect_result * connect_fsm * connection_state) :=
match cf_point x with
| 0 => Some (connect_connect, Cfsm 1 (stored_ec_ x) (startup_ x), st)
| 1 =>
match ec with
| Some e => Some (connect_close, Cfsm 2 (Some e) (startup_ x), st)
| None => connect_startup x st ec bytes_transferred
end
| 2 | 4 => Some (connect_done (stored_ec_ x), x, st)
| 3 => connect_startup x st ec bytes_transferred
| _ => None
end.

(** ** What the machines ask for

An event is the completion of what was asked for: its error, and the bytes
that were read.  The run is over when the machine is done. *)

Definition event : Type := error_code * bytes.

Definition received (e : event) (st : connection_state) : connection_state :=
set_read_buffer (fill e.2 (st_read_buffer st)) st.

Fixpoint connect_trace (es : list event) (r : connect_result) (x : connect_fsm) (st : connection_state)
: option (list connect_result) :=
match r, es with
| connect_done _, _ | _, [] => Some [r]
| _, e :: es' =>
'(r', x, st) ← connect_resume x (match r with connect_read => received e st | _ => st end) e.1 (Z.of_nat (length e.2));
trace ← connect_trace es' r' x st; Some (r :: trace)
end.

Definition connect_run (es : list event) (params : connect_params) (random : error + bytes) (st : connection_state)
: option (list connect_result) :=
'(r, x, st) ← connect_resume (make_connect params random) st None 0;
connect_trace es r x st.

(** The startup alone, over a connection that exists, with its diagnostics. *)
Fixpoint startup_trace (es : list event) (r : io_result) (x : startup_fsm) (st : connection_state) : option (list io_result) :=
match r, es with
| io_done _, _ | _, [] => Some [r]
| _, e :: es' =>
'(r', x, st, diag) ← (let st := match r with io_read => received e st | _ => st end in
startup_resume char_signed x st (shared_diag st) e.1 (Z.of_nat (length e.2)));
trace ← startup_trace es' r' x (set_shared_diag diag st); Some (r :: trace)
end.

Definition startup_only (es : list event) (params : connect_params) (random : error + bytes) (st : connection_state)
: option (list io_result) :=
'(r, x, st, diag) ← startup_resume char_signed (make_startup params random) st (shared_diag st) None 0;
startup_trace es r x (set_shared_diag diag st).

(** What the client asks for, given what the startup asks for: an error closes
the connection, and is reported once that has been done. *)
Fixpoint as_connect (closed : bool) (trace : list io_result) : list connect_result :=
match trace with
| [] => []
| io_read :: trace => connect_read :: as_connect closed trace
| io_write data :: trace => connect_write data :: as_connect closed trace
| io_done None :: _ => [connect_done None]
| io_done (Some e) :: _ => connect_close :: (if closed then [connect_done (Some e)] else [])
end.

(** A result of the startup, as a state of the client. *)
Definition from_startup (p : nat) (se : error_code) (r : io_result) (s : startup_fsm) : connect_result * connect_fsm :=
match r with
| io_done (Some e) => (connect_close, Cfsm 4 (Some e) s)
| io_done None => (connect_done None, Cfsm p se s)
| io_read => (connect_read, Cfsm 3 se s)
| io_write data => (connect_write data, Cfsm 3 se s)
end.

Lemma connect_startup_from x st ec n : connect_startup x st ec n =
('(r, s, st, diag) ← startup_resume char_signed (startup_ x) st (shared_diag st) ec n;
Some (from_startup (cf_point x) (stored_ec_ x) r s, set_shared_diag diag st)).
Proof.
unfold connect_startup. destruct (startup_resume _ _ _ _ _ _) as [[[[r s] st'] diag]|]; [|done].
by destruct r as [[e|]|data|].
Qed.

Lemma connect_trace_from es : forall p se r s st,
connect_trace es (from_startup p se r s).1 (from_startup p se r s).2 st =
(trace ← startup_trace es r s st; Some (as_connect (length trace <=? length es)%nat trace)).
Proof.
induction es as [|e es IH]; intros p se r s st; [by destruct r as [[?|]|?|]|].
destruct r as [[?|]|data|]; cbn [from_startup fst snd connect_trace startup_trace]; [by destruct es|done| |];
unfold connect_resume; cbn [cf_point];
rewrite connect_startup_from; cbn [startup_ stored_ec_ cf_point];
destruct (startup_resume _ _ _ _ _ _) as [[[[r s'] st'] diag]|]; try done; cbn [mbind option_bind];
specialize (IH 3%nat se r s' (set_shared_diag diag st')); destruct (from_startup 3 se r s') as [c x'];
cbn [fst snd] in IH; rewrite IH; by destruct (startup_trace es r s' _).
Qed.
End connect.

(** ** Properties *)

(** Connecting is a physical connect and then, if that succeeds, exactly what
    the startup asks for.  An error of either closes the connection and, once
    closed, is what connecting reports, whatever the close itself reports; there
    is no close on success, and nothing is asked for afterwards. *)
Theorem connect_exact {ssl : OpenSSL} {alloc : Allocator} cs es params random st :
  connect_run cs es params random st =
    match es with
    | [] => Some [connect_connect]
    | (Some e, _) :: es' => Some (connect_connect :: connect_close :: match es' with [] => [] | _ => [connect_done (Some e)] end)
    | (None, _) :: es' =>
        trace ← startup_only cs es' params random st;
        Some (connect_connect :: as_connect (length trace <=? length es')%nat trace)
    end.
Proof.
  unfold connect_run, startup_only. cbn [make_connect connect_resume cf_point mbind option_bind].
  destruct es as [|[[e|] data] es]; [done|by destruct es as [|? []]|].
  cbn [connect_trace fst snd]. unfold connect_resume. cbn [cf_point make_connect startup_ stored_ec_ mbind option_bind].
  rewrite connect_startup_from. cbn [cf_point stored_ec_ startup_].
  assert (startup_resume cs (make_startup params random) st (shared_diag st) None (Z.of_nat (length data)) =
    startup_resume cs (make_startup params random) st (shared_diag st) None 0) as -> by done.
  destruct (startup_resume _ _ _ _ _ _) as [[[[r s] st'] diag]|]; [|done]. cbn [mbind option_bind].
  pose proof (connect_trace_from cs es 1 None r s (set_shared_diag diag st')) as H.
  destruct (from_startup 1 None r s) as [c x]. cbn [fst snd] in H. rewrite H. by destruct (startup_trace _ _ _ _ _).
Qed.
