(* ===== verification/Connection.v ===== *)
(** * Connection objects ([include/nativepg/connection.hpp], [src/src/co_connection.cpp])

    The two objects that perform what the state machines ask for: [connection], made
    of composed operations of Boost.Asio, and [co_connection], made of coroutines.
    The I/O is a parameter: an operation is started, and an event is its completion,
    with its error and the bytes that were read.

    A composed operation is a handler that every completion calls; it starts other
    operations and completes the whole.  [op_step] runs such a handler against any
    order of completions. *)

From stdpp Require Import base list option relations.
From Stdlib Require Import ZArith Lia.
From S2P Require Import Prelude Errors BackendMessages Request ReadResponse ReadResponseSpec ReadResponseGrammar ReadBuffer.
From S2P Require Import FrontendMessages Scram Startup Exec Connect.

#[local] Open Scope Z_scope.

(** ** Operations *)

(** What is started on the socket, the resolver, or as an operation of its own. *)
Inductive io_op := Op_write (data : bytes) | Op_read | Op_resolve | Op_connect_endpoints | Op_physical_connect.

(** What the call of a handler does: start an operation, or complete with a result. *)
Inductive action (R : Type) := Start (op : io_op) | Complete (r : R).
Arguments Start {R} op.
Arguments Complete {R} r.

Definition started {R} (acts : list (action R)) : list io_op :=
  omap (fun a => match a with Start op => Some op | Complete _ => None end) acts.
Definition completed {R} (acts : list (action R)) : list R :=
  omap (fun a => match a with Start _ => None | Complete r => Some r end) acts.

(** The operations that have not completed, the state, and the results given so far. *)
Record world (S R : Type) := World { w_pending : list io_op; w_state : S; w_results : list R }.
Arguments World {S R} _ _ _.
Arguments w_pending {S R} _.
Arguments w_state {S R} _.
Arguments w_results {S R} _.

Section composed.
Context {S R : Type} (handle : S -> io_op -> event -> option (list (action R) * S)).

(** One of the operations completes. *)
Inductive op_step : world S R -> world S R -> Prop :=
| op_completes l1 op l2 s rs e acts s' : handle s op e = Some (acts, s') ->
op_step (World (l1 ++ op :: l2) s rs) (World (l1 ++ l2 ++ started acts) s' (rs ++ completed acts)).

(** The initiating call. *)
Definition start_world (r : list (action R) * S) : world S R := World (started r.1) r.2 (completed r.1).

(** The completions in the order of [es], as long as one operation is pending:
the operations started, the result, and the state that is left. *)
Fixpoint op_trace (es : list event) (acts : list (action R)) (s : S) : option (list io_op * option R * S) :=
match acts with
| [Complete r] => Some ([], Some r, s)
| [Start op] =>
match es with
| [] => Some ([op], None, s)
| e :: es' => '(acts, s) ← handle s op e; '(t, r, s) ← op_trace es' acts s; Some (op :: t, r, s)
end
| _ => None
end.

(** Handlers that do one thing at a time complete once, and only when nothing is left. *)
Lemma started_completed (acts : list (action R)) : (length (started acts) + length (completed acts) = length acts)%nat.
Proof. induction acts as [|[op|r] acts IH]; cbn; unfold started, completed in *; lia. Qed.

Lemma one_action_invariant : (forall s op e acts s', handle s op e = Some (acts, s') -> length acts = 1%nat) ->
forall w w', rtc op_step w w' -> (length (w_pending w) + length (w_results w) = 1)%nat ->
(length (w_pending w') + length (w_results w') = 1)%nat.
Proof.
intros Hone w w' Hsteps. induction Hsteps as [w|w w1 w' Hstep _ IH]; [done|]. intros Hw. apply IH. clear IH.
destruct Hstep as [l1 op l2 s rs e acts s' Hh]. apply Hone in Hh. pose proof (started_completed acts) as Hl.
cbn in *. rewrite !length_app in *. cbn in Hw. lia.
Qed.
End composed.

(** ** exec *)

Section exec.
Context {alloc : Allocator} {H : Type} `{!ResponseHandler H}.

(** A read puts its bytes where the machine asked for them. *)
Definition op_received (op : io_op) (e : event) (st : connection_state) : connection_state :=
match op with Op_read => received e st | _ => st end.

(** [exec_op::operator()], for the initiating call and for each completion. *)
Definition exec_op_call (x : exec_fsm H) (st : connection_state) (ec : error_code) (bytes_transferred : Z)
: option (list (action extended_error) * (exec_fsm H * connection_state)) :=
'(res, x, st) ← exec_resume x st ec bytes_transferred;
let acts :=
match res with
| io_write data => [Start (Op_write data)]
| io_read => [Start Op_read]
| io_done ec => [Complete (exec_get_result x ec)]
end in
Some (acts, (x, st)).

Definition exec_op_handle (s : exec_fsm H * connection_state) (op : io_op) (e : event)
: option (list (action extended_error) * (exec_fsm H * connection_state)) :=
exec_op_call s.1 (op_received op e s.2) e.1 (Z.of_nat (length e.2)).

Definition async_exec (req : request) (handler : H) (st : connection_state) :=
exec_op_call (make_exec req handler) st None 0.

(** The loop of [co_connection::exec], from the result of a resumption on. *)
Fixpoint co_exec_loop (es : list event) (res : io_result) (x : exec_fsm H) (st : connection_state)
: option (list io_op * option extended_error * (exec_fsm H * connection_state)) :=
match res with
| io_done ec => Some ([], Some (exec_get_result x ec), (x, st))
| io_write data =>
match es with
| [] => Some ([Op_write data], None, (x, st))
| (ec, bs) :: es' =>
    '(res, x, st) ← exec_resume x st ec (Z.of_nat (length bs));
    '(t, r, s) ← co_exec_loop es' res x st; Some (Op_write data :: t, r, s)
end
| io_read =>
match es with
| [] => Some ([Op_read], None, (x, st))
| (ec, bs) :: es' =>
    '(res, x, st) ← exec_resume x (received (ec, bs) st) ec (Z.of_nat (length bs));
    '(t, r, s) ← co_exec_loop es' res x st; Some (Op_read :: t, r, s)
end
end.

Definition co_exec (es : list event) (req : request) (handler : H) (st : connection_state)
: option (list io_op * option extended_error * (exec_fsm H * connection_state)) :=
'(res, x, st) ← exec_resume (make_exec req handler) st None 0;
co_exec_loop es res x st.
End exec.

(** ** connect *)

Section connect.
Context {ssl : OpenSSL} (char_signed : bool) {alloc : Allocator}.

(** [connect_op::operator()]; [close_ec] is what closing the socket reports.  The
handler calls itself after the close: two calls are enough. *)
Fixpoint connect_op_calls (fuel : nat) (close_ec : error_code) (x : connect_fsm) (st : connection_state) (ec : error_code)
(bytes_transferred : Z) : option (list (action extended_error) * (connect_fsm * connection_state)) :=
match fuel with
| O => None
| Datatypes.S fuel' =>
'(res, x, st) ← connect_resume char_signed x st ec bytes_transferred;
match res with
| connect_write data => Some ([Start (Op_write data)], (x, st))
| connect_read => Some ([Start Op_read], (x, st))
| connect_connect => Some ([Start Op_physical_connect], (x, st))
| connect_close => connect_op_calls fuel' close_ec x st close_ec 0
| connect_done ec => Some ([Complete (EE ec (shared_diag st))], (x, st))
end
end.

Definition connect_op_call := connect_op_calls 2.

Definition connect_op_handle (close_ec : error_code) (s : connect_fsm * connection_state) (op : io_op) (e : event)
: option (list (action extended_error) * (connect_fsm * connection_state)) :=
connect_op_call close_ec s.1 (op_received op e s.2) e.1
(match op with Op_physical_connect => 0 | _ => Z.of_nat (length e.2) end).

Definition async_connect (close_ec : error_code) (params : connect_params) (random : error + bytes) (st : connection_state) :=
connect_op_call close_ec (make_connect params random) st None 0.

(** The loop of [co_connection::connect].  The close is synchronous; [fuel] counts
the iterations. *)
Fixpoint co_connect_loop (fuel : nat) (es : list event) (res : connect_result) (x : connect_fsm) (st : connection_state)
: option (list io_op * option extended_error * (connect_fsm * connection_state)) :=
match fuel with
| O => None
| Datatypes.S fuel' =>
let await (op : io_op) (resume_with : event -> option (connect_result * connect_fsm * connection_state)) :=
  match es with
  | [] => Some ([op], None, (x, st))
  | e :: es' => '(res, x, st) ← resume_with e; '(t, r, s) ← co_connect_loop fuel' es' res x st; Some (op :: t, r, s)
  end in
match res with
| connect_write data => await (Op_write data) (fun e => connect_resume char_signed x st e.1 (Z.of_nat (length e.2)))
| connect_read => await Op_read (fun e => connect_resume char_signed x (received e st) e.1 (Z.of_nat (length e.2)))
| connect_connect => await Op_physical_connect (fun e => connect_resume char_signed x st e.1 0)
| connect_close => '(res, x, st) ← connect_resume char_signed x st None 0; co_connect_loop fuel' es res x st
| connect_done ec => Some ([], Some (EE ec (shared_diag st)), (x, st))
end
end.

(** An iteration for each event, one for the close and one to be done. *)
Definition co_connect (es : list event) (params : connect_params) (random : error + bytes) (st : connection_state)
: option (list io_op * option extended_error * (connect_fsm * connection_state)) :=
'(res, x, st) ← connect_resume char_signed (make_connect params random) st None 0;
co_connect_loop (3 + length es) es res x st.
End connect.

(** ** The physical connection *)

(** [physical_connect_op]: the resolver is asked first.  Its handler does not return
    when resolving has failed. *)
Definition async_physical_connect : list (action error_code) * unit := ([Start Op_resolve], tt).

Definition physical_connect_handle (s : unit) (op : io_op) (e : event) : option (list (action error_code) * unit) :=
  match op with
  | Op_resolve =>
      Some ((match e.1 with Some ec => [Complete (Some ec)] | None => [] end) ++ [Start Op_connect_endpoints], tt)
  | Op_connect_endpoints => Some ([Complete e.1], tt)
  | _ => None
  end.

(** [co_connection::impl::physical_connect], given the two completions. *)
Definition co_physical_connect (resolved connected : error_code) : error_code :=
  match resolved with Some ec => Some ec | None => connected end.

(** ** Agreement of the two objects *)

Section agreement.
Context {alloc : Allocator} {H : Type} `{!ResponseHandler H}.

Lemma exec_loops_agree es : forall res (x : exec_fsm H) st,
op_trace exec_op_handle es
(match res with io_write data => [Start (Op_write data)] | io_read => [Start Op_read] | io_done ec => [Complete (exec_get_result x ec)] end)
(x, st) = co_exec_loop es res x st.
Proof.
induction es as [|[ec bs] es IH]; intros res x st; [by destruct res|].
destruct res as [ec'|data|]; [done| |]; cbn [op_trace co_exec_loop]; unfold exec_op_handle, exec_op_call; cbn [fst snd op_received].
- destruct (exec_resume x st ec _) as [[[res' x'] st']|]; [|done]. cbn [mbind option_bind]. by rewrite IH.
- destruct (exec_resume x (received (ec, bs) st) ec _) as [[[res' x'] st']|]; [|done]. cbn [mbind option_bind]. by rewrite IH.
Qed.

Context {ssl : OpenSSL} (char_signed : bool).

(** A close is asked for at the points where the machine only has its error left to report. *)
Lemma close_then_done x st ec n x' st' : connect_resume char_signed x st ec n = Some (connect_close, x', st') ->
forall st2 ec2, connect_resume char_signed x' st2 ec2 0 = Some (connect_done (stored_ec_ x'), x', st2).
Proof.
intros Hr. assert (cf_point x' = 2 \/ cf_point x' = 4)%nat as Hp.
{ unfold connect_resume, connect_startup in Hr. destruct (cf_point x) as [|[|[|[|[|]]]]]; [done| |done| |done|done].
- destruct ec; [injection Hr as <- _; by left|]. destruct (startup_resume _ _ _ _ _ _) as [[[[[[e|]| |] s] st1] d]|]; cbn in Hr; try done.
injection Hr as <- _; by right.
- destruct (startup_resume _ _ _ _ _ _) as [[[[[[e|]| |] s] st1] d]|]; cbn in Hr; try done. injection Hr as <- _; by right. }
intros st2 ec2. unfold connect_resume. by destruct Hp as [-> | ->].
Qed.

(** What the handler of [connection] does with the result of a resumption. *)
Definition connect_acts (close_ec : error_code) (res : connect_result) (x : connect_fsm) (st : connection_state) :=
match res with
| connect_write data => Some ([Start (Op_write data)], (x, st))
| connect_read => Some ([Start Op_read], (x, st))
| connect_connect => Some ([Start Op_physical_connect], (x, st))
| connect_close => connect_op_calls char_signed 1 close_ec x st close_ec 0
| connect_done ec => Some ([Complete (EE ec (shared_diag st))], (x, st))
end.

Lemma connect_call_acts close_ec x st ec n : connect_op_call char_signed close_ec x st ec n =
('(res, x, st) ← connect_resume char_signed x st ec n; connect_acts close_ec res x st).
Proof. done. Qed.

(** The result of a resumption, with what follows from it when it is a close. *)
Definition sound_result (res : connect_result) (x : connect_fsm) : Prop :=
res = connect_close -> forall st ec, connect_resume char_signed x st ec 0 = Some (connect_done (stored_ec_ x), x, st).

Lemma resume_sound x st ec n res x' st' : connect_resume char_signed x st ec n = Some (res, x', st') -> sound_result res x'.
Proof. intros Hr ->. by eapply close_then_done. Qed.

Lemma connect_loops_agree close_ec es : forall fuel res x st, (2 + length es <= fuel)%nat -> sound_result res x ->
('(acts, s) ← connect_acts close_ec res x st; op_trace (connect_op_handle char_signed close_ec) es acts s) =
co_connect_loop char_signed fuel es res x st.
Proof.
induction es as [|e es IH]; intros [|fuel] res x st Hf Hres; cbn [length] in Hf; try lia;
destruct res as [ec| |data| |]; cbn [connect_acts co_connect_loop mbind option_bind op_trace]; try done;
[destruct fuel; [lia|]; cbn [connect_op_calls]; rewrite !Hres by done; done|..| ];
[..|destruct fuel; [lia|]; cbn [connect_op_calls]; rewrite !Hres by done; done];
unfold connect_op_handle; cbn [fst snd op_received]; rewrite connect_call_acts;
match goal with |- context [connect_resume ?c ?x ?st ?ec ?n] => destruct (connect_resume c x st ec n) as [[[res' x'] st']|] eqn:E end;
try done; cbn [mbind option_bind]; rewrite <- (IH fuel res' x' st') by (lia || by eapply resume_sound);
by destruct (connect_acts close_ec res' x' st') as [[acts s]|].
Qed.
End agreement.

(** From the initiating calls on. *)
Lemma async_exec_agrees {alloc : Allocator} {H : Type} `{!ResponseHandler H} es (req : request) (h : H) st :
  ('(acts, s) ← async_exec req h st; op_trace exec_op_handle es acts s) = co_exec es req h st.
Proof.
  unfold async_exec, exec_op_call, co_exec. destruct (exec_resume _ _ _ _) as [[[res x] st']|]; [|done].
  apply exec_loops_agree.
Qed.

Lemma async_connect_agrees {ssl : OpenSSL} {alloc : Allocator} cs es close_ec params random st :
  ('(acts, s) ← async_connect cs close_ec params random st; op_trace (connect_op_handle cs close_ec) es acts s) =
  co_connect cs es params random st.
Proof.
  unfold async_connect, co_connect. rewrite connect_call_acts. destruct (connect_resume _ _ _ _ _) as [[[res x] st']|] eqn:E; [|done].
  apply connect_loops_agree; [lia|]. by eapply resume_sound.
Qed.

(** ** Properties *)



Definition sample_op : exec_fsm trace * connection_state := (Exec 1 (make_fsm sample_request [] false), sample_state).

(** The write of the request fails. *)
Lemma sample_op_step : op_step (@exec_op_handle zero_alloc trace _)
  (start_world ([Start (Op_write (rq_buffer sample_request))], sample_op)) (World [] sample_op [EE (Some (external_error 32)) []]).
Proof. exact (op_completes _ [] (Op_write _) [] sample_op [] (Some (external_error 32), []) [Complete (EE (Some (external_error 32)) [])] sample_op eq_refl). Qed.


(** The physical connection of [connection] does not: when resolving fails it is
    completed, goes on to connect, and is completed again.  That of
    [co_connection] reports the error of resolving. *)
Theorem resolve_failure_completes_twice ec connected bs bs' :
  (exists w, rtc (op_step physical_connect_handle) (start_world async_physical_connect) w /\
    w_results w = [Some ec; connected] /\ w_pending w = []) /\
  op_trace physical_connect_handle [(Some ec, bs); (connected, bs')] [Start Op_resolve] tt = None /\
  co_physical_connect (Some ec) connected = Some ec.
Proof.
  split; [|done]. exists (World [] tt [Some ec; connected]). split; [|done].
  eapply rtc_l; [exact (op_completes physical_connect_handle [] Op_resolve [] tt [] (Some ec, bs) _ _ eq_refl)|].
  apply rtc_once. exact (op_completes physical_connect_handle [] Op_connect_endpoints [] tt [Some ec] (connected, bs') _ _ eq_refl).
Qed.

(** When resolving succeeds, both report what connecting does. *)
Theorem physical_connects_agree connected bs bs' :
  op_trace physical_connect_handle [(None, bs); (connected, bs')] [Start Op_resolve] tt =
  Some ([Op_resolve; Op_connect_endpoints], Some (co_physical_connect None connected), tt).
Proof. done. Qed.
