(* ===== verification/Streaming.v ===== *)
(** * Streaming on a connection object
    ([include/nativepg/co_connection.hpp], [src/src/co_connection.cpp])

    [co_connection] keeps the machine of a streamed request between the calls of
    [exec_some]: [setup_request] makes it, and it goes away when the request is done.
    [ExecSome] says what the machine does with a network that never fails; here the
    operations of the stream can fail, and each of them is an event, as in
    [Connect]: an error, or the bytes of a read.  A relation says what a call does;
    where it does not hold, an assertion fails or the call is still suspended. *)

From stdpp Require Import base list option.
From Stdlib Require Import ZArith Lia.
From S2P Require Import Prelude Errors BackendMessages ParseMessage Request ReadResponse ReadResponseSpec ReadResponseGrammar.
From S2P Require Import ReadBuffer MessagePump FrontendMessages Scram Startup Exec ExecSome Connect.

#[local] Open Scope Z_scope.

(** ** exec_some_result *)

Inductive exec_some_result := R_done | R_copy_out (v : copy_response) | R_copy_out_data (buffers : list bytes) (is_eof : bool).

(** The accessors assert the kind. *)
Definition get_copy_out (r : exec_some_result) : option copy_response :=
  match r with R_copy_out v => Some v | _ => None end.
Definition get_copy_out_data (r : exec_some_result) : option (list bytes) :=
  match r with R_copy_out_data buffers _ => Some buffers | _ => None end.
Definition get_copy_out_eof (r : exec_some_result) : option bool :=
  match r with R_copy_out_data _ is_eof => Some is_eof | _ => None end.

(** What the user of [exec_some] sees of a result. *)
Definition result_event (r : exec_some_result) : option copy_event :=
  match r with R_done => None | R_copy_out v => Some (Ev_copy_out v) | R_copy_out_data buffers eof => Some (Ev_data buffers eof) end.

(** ** The connection *)

(** [cs_handler] is the handler of the last request, which belongs to the user: the
    machine only refers to it, and its own [handler_] is what it has become. *)
Record co_stream (H : Type) := CoStream {
  cs_buffer : read_buffer;
  copy_out_buffers : list bytes;
  cs_fsm : option (exec_some_fsm H);
  cs_handler : option H
}.
Arguments CoStream {H} _ _ _ _.
Arguments cs_buffer {H} _.
Arguments copy_out_buffers {H} _.
Arguments cs_fsm {H} _.
Arguments cs_handler {H} _.

Section streaming.
Context {alloc : Allocator} {H : Type} `{!ResponseHandler H}.

(** With the machine [x] waiting to be resumed. *)
Definition streaming (rb : read_buffer) (buffs : list bytes) (x : exec_some_fsm H) : co_stream H :=
CoStream rb buffs (Some x) (Some (handler_ (es_fsm x))).

(** [setup_request] asserts that no request is being streamed. *)
Definition co_setup_request (req : request) (handler : H) (c : co_stream H) : option (co_stream H) :=
match cs_fsm c with
| Some _ => None
| None => Some (CoStream (cs_buffer c) (copy_out_buffers c) (Some (make_exec_some req handler)) (Some handler))
end.

(** [read_some_messages]: the error, the events that are left and the buffer.  The
bytes of a read that fails are not committed. *)
Fixpoint read_messages (es : list event) (rb : read_buffer) : option (error_code * list event * read_buffer) :=
match message_missing_bytes (committed_area rb) with
| O => Some (None, es, rb)
| missing_bytes =>
rb ← prepare (Z.of_nat missing_bytes) rb;
match es with
| [] => None
| (Some ec, _) :: es' => Some (Some ec, es', rb)
| (None, bs) :: es' =>
    if (length bs <=? Z.to_nat (prepared_size rb))%nat then read_messages es' (receive bs rb) else None
end
end.

(** The loop of [exec_some], after [resume] has given the action of the state [s]:
the bytes written, the result, the events left and the connection. *)
Inductive exec_some_loop : list event -> some_state -> bytes -> error_code * exec_some_result -> list event -> co_stream H -> Prop :=
| xl_done es ec x rb buffs :
exec_some_loop es (some_done ec, x, rb, buffs) [] (ec, R_done) es (CoStream rb buffs None (Some (handler_ (es_fsm x))))
| xl_copy_out es v x rb buffs :
exec_some_loop es (some_copy_out v, x, rb, buffs) [] (None, R_copy_out v) es (streaming rb buffs x)
| xl_copy_data es x rb buffs :
exec_some_loop es (some_copy_data, x, rb, buffs) [] (None, R_copy_out_data buffs false) es (streaming rb buffs x)
| xl_copy_eof es x rb buffs :
exec_some_loop es (some_copy_data_with_eof, x, rb, buffs) [] (None, R_copy_out_data buffs true) es (streaming rb buffs x)
| xl_write_error es ec bs x rb buffs :
exec_some_loop ((Some ec, bs) :: es) (some_write, x, rb, buffs) (rq_buffer (req_ (es_fsm x))) (Some ec, R_done) es
(streaming rb buffs x)
| xl_write es bs x rb buffs s written r es' c : exec_some_resume x rb buffs = Some s ->
exec_some_loop es s written r es' c ->
exec_some_loop ((None, bs) :: es) (some_write, x, rb, buffs) (rq_buffer (req_ (es_fsm x)) ++ written) r es' c
| xl_read_error es ec es' x rb rb' buffs : read_messages es rb = Some (Some ec, es', rb') ->
exec_some_loop es (some_read, x, rb, buffs) [] (Some ec, R_done) es' (streaming rb' buffs x)
| xl_read es es1 x rb rb1 buffs s written r es' c : read_messages es rb = Some (None, es1, rb1) ->
exec_some_resume x rb1 buffs = Some s -> exec_some_loop es1 s written r es' c ->
exec_some_loop es (some_read, x, rb, buffs) written r es' c.

(** A call of [exec_some], which asserts that a request is being streamed. *)
Inductive exec_some (es : list event) (c : co_stream H) : bytes -> error_code * exec_some_result -> list event -> co_stream H -> Prop :=
| exec_some_call x s written r es' c' : cs_fsm c = Some x -> exec_some_resume x (cs_buffer c) (copy_out_buffers c) = Some s ->
exec_some_loop es s written r es' c' -> exec_some es c written r es' c'.

(** The user calls [exec_some] until a result without data. *)
Inductive stream_calls : list event -> co_stream H -> bytes -> list copy_event -> error_code -> list event -> co_stream H -> Prop :=
| calls_done es c written ec es' c' : exec_some es c written (ec, R_done) es' c' ->
stream_calls es c written [] ec es' c'
| calls_event es c written ec r ev es1 c1 written' evs ec' es' c' : exec_some es c written (ec, r) es1 c1 ->
result_event r = Some ev -> stream_calls es1 c1 written' evs ec' es' c' ->
stream_calls es c (written ++ written') (ev :: evs) ec' es' c'.

(** ** Delivery *)

(** No operation fails, and no read gives more than its size in [sizes]. *)
Inductive reads_within : list nat -> list event -> Prop :=
| within_nil sizes : reads_within sizes []
| within_write sizes es : reads_within sizes es -> reads_within sizes ((None, []) :: es)
| within_read n sizes bs es : (length bs <= n)%nat -> reads_within sizes es -> reads_within (n :: sizes) ((None, bs) :: es).

Definition event_bytes (es : list event) : bytes := concat (map snd es).

Lemma event_bytes_cons e es : event_bytes (e :: es) = e.2 ++ event_bytes es.
Proof. done. Qed.

Lemma event_bytes_app es es' : event_bytes (es ++ es') = event_bytes es ++ event_bytes es'.
Proof. unfold event_bytes. by rewrite map_app, concat_app. Qed.

(** Reads of given sizes are events without errors. *)
Lemma read_messages_sizes sizes : forall stream rb sizes1 stream1 rb1,
read_some_messages sizes stream rb = Some (sizes1, stream1, rb1) ->
exists es, (forall es2, reads_within sizes1 es2 -> reads_within sizes (es ++ es2)) /\ event_bytes es ++ stream1 = stream /\
forall es', read_messages (es ++ es') rb = Some (None, es', rb1).
Proof.
induction sizes as [|n sizes IH]; intros stream rb sizes1 stream1 rb1; cbn [read_some_messages];
(destruct (message_missing_bytes (committed_area rb)) as [|k] eqn:Hk;
[intros [= <- <- <-]; exists []; split_and!; [done|done|];
 intros [|e es']; cbn [app read_messages]; by rewrite Hk|]);
(destruct (prepare (Z.of_nat (S k)) rb) as [rb'|] eqn:Hp; [|done]); cbn [mbind option_bind]; [done|].
set (data := take _ stream). intros Hr. destruct (IH _ _ _ _ _ Hr) as (es & He & Hb & Hm).
exists ((None, data) :: es). split_and!; [| |].
- intros es2 H2. constructor; [unfold data; rewrite length_take; lia|by apply He].
- rewrite event_bytes_cons, <- app_assoc, Hb. unfold data. cbn [snd]. apply take_drop_len.
- intros es'. cbn [app read_messages]. rewrite Hk, Hp. cbn [mbind option_bind].
rewrite (proj2 (Nat.leb_le _ _)); [apply Hm|]. unfold data. rewrite length_take. lia.
Qed.

(** What is left of a call, and the calls after it. *)
Definition calls_from (es : list event) (s : some_state) (written : bytes) (evs : list copy_event) (ec : error_code)
(es' : list event) (c' : co_stream H) : Prop :=
(evs = [] /\ exec_some_loop es s written (ec, R_done) es' c') \/
exists w1 ec1 r ev es1 c1 w2 evs', exec_some_loop es s w1 (ec1, r) es1 c1 /\ result_event r = Some ev /\
stream_calls es1 c1 w2 evs' ec es' c' /\ written = w1 ++ w2 /\ evs = ev :: evs'.

Lemma calls_from_calls es (c : co_stream H) x s written evs ec es' c' : cs_fsm c = Some x ->
exec_some_resume x (cs_buffer c) (copy_out_buffers c) = Some s -> calls_from es s written evs ec es' c' ->
stream_calls es c written evs ec es' c'.
Proof.
intros Hx Hs [[-> Hl]|(w1 & ec1 & r & ev & es1 & c1 & w2 & evs' & Hl & Hr & Hc & -> & ->)].
- by eapply calls_done, exec_some_call.
- by eapply calls_event; [eapply exec_some_call|..].
Qed.

(** A step of the loop before the rest of the call. *)
Lemma calls_from_step es es1 s s1 w0 written evs ec es' c' :
(forall w r es2 c2, exec_some_loop es1 s1 w r es2 c2 -> exec_some_loop es s (w0 ++ w) r es2 c2) ->
calls_from es1 s1 written evs ec es' c' -> calls_from es s (w0 ++ written) evs ec es' c'.
Proof.
intros Hstep [[-> Hl]|(w1 & ec1 & r & ev & es2 & c1 & w2 & evs' & Hl & Hr & Hc & -> & ->)]; [left; by auto|].
right. exists (w0 ++ w1), ec1, r, ev, es2, c1, w2, evs'. split_and!; [by apply Hstep|done..|by rewrite app_assoc|done].
Qed.

(** A call that returns an event, and the next call. *)
Lemma calls_from_event es s r ev x rb buffs s1 written evs ec es' c' :
exec_some_loop es s [] (None, r) es (streaming rb buffs x) -> result_event r = Some ev ->
exec_some_resume x rb buffs = Some s1 -> calls_from es s1 written evs ec es' c' ->
calls_from es s written (ev :: evs) ec es' c'.
Proof.
intros Hl Hr Hs Hc. right. exists [], None, r, ev, es, (streaming rb buffs x), written, evs.
split_and!; [done..| |done|done]. by eapply calls_from_calls.
Qed.

(** The calls follow the session of the machine. *)
Lemma session_calls sizes stream s written evs ec x rb rest : copy_session sizes stream s written evs ec x rb rest ->
exists es buffs, reads_within sizes es /\ event_bytes es ++ rest = stream /\
calls_from es s written evs ec [] (CoStream rb buffs None (Some (handler_ (es_fsm x)))).
Proof.
induction 1 as [sizes stream ec x rb buffs
|sizes stream x rb buffs s written evs ec x' rb' rest Hs _ (es & b & He & Hb & Hc)
|sizes stream sizes1 stream1 x rb rb1 buffs s written evs ec x' rb' rest Hr Hs _ (es & b & He & Hb & Hc)
|sizes stream v x rb buffs s written evs ec x' rb' rest Hs _ (es & b & He & Hb & Hc)
|sizes stream x rb buffs s written evs ec x' rb' rest Hs _ (es & b & He & Hb & Hc)
|sizes stream x rb buffs s written evs ec x' rb' rest Hs _ (es & b & He & Hb & Hc)].
- exists [], buffs. split_and!; [constructor|done|]. left. split; [done|constructor].
- exists ((None, []) :: es), b. split_and!; [by apply within_write|done|].
eapply calls_from_step; [|exact Hc]. intros w r es2 c2 Hl. by eapply xl_write.
- destruct (read_messages_sizes _ _ _ _ _ _ Hr) as (es1 & He1 & Hb1 & Hm). exists (es1 ++ es), b.
split_and!; [by apply He1|by rewrite event_bytes_app, <- app_assoc, Hb|].
eapply (calls_from_step _ es _ s []); [|exact Hc]. intros w r es2 c2 Hl. by eapply xl_read.
- exists es, b. split_and!; [done..|]. by eapply calls_from_event; [apply xl_copy_out| |exact Hs|].
- exists es, b. split_and!; [done..|]. by eapply calls_from_event; [apply xl_copy_data| |exact Hs|].
- exists es, b. split_and!; [done..|]. by eapply calls_from_event; [apply xl_copy_eof| |exact Hs|].
Qed.

(** The machine clears the buffers before it writes. *)
Lemma first_resume req (h : H) rb buffs s : exec_some_resume (make_exec_some req h) rb [] = Some s ->
check_request req = None -> (forall r h0, setup req 0 h = Some (r, h0) -> hs_ec r = None /\ hs_offset r = length (rq_types req)) ->
exec_some_resume (make_exec_some req h) rb buffs = Some s.
Proof.
unfold exec_some_resume, setup_request. cbn [make_exec_some es_resume_point es_fsm make_fsm req_ handler_].
intros Hs Hc Hok. rewrite Hc in *. destruct (setup req 0 h) as [[r h0]|]; [|done].
destruct (Hok r h0 eq_refl) as [He Ho]. cbn [mbind option_bind] in *. by rewrite He, Ho, Nat.eqb_refl in *.
Qed.
End streaming.



(** An error of the stream ends [exec_some] as the end of the request does, with no
    data; but the machine stays, and the next [setup_request] fails its assertion. *)
Theorem failed_stream_not_reusable {alloc : Allocator} {H : Type} `{!ResponseHandler H} req (h h0 : H) (c : co_stream H) ec bs :
  cs_fsm c = None -> check_request req = None ->
  setup req 0 h = Some (setup_ok (length (rq_types req)), h0) ->
  exists c0 c1, co_setup_request req h c = Some c0 /\
    exec_some [(Some ec, bs)] c0 (rq_buffer req) (Some ec, R_done) [] c1 /\
    forall req' h2, co_setup_request req' h2 c1 = None.
Proof.
  intros Hf Hc Hs. eexists _, _. split; [unfold co_setup_request; by rewrite Hf|]. split.
  - eapply exec_some_call; [done| |exact (xl_write_error [] ec bs (ExecSome 1 0 (make_fsm req h0 true)) (cs_buffer c) [])]. unfold exec_some_resume, setup_request.
    cbn [make_exec_some es_resume_point es_fsm make_fsm req_ handler_ cs_fsm]. rewrite Hc, Hs.
    cbn [mbind option_bind setup_ok hs_ec hs_offset]. by rewrite Nat.eqb_refl.
  - done.
Qed.
