(* ===== verification/ConnectionSession.v ===== *)
(** * A session over a connection object

    [co_connection] connects and then executes requests, on one state: the buffer, the
    process of the server and the diagnostics that the login leaves are those the
    execution begins with.  [StartupSession] and [Exec] follow the two machines over a
    network of reads; here these runs become runs of the object, for the same I/O, and
    are put one after the other. *)

From stdpp Require Import base list option.
From Stdlib Require Import ZArith Lia.
From S2P Require Import Prelude Errors Views BackendMessages ParseMessage BackendWire FrontendMessages FrontendSpec Request.
From S2P Require Import ReadResponse ReadResponseSpec ReadResponseGrammar ReadBuffer MessagePump Exec.
From S2P Require Import Scram Startup StartupSession Connect Connection Streaming.

#[local] Open Scope Z_scope.

(** The data written by a list of operations. *)
Definition op_writes (ops : list io_op) : list bytes :=
  omap (fun op => match op with Op_write data => Some data | _ => None end) ops.

Lemma op_writes_write data ops : op_writes (Op_write data :: ops) = data :: op_writes ops.
Proof. done. Qed.

(** ** The diagnostics are none of the login's business *)

Lemma pump_map `{Allocator} {R S} (step : any_backend_message -> S -> option (option R * S)) (g : S -> S) :
  (forall m x, step m (g x) = ('(r, y) ← step m x; Some (r, g y))) ->
  forall fuel rb x, pump_loop step fuel rb (g x) = ('(r, rb, y) ← pump_loop step fuel rb x; Some (r, rb, g y)).
Proof.
  intros Hg fuel. induction fuel as [|fuel IH]; intros rb x; [done|]. cbn [pump_loop].
  destruct (pm_ec (parse_message (committed_area rb))) as [e|].
  - destruct e as [[]| | |]; try done. by destruct (prepare _ rb).
  - rewrite Hg. destruct (step _ x) as [[[r|] y]|]; [done| |done]. apply IH.
Qed.

Section login.
Context {ssl : OpenSSL} (char_signed : bool) {alloc : Allocator}.

Abbreviation login := (startup_fsm_impl * connection_state * bytes)%type.

Definition with_shared (d : bytes) (l : login) : login :=
let '(x, st, diag) := l in (x, set_shared_diag d st, diag).

Lemma impl_resume_shared d m l : impl_resume char_signed m (with_shared d l) =
('(r, l) ← impl_resume char_signed m l; Some (r, with_shared d l)).
Proof.
destruct l as [[x st] diag]. cbn [with_shared impl_resume].
destruct (impl_point x) as [|[|[|[|[|[|[|[|[|]]]]]]]]]; cbn [mbind option_bind]; try done.
- destruct (serialize_startup _ _) as [[e|] wb]; done.
- unfold authentication_request. destruct m; cbn [check_unknown_auth_methods mbind option_bind]; try done;
  unfold after_authentication; cbn [handle_auth_response]; try done.
+ destruct (supports_scram_sha256 v) as [[]|]; cbn [negb mbind option_bind]; try done.
  cbn [set_shared_diag write_buffer].
  destruct (on_init (generate_nonce (random_ x)) (scram_fsm_ x) (write_buffer st)) as [[[e|] f] wb]; done.
+ destruct (process_error v) as [[e|] e']; done.
- unfold server_first_message_step. destruct m; try done. cbn [set_shared_diag write_buffer].
destruct (on_server_first char_signed data _ (scram_fsm_ x) (write_buffer st)) as [[[[e|] f] wb]|]; done.
- unfold server_final_message_step. destruct m; try done.
destruct (on_server_final char_signed data (scram_fsm_ x)) as [[e|]|]; done.
- unfold after_authentication. destruct (handle_auth_response m diag) as [[e|] e']; done.
- unfold startup_message_step. destruct m; done.
Qed.

Lemma startup_step_shared d m l : startup_step char_signed m (with_shared d l) =
('(r, l) ← startup_step char_signed m l; Some (r, with_shared d l)).
Proof.
unfold startup_step. rewrite impl_resume_shared. by destruct (impl_resume char_signed m l) as [[[ec| |] l']|].
Qed.

(** The outcome of [startup_resume], with other diagnostics in the state. *)
Definition outcome_shared (d : bytes) (r : io_result * startup_fsm * connection_state * bytes) :=
let '(r, x, st, diag) := r in (r, x, set_shared_diag d st, diag).

Lemma startup_reading_shared d p l : startup_reading char_signed p (with_shared d l) =
outcome_shared d <$> startup_reading char_signed p l.
Proof.
destruct l as [[x st] diag]. unfold startup_reading. cbn [with_shared]. unfold pump.
change (st_read_buffer (set_shared_diag d st)) with (st_read_buffer st).
rewrite (pump_map (startup_step char_signed) (with_shared d) (startup_step_shared d) _ _ (x, st, diag)).
destruct (pump_loop _ _ _ (x, st, diag)) as [[[r rb] [[x' st'] diag']]|]; [|done].
cbn [mbind option_bind with_shared]. destruct r as [[]| |]; done.
Qed.

Lemma startup_resume_shared d x st diag ec n : startup_resume char_signed x (set_shared_diag d st) diag ec n =
outcome_shared d <$> startup_resume char_signed x st diag ec n.
Proof.
assert (forall p, ('(r, s) ← impl_resume char_signed Mnone (with_shared d (impl_ x, st, diag)); startup_loop char_signed p r s) =
outcome_shared d <$> ('(r, s) ← impl_resume char_signed Mnone (impl_ x, st, diag); startup_loop char_signed p r s)) as Hgo.
{ intros p. rewrite impl_resume_shared. destruct (impl_resume char_signed Mnone _) as [[r [[x' st'] diag']]|]; [|done].
cbn [mbind option_bind]. destruct r; cbn [startup_loop]; first [done|apply (startup_reading_shared d p (x', st', diag'))]. }
unfold startup_resume. destruct (sf_point x) as [|[|[|]]]; [exact (Hgo 0%nat)| | |done].
- destruct ec; [done|exact (Hgo 1%nat)].
- destruct ec; [done|]. exact (startup_reading_shared d 2 (impl_ x, set_read_buffer (commit n (st_read_buffer st)) st, diag)).
Qed.

(** ** The login, as operations of the connection *)

Lemma resume_write_point x st diag ec n data x' st' diag' :
startup_resume char_signed x st diag ec n = Some (io_write data, x', st', diag') -> sf_point x' = 1%nat.
Proof. apply startup_resume_waits. Qed.

(** The number of bytes written does not matter. *)
Lemma resume_written x st diag ec n n' : sf_point x = 1%nat ->
startup_resume char_signed x st diag ec n = startup_resume char_signed x st diag ec n'.
Proof. intros Hp. unfold startup_resume. by rewrite Hp. Qed.

Lemma connect_resume_startup p se r x st d ec n : (forall e, r <> io_done e) ->
connect_resume char_signed (from_startup p se r x).2 (set_shared_diag d st) ec n =
('(r, s, st, diag) ← startup_resume char_signed x st d ec n; Some (from_startup 3 se r s, set_shared_diag diag st)).
Proof.
intros Hr. assert (forall q, cf_point q = 3%nat -> startup_ q = x -> stored_ec_ q = se ->
connect_resume char_signed q (set_shared_diag d st) ec n =
('(r, s, st, diag) ← startup_resume char_signed x st d ec n; Some (from_startup 3 se r s, set_shared_diag diag st))) as Hq.
{ intros q H1 H2 H3. unfold connect_resume. rewrite H1, connect_startup_from, H1, H2, H3. cbn [set_shared_diag shared_diag].
change (CS (write_buffer st) (st_read_buffer st) (backend_process_id st) (backend_secret_key st) d) with (set_shared_diag d st).
rewrite startup_resume_shared. by destruct (startup_resume _ _ _ _ _ _) as [[[[r1 s1] st1] diag1]|]. }
destruct r as [e| |]; [by destruct (Hr e)|by apply Hq..].
Qed.

Lemma login_session net : forall stream r x st diag written x' st' diag' written' unread p se,
startup_session char_signed net stream r x st diag written = Some (io_done None, x', st', diag', written', unread) ->
(forall data, r = io_write data -> sf_point x = 1%nat) ->
exists es ops, reads_within net es /\ event_bytes es ++ unread = stream /\ written' = written ++ op_writes ops /\
forall fuel, (length es < fuel)%nat -> exists xc,
  co_connect_loop char_signed fuel es (from_startup p se r x).1 (from_startup p se r x).2 (set_shared_diag diag st) =
  Some (ops, Some (EE None diag'), (xc, set_shared_diag diag' st')).
Proof.
assert (forall net x st diag (written : list bytes) stream x' st' diag' written' unread p se,
Some (io_done None, x, st, diag, written, stream) = Some (io_done None, x', st', diag', written', unread) ->
exists es ops, reads_within net es /\ event_bytes es ++ unread = stream /\ written' = written ++ op_writes ops /\
forall fuel, (length es < fuel)%nat -> exists xc,
  co_connect_loop char_signed fuel es (from_startup p se (io_done None) x).1 (from_startup p se (io_done None) x).2 (set_shared_diag diag st) =
  Some (ops, Some (EE None diag'), (xc, set_shared_diag diag' st'))) as Hdone.
{ intros net' x st diag written stream x' st' diag' written' unread p se [= <- <- <- <- <-].
exists [], []. split_and!; [constructor|done|by rewrite app_nil_r|].
intros [|fuel] Hf; [cbn in Hf; lia|]. by eexists. }
induction net as [|n net IH]; intros stream r x st diag written x' st' diag' written' unread p se Hs Hp;
(destruct r as [[e|]|data|]; cbn [startup_session] in Hs; [done|by eapply Hdone|..]); try done.
- destruct (startup_resume char_signed x st diag None _) as [[[[r1 x1] st1] diag1]|] eqn:E; [|done]. cbn [mbind option_bind] in Hs.
destruct (IH _ _ _ _ _ _ _ _ _ _ _ 3%nat se Hs) as (es & ops & He & Hb & Hw & Hrun); [intros d ->; by eapply resume_write_point|].
exists ((None, []) :: es), (Op_write data :: ops). split_and!; [by apply within_read; [cbn; lia|]|done|by rewrite Hw, <- app_assoc|].
intros [|fuel] Hf; cbn [length] in Hf; [lia|]. destruct (Hrun fuel ltac:(lia)) as (xc & Hc). exists xc.
change (from_startup p se (io_write data) x).1 with (connect_write data). cbn [co_connect_loop].
rewrite connect_resume_startup by done. cbn [fst snd].
rewrite (resume_written _ _ _ _ _ (Z.of_nat (length data))), E by by apply (Hp data).
cbn [mbind option_bind]. by destruct (from_startup 3 se r1 x1) as [c q]; cbn [fst snd] in Hc; rewrite Hc.
- set (bs := take _ stream) in Hs.
destruct (startup_resume char_signed x _ diag None _) as [[[[r1 x1] st1] diag1]|] eqn:E; [|done]. cbn [mbind option_bind] in Hs.
destruct (IH _ _ _ _ _ _ _ _ _ _ _ 3%nat se Hs) as (es & ops & He & Hb & Hw & Hrun); [intros d ->; by eapply resume_write_point|].
exists ((None, bs) :: es), (Op_read :: ops). split_and!; [by apply within_read; [unfold bs; rewrite length_take; lia|]| |done|].
+ rewrite event_bytes_cons, <- app_assoc, Hb. apply take_drop_len.
+ intros [|fuel] Hf; cbn [length] in Hf; [lia|]. destruct (Hrun fuel ltac:(lia)) as (xc & Hc). exists xc.
  change (from_startup p se io_read x).1 with connect_read. cbn [co_connect_loop].
  change (received (None, bs) (set_shared_diag diag st)) with (set_shared_diag diag (set_read_buffer (fill bs (st_read_buffer st)) st)).
  rewrite connect_resume_startup by done. cbn [fst snd]. rewrite E.
  cbn [mbind option_bind]. by destruct (from_startup 3 se r1 x1) as [c q]; cbn [fst snd] in Hc; rewrite Hc.
Qed.
End login.

(** ** The execution, as operations of the connection *)

Section execution.
Context {alloc : Allocator} {H : Type} `{!ResponseHandler H}.

Lemma reads_events sizes : forall stream rb f st ec rb' f' unread,
pump_session exec_step sizes stream (Pread, rb, f) = Some (Pexit ec, rb', f', unread) ->
exists es ops, reads_within sizes es /\ event_bytes es ++ unread = stream /\ op_writes ops = [] /\
co_exec_loop es io_read (Exec 2 f) (set_read_buffer rb st) =
Some (ops, Some (exec_get_result (Exec 2 f') ec), (Exec 2 f', set_read_buffer rb' st)).
Proof.
induction sizes as [|n sizes IH]; intros stream rb f st ec rb' f' unread; cbn [pump_session]; [done|].
set (data := take _ stream). destruct (pump exec_step (receive data rb) f) as [[[r rb1] f1]|] eqn:E; [|done].
cbn [mbind option_bind]. intros Hp.
assert (exec_resume (Exec 2 f) (received (None, data) (set_read_buffer rb st)) None (Z.of_nat (length data)) =
Some match r with
  | Pexit ec => (io_done ec, Exec 2 f1, set_read_buffer rb1 st)
  | Perror e => (io_done (Some e), Exec 2 f1, set_read_buffer rb1 st)
  | Pread => (io_read, Exec 2 f1, set_read_buffer rb1 st)
  end) as Hr.
{ unfold exec_resume, exec_loop. cbn [resume_point_ read_fsm_ received st_read_buffer set_read_buffer snd].
fold (receive data rb). rewrite E. by destruct r. }
destruct r as [ec'| |e]; [| |by destruct sizes].
- assert (Some (Pexit ec', rb1, f1, drop (length data) stream) = Some (Pexit ec, rb', f', unread)) as [= -> -> -> <-]
  by by destruct sizes.
exists [(None, data)], [Op_read]. split_and!; [| |done|].
+ apply within_read; [unfold data; rewrite length_take; lia|constructor].
+ unfold event_bytes. cbn [map concat snd]. rewrite app_nil_r. apply take_drop_len.
+ cbn [co_exec_loop]. by rewrite Hr.
- destruct (IH _ _ _ st _ _ _ _ Hp) as (es & ops & He & Hb & Hw & Hc).
exists ((None, data) :: es), (Op_read :: ops). split_and!; [| |done|].
+ apply within_read; [unfold data; rewrite length_take; lia|done].
+ rewrite event_bytes_cons, <- app_assoc, Hb. apply take_drop_len.
+ cbn [co_exec_loop]. rewrite Hr. cbn [mbind option_bind]. by rewrite Hc.
Qed.

Lemma co_exec_delivers req (h h0 : H) ec f' st sizes ms response_bytes extra stream :
check_request req = None ->
setup req 0 h = Some (setup_ok (length (rq_types req)), h0) ->
feed ms (make_fsm req h0 false) = Some (Rdone ec, f', []) ->
encodes ms response_bytes -> rb_inv (st_read_buffer st) ->
committed_area (st_read_buffer st) ++ stream = response_bytes ++ extra ->
Forall (fun n => 0 < n)%nat sizes -> (length stream <= length sizes)%nat ->
exists es ops x rb unread, reads_within sizes es /\ event_bytes es ++ unread = stream /\ op_writes ops = [rq_buffer req] /\
co_exec es req h st = Some (ops, Some (exec_get_result x ec), (x, set_read_buffer rb st)) /\ read_fsm_ x = f' /\
rb_inv rb /\ committed_area rb ++ unread = extra.
Proof.
intros Hc Hs Hfeed Henc Hrb Hstream Hpos Hlen.
pose proof (drive_encodes _ _ extra _ _ _ Henc Hfeed) as Hd. rewrite <- Hstream in Hd.
pose proof (pump_session_start exec_step sizes stream _ (make_fsm req h0 false) Hpos Hlen Hrb) as Hp.
rewrite Hd in Hp. destruct Hp as (rb' & unread & Hrb' & Hp & Hrest).
assert (forall es, co_exec ((None, []) :: es) req h st =
('(res, x, st) ← exec_loop (Exec 1 (make_fsm req h0 false)) st;
 '(t, r, s) ← co_exec_loop es res x st; Some (Op_write (rq_buffer req) :: t, r, s))) as Hco.
{ intros es. unfold co_exec. unfold exec_resume at 1. cbn [resume_point_ make_exec read_fsm_ make_fsm req_ handler_].
unfold setup_request. rewrite Hc, Hs. cbn [mbind option_bind setup_ok hs_ec hs_offset]. by rewrite Nat.eqb_refl. }
unfold exec_loop in Hco. cbn [read_fsm_ resume_point_] in Hco.
destruct (pump exec_step (st_read_buffer st) (make_fsm req h0 false)) as [[[r rb] f]|]; [|done].
cbn [mbind option_bind] in *. destruct r as [ec'| |e]; [| |by destruct sizes].
- assert (Some (Pexit ec', rb, f, stream) = Some (Pexit ec, rb', f', unread)) as [= -> -> -> <-] by by destruct sizes.
exists [(None, [])], [Op_write (rq_buffer req)], (Exec 1 f'), rb', stream.
split_and!; [apply within_write, within_nil|done|done|by rewrite Hco|done..].
- destruct (reads_events _ _ _ _ st _ _ _ _ Hp) as (es & ops & He & Hb & Hw & Hx).
exists ((None, []) :: es), (Op_write (rq_buffer req) :: ops), (Exec 2 f'), rb', unread.
split_and!; [by apply within_write|done|by rewrite op_writes_write, Hw|rewrite Hco, Hx; done|done..].
Qed.
End execution.

(** ** Sessions *)

(** The login, from the call of [connect]. *)
Lemma co_connect_delivers {ssl : OpenSSL} {alloc : Allocator} cs net stream params random st x st' diag' written unread :
  startup_run cs net stream params random st (shared_diag st) = Some (io_done None, x, st', diag', written, unread) ->
  exists es ops xc, reads_within net es /\ event_bytes es ++ unread = stream /\ op_writes ops = written /\
    co_connect cs ((None, []) :: es) params random st = Some (Op_physical_connect :: ops, Some (EE None diag'), (xc, set_shared_diag diag' st')).
Proof.
  unfold startup_run. destruct (startup_resume cs (make_startup params random) st (shared_diag st) None 0)
    as [[[[r s] st1] diag1]|] eqn:E; [|done]. cbn [mbind option_bind]. intros Hs.
  destruct (login_session cs _ _ _ _ _ _ _ _ _ _ _ _ 1 None Hs) as (es & ops & He & Hb & Hw & Hrun); [intros d ->; by eapply resume_write_point|].
  destruct (Hrun (3 + length es)%nat ltac:(lia)) as (xc & Hc). remember (3 + length es)%nat as k eqn:Hk. exists es, ops, xc. split_and!; [done..|].
  unfold co_connect. unfold connect_resume at 1. cbn [make_connect cf_point mbind option_bind stored_ec_ startup_ length].
  replace (3 + S (length es))%nat with (S k) by lia. cbn [co_connect_loop]. unfold connect_resume at 1.
  cbn [cf_point fst]. rewrite connect_startup_from. cbn [startup_ stored_ec_ cf_point]. rewrite E. cbn [mbind option_bind].
  destruct (from_startup 1 None r s) as [c q]. cbn [fst snd] in Hc. by rewrite Hc.
Qed.

(** C1: A session works end to end.  A connection object whose server accepts the
    login and then answers a request as the grammar of responses says, both in the
    bytes of one stream cut into reads of at most any given sizes, connects and then
    executes the request without an error: it writes the messages of the login and
    the payload of the request, no more and no less; it keeps the identity of the
    server process; the handler is left as the response leaves it and gives the
    result; and every byte after the response is still there. *)
Theorem connection_session {ssl : OpenSSL} {alloc : Allocator} {H : Type} `{!ResponseHandler H} cs net sizes params random st st'
    startup_bytes ms1 ms2 sent conversation (req : request) (h h0 h' : H) ms tr response_bytes extra stream :
  serialize_startup (make_startup_message params) [] = (None, startup_bytes) ->
  authenticated cs params random startup_bytes ms1 sent ->
  becomes_ready ms2 (set_write_buffer (List.last sent startup_bytes) st) st' ->
  real_errors (ms1 ++ ms2) -> encodes (ms1 ++ ms2) conversation ->
  check_request req = None -> setup req 0 h = Some (setup_ok (length (rq_types req)), h0) ->
  response false 0 (rq_types req) (sync_part ms) tr -> ends_sync ms -> replay tr h0 = Some h' -> encodes ms response_bytes ->
  rb_inv (st_read_buffer st) ->
  committed_area (st_read_buffer st) ++ stream = conversation ++ response_bytes ++ extra ->
  Forall (fun n => 0 < n)%nat net -> (length stream + 3 <= length net)%nat ->
  Forall (fun n => 0 < n)%nat sizes -> (length stream <= length sizes)%nat ->
  exists es1 ops1 diag x1 st1 es2 ops2 x2 st2 rest,
    reads_within net es1 /\ reads_within sizes es2 /\ event_bytes es1 ++ event_bytes es2 ++ rest = stream /\
    co_connect cs ((None, []) :: es1) params random st = Some (Op_physical_connect :: ops1, Some (EE None diag), (x1, st1)) /\
    op_writes ops1 = startup_bytes :: sent /\
    backend_process_id st1 = backend_process_id st' /\ backend_secret_key st1 = backend_secret_key st' /\
    co_exec es2 req h st1 = Some (ops2, Some (result h'), (x2, st2)) /\ op_writes ops2 = [rq_buffer req] /\
    handler_ (read_fsm_ x2) = h' /\ committed_area (st_read_buffer st2) ++ rest = extra.
Proof.
  intros Hser Hauth Hready Herr Henc1 Hc Hs Hresp Hsync Hrep Henc2 Hrb Hstream Hpos Hlen Hpos2 Hlen2.
  destruct (startup_succeeds cs net stream params random st (shared_diag st) startup_bytes ms1 ms2 sent st' conversation
    (response_bytes ++ extra)) as (x & rb & diag & unread & Hrun & Hrb1 & Hext); [done..|].
  destruct (co_connect_delivers _ _ _ _ _ _ _ _ _ _ _ Hrun) as (es1 & ops1 & xc & He1 & Hb1 & Hw1 & Hco1).
  assert (rq_types req <> []) as Hne by (intros E; unfold check_request in Hc; by rewrite E in Hc).
  destruct (proj2 (feed_response req h0 h' false ms Hne)) as (f' & Hfeed & <-); [split; [done|by exists tr]|].
  set (st1 := set_shared_diag diag (set_read_buffer rb st')).
  assert (length unread <= length sizes)%nat as Hl by (apply (f_equal length) in Hb1; rewrite length_app in Hb1; lia).
  destruct (co_exec_delivers req h h0 None f' st1 sizes ms response_bytes extra unread)
    as (es2 & ops2 & x2 & rb2 & rest & He2 & Hb2 & Hw2 & Hco2 & Hf & _ & Hext2); [done..|].
  exists es1, ops1, diag, xc, st1, es2, ops2, x2, (set_read_buffer rb2 st1), rest.
  split_and!; [done|done|by rewrite Hb2|done..| |done|by rewrite Hf|done].
  unfold exec_get_result in Hco2. by rewrite Hf in Hco2.
Qed.

Definition session_login : bytes := be_encode 4 17 ++ be_encode 4 196608 ++ str "user" ++ [0] ++ str "me" ++ [0; 0].
Definition session_calls_made : trace :=
  [(0%nat, Arow_description empty_row_description); (0%nat, Acommand_complete {| tag := str "BEGIN" |})].

(** A trusted login and BEGIN, in reads of three bytes, with the beginning of a later message. *)
Lemma connection_session_witness :
  let answer := frame (ch "C") (str "BEGIN" ++ [0]) ++ frame (ch "Z") [ch "T"] in
  let stream := sample_conversation ++ answer ++ str "N" in
  exists es1 ops1 diag x1 st1 es2 ops2 x2 st2 rest,
    reads_within (replicate 90 3%nat) es1 /\ reads_within (replicate 90 3%nat) es2 /\ event_bytes es1 ++ event_bytes es2 ++ rest = stream /\
    @co_connect toy_openssl true zero_alloc ((None, []) :: es1) sample_params (inr (repeat 7 18)) sample_state =
      Some (Op_physical_connect :: ops1, Some (EE None diag), (x1, st1)) /\
    op_writes ops1 = [session_login] /\
    backend_process_id st1 = 7 /\ backend_secret_key st1 = 99 /\
    @co_exec zero_alloc trace _ es2 begin_request [] st1 = Some (ops2, Some no_error, (x2, st2)) /\ op_writes ops2 = [rq_buffer begin_request] /\
    handler_ (read_fsm_ x2) = session_calls_made /\ committed_area (st_read_buffer st2) ++ rest = str "N".
Proof.
  intros answer stream.
  apply (@connection_session toy_openssl zero_alloc trace trace_handler true (replicate 90 3%nat) (replicate 90 3%nat) sample_params (inr (repeat 7 18))
    sample_state (CS session_login (st_read_buffer sample_state) 7 99 [])
    session_login [Mauthentication_ok] [Mbackend_key_data sample_key; Mready_for_query {| status := idle |}] [] sample_conversation
    begin_request [] [] session_calls_made begin_answer session_calls_made answer (str "N") stream).
  - reflexivity.
  - constructor.
  - apply ready_key. apply ready_now.
  - unfold real_errors. cbn [app]. repeat (apply List.Forall_cons; [intros e; discriminate|]). apply List.Forall_nil.
  - exact sample_conversation_encodes.
  - reflexivity.
  - reflexivity.
  - exact begin_grammar.
  - reflexivity.
  - reflexivity.
  - exact begin_encodes.
  - exact sample_state_inv.
  - reflexivity.
  - apply (bool_decide_unpack _). vm_compute. exact I.
  - vm_compute. lia.
  - apply (bool_decide_unpack _). vm_compute. exact I.
  - vm_compute. lia.
Defined.
