(* ===== verification/Multiplexer.v ===== *)
(** * The multiplexer ([src/src/nativepg_internal/multiplexed_connection/multiplexer.hpp])

    Many requests share a connection: [multiplexer] is the queue of those not yet
    answered, the written ones first.  A [multiplexer_elem*] is the number of the
    element in the order of the calls to [add].  The callbacks are values: what a
    member function returns lists the completions [on_done] reports, each with the
    state of the handler of a request that succeeded.  [None] is a failed assertion
    or undefined behaviour. *)

From stdpp Require Import base list option.
From Stdlib Require Import ZArith Lia.
From S2P Require Import Prelude Errors BackendMessages Request ReadResponse ReadResponseSpec ReadResponseGrammar.

(** ** Data *)

Inductive multiplexer_elem_status := pending | in_flight | abandoned_pending | abandoned_in_flight.

#[global] Instance elem_status_eq_dec : EqDecision multiplexer_elem_status.
Proof. solve_decision. Defined.

(** A request and its handler; [None] stands for the null request and the null
    handler, and for the callback that ignores its argument. *)
Record multiplexer_elem (H : Type) := Elem {
  address : nat;
  el_work : option (request * H);
  el_status : multiplexer_elem_status;
  num_rfq : nat
}.
Arguments Elem {H} _ _ _ _.
Arguments address {H} _.
Arguments el_work {H} _.
Arguments el_status {H} _.
Arguments num_rfq {H} _.

Inductive stream_status := st_initial | st_reading | st_ignoring.

Record read_response_stream_fsm (H : Type) := Stream {
  status_ : stream_status;
  fsm_ : option (read_response_fsm H);
  remaining_rfq_ : nat
}.
Arguments Stream {H} _ _ _.
Arguments status_ {H} _.
Arguments fsm_ {H} _.
Arguments remaining_rfq_ {H} _.

(** [next_] numbers the elements. *)
Record multiplexer (H : Type) := Mux {
  mx_write_buffer : bytes;
  elems_ : list (multiplexer_elem H);
  num_pending_ : nat;
  stream_ : read_response_stream_fsm H;
  next_ : nat
}.
Arguments Mux {H} _ _ _ _ _.
Arguments mx_write_buffer {H} _.
Arguments elems_ {H} _.
Arguments num_pending_ {H} _.
Arguments stream_ {H} _.
Arguments next_ {H} _.

(** A call of [on_done]. *)
Record completion (H : Type) := Completion { c_elem : nat; c_ec : error_code; c_handler : option H }.
Arguments Completion {H} _ _ _.
Arguments c_elem {H} _.
Arguments c_ec {H} _.
Arguments c_handler {H} _.

Definition is_ready (msg : any_backend_message) : bool := match msg with Mready_for_query _ => true | _ => false end.

Definition expects_rfq (t : request_message_type) : bool := match t with rt_query | rt_sync => true | _ => false end.

Definition get_expected_rfqs (msgs : list request_message_type) : nat := length (List.filter expects_rfq msgs).

Section multiplexer.
Context {H : Type} `{!ResponseHandler H}.

Definition make_multiplexer : multiplexer H := Mux [] [] 0 (Stream st_initial None 0) 0.

(** The callback of an element. *)
Definition on_done (e : multiplexer_elem H) (ec : error_code) : list (completion H) :=
match el_work e with
| Some (_, h) => [Completion (address e) ec (match ec with None => Some h | Some _ => None end)]
| None => []
end.

Definition set_el_status (s : multiplexer_elem_status) (e : multiplexer_elem H) : multiplexer_elem H :=
Elem (address e) (el_work e) s (num_rfq e).

(** The handler is the user's object, which the machine works on. *)
Definition set_handler (h : H) (e : multiplexer_elem H) : multiplexer_elem H :=
Elem (address e) (match el_work e with Some (req, _) => Some (req, h) | None => None end) (el_status e) (num_rfq e).

(** ** read_response_stream_fsm *)

Fixpoint drop_abandoned (elms : list (multiplexer_elem H)) : list (multiplexer_elem H) :=
match elms with
| e :: elms' => if bool_decide (el_status e = abandoned_pending) then drop_abandoned elms' else elms
| [] => []
end.

(** The start of a response: the first element that expects one. *)
Definition stream_start (elms : list (multiplexer_elem H)) (s : read_response_stream_fsm H)
: option (error_code * list (multiplexer_elem H) * read_response_stream_fsm H) :=
match drop_abandoned elms with
| [] => Some (Some (client unmatched_request), [], s)
| e :: elms' =>
match el_status e with
| abandoned_in_flight => Some (None, e :: elms', Stream st_ignoring (fsm_ s) (num_rfq e))
| in_flight =>
'(req, h) ← el_work e;
Some (None, e :: elms', Stream st_reading (Some (make_fsm req h false)) (remaining_rfq_ s))
| _ => None
end
end.

(** The message itself. *)
Definition stream_message (msg : any_backend_message) (elms : list (multiplexer_elem H)) (s : read_response_stream_fsm H)
: option (error_code * list (completion H) * list (multiplexer_elem H) * read_response_stream_fsm H) :=
match status_ s, elms with
| st_reading, e :: elms' =>
f ← fsm_ s;
'(r, f) ← resume msg f;
let e := set_handler (handler_ f) e in
match r with
| Rdone ec => Some (ec, on_done e ec, elms', Stream st_initial (Some f) (remaining_rfq_ s))
| Rread => Some (None, [], e :: elms', Stream st_reading (Some f) (remaining_rfq_ s))
end
| st_ignoring, _ :: elms' =>
match remaining_rfq_ s with
| O => None
| S n =>
if is_ready msg then
if (n =? 0)%nat then Some (None, [], elms', Stream st_initial (fsm_ s) n)
else Some (None, [], elms, Stream st_ignoring (fsm_ s) n)
else Some (None, [], elms, s)
end
| _, _ => None
end.

Definition stream_on_message (msg : any_backend_message) (elms : list (multiplexer_elem H)) (s : read_response_stream_fsm H)
: option (error_code * list (completion H) * list (multiplexer_elem H) * read_response_stream_fsm H) :=
match status_ s with
| st_initial =>
'(ec, elms, s) ← stream_start elms s;
match ec with
| Some e => Some (Some e, [], elms, s)
| None => stream_message msg elms s
end
| _ => stream_message msg elms s
end.

Definition is_reading (s : read_response_stream_fsm H) : bool :=
match status_ s with st_reading => true | _ => false end.

Definition abandon_current (s : read_response_stream_fsm H) : option (read_response_stream_fsm H) :=
if is_reading s then
f ← fsm_ s; Some (Stream st_ignoring (Some f) (get_expected_rfqs (get_remaining_messages f)))
else None.

(** ** multiplexer *)

Definition add (req : request) (res : H) (m : multiplexer H) : nat * multiplexer H :=
(next_ m,
Mux (mx_write_buffer m) (elems_ m ++ [Elem (next_ m) (Some (req, res)) pending 0]) (S (num_pending_ m)) (stream_ m) (S (next_ m))).

(** The element at an address, with those before and after it. *)
Fixpoint locate (a : nat) (elms : list (multiplexer_elem H))
: option (list (multiplexer_elem H) * multiplexer_elem H * list (multiplexer_elem H)) :=
match elms with
| [] => None
| e :: elms' =>
if (address e =? a)%nat then Some ([], e, elms')
else '(before, x, after) ← locate a elms'; Some (e :: before, x, after)
end.

(** An address that is not in the queue is a dangling pointer. *)
Definition cancel (a : nat) (m : multiplexer H) : option (multiplexer H) :=
'(before, e, after) ← locate a (elems_ m);
'(status, rfq, s) ←
match el_status e with
| pending => Some (abandoned_pending, num_rfq e, stream_ m)
| in_flight =>
if match before with [] => is_reading (stream_ m) | _ => false end then
s ← abandon_current (stream_ m); Some (abandoned_in_flight, num_rfq e, s)
else
'(req, _) ← el_work e;
Some (abandoned_in_flight, get_expected_rfqs (rq_types req), stream_ m)
| _ => None
end;
Some (Mux (mx_write_buffer m) (before ++ Elem a None status rfq :: after) (num_pending_ m) s (next_ m)).

(** [elems_.size() - num_pending_]: [None] when it wraps around. *)
Definition pending_offset (m : multiplexer H) : option nat :=
if (num_pending_ m <=? length (elems_ m))%nat then Some (length (elems_ m) - num_pending_ m)%nat else None.

(** The loop of [prepare_write] over the pending elements. *)
Fixpoint write_pending (elms : list (multiplexer_elem H)) (buffer : bytes) : option (bytes * list (multiplexer_elem H)) :=
match elms with
| [] => Some (buffer, [])
| e :: elms' =>
match el_status e with
| pending =>
'(req, _) ← el_work e;
'(buffer, elms') ← write_pending elms' (buffer ++ rq_buffer req);
Some (buffer, set_el_status in_flight e :: elms')
| abandoned_pending => '(buffer, elms') ← write_pending elms' buffer; Some (buffer, e :: elms')
| _ => None
end
end.

Definition prepare_write (m : multiplexer H) : option (multiplexer H) :=
offset ← pending_offset m;
'(buffer, elms) ← write_pending (drop offset (elems_ m)) [];
Some (Mux buffer (take offset (elems_ m) ++ elms) 0 (stream_ m) (next_ m)).

Definition mux_on_message (msg : any_backend_message) (m : multiplexer H)
: option (error_code * list (completion H) * multiplexer H) :=
if is_async msg then Some (None, [], m)
else
'(ec, done_, elms, s) ← stream_on_message msg (elems_ m) (stream_ m);
Some (ec, done_, Mux (mx_write_buffer m) elms (num_pending_ m) s (next_ m)).

Definition cleanup (m : multiplexer H) : option (list (completion H) * multiplexer H) :=
offset ← pending_offset m;
Some (concat (map (fun e => on_done e (Some (generic operation_canceled))) (take offset (elems_ m))),
Mux (mx_write_buffer m) (drop offset (elems_ m)) (num_pending_ m)
(Stream st_initial (fsm_ (stream_ m)) (remaining_rfq_ (stream_ m))) (next_ m)).

(** ** Runs *)

Inductive operation :=
| Op_add (req : request) (res : H)
| Op_cancel (a : nat)
| Op_write
| Op_message (msg : any_backend_message)
| Op_cleanup.

(** What the caller sees of an operation: the error code, the bytes to write and
the completions. *)
Record output := Output { o_ec : error_code; o_written : bytes; o_done : list (completion H) }.

Definition mux_step (op : operation) (m : multiplexer H) : option (output * multiplexer H) :=
match op with
| Op_add req res => Some (Output None [] [], snd (add req res m))
| Op_cancel a => m ← cancel a m; Some (Output None [] [], m)
| Op_write => m ← prepare_write m; Some (Output None (mx_write_buffer m) [], m)
| Op_message msg => '(ec, done_, m) ← mux_on_message msg m; Some (Output ec [] done_, m)
| Op_cleanup => '(done_, m) ← cleanup m; Some (Output None [] done_, m)
end.

Fixpoint mux_run (ops : list operation) (m : multiplexer H) : option (list output * multiplexer H) :=
match ops with
| [] => Some ([], m)
| op :: ops' => '(o, m) ← mux_step op m; '(os, m) ← mux_run ops' m; Some (o :: os, m)
end.
End multiplexer.
Arguments operation H : clear implicits.
Arguments output H : clear implicits.
