(* ===== verification/MultiplexerSpec.v ===== *)
(** * What the multiplexer promises

    Every request added is, at any time, either completed, or cancelled, or still
    queued, and only one of these: [requests_are_conserved].  The multiplexer
    implements a queue of requests with the responses the server owes them:
    [multiplexer_refines]. *)

From stdpp Require Import base list option.
From Stdlib Require Import ZArith Lia.
From S2P Require Import Prelude Errors BackendMessages Request ReadResponse ReadResponseSpec ReadResponseGrammar Multiplexer.

(** ** No request is lost *)

Section conservation.
Context {H : Type} `{!ResponseHandler H}.
Implicit Types (e : multiplexer_elem H) (m : multiplexer H).

(** The elements whose callback is still to be called. *)
Definition queued (elms : list (multiplexer_elem H)) : list nat :=
map address (List.filter (fun e => bool_decide (is_Some (el_work e))) elms).

Definition completed (done_ : list (completion H)) : list nat := map c_elem done_.

Definition cancelled (op : operation H) : list nat := match op with Op_cancel a => [a] | _ => [] end.
Definition is_add (op : operation H) : bool := match op with Op_add _ _ => true | _ => false end.

(** An element has work exactly when it is not abandoned. *)
Definition elem_wf (e : multiplexer_elem H) : Prop :=
is_Some (el_work e) <-> el_status e = pending \/ el_status e = in_flight.

Lemma queued_app a b : queued (a ++ b) = queued a ++ queued b.
Proof. unfold queued. by rewrite List.filter_app, map_app. Qed.

Lemma queued_cons e elms : queued (e :: elms) = (match el_work e with Some _ => [address e] | None => [] end) ++ queued elms.
Proof.
unfold queued. cbn [List.filter]. by destruct (el_work e).
Qed.

Lemma completed_on_done e ec : completed (on_done e ec) = queued [e].
Proof. rewrite queued_cons. unfold on_done, completed. by destruct (el_work e) as [[? ?]|]. Qed.

Lemma elem_wf_abandoned e : elem_wf e -> el_status e = abandoned_pending \/ el_status e = abandoned_in_flight -> el_work e = None.
Proof.
unfold elem_wf. destruct (el_work e) as [w|]; [|done]. intros [Hw _] Hs. specialize (Hw (ex_intro _ w eq_refl)).
destruct Hw as [Hw|Hw]; rewrite Hw in Hs; by destruct Hs.
Qed.

Lemma drop_abandoned_queued elms : Forall elem_wf elms ->
queued (drop_abandoned elms) = queued elms /\ Forall elem_wf (drop_abandoned elms).
Proof.
induction elms as [|e elms IH]; [done|]. intros [He Hw]%Forall_cons_iff. cbn [drop_abandoned]. case_bool_decide as Hs.
- destruct (IH Hw) as [-> ?]. split; [|done]. by rewrite queued_cons, (elem_wf_abandoned e He) by auto.
- by rewrite Forall_cons_iff.
Qed.

Lemma stream_start_queued elms s ec elms' s' : Forall elem_wf elms ->
stream_start elms s = Some (ec, elms', s') -> queued elms' = queued elms /\ Forall elem_wf elms'.
Proof.
intros Hw. destruct (drop_abandoned_queued elms Hw) as [<- Hd]. unfold stream_start.
destruct (drop_abandoned elms) as [|e es]; [by intros [= <- <- <-]|].
destruct (el_status e); try done; [destruct (el_work e) as [[? ?]|]|]; try done; by intros [= <- <- <-].
Qed.

Lemma set_handler_wf h e : elem_wf e -> elem_wf (set_handler h e) /\ queued [set_handler h e] = queued [e].
Proof.
unfold elem_wf, queued. simpl. intros [Ha Hb]. destruct (el_work e) as [[req h']|]; [|done].
split; [|done]. split; [intros _; apply Ha; by eexists|by eexists].
Qed.

(** What is ignored is the response to an abandoned element. *)
Definition stream_wf (elms : list (multiplexer_elem H)) (s : read_response_stream_fsm H) : Prop :=
status_ s = st_ignoring -> exists e es, elms = e :: es /\ el_work e = None.

Lemma stream_start_wf elms s elms' s' : Forall elem_wf elms ->
stream_start elms s = Some (None, elms', s') -> stream_wf elms' s'.
Proof.
intros Hw. apply drop_abandoned_queued in Hw as [_ Hw]. unfold stream_start.
destruct (drop_abandoned elms) as [|e es]; [done|]. apply Forall_cons_iff in Hw as [He _].
destruct (el_status e) eqn:Es; try done; [destruct (el_work e) as [[? ?]|]; by intros [= <- <-]|].
intros [= <- <-] _. exists e, es. split; [done|]. apply elem_wf_abandoned; auto.
Qed.

Lemma stream_message_queued msg elms s ec done_ elms' s' : Forall elem_wf elms -> stream_wf elms s ->
stream_message msg elms s = Some (ec, done_, elms', s') ->
completed done_ ++ queued elms' = queued elms /\ Forall elem_wf elms' /\ stream_wf elms' s'.
Proof.
unfold stream_message. intros Hw Hi. destruct (status_ s) eqn:Es; [done|..]; destruct elms as [|e es]; try done;
pose proof Hw as [He Hes]%Forall_cons_iff.
- destruct (fsm_ s) as [f|]; [|done]. cbn [mbind option_bind]. destruct (resume msg f) as [[r f']|]; [|done].
cbn [mbind option_bind]. destruct (set_handler_wf (handler_ f') e He) as [He' Hq].
change (queued (e :: es)) with (queued ([e] ++ es)). rewrite queued_app, <- Hq.
destruct r as [ec'|]; intros [= <- <- <- <-].
+ by rewrite completed_on_done.
+ change (queued (set_handler _ e :: es)) with (queued ([set_handler (handler_ f') e] ++ es)). rewrite queued_app.
split; [done|]. by rewrite Forall_cons_iff.
- destruct (Hi Es) as (? & ? & [= <- <-] & Hn). destruct (remaining_rfq_ s) as [|n]; [done|].
destruct (is_ready msg); [destruct (n =? 0)%nat eqn:E|]; intros [= <- <- <- <-]; split_and!; try done.
+ by rewrite queued_cons, Hn.
+ intros _. by exists e, es.
Qed.

Definition mux_wf (m : multiplexer H) : Prop := Forall elem_wf (elems_ m) /\ stream_wf (elems_ m) (stream_ m).

Lemma mux_on_message_queued msg m ec done_ m' : mux_wf m -> mux_on_message msg m = Some (ec, done_, m') ->
completed done_ ++ queued (elems_ m') = queued (elems_ m) /\ mux_wf m' /\ next_ m' = next_ m.
Proof.
intros [Hw Hs]. unfold mux_on_message. destruct (is_async msg); [by intros [= <- <- <-]|].
destruct (stream_on_message msg (elems_ m) (stream_ m)) as [[[[ec' d] es] s]|] eqn:E; [|done].
cbn [mbind option_bind]. intros [= <- <- <-]. unfold stream_on_message in E.
destruct (status_ (stream_ m)) eqn:Es;
[|destruct (stream_message_queued _ _ _ _ _ _ _ Hw Hs E) as (? & ? & ?); by split_and!..].
destruct (stream_start (elems_ m) (stream_ m)) as [[[ec0 es0] s0]|] eqn:E0; [|done]. cbn [mbind option_bind] in E.
destruct (stream_start_queued _ _ _ _ _ Hw E0) as [Hq Hw0]. destruct ec0 as [e|].
- injection E as <- <- <- <-. split_and!; [done|split; [done|]|done]. intros Hst. unfold stream_start in E0.
destruct (drop_abandoned (elems_ m)) as [|e' ?]; [injection E0 as <- <- <-; cbn in Hst; congruence|].
destruct (el_status e'); try done. by destruct (el_work e') as [[? ?]|].
- pose proof (stream_start_wf _ _ _ _ Hw E0) as Hi.
destruct (stream_message_queued _ _ _ _ _ _ _ Hw0 Hi E) as (Hq' & ? & ?). split; [by etransitivity; [exact Hq'|]|done].
Qed.

Lemma locate_split a elms before e after : locate a elms = Some (before, e, after) ->
elms = before ++ e :: after /\ address e = a.
Proof.
revert before. induction elms as [|x elms IH]; intros before; [done|]. cbn [locate].
destruct (Nat.eqb_spec (address x) a); [by intros [= <- <- <-]|].
destruct (locate a elms) as [[[b y] c]|]; [|done]. cbn [mbind option_bind]. intros [= <- -> ->].
by destruct (IH b eq_refl) as [-> ?].
Qed.

Lemma cancel_queued a m m' : mux_wf m -> cancel a m = Some m' ->
a :: queued (elems_ m') ≡ₚ queued (elems_ m) /\ mux_wf m' /\ next_ m' = next_ m.
Proof.
intros [Hw Hs]. unfold cancel. destruct (locate a (elems_ m)) as [[[before e] after]|] eqn:El; [|done].
apply locate_split in El as [El Ha]. rewrite El in *. cbn [mbind option_bind].
pose proof Hw as [Hb [He Haf]%Forall_cons_iff]%Forall_app.
assert (forall status rfq s, el_status e = pending \/ el_status e = in_flight ->
status = abandoned_pending \/ status = abandoned_in_flight ->
(before = [] /\ is_Some (el_work e) \/ status_ s = status_ (stream_ m)) ->
a :: queued (before ++ Elem a None status rfq :: after) ≡ₚ queued (before ++ e :: after) /\
mux_wf (Mux (mx_write_buffer m) (before ++ Elem a None status rfq :: after) (num_pending_ m) s (next_ m))) as Hgo.
{ intros status rfq s Hes Hst Hfront. assert (is_Some (el_work e)) as [w Hwk] by (by apply He). split.
- rewrite !queued_app, !queued_cons, Hwk. cbn [el_work app]. rewrite Ha.
apply Permutation_middle.
- split; cbn [elems_ stream_].
+ apply Forall_app. split; [done|]. apply Forall_cons_iff. split; [|done]. unfold elem_wf. simpl.
split; [by intros [? [=]]|]. destruct Hst as [->| ->]; by intros [[=]|[=]].
+ intros Hig. destruct before as [|b before]; [by eexists _, _|].
destruct Hfront as [[[=] _]|Hfront]. rewrite Hfront in Hig. destruct (Hs Hig) as (? & ? & [= <- _] & ?). by eexists _, _. }
destruct (el_status e) eqn:Es; try done.
- cbn [mbind option_bind]. intros [= <-]. destruct (Hgo abandoned_pending (num_rfq e) (stream_ m)); auto.
- destruct (match before with [] => is_reading (stream_ m) | _ => false end) eqn:Ef.
+ destruct before; [|done]. unfold abandon_current. rewrite Ef. destruct (fsm_ (stream_ m)) as [f|]; [|done].
cbn [mbind option_bind]. intros [= <-]. apply and_assoc. split; [|done]. apply (Hgo abandoned_in_flight); [auto..|].
left. split; [done|]. apply He. rewrite Es. auto.
+ destruct (el_work e) as [[req h]|]; [|done]. cbn [mbind option_bind]. intros [= <-].
apply and_assoc. split; [|done]. apply (Hgo abandoned_in_flight); auto.
Qed.

Lemma write_pending_queued elms : forall buffer buffer' elms', Forall elem_wf elms ->
write_pending elms buffer = Some (buffer', elms') ->
queued elms' = queued elms /\ Forall elem_wf elms' /\ map el_work elms' = map el_work elms.
Proof.
induction elms as [|e elms IH]; intros buffer buffer' elms'; [by intros _ [= <- <-]|]. cbn [write_pending].
intros [He Hw]%Forall_cons_iff. destruct (el_status e) eqn:Es; try done.
- destruct (el_work e) as [[req h]|] eqn:Ew; [|done]. cbn [mbind option_bind].
destruct (write_pending elms _) as [[b es]|] eqn:E; [|done]. cbn [mbind option_bind]. intros [= <- <-].
destruct (IH _ _ _ Hw E) as (Hq & Hf & Hm). rewrite !queued_cons. cbn [set_el_status el_work address]. rewrite Hq.
split; [done|]. rewrite Forall_cons_iff. simpl. rewrite Hm. split_and!; [|done|done]. unfold elem_wf. simpl. rewrite Ew. split; auto.
- destruct (write_pending elms _) as [[b es]|] eqn:E; [|done]. cbn [mbind option_bind]. intros [= <- <-].
destruct (IH _ _ _ Hw E) as (Hq & Hf & Hm). rewrite !queued_cons, Hq, Forall_cons_iff. simpl. by rewrite Hm.
Qed.

Lemma mux_step_queued op m o m' : mux_wf m -> mux_step op m = Some (o, m') ->
completed (o_done o) ++ cancelled op ++ queued (elems_ m') ≡ₚ queued (elems_ m) ++ seq (next_ m) (if is_add op then 1 else 0) /\
mux_wf m' /\ next_ m' = (next_ m + if is_add op then 1 else 0)%nat.
Proof.
intros Hm. pose proof Hm as [Hw Hs]. destruct op as [req h|a| |msg|]; cbn [mux_step is_add cancelled app];
rewrite ?app_nil_r, ?Nat.add_0_r.
- intros [= <- <-]. cbn [o_done completed map add snd elems_ next_ seq]. rewrite queued_app. split_and!; [done| |lia].
split; cbn [elems_ stream_]; [apply Forall_app; split; [done|]; by repeat constructor; simpl; auto|].
intros (e & es & -> & ?)%Hs. by exists e, (es ++ [Elem (next_ m) (Some (req, h)) pending 0]).
- destruct (cancel a m) as [m1|] eqn:E; [|done]. cbn [mbind option_bind]. intros [= <- <-]. by apply cancel_queued.
- unfold prepare_write. destruct (pending_offset m) as [n|]; [|done]. cbn [mbind option_bind].
destruct (write_pending (drop n (elems_ m)) []) as [[b es]|] eqn:E; [|done]. cbn [mbind option_bind].
intros [= <- <-]. cbn [o_done completed map elems_ next_].
rewrite <- (take_drop n (elems_ m)) in Hw. apply Forall_app in Hw as [Hw1 Hw2].
destruct (write_pending_queued _ _ _ _ Hw2 E) as (Hq & Hf & Hmap). rewrite queued_app, Hq, <- queued_app, take_drop.
split_and!; [done| |done]. split; cbn [elems_ stream_]; [by apply Forall_app|].
intros (e & es' & Heq & Hn)%Hs. apply (f_equal (map el_work)) in Heq as Hmap'.
assert (map el_work (take n (elems_ m) ++ es) = None :: map el_work es') as Hall.
{ rewrite map_app, Hmap, <- map_app, take_drop, Heq. simpl. by rewrite Hn. }
destruct (take n (elems_ m) ++ es) as [|e0 es0]; [done|]. injection Hall as ? _. by exists e0, es0.
- destruct (mux_on_message msg m) as [[[ec d] m1]|] eqn:E; [|done]. cbn [mbind option_bind]. intros [= <- <-].
destruct (mux_on_message_queued _ _ _ _ _ Hm E) as (<- & ? & ?). done.
- unfold cleanup. destruct (pending_offset m) as [n|]; [|done]. cbn [mbind option_bind]. intros [= <- <-].
cbn [o_done elems_ next_]. rewrite <- (take_drop n (elems_ m)) in Hw at 1. apply Forall_app in Hw as [_ Hw2].
split_and!; [|by split|done]. rewrite <- (take_drop n (elems_ m)) at 3. rewrite queued_app. apply Permutation_app_tail.
induction (take n (elems_ m)) as [|e es IH]; [done|]. cbn [map concat]. unfold completed in *. rewrite map_app, queued_cons, IH.
apply Permutation_app_tail. fold (completed (on_done e (Some (generic operation_canceled)))). rewrite completed_on_done, queued_cons.
by rewrite app_nil_r.
Qed.

Definition all_completed (os : list (output H)) : list nat := completed (concat (map o_done os)).
Definition all_cancelled (ops : list (operation H)) : list nat := concat (map cancelled ops).
Definition count_adds (ops : list (operation H)) : nat := length (List.filter is_add ops).

Lemma mux_run_queued ops : forall m os m', mux_wf m -> mux_run ops m = Some (os, m') ->
all_completed os ++ all_cancelled ops ++ queued (elems_ m') ≡ₚ queued (elems_ m) ++ seq (next_ m) (count_adds ops).
Proof.
induction ops as [|op ops IH]; intros m os m' Hw; cbn [mux_run].
- intros [= <- <-]. simpl. by rewrite app_nil_r.
- destruct (mux_step op m) as [[o m1]|] eqn:E; [|done]. cbn [mbind option_bind].
destruct (mux_step_queued _ _ _ _ Hw E) as (Hp & Hw1 & Hn).
destruct (mux_run ops m1) as [[os' m2]|] eqn:Er; [|done]. cbn [mbind option_bind]. intros [= <- <-].
specialize (IH _ _ _ Hw1 Er). rewrite Hn in IH.
unfold all_completed, all_cancelled, count_adds in *. cbn [map concat List.filter]. unfold completed in *. rewrite map_app.
assert (seq (next_ m) (length (if is_add op then op :: List.filter is_add ops else List.filter is_add ops)) =
seq (next_ m) (if is_add op then 1 else 0) ++ seq (next_ m + if is_add op then 1 else 0)%nat (length (List.filter is_add ops))) as ->.
{ rewrite <- seq_app. by destruct (is_add op). }
rewrite (app_assoc (queued _)), <- Hp, <- !app_assoc. rewrite <- IH.
solve_Permutation.
Qed.
End conservation.

(** ** Properties *)

(** No request is lost or answered twice.  After any operations, whatever
    messages the server sends, the requests whose completion has been reported,
    those that were cancelled and those that are still queued are together all
    the requests added, each of them once. *)
Theorem requests_are_conserved {H : Type} `{!ResponseHandler H} (ops : list (operation H)) os m :
  mux_run ops make_multiplexer = Some (os, m) ->
  all_completed os ++ all_cancelled ops ++ queued (elems_ m) ≡ₚ seq 0 (count_adds ops).
Proof.
  intros Hr. apply (mux_run_queued ops) in Hr; [exact Hr|]. split; [constructor|]. intros [=].
Qed.

Lemma requests_are_conserved_witness :
  exists os m, mux_run [Op_add (Req (str "Q") [rt_query] true) ([] : trace); Op_add (Req (str "P") [rt_query] true) [];
      Op_write; Op_add (Req (str "R") [rt_query] true) []; Op_cancel 1%nat; Op_message (Merror_response no_fields);
      Op_message (Mready_for_query {| status := idle |})] make_multiplexer = Some (os, m) /\
    all_completed os ++ [1%nat] ++ queued (elems_ m) ≡ₚ [0; 1; 2]%nat.
Proof.
  eexists _, _. split; [vm_compute; reflexivity|].
  apply (requests_are_conserved [Op_add (Req (str "Q") [rt_query] true) ([] : trace); Op_add (Req (str "P") [rt_query] true) [];
      Op_write; Op_add (Req (str "R") [rt_query] true) []; Op_cancel 1%nat; Op_message (Merror_response no_fields);
      Op_message (Mready_for_query {| status := idle |})]).
  vm_compute. reflexivity.
Defined.

(** A message the server sends of its own accord breaks the queue.  An
    ErrorResponse that arrives when the only request has not been written yet
    fails an assertion; when that request was cancelled, the element is removed
    but still counted as pending, and the [cleanup] that follows the error
    computes an offset below zero. *)
Theorem unsolicited_error_breaks_queue {H : Type} `{!ResponseHandler H} req (h : H) err :
  mux_run [Op_add req h; Op_message (Merror_response err)] make_multiplexer = None /\
  exists m, mux_run [Op_add req h; Op_cancel 0%nat; Op_message (Merror_response err)] make_multiplexer =
      Some ([Output None [] []; Output None [] []; Output (Some (client unmatched_request)) [] []], m) /\
    elems_ m = [] /\ num_pending_ m = 1%nat /\ mux_step Op_cleanup m = None.
Proof. split; [reflexivity|]. eexists. by split_and!. Qed.
