(* ===== verification/MultiplexerRefine.v ===== *)
(** * The multiplexer implements a queue

    The specification is a queue of the requests sent, each with the messages the
    server still owes it, and of those waiting to be sent.  [multiplexer_refines]
    says that the multiplexer follows it, operation by operation. *)

From stdpp Require Import base list option.
From Stdlib Require Import ZArith Lia.
From S2P Require Import Prelude Errors BackendMessages Request ReadResponse ReadResponseSpec ReadResponseGrammar Multiplexer MultiplexerSpec.

(** ** Counting ReadyForQuery

    The responses of a request hold one ReadyForQuery for each of its queries and
    syncs, the last of them at the end: what lets the multiplexer skip the
    response to a request whose messages it no longer follows. *)

Section rfqs.
Context {H : Type} `{!ResponseHandler H}.
Implicit Types f : read_response_fsm H.

Definition count_rfqs (ms : list any_backend_message) : nat := length (List.filter is_ready ms).

Definition expected f : nat := get_expected_rfqs (get_remaining_messages f).

Lemma call_handler_inv m f g : call_handler m f = Some g -> exists h, g = with_handler h f.
Proof. unfold call_handler. destruct (on_message m _ _) as [h|]; [|done]. intros [= <-]. by exists h. Qed.

(** What a step does to the number of ReadyForQuery messages to come. *)
Definition rfq_step (m : any_backend_message) f (r : fsm_result) (f' : read_response_fsm H) : Prop :=
match r with
| Rread => expected f = ((if is_ready m then 1 else 0) + expected f')%nat
| Rdone None => expected f = 1%nat /\ is_ready m = true
| Rdone (Some _) => True
end.

Lemma advance_rfq m f t rest b r f' : get_remaining_messages f = t :: rest -> check_types b (t :: rest) = None ->
expects_rfq t = is_ready m -> advance f = Some (r, f') -> rfq_step m f r f'.
Proof.
intros Hr Hc Ht. unfold advance. pose proof (remaining_next f t rest Hr) as Hn.
assert (length (drop (current_ f) (messages f)) = S (length rest)) as Hl.
{ unfold get_remaining_messages in Hr. by rewrite Hr. }
rewrite length_drop in Hl. unfold rfq_step, expected.
assert (get_expected_rfqs (t :: rest) = ((if is_ready m then 1 else 0) + get_expected_rfqs rest)%nat) as Hcount.
{ unfold get_expected_rfqs. cbn [List.filter]. rewrite <- Ht. by destruct (expects_rfq t). }
destruct (Nat.leb_spec (length (messages (incr_current f))) (current_ (incr_current f))) as [Hle|Hlt]; intros [= <- <-].
- destruct rest; [|unfold messages in *; simpl in *; lia]. rewrite Hr, Hcount. destruct (is_ready m) eqn:Em; [done|].
by destruct t, b.
- by rewrite Hr, Hn, Hcount.
Qed.

Lemma skip_rfq rest : forall f r f', get_remaining_messages f = rest -> check_types true rest = None ->
skip_to_sync rest f = Some (r, f') -> r = Rread /\ expected f' = get_expected_rfqs rest.
Proof.
induction rest as [|t rest IH]; intros f r f' Hr Hc; [done|].
pose proof (remaining_next f t rest Hr) as Hn.
destruct t; simpl in Hc; try done; cbn [skip_to_sync].
7: { intros [= <- <-]. unfold expected. by rewrite Hr. }
5: by apply IH.
all: destruct (call_handler Amessage_skipped f) as [g|] eqn:Eg; [|done]; cbn [mbind option_bind];
apply call_handler_inv in Eg as [h ->]; by apply (IH (incr_current (with_handler h f))).
Qed.

Lemma handle_error_rfq m e f t rest b r f' : get_remaining_messages f = t :: rest -> check_types b (t :: rest) = None ->
t <> rt_query -> t <> rt_sync -> is_ready m = false -> handle_error e f = Some (r, f') -> rfq_step m f r f'.
Proof.
intros Hr Hc Hq Hs Hm. unfold handle_error. destruct (call_handler (Aerror_response e) f) as [g|] eqn:Eg; [|done].
apply call_handler_inv in Eg as [h ->]. cbn [mbind option_bind].
pose proof (remaining_next f t rest Hr) as Hn. intros He.
assert (get_remaining_messages (set_state msg_first (incr_current (with_handler h f))) = rest) as Hn' by exact Hn.
rewrite Hn' in He. apply skip_rfq in He as [-> He]; [|done|by destruct t].
unfold rfq_step, expected in *. rewrite Hm, He, Hr. by destruct t.
Qed.

(** Closes the branches of the handlers. *)
Ltac rfq_branch Hr Hc :=
repeat match goal with
| |- context [call_handler ?m ?f] =>
let h := fresh "h" in let g := fresh "g" in let E := fresh "E" in
destruct (call_handler m f) as [g|] eqn:E; [|done]; apply call_handler_inv in E as [h ->]; cbn [mbind option_bind]
end;
first
[ by apply (handle_error_rfq _ _ _ _ _ _ _ _ Hr Hc)
| match goal with |- advance ?g = _ -> rfq_step ?m _ _ _ =>
let Ha := fresh in intros Ha; exact (advance_rfq m g _ _ _ _ _ Hr Hc eq_refl Ha) end
| by intros [= <- <-] ].

Lemma dispatch_rfq m rest : forall f r f', get_remaining_messages f = rest ->
(forall t rest', rest = t :: rest' -> state_fits (state_ f) t) -> (exists b, check_types b rest = None) ->
dispatch m rest f = Some (r, f') -> rfq_step m f r f'.
Proof.
induction rest as [|t rest IH]; intros f r f' Hr Hfit [b Hc]; [done|]. specialize (Hfit _ _ eq_refl).
destruct t; cbn [dispatch];
unfold handle_bind, handle_close, handle_describe, handle_execute, handle_parse, handle_query,
handle_sync, query_error, unexpected.
5: { assert (state_ f = msg_first) as Hs by (by destruct (state_ f)). intros Hd.
assert (rfq_step m (incr_current f) r f') as Hi.
{ apply (IH (incr_current f)); [by eapply remaining_next|intros; unfold incr_current; cbn [state_]; by rewrite Hs|by eexists|done]. }
unfold rfq_step, expected in *. by rewrite (remaining_next _ _ _ Hr), Hr in *. }
all: destruct (state_ f) eqn:Hs; try done; rewrite ?bool_decide_true, ?bool_decide_false by done.
all: destruct m; try destruct (allow_copy_ f); cbn [negb]; rewrite ?bool_decide_true, ?bool_decide_false by done; rfq_branch Hr Hc.
Qed.

Lemma resume_rfq m f r f' : fsm_inv f -> is_async m = false -> resume m f = Some (r, f') -> rfq_step m f r f'.
Proof.
intros (t & rest & Hr & Hfit & b & Hc) Hm. unfold resume. rewrite Hm. apply dispatch_rfq; rewrite ?Hr; [done| |by eexists].
by intros ? ? [= <- <-].
Qed.

(** What [resume_ok] says, for any handler. *)
Lemma resume_inv m f r f' : fsm_inv f -> resume m f = Some (r, f') -> outcome_ok (req_ f) r f'.
Proof.
intros Hi Hres. destruct (resume_ok m (with_handler ([] : trace) f) Hi) as (r' & g & Hg & Ho).
pose proof (commutes_resume m (handler_ f) (with_handler ([] : trace) f)) as Hcm. rewrite Hg in Hcm.
replace (h ← replay (handler_ (with_handler ([] : trace) f)) (handler_ f); resume m (with_handler h (with_handler ([] : trace) f)))
with (resume m f) in Hcm by by destruct f.
rewrite Hres in Hcm. cbn [mbind option_bind] in Hcm.
destruct (replay (handler_ g) (handler_ f)) as [h|]; [|done]. injection Hcm as -> ->. exact Ho.
Qed.

Definition no_async (ms : list any_backend_message) : Prop := Forall (fun m => is_async m = false) ms.

(** The end of a response. *)
Fixpoint ends_ready (ms : list any_backend_message) : Prop :=
match ms with
| [] => False
| [m] => is_ready m = true
| _ :: ms' => ends_ready ms'
end.

Lemma feed_rfq ms : forall f f', fsm_inv f -> no_async ms -> feed ms f = Some (Rdone None, f', []) ->
count_rfqs ms = expected f /\ ends_ready ms.
Proof.
induction ms as [|m ms IH]; intros f f' Hi Hms; [done|]. apply Forall_cons_iff in Hms as [Hm Hms].
cbn [feed]. destruct (resume m f) as [[r g]|] eqn:E; [|done]. cbn [mbind option_bind].
pose proof (resume_rfq _ _ _ _ Hi Hm E) as Hs. pose proof (resume_inv _ _ _ _ Hi E) as [_ Ho].
destruct r as [[e|]|]; [done|..].
- intros [= <- ->]. destruct Hs as [Hs Hr]. unfold count_rfqs. cbn [List.filter]. by rewrite Hr, Hs.
- intros Hf. destruct (IH g f' Ho Hms Hf) as [Hc He]. split.
+ rewrite Hs, <- Hc. unfold count_rfqs. cbn [List.filter]. by destruct (is_ready m).
+ cbn [ends_ready]. by destruct ms.
Qed.
End rfqs.

(** ** The specification *)

Section specification.
Context {H : Type} `{!ResponseHandler H}.

(** What the server still has to send for a request that was written, and the
handler's state after it; [None] once the request is cancelled. *)
Record slot := Slot { sl_elem : nat; sl_result : option H; sl_left : list any_backend_message }.

(** A request not written yet; cancelled requests keep their place. *)
Record waiting_request := Waiting { w_elem : nat; w_work : option (request * H) }.

Record channel := Channel { sent : list slot; waiting : list waiting_request; ch_next : nat }.

Definition empty_channel : channel := Channel [] [] 0.

(** A response of the grammar, without asynchronous messages, and what its calls
make of the handler. *)
Definition answers (req : request) (h h' : H) (ms : list any_backend_message) : Prop :=
exists tr, no_async ms /\ response false 0 (rq_types req) ms tr /\ replay tr h = Some h'.

(** The server's responses to what is written. *)
Inductive written_out : list waiting_request -> bytes -> list slot -> Prop :=
| wo_nil : written_out [] [] []
| wo_live a req h h' ms ws payload slots : answers req h h' ms -> written_out ws payload slots ->
written_out (Waiting a (Some (req, h)) :: ws) (rq_buffer req ++ payload) (Slot a (Some h') ms :: slots)
| wo_cancelled a ws payload slots : written_out ws payload slots -> written_out (Waiting a None :: ws) payload slots.

(** The end of the response of a slot. *)
Definition completes_slot (a : nat) (r : option H) (ec : error_code) : list (completion H) :=
match r with
| Some h => [Completion a ec (match ec with None => Some h | Some _ => None end)]
| None => []
end.

Inductive channel_step : operation H -> channel -> output H -> channel -> Prop :=
| cs_add req h s w n : check_request req = None ->
channel_step (Op_add req h) (Channel s w n) (Output None [] []) (Channel s (w ++ [Waiting n (Some (req, h))]) (S n))
| cs_cancel_waiting a x s w1 w2 n :
channel_step (Op_cancel a) (Channel s (w1 ++ Waiting a (Some x) :: w2) n) (Output None [] [])
(Channel s (w1 ++ Waiting a None :: w2) n)
| cs_cancel_sent a h ms s1 s2 w n :
channel_step (Op_cancel a) (Channel (s1 ++ Slot a (Some h) ms :: s2) w n) (Output None [] [])
(Channel (s1 ++ Slot a None ms :: s2) w n)
| cs_write s w n payload slots : written_out w payload slots ->
channel_step Op_write (Channel s w n) (Output None payload []) (Channel (s ++ slots) [] n)
| cs_async m c : is_async m = true -> channel_step (Op_message m) c (Output None [] []) c
| cs_message m m' a r ms s w n : is_async m = false ->
channel_step (Op_message m) (Channel (Slot a r (m :: m' :: ms) :: s) w n) (Output None [] [])
(Channel (Slot a r (m' :: ms) :: s) w n)
| cs_last m a r s w n : is_async m = false ->
channel_step (Op_message m) (Channel (Slot a r [m] :: s) w n) (Output None [] (completes_slot a r None)) (Channel s w n)
| cs_cleanup s w n :
channel_step Op_cleanup (Channel s w n)
(Output None [] (concat (map (fun sl => completes_slot (sl_elem sl) (sl_result sl) (Some (generic operation_canceled))) s)))
(Channel [] w n).

Inductive channel_run : list (operation H) -> channel -> list (output H) -> channel -> Prop :=
| cr_nil c : channel_run [] c [] c
| cr_step op ops c o c' os c'' : channel_step op c o c' -> channel_run ops c' os c'' -> channel_run (op :: ops) c (o :: os) c''.

(** ** The simulation *)

Definition owed (e : multiplexer_elem H) (sl : slot) : Prop :=
address e = sl_elem sl /\ no_async (sl_left sl) /\
match el_status e, el_work e, sl_result sl with
| in_flight, Some (req, h), Some h' =>
check_request req = None /\ exists f, feed (sl_left sl) (make_fsm req h false) = Some (Rdone None, f, []) /\ handler_ f = h'
| abandoned_in_flight, None, None => count_rfqs (sl_left sl) = num_rfq e /\ ends_ready (sl_left sl)
| _, _, _ => False
end.

(** The written elements and the slots; abandoned elements that were never
written may stand between them. *)
Inductive written : list (multiplexer_elem H) -> list slot -> Prop :=
| wr_nil : written [] []
| wr_skip e es ss : el_status e = abandoned_pending -> el_work e = None -> written es ss -> written (e :: es) ss
| wr_cons e es sl ss : owed e sl -> written es ss -> written (e :: es) (sl :: ss).

Inductive serving (s : read_response_stream_fsm H) : list (multiplexer_elem H) -> list slot -> Prop :=
| serving_initial es ss : status_ s = st_initial -> written es ss -> serving s es ss
| serving_reading e es req f f' a ms ss : status_ s = st_reading -> fsm_ s = Some f -> fsm_inv f ->
address e = a -> el_status e = in_flight -> el_work e = Some (req, handler_ f) ->
no_async ms -> feed ms f = Some (Rdone None, f', []) -> written es ss ->
serving s (e :: es) (Slot a (Some (handler_ f')) ms :: ss)
| serving_ignoring e es a ms ss : status_ s = st_ignoring ->
address e = a -> el_status e = abandoned_in_flight -> el_work e = None ->
no_async ms -> count_rfqs ms = remaining_rfq_ s -> ends_ready ms -> written es ss ->
serving s (e :: es) (Slot a None ms :: ss).

Definition awaits (e : multiplexer_elem H) (w : waiting_request) : Prop :=
address e = w_elem w /\ el_work e = w_work w /\
match w_work w with
| Some (req, _) => el_status e = pending /\ check_request req = None
| None => el_status e = abandoned_pending
end.

Definition addresses_ok (next : nat) (elms : list (multiplexer_elem H)) : Prop :=
NoDup (map address elms) /\ Forall (fun e => address e < next)%nat elms.

Definition mux_rel (m : multiplexer H) (c : channel) : Prop :=
exists es ps, elems_ m = es ++ ps /\ num_pending_ m = length ps /\ serving (stream_ m) es (sent c) /\
Forall2 awaits ps (waiting c) /\ next_ m = ch_next c /\ addresses_ok (next_ m) (elems_ m).

Lemma pending_offset_app (m : multiplexer H) es ps : elems_ m = es ++ ps -> num_pending_ m = length ps -> pending_offset m = Some (length es).
Proof.
intros He Hp. unfold pending_offset. rewrite He, Hp, length_app.
destruct (Nat.leb_spec (length ps) (length es + length ps)); [f_equal; lia|lia].
Qed.

(** *** Addresses *)

Lemma locate_middle a (l1 : list (multiplexer_elem H)) e l2 : NoDup (map address (l1 ++ e :: l2)) -> address e = a ->
locate a (l1 ++ e :: l2) = Some (l1, e, l2).
Proof.
intros Hn <-. induction l1 as [|x l1 IH]; cbn [app locate]; [by rewrite Nat.eqb_refl|].
simpl in Hn. apply list.NoDup_cons in Hn as [Hx Hn]. destruct (Nat.eqb_spec (address x) (address e)) as [E|_].
{ destruct Hx. rewrite E, map_app. apply elem_of_app. right. left. }
by rewrite IH.
Qed.

Lemma addresses_ok_map next elms elms' : map address elms' = map address elms -> addresses_ok next elms -> addresses_ok next elms'.
Proof.
intros E [Hn Hf]. split; [by rewrite E|]. apply (proj1 (Forall_map address (fun a => a < next)%nat elms')). rewrite E. by apply Forall_map.
Qed.

Lemma addresses_ok_suffix next a b : addresses_ok next (a ++ b) -> addresses_ok next b.
Proof.
intros [Hn Hf]. split; [rewrite map_app in Hn; by apply list.NoDup_app in Hn as (_ & _ & ?)|by apply Forall_app in Hf as [_ ?]].
Qed.

(** *** Responses *)

Lemma answers_feed req h h' ms : check_request req = None -> answers req h h' ms ->
no_async ms /\ exists f, feed ms (make_fsm req h false) = Some (Rdone None, f, []) /\ handler_ f = h'.
Proof.
intros Hc (tr & Hms & Hr & Hp). split; [done|]. assert (rq_types req <> []) as Hne.
{ intros E. unfold check_request in Hc. by rewrite E in Hc. }
apply (C_response req false _ (rq_types req) 0 ms tr (le_n _) eq_refl Hne) in Hr as (_ & g & Hg & Hh). simpl in Hh. subst tr.
rewrite feed_replay. unfold make_fsm. rewrite Hg. cbn [mbind option_bind]. rewrite Hp. by eexists.
Qed.

Lemma written_app es1 ss1 es2 ss2 : written es1 ss1 -> written es2 ss2 -> written (es1 ++ es2) (ss1 ++ ss2).
Proof. intros H1 H2. induction H1; [done|by apply wr_skip|by apply wr_cons]. Qed.

Lemma serving_app s es1 ss1 es2 ss2 : serving s es1 ss1 -> written es2 ss2 -> serving s (es1 ++ es2) (ss1 ++ ss2).
Proof.
intros H1 H2. destruct H1; cbn [app].
- apply serving_initial; [done|]. by apply written_app.
- eapply serving_reading; eauto using written_app.
- eapply serving_ignoring; eauto using written_app.
Qed.

(** The element of a slot. *)
Lemma written_split es s1 sl s2 : written es (s1 ++ sl :: s2) ->
exists e1 e e2, es = e1 ++ e :: e2 /\ written e1 s1 /\ owed e sl /\ written e2 s2.
Proof.
remember (s1 ++ sl :: s2) as ss eqn:E. intros Hw. revert s1 E.
induction Hw as [|e es ss Hs Hk Hw IH|e es sl' ss Ho Hw IH]; intros s1 E; [by destruct s1| |].
- destruct (IH s1 E) as (e1 & x & e2 & -> & ? & ? & ?). exists (e :: e1), x, e2. split_and!; [done|by apply wr_skip|done|done].
- destruct s1 as [|sl1 s1]; injection E as -> ->; [by exists [], e, es; split_and!; [|constructor| |]|].
destruct (IH s1 eq_refl) as (e1 & x & e2 & -> & ? & ? & ?). exists (e :: e1), x, e2. split_and!; [done|by apply wr_cons|done|done].
Qed.

(** *** Cancelling a request that was written *)

Lemma owed_abandon e sl h req h0 : owed e sl -> sl_result sl = Some h -> el_work e = Some (req, h0) ->
owed (Elem (address e) None abandoned_in_flight (get_expected_rfqs (rq_types req))) (Slot (sl_elem sl) None (sl_left sl)).
Proof.
intros (Ha & Hn & Ho) Hr Hw. rewrite Hr, Hw in Ho. destruct (el_status e); try done. destruct Ho as (Hc & f & Hf & _).
split; [done|]. split; [done|]. simpl. by apply (feed_rfq _ _ f) in Hf; [|by apply make_fsm_inv|].
Qed.

Lemma cancel_sent m a h ms s1 s2 w n : mux_rel m (Channel (s1 ++ Slot a (Some h) ms :: s2) w n) ->
exists m', cancel a m = Some m' /\ mux_rel m' (Channel (s1 ++ Slot a None ms :: s2) w n).
Proof.
intros (es & ps & He & Hp & Hs & Hw & Hn & Hok). cbn [sent waiting ch_next] in *.
assert (forall e1 e e2 st rfq s', es = e1 ++ e :: e2 -> address e = a ->
serving s' (e1 ++ Elem a None st rfq :: e2) (s1 ++ Slot a None ms :: s2) ->
mux_rel (Mux (mx_write_buffer m) ((e1 ++ Elem a None st rfq :: e2) ++ ps) (num_pending_ m) s' (next_ m))
(Channel (s1 ++ Slot a None ms :: s2) w n)) as Hdone.
{ intros e1 e e2 st rfq s' -> Ha Hs'. eexists _, ps. split_and!; try done.
eapply addresses_ok_map; [|exact Hok]. cbn [elems_]. rewrite He, !map_app. simpl. by rewrite Ha. }
assert (forall e1 e e2, es = e1 ++ e :: e2 -> address e = a -> locate a (elems_ m) = Some (e1, e, e2 ++ ps)) as Hloc.
{ intros e1 e e2 -> Ha. destruct Hok as [Hnd _]. rewrite He, <- app_assoc in *. by apply locate_middle. }
assert (forall e1 e e2, es = e1 ++ e :: e2 -> owed e (Slot a (Some h) ms) ->
match e1 with [] => is_reading (stream_ m) | _ => false end = false ->
(forall x, owed x (Slot a None ms) -> serving (stream_ m) (e1 ++ x :: e2) (s1 ++ Slot a None ms :: s2)) ->
exists m', cancel a m = Some m' /\ mux_rel m' (Channel (s1 ++ Slot a None ms :: s2) w n)) as Hinside.
{ intros e1 e e2 Hes Ho Hread Hserv. pose proof Ho as (Ha & _ & Ho'). cbn [sl_elem sl_result] in *.
unfold cancel. rewrite (Hloc _ _ _ Hes Ha). cbn [mbind option_bind]. rewrite Hread.
destruct (el_status e) eqn:Es; try done; destruct (el_work e) as [[req h0]|] eqn:Ew; try done. cbn [mbind option_bind].
eexists. split; [reflexivity|]. rewrite app_comm_cons, app_assoc. apply (Hdone e1 e e2); [done|done|]. apply Hserv.
subst a. exact (owed_abandon _ _ _ _ _ Ho eq_refl Ew). }
inversion Hs as [? ? Hst Hwr|e es' req f f' a' ms' ss Hst Hf Hi Ha Hes Hwk Hms Hfeed Hwr Hes' Hss|e es' a' ms' ss Hst Ha Hes Hwk Hms Hc Hend Hwr Hes' Hss]; subst.
- apply written_split in Hwr as (e1 & e & e2 & -> & Hw1 & Ho & Hw2). apply (Hinside e1 e e2); [done|done| |].
+ destruct e1; [|done]. unfold is_reading. by rewrite Hst.
+ intros x Hx. apply serving_initial; [done|]. apply written_app; [done|]. by apply wr_cons.
- destruct s1 as [|sl1 s1]; simplify_eq Hss; intros; subst.
+ unfold cancel. rewrite (Hloc [] e es' eq_refl eq_refl). cbn [mbind option_bind]. rewrite Hes.
unfold abandon_current, is_reading. rewrite Hst, Hf. cbn [mbind option_bind]. eexists. split; [reflexivity|].
apply (Hdone [] e es'); [done|done|]. destruct (feed_rfq _ _ _ Hi Hms Hfeed).
by apply serving_ignoring.
+ apply written_split in Hwr as (e1 & e' & e2 & -> & Hw1 & Ho & Hw2). apply (Hinside (e :: e1) e' e2); [done|done|done|].
intros x Hx. cbn [app]. eapply serving_reading; eauto. apply written_app; [done|]. by apply wr_cons.
- destruct s1 as [|sl1 s1]; simplify_eq Hss; intros; subst.
apply written_split in Hwr as (e1 & e' & e2 & -> & Hw1 & Ho & Hw2). apply (Hinside (e :: e1) e' e2); [done|done|done|].
intros x Hx. cbn [app]. eapply serving_ignoring; eauto. apply written_app; [done|]. by apply wr_cons.
Qed.

(** *** A message of a response *)

Definition subqueue (next : nat) (a b : list (multiplexer_elem H)) : Prop := addresses_ok next b -> addresses_ok next a.

Lemma drop_abandoned_written es sl ss ps : written es (sl :: ss) ->
exists e es', drop_abandoned (es ++ ps) = e :: es' ++ ps /\ owed e sl /\ written es' ss /\
forall next, subqueue next (e :: es' ++ ps) (es ++ ps).
Proof.
remember (sl :: ss) as sls eqn:E. intros Hw. revert E.
induction Hw as [|e es ss' Hs Hk Hw IH|e es sl' ss' Ho Hw IH]; intros E; [done| |]; cbn [app drop_abandoned].
- rewrite bool_decide_true by done. destruct (IH E) as (x & es' & -> & ? & ? & Hsub). exists x, es'. split_and!; [done..|].
intros next Hok. apply Hsub. by apply (addresses_ok_suffix _ [e]) in Hok.
- injection E as -> ->. rewrite bool_decide_false; [exists e, es; do 3 (split; [done|]); by intros ? ?|]. intros Hs.
destruct Ho as (_ & _ & Ho). by rewrite Hs in Ho.
Qed.

Lemma start_serving s es sl ss ps : status_ s = st_initial -> serving s es (sl :: ss) ->
exists e es' s', stream_start (es ++ ps) s = Some (None, e :: es' ++ ps, s') /\ status_ s' <> st_initial /\
serving s' (e :: es') (sl :: ss) /\ forall next, subqueue next (e :: es' ++ ps) (es ++ ps).
Proof.
intros Hst Hs. inversion Hs as [? ? _ Hw| |]; subst; [|congruence..].
destruct (drop_abandoned_written _ _ _ ps Hw) as (e & es' & Hd & (Ha & Hn & Ho) & Hw' & Hsub).
unfold stream_start. rewrite Hd. destruct sl as [a r ms]. cbn [sl_elem sl_result sl_left] in *.
destruct (el_status e) eqn:Es; try done; destruct (el_work e) as [[req h]|] eqn:Ew; try done; destruct r as [h'|]; try done.
- destruct Ho as (Hc & f & Hf & <-). cbn [mbind option_bind]. eexists e, es', _. split_and!; [done|done| |done].
by eapply serving_reading; [done|done|by apply make_fsm_inv|done..].
- destruct Ho as [Hc He]. eexists e, es', _. split_and!; [done|done| |done]. by apply serving_ignoring.
Qed.

(** What is left to serve after a message. *)
Definition after_message (a : nat) (r : option H) (rest : list any_backend_message) (ss : list slot) : list slot :=
match rest with [] => ss | _ => Slot a r rest :: ss end.

Lemma message_serving s es a r m rest ss ps : status_ s <> st_initial -> serving s es (Slot a r (m :: rest) :: ss) ->
exists es' s', stream_message m (es ++ ps) s =
Some (None, match rest with [] => completes_slot a r None | _ => [] end, es' ++ ps, s') /\
serving s' es' (after_message a r rest ss) /\ forall next, subqueue next (es' ++ ps) (es ++ ps).
Proof.
intros Hst Hs. inversion Hs as [|e es' req f f' a' ms' ss' Hst' Hf Hi Ha Hes Hwk Hms Hfeed Hwr Hes' Hss|
e es' a' ms' ss' Hst' Ha Hes Hwk Hms Hc Hend Hwr Hes' Hss]; [done|..]; subst; unfold stream_message; rewrite Hst'; cbn [app].
- rewrite Hf. cbn [mbind option_bind feed] in *. pose proof Hms as [Hm Hms']%Forall_cons_iff.
destruct (resume m f) as [[r' g]|] eqn:Er; [|done]. cbn [mbind option_bind] in *.
destruct (resume_inv _ _ _ _ Hi Er) as [Hreq Ho]. destruct r' as [ec|].
+ injection Hfeed as -> -> ->. eexists es', _. cbn [completes_slot after_message]. split.
{ unfold on_done. cbn [set_handler el_work address]. by rewrite Hwk. }
split; [by apply serving_initial|]. intros next Hok. exact (addresses_ok_suffix next [e] _ Hok).
+ destruct rest as [|m2 rest]; [done|]. eexists (set_handler (handler_ g) e :: es'), _. split; [done|]. split.
* by eapply (serving_reading _ _ _ req g f'); cbn [set_handler el_status address el_work]; rewrite ?Hwk.
* intros next Hok. by apply (addresses_ok_map next (e :: es' ++ ps)).
- pose proof Hms as [Hm Hms']%Forall_cons_iff. unfold count_rfqs in Hc. cbn [List.filter] in Hc.
destruct rest as [|m2 rest].
+ cbn [ends_ready] in Hend. rewrite Hend in *. rewrite <- Hc. cbn. eexists es', _. split; [done|]. split; [by apply serving_initial|].
intros next Hok. exact (addresses_ok_suffix next [e] _ Hok).
+ assert (ends_ready (m2 :: rest)) as Hend' by done.
assert (exists k, count_rfqs (m2 :: rest) = S k) as [k Hk].
{ clear -Hend'. induction (m2 :: rest) as [|x l IH]; [done|]. unfold count_rfqs in *. cbn [List.filter].
destruct (is_ready x) eqn:E; [by eexists|]. apply IH. destruct l; cbn [ends_ready] in Hend'; [congruence|done]. }
unfold count_rfqs in Hk. destruct (is_ready m); cbn [length] in Hc; rewrite ?Hk in Hc; rewrite <- Hc; [cbn [Nat.eqb]|];
eexists (e :: es'), _; (split; [done|]; split; [|by intros ? ?]); apply serving_ignoring; unfold count_rfqs; rewrite ?Hk; done.
Qed.

Lemma on_message_serving s es a r m rest ss ps : serving s es (Slot a r (m :: rest) :: ss) ->
exists es' s', stream_on_message m (es ++ ps) s =
Some (None, match rest with [] => completes_slot a r None | _ => [] end, es' ++ ps, s') /\
serving s' es' (after_message a r rest ss) /\ forall next, subqueue next (es' ++ ps) (es ++ ps).
Proof.
intros Hs. unfold stream_on_message. destruct (status_ s) eqn:Est; [|apply message_serving; by rewrite ?Est..].
destruct (start_serving _ _ _ _ ps Est Hs) as (e & es1 & s1 & -> & Hst & Hs1 & Hsub). cbn [mbind option_bind].
destruct (message_serving _ _ _ _ _ _ _ ps Hst Hs1) as (es' & s' & Hm & Hs' & Hsub'). cbn [app] in Hm. rewrite Hm.
exists es', s'. split_and!; [done|done|]. intros next Hok. by apply Hsub', Hsub.
Qed.

(** *** The other operations *)

Lemma write_pending_awaits ps w payload slots : Forall2 awaits ps w -> written_out w payload slots -> forall buffer,
exists ps', write_pending ps buffer = Some (buffer ++ payload, ps') /\ written ps' slots /\ map address ps' = map address ps.
Proof.
intros Hf Ho. revert ps Hf. induction Ho as [|a req h h' ms ws payload slots Hans Ho IH|a ws payload slots Ho IH]; intros ps Hf buffer;
inversion Hf as [|e ? ps' ? (Ha & Hwk & Hst) Hf' Heq]; subst; cbn [write_pending w_elem w_work] in *.
- exists []. rewrite app_nil_r. split_and!; [done|constructor|done].
- destruct Hst as [-> Hc]. rewrite Hwk. cbn [mbind option_bind].
destruct (IH _ Hf' (buffer ++ rq_buffer req)) as (ps2 & -> & Hw2 & Hm). cbn [mbind option_bind]. rewrite <- app_assoc.
eexists. split_and!; [done| |by simpl; rewrite Hm]. apply wr_cons; [|done].
apply (answers_feed _ _ _ _ Hc) in Hans as [Hms Hfeed]. split; [done|]. split; [done|]. simpl. by rewrite Hwk.
- rewrite Hst. destruct (IH _ Hf' buffer) as (ps2 & -> & Hw2 & Hm). cbn [mbind option_bind].
eexists. split_and!; [done| |by simpl; rewrite Hm]. by apply wr_skip.
Qed.

Definition slot_cancelled (sl : slot) : list (completion H) :=
completes_slot (sl_elem sl) (sl_result sl) (Some (generic operation_canceled)).

Lemma cleanup_written es ss : written es ss ->
concat (map (fun e => on_done e (Some (generic operation_canceled))) es) = concat (map slot_cancelled ss).
Proof.
induction 1 as [|e es ss Hs Hk Hw IH|e es sl ss (Ha & _ & Ho) Hw IH]; [done|..]; cbn [map concat]; rewrite IH.
- unfold on_done. by rewrite Hk.
- f_equal. unfold on_done, slot_cancelled, completes_slot. rewrite Ha.
by destruct (el_status e), (el_work e) as [[? ?]|], (sl_result sl).
Qed.

Lemma cleanup_serving s es ss : serving s es ss ->
concat (map (fun e => on_done e (Some (generic operation_canceled))) es) = concat (map slot_cancelled ss).
Proof.
destruct 1 as [es ss _ Hw|e es req f f' a ms ss _ _ _ Ha _ Hk _ _ Hw|e es a ms ss _ Ha _ Hk _ _ _ Hw];
[by apply cleanup_written|..]; cbn [map concat]; rewrite (cleanup_written _ _ Hw);
unfold on_done, slot_cancelled; cbn [sl_elem sl_result completes_slot]; by rewrite Hk, ?Ha.
Qed.

Lemma cancel_waiting m a x s w1 w2 n : mux_rel m (Channel s (w1 ++ Waiting a (Some x) :: w2) n) ->
exists m', cancel a m = Some m' /\ mux_rel m' (Channel s (w1 ++ Waiting a None :: w2) n).
Proof.
intros (es & ps & He & Hp & Hs & Hw & Hn & Hok). cbn [sent waiting ch_next] in *.
apply Forall2_app_inv_r in Hw as (p1 & p2' & Hp1 & Hp2 & ->).
inversion Hp2 as [|e ? p2 ? (Ha & Hwk & Hst) Hp2' Heq]; subst. cbn [w_elem w_work] in *. destruct x as [req h]. destruct Hst as [Hst Hc].
unfold cancel. rewrite He, (app_assoc es p1), (locate_middle a (es ++ p1) e p2); [|rewrite <- app_assoc, <- He; by destruct Hok|done].
cbn [mbind option_bind]. rewrite Hst. cbn [mbind option_bind]. eexists. split; [reflexivity|].
eexists es, (p1 ++ Elem a None abandoned_pending (num_rfq e) :: p2). split_and!; cbn [elems_ num_pending_ stream_ next_ sent waiting ch_next]; try done.
- by rewrite <- app_assoc.
- rewrite Hp, !length_app. done.
- apply Forall2_app; [done|]. by constructor.
- eapply addresses_ok_map; [|exact Hok]. rewrite He, <- app_assoc, !map_app. simpl. by rewrite Ha.
Qed.

Lemma mux_simulates op m c o c' : mux_rel m c -> channel_step op c o c' ->
exists m', mux_step op m = Some (o, m') /\ mux_rel m' c'.
Proof.
intros Hr Hstep. destruct Hstep as [req h s w n Hc|a x s w1 w2 n|a h ms s1 s2 w n|s w n payload slots Ho|msg c Ha|
msg m' a r ms s w n Ha|msg a r s w n Ha|s w n]; cbn [mux_step].
- destruct Hr as (es & ps & He & Hp & Hs & Hw & Hn & [Hnd Hlt]). cbn [sent waiting ch_next] in *.
eexists. split; [reflexivity|]. eexists es, (ps ++ [_]). cbn [add snd elems_ num_pending_ stream_ next_ sent waiting ch_next].
split_and!; [by rewrite He, app_assoc|by rewrite length_app, Hp; simpl; lia|done|apply Forall2_app; [done|by repeat constructor]|by rewrite Hn|].
split.
+ rewrite map_app. apply list.NoDup_app. split_and!; [done| |apply NoDup_singleton]. intros x Hx Hx'.
apply list_elem_of_singleton in Hx'. simpl in Hx'. subst x. apply list_elem_of_fmap in Hx as (e & Hx & He').
rewrite Forall_forall in Hlt. apply list_elem_of_In, Hlt in He'. lia.
+ apply Forall_app. split; [eapply List.Forall_impl; [|exact Hlt]; simpl; intros; lia|]. constructor; [simpl; lia|constructor].
- destruct (cancel_waiting _ _ _ _ _ _ _ Hr) as (m' & -> & ?). by eexists.
- destruct (cancel_sent _ _ _ _ _ _ _ _ Hr) as (m' & -> & ?). by eexists.
- destruct Hr as (es & ps & He & Hp & Hs & Hw & Hn & Hok). cbn [sent waiting ch_next] in *.
unfold prepare_write. rewrite (pending_offset_app _ _ _ He Hp). cbn [mbind option_bind]. rewrite He, drop_app_length, take_app_length.
destruct (write_pending_awaits _ _ _ _ Hw Ho []) as (ps' & -> & Hw' & Hm). cbn [mbind option_bind app].
eexists. split; [reflexivity|]. exists (es ++ ps'), []. cbn [elems_ num_pending_ stream_ next_ sent waiting ch_next].
split_and!; [by rewrite app_nil_r|done|by apply serving_app|constructor|done|].
eapply addresses_ok_map; [|exact Hok]. by rewrite He, !map_app, Hm.
- unfold mux_on_message. rewrite Ha. by eexists.
- destruct Hr as (es & ps & He & Hp & Hs & Hw & Hn & Hok). cbn [sent waiting ch_next] in *.
unfold mux_on_message. rewrite Ha, He. destruct (on_message_serving _ _ _ _ _ _ _ ps Hs) as (es' & s' & -> & Hs' & Hsub).
cbn [mbind option_bind]. eexists. split; [reflexivity|]. exists es', ps. do 5 (split; [done|]). rewrite He in Hok. exact (Hsub _ Hok).
- destruct Hr as (es & ps & He & Hp & Hs & Hw & Hn & Hok). cbn [sent waiting ch_next] in *.
unfold mux_on_message. rewrite Ha, He. destruct (on_message_serving _ _ _ _ _ _ _ ps Hs) as (es' & s' & -> & Hs' & Hsub).
cbn [mbind option_bind]. eexists. split; [reflexivity|]. exists es', ps. do 5 (split; [done|]). rewrite He in Hok. exact (Hsub _ Hok).
- destruct Hr as (es & ps & He & Hp & Hs & Hw & Hn & Hok). cbn [sent waiting ch_next] in *.
unfold cleanup. rewrite (pending_offset_app _ _ _ He Hp). cbn [mbind option_bind]. rewrite He, drop_app_length, take_app_length.
rewrite (cleanup_serving _ _ _ Hs). eexists. split; [reflexivity|]. exists [], ps.
do 2 (split; [done|]). split; [apply serving_initial; [done|constructor]|]. do 2 (split; [done|]). rewrite He in Hok.
exact (addresses_ok_suffix _ es _ Hok).
Qed.

Lemma mux_rel_empty : mux_rel make_multiplexer empty_channel.
Proof.
exists [], []. do 2 (split; [done|]). split; [apply serving_initial; [done|constructor]|]. split; [constructor|]. split; [done|]. split; constructor.
Qed.

Lemma mux_simulates_run ops c os c' : channel_run ops c os c' -> forall m, mux_rel m c ->
exists m', mux_run ops m = Some (os, m') /\ mux_rel m' c'.
Proof.
induction 1 as [c|op ops c o c1 os c2 Hstep Hrun IH]; intros m Hr; [by eexists|]. cbn [mux_run].
destruct (mux_simulates _ _ _ _ _ Hr Hstep) as (m1 & -> & Hr1). cbn [mbind option_bind].
destruct (IH _ Hr1) as (m2 & -> & Hr2). by eexists.
Qed.
End specification.

(** ** Delivering what is owed *)

Section delivery.
Context {H : Type} `{!ResponseHandler H}.

Definition slot_ok (sl : slot (H := H)) : Prop := sl_left sl <> [] /\ no_async (sl_left sl).

Lemma written_ok es ss : written es ss -> Forall slot_ok ss.
Proof.
induction 1 as [|e es ss Hs Hk Hw IH|e es sl ss (Ha & Hn & Ho) Hw IH]; [constructor|done|]. constructor; [|done]. split; [|done].
intros E. rewrite E in Ho. destruct (el_status e), (el_work e) as [[? ?]|], (sl_result sl); try done; [|by destruct Ho].
by destruct Ho as (_ & f & [=] & _).
Qed.

Lemma written_nil es : written es [] -> Forall (fun e => el_status e = pending \/ el_status e = abandoned_pending) es.
Proof.
remember [] as ss eqn:E. intros Hw. revert E.
induction Hw as [|e es ss0 Hs1 Hk Hw1 IH|]; intros E; [constructor|constructor; [by right|by apply IH]|done].
Qed.

Lemma serving_ok s es ss : serving s es ss -> Forall slot_ok ss.
Proof.
destruct 1 as [es ss _ Hw|e es req f f' a ms ss _ _ _ _ _ _ Hn Hf Hw|e es a ms ss _ _ _ _ Hn _ He Hw];
[by eapply written_ok|..]; (constructor; [|by eapply written_ok]); split; cbn [sl_left]; try done; by intros ->.
Qed.

Lemma deliver_slot a r ms : ms <> [] -> no_async ms -> forall ss w n,
exists os, channel_run (map Op_message ms) (Channel (Slot a r ms :: ss) w n) os (Channel ss w n) /\
concat (map o_done os) = completes_slot a r None.
Proof.
induction ms as [|m ms IH]; intros Hne Hms ss w n; [done|]. apply Forall_cons_iff in Hms as [Hm Hms]. destruct ms as [|m' ms].
- eexists. split; [by eapply cr_step; [by apply cs_last|constructor]|]. simpl. by rewrite app_nil_r.
- destruct (IH ltac:(done) Hms ss w n) as (os & Hr & Ho). eexists. split; [by eapply cr_step; [by apply cs_message|exact Hr]|]. exact Ho.
Qed.

Lemma channel_run_app ops1 c os1 c1 ops2 os2 c2 : channel_run ops1 c os1 c1 -> channel_run ops2 c1 os2 c2 ->
channel_run (ops1 ++ ops2) c (os1 ++ os2) c2.
Proof. induction 1; [done|]. intros ?. cbn [app]. eapply cr_step; eauto. Qed.

Lemma deliver_all ss : Forall slot_ok ss -> forall w n,
exists os, channel_run (map Op_message (concat (map sl_left ss))) (Channel ss w n) os (Channel [] w n) /\
concat (map o_done os) = concat (map (fun sl => completes_slot (sl_elem sl) (sl_result sl) None) ss).
Proof.
induction ss as [|[a r ms] ss IH]; intros Hok w n; [by exists []; split; [constructor|]|].
apply Forall_cons_iff in Hok as [[Hne Hms] Hok]. destruct (IH Hok w n) as (os2 & Hr2 & Ho2).
destruct (deliver_slot a r ms Hne Hms ss w n) as (os1 & Hr1 & Ho1).
exists (os1 ++ os2). cbn [map concat sl_left sl_elem sl_result]. rewrite map_app. split; [by eapply channel_run_app|].
by rewrite map_app, concat_app, Ho1, Ho2.
Qed.
End delivery.

(** ** Properties *)

(** Two requests are written; the second is cancelled; a notice comes in. *)
Definition sample_query (c : string) : request := Req (str c) [rt_query] true.

Definition sample_answer : list any_backend_message :=
  [Mcommand_complete {| tag := str "BEGIN" |}; Mready_for_query {| status := in_transaction |}].

Definition sample_calls : trace :=
  [(0%nat, Arow_description empty_row_description); (0%nat, Acommand_complete {| tag := str "BEGIN" |})].

Lemma sample_answers c : answers (sample_query c) ([] : trace) sample_calls sample_answer.
Proof.
  exists sample_calls. split; [by repeat constructor|]. split; [|done].
  apply (rs_ok false 0 rt_query [] sample_answer [Arow_description empty_row_description;
    Acommand_complete {| tag := str "BEGIN" |}] [] []); [|constructor].
  apply rp_query. apply (qis_item _ _ [Mcommand_complete _] [_; _] [Mready_for_query _] []); constructor.
Qed.

Definition sample_operations : list (operation trace) :=
  [Op_add (sample_query "Q") []; Op_add (sample_query "P") []; Op_write; Op_cancel 1%nat; Op_message (Mnotice_response no_fields)].

Lemma sample_channel_run :
  channel_run sample_operations empty_channel
    [Output None [] []; Output None [] []; Output None (str "QP") []; Output None [] []; Output None [] []]
    (Channel [Slot 0 (Some sample_calls) sample_answer; Slot 1 None sample_answer] [] 2).
Proof.
  eapply cr_step; [by apply cs_add|]. eapply cr_step; [by apply cs_add|].
  eapply cr_step.
  { apply (cs_write [] _ _ (str "QP")). apply (wo_live 0 (sample_query "Q") [] sample_calls sample_answer _ (str "P")); [apply sample_answers|].
    apply (wo_live 1 (sample_query "P") [] sample_calls sample_answer _ []); [apply sample_answers|constructor]. }
  eapply cr_step; [apply (cs_cancel_sent 1 sample_calls sample_answer [_] [])|].
  eapply cr_step; [by apply cs_async|constructor].
Qed.

(** C28: The multiplexer implements the queue of the specification.  Any sequence of
    operations in which requests pass [check_request], only requests not yet
    answered are cancelled, and the server sends to every request written, in
    order, a response of the grammar with asynchronous messages in between, runs
    without a failed assertion or an error, and what is written and reported at
    each operation is what the specification says: the payloads of the live
    requests, and one completion per live request, when the last message of
    its response arrives, with the handler as the response leaves it. *)
Theorem multiplexer_refines {H : Type} `{!ResponseHandler H} (ops : list (operation H)) os c :
  channel_run ops empty_channel os c -> exists m, mux_run ops make_multiplexer = Some (os, m).
Proof.
  intros Hr. destruct (mux_simulates_run _ _ _ _ Hr _ mux_rel_empty) as (m & Hm & _). by exists m.
Qed.

Lemma multiplexer_refines_witness : exists m, mux_run sample_operations make_multiplexer =
  Some ([Output None [] []; Output None [] []; Output None (str "QP") []; Output None [] []; Output None [] []], m).
Proof. exact (multiplexer_refines _ _ _ sample_channel_run). Defined.

(** Requests that were written are answered once the server has sent what it
    owes.  After any such operations, the messages still owed complete every
    request that was written and not cancelled, in the order they were written,
    with success and with the handler the response leaves, and nothing but the
    requests not yet written is left. *)
Theorem multiplexer_answers {H : Type} `{!ResponseHandler H} (ops : list (operation H)) os c :
  channel_run ops empty_channel os c ->
  exists os' m, mux_run (ops ++ map Op_message (concat (map sl_left (sent c)))) make_multiplexer = Some (os ++ os', m) /\
    concat (map o_done os') = concat (map (fun sl => completes_slot (sl_elem sl) (sl_result sl) None) (sent c)) /\
    Forall (fun e => el_status e = pending \/ el_status e = abandoned_pending) (elems_ m).
Proof.
  intros Hr. destruct (mux_simulates_run _ _ _ _ Hr _ mux_rel_empty) as (m1 & _ & es & ps & _ & _ & Hs & _).
  apply serving_ok in Hs. destruct c as [s w n]. destruct (deliver_all s Hs w n) as (os' & Hr' & Ho).
  destruct (mux_simulates_run _ _ _ _ (channel_run_app _ _ _ _ _ _ _ Hr Hr') _ mux_rel_empty) as (m & Hm & es' & ps' & He & _ & Hs' & Hw & _).
  exists os', m. split; [done|]. split; [done|]. rewrite He. apply Forall_app. split.
  - cbn [sent] in Hs'. inversion Hs' as [? ? _ Hwr| |]; subst. by apply written_nil.
  - clear -Hw. cbn [waiting] in Hw. induction Hw as [|e x l l' (_ & _ & Hx) _ IH]; constructor; [|done].
    destruct (w_work x) as [[? ?]|]; [left; by destruct Hx|by right].
Qed.

Lemma multiplexer_answers_witness : exists os' m,
  mux_run (sample_operations ++ map Op_message (sample_answer ++ sample_answer)) make_multiplexer =
    Some ([Output None [] []; Output None [] []; Output None (str "QP") []; Output None [] []; Output None [] []] ++ os', m) /\
  concat (map o_done os') = [Completion 0 None (Some sample_calls)] /\
  Forall (fun e => el_status e = pending \/ el_status e = abandoned_pending) (elems_ m).
Proof. exact (multiplexer_answers _ _ _ sample_channel_run). Defined.
