(* ===== verification/Charconv.v ===== *)
(** * Characters and numbers ([std::from_chars], [std::to_chars], [<cctype>])

    The parts of the standard library the field types use: conversions between
    integers of any width and decimal text, and the classification of characters
    in the C locale.  A pointer into the input is what follows it. *)

From stdpp Require Import base list option.
From Stdlib Require Import ZArith Lia.
From S2P Require Import Prelude Errors CommandTag.

#[local] Open Scope Z_scope.

(** ** <cctype> *)

Definition isspace (c : Z) : bool := (c =? 32) || ((9 <=? c) && (c <=? 13)).
Definition isdigit (c : Z) : bool := is_digit c.
Definition isupper (c : Z) : bool := (ch "A" <=? c) && (c <=? ch "Z").
Definition islower (c : Z) : bool := (ch "a" <=? c) && (c <=? ch "z").
Definition isalpha (c : Z) : bool := isupper c || islower c.
Definition tolower (c : Z) : Z := if isupper c then c + 32 else c.

(** ** Integer types *)

Record int_type := IntType { it_signed : bool; it_size : nat }.

Definition int8 : int_type := IntType true 1.
Definition int16 : int_type := IntType true 2.
Definition int32 : int_type := IntType true 4.
Definition int64 : int_type := IntType true 8.
Definition uint32 : int_type := IntType false 4.

Definition type_min (t : int_type) : Z := if it_signed t then - 2 ^ (8 * Z.of_nat (it_size t) - 1) else 0.
Definition type_max (t : int_type) : Z :=
  if it_signed t then 2 ^ (8 * Z.of_nat (it_size t) - 1) - 1 else 2 ^ (8 * Z.of_nat (it_size t)) - 1.

Definition fits (t : int_type) (z : Z) : bool := (type_min t <=? z) && (z <=? type_max t).

(** ** from_chars, base ten *)

(** After the sign. *)
Definition from_digits (t : int_type) (negative : bool) (p : bytes) : errc + Z * bytes :=
  let '(ds, r) := digits_prefix p in
  match ds with
  | [] => inl invalid_argument
  | _ =>
      let v := if negative then - digits_value ds else digits_value ds in
      if fits t v then inr (v, r) else inl result_out_of_range
  end.

Definition from_chars_int (t : int_type) (p : bytes) : errc + Z * bytes :=
  match p with
  | c :: p' => if it_signed t && (c =? ch "-") then from_digits t true p' else from_digits t false p
  | [] => from_digits t false []
  end.

(** ** from_chars, base sixteen, to a byte *)

Definition hex_digit (c : Z) : option Z :=
  if is_digit c then Some (c - ch "0")
  else if (ch "a" <=? c) && (c <=? ch "f") then Some (c - ch "a" + 10)
  else if (ch "A" <=? c) && (c <=? ch "F") then Some (c - ch "A" + 10)
  else None.

Fixpoint hex_prefix (p : bytes) : list Z * bytes :=
  match p with
  | c :: p' => match hex_digit c with Some d => let '(ds, r) := hex_prefix p' in (d :: ds, r) | None => ([], p) end
  | [] => ([], [])
  end.

Definition from_chars_hex (p : bytes) : errc + Z * bytes :=
  let '(ds, r) := hex_prefix p in
  match ds with
  | [] => inl invalid_argument
  | _ => let v := foldl (fun n d => n * 16 + d) 0 ds in if v <=? 255 then inr (v, r) else inl result_out_of_range
  end.

(** ** to_chars *)

(** The last [k] digits. *)
Fixpoint pad (k : nat) (n : Z) : bytes :=
  match k with
  | O => []
  | S k' => pad k' (n / 10) ++ [ch "0" + n mod 10]
  end.

Fixpoint width_loop (fuel : nat) (n : Z) : nat :=
  match fuel with
  | O => 1
  | S fuel' => if n <? 10 then 1 else S (width_loop fuel' (n / 10))
  end.

(** The number of digits; any number of 64 bits has at most twenty. *)
Definition width (n : Z) : nat := width_loop 20 n.

Definition to_chars (z : Z) : bytes := if z <? 0 then ch "-" :: pad (width (- z)) (- z) else pad (width z) z.

(** ** Lemmas *)

Lemma length_pad k n : length (pad k n) = k.
Proof. revert n. induction k as [|k IH]; intros n; [done|]. cbn [pad]. rewrite length_app, IH. simpl. lia. Qed.

Lemma digit_of_Z d : 0 <= d < 10 -> is_digit (ch "0" + d) = true.
Proof. intros Hd. unfold is_digit. change (ch "0") with 48. change (ch "9") with 57. lia. Qed.

Lemma all_digits_pad k n : all_digits (pad k n).
Proof.
  revert n. induction k as [|k IH]; intros n; [constructor|]. apply Forall_app. split; [apply IH|].
  constructor; [|constructor]. apply digit_of_Z. apply Z.mod_pos_bound. lia.
Qed.

Lemma digits_value_app a b : digits_value (a ++ b) = digits_value a * 10 ^ Z.of_nat (length b) + digits_value b.
Proof.
  unfold digits_value. rewrite foldl_app. generalize (foldl (fun n c => n * 10 + (c - ch "0")) 0 a) as x. intros x.
  revert x. induction b as [|c b IH] using rev_ind; intros x; [simpl; lia|].
  rewrite !foldl_app, length_app. simpl. rewrite IH. rewrite Nat2Z.inj_add, Z.pow_add_r by lia. simpl. lia.
Qed.

Lemma digits_value_zeros n : digits_value (replicate n (ch "0")) = 0.
Proof.
  induction n as [|n IH]; [done|]. change (replicate (S n) (ch "0")) with ([ch "0"] ++ replicate n (ch "0")).
  rewrite digits_value_app, IH. change (digits_value [ch "0"]) with 0. lia.
Qed.

Lemma digits_value_pad k n : digits_value (pad k n) = n mod 10 ^ Z.of_nat k.
Proof.
  revert n. induction k as [|k IH]; intros n; [rewrite Z.mod_1_r; reflexivity|].
  cbn [pad]. rewrite digits_value_app, IH. cbn [length]. change (digits_value [ch "0" + n mod 10]) with (0 * 10 + (ch "0" + n mod 10 - ch "0")).
  rewrite (Nat2Z.inj_succ k), (Z.pow_succ_r 10 (Z.of_nat k)) by lia. rewrite (Z.rem_mul_r n 10) by lia. change (Z.of_nat 1) with 1. lia.
Qed.

Lemma digits_value_bound ds : all_digits ds -> 0 <= digits_value ds < 10 ^ Z.of_nat (length ds).
Proof.
  induction ds as [|c ds IH] using rev_ind; intros Hd; [vm_compute; split; congruence|].
  apply Forall_app in Hd as [Hd Hc]. apply Forall_cons_iff in Hc as [Hc _].
  rewrite digits_value_app, length_app. specialize (IH Hd). rewrite Nat2Z.inj_add, Z.pow_add_r by lia.
  change (digits_value [c]) with (0 * 10 + (c - ch "0")). unfold is_digit in Hc. change (ch "0") with 48 in *. change (ch "9") with 57 in *.
  simpl length. change (Z.of_nat 1) with 1. nia.
Qed.

Lemma width_loop_bound fuel : forall n, 0 <= n < 10 ^ (Z.of_nat fuel + 1) -> n < 10 ^ Z.of_nat (width_loop fuel n).
Proof.
  induction fuel as [|fuel IH]; intros n Hn; [simpl in *; lia|]. cbn [width_loop]. destruct (Z.ltb_spec n 10); [simpl; lia|].
  rewrite Nat2Z.inj_succ in *. rewrite Z.pow_succ_r by lia. 
  assert (n / 10 < 10 ^ Z.of_nat (width_loop fuel (n / 10))) as Hlt.
  { apply IH. replace (Z.succ (Z.of_nat fuel) + 1) with (Z.succ (Z.of_nat fuel + 1)) in Hn by lia. rewrite Z.pow_succ_r in Hn by lia.
    split; [apply Z.div_pos; lia|]. apply Z.div_lt_upper_bound; lia. }
  pose proof (Z.mul_succ_div_gt n 10 ltac:(lia)). lia.
Qed.

Lemma width_pos n : (0 < width n)%nat.
Proof. unfold width. cbn [width_loop]. destruct (n <? 10); lia. Qed.

Lemma pad_nonempty n : pad (width n) n <> [].
Proof. intros E. apply (f_equal length) in E. rewrite length_pad in E. pose proof (width_pos n). simpl in E. lia. Qed.

(** Twenty digits hold every number in sight. *)
Definition decimal_range (n : Z) : Prop := 0 <= n < 10 ^ 21.

Lemma digits_value_width n : decimal_range n -> digits_value (pad (width n) n) = n.
Proof.
  intros Hn. rewrite digits_value_pad. apply Z.mod_small. split; [apply Hn|]. apply width_loop_bound. exact Hn.
Qed.

Lemma fits_true t z : fits t z = true <-> type_min t <= z <= type_max t.
Proof. unfold fits. lia. Qed.

Lemma fits_int32 z : fits int32 z = true <-> -2147483648 <= z <= 2147483647.
Proof. rewrite fits_true. change (type_min int32) with (-2147483648). change (type_max int32) with 2147483647. done. Qed.

(** A digit is no sign. *)
Lemma from_chars_digits t ds r : all_digits ds -> ds <> [] -> no_digit_first r ->
  from_chars_int t (ds ++ r) = if fits t (digits_value ds) then inr (digits_value ds, r) else inl result_out_of_range.
Proof.
  intros Hd Hn Hr. unfold from_chars_int, from_digits. destruct ds as [|d ds]; [done|]. cbn [app].
  assert ((d =? ch "-") = false) as Hm.
  { apply Forall_cons_iff in Hd as [Hd _]. unfold is_digit in Hd. change (ch "0") with 48 in *. change (ch "9") with 57 in *. change (ch "-") with 45. lia. }
  rewrite Hm, andb_false_r. change (d :: ds ++ r) with ((d :: ds) ++ r). by rewrite digits_prefix_app.
Qed.

Lemma from_chars_minus t ds r : it_signed t = true -> all_digits ds -> ds <> [] -> no_digit_first r ->
  from_chars_int t (ch "-" :: ds ++ r) = if fits t (- digits_value ds) then inr (- digits_value ds, r) else inl result_out_of_range.
Proof.
  intros Ht Hd Hn Hr. unfold from_chars_int, from_digits. rewrite Ht, Z.eqb_refl. cbn [andb]. rewrite digits_prefix_app by done. by destruct ds.
Qed.

Lemma no_digit_nil : no_digit_first [].
Proof. by intros ? ?. Qed.

Lemma no_digit_cons c r : is_digit c = false -> no_digit_first (c :: r).
Proof. by intros Hc ? ? [= <- <-]. Qed.

(** What [from_chars] accepts: an optional minus sign, if the type has one, and
    digits of a number of the type. *)
Inductive int_text (t : int_type) : bytes -> Z -> Prop :=
  | it_plain ds : all_digits ds -> ds <> [] -> fits t (digits_value ds) = true -> int_text t ds (digits_value ds)
  | it_minus ds : it_signed t = true -> all_digits ds -> ds <> [] -> fits t (- digits_value ds) = true ->
      int_text t (ch "-" :: ds) (- digits_value ds).

Lemma from_chars_text t s r z : int_text t s z -> no_digit_first r -> from_chars_int t (s ++ r) = inr (z, r).
Proof.
  destruct 1 as [ds Hd Hn Hf|ds Ht Hd Hn Hf]; intros Hr; cbn [app];
    [rewrite from_chars_digits by done|rewrite from_chars_minus by done]; by rewrite Hf.
Qed.

Lemma from_chars_inv t p z r : from_chars_int t p = inr (z, r) -> exists s, p = s ++ r /\ int_text t s z /\ no_digit_first r.
Proof.
  unfold from_chars_int.
  assert (forall neg q, from_digits t neg q = inr (z, r) -> exists ds, q = ds ++ r /\ all_digits ds /\ ds <> [] /\
    no_digit_first r /\ z = (if neg then - digits_value ds else digits_value ds) /\ fits t z = true) as Hgo.
  { intros neg q. unfold from_digits. destruct (digits_prefix_spec q) as (ds & r' & -> & Hd & Hr). rewrite digits_prefix_app by done.
    destruct ds as [|d ds]; [done|]. cbn zeta. destruct (fits t _) eqn:Ef; [|done]. intros [= <- <-]. by exists (d :: ds). }
  destruct p as [|c p]; [intros H; by apply (Hgo false []) in H as (ds & E & _ & Hn & _); destruct ds|].
  destruct (it_signed t && (c =? ch "-")) eqn:E; intros H.
  - apply andb_true_iff in E as [Ht ->%Z.eqb_eq]. apply (Hgo true) in H as (ds & -> & Hd & Hn & Hr & -> & Hf).
    exists (ch "-" :: ds). split; [done|]. split; [by constructor|done].
  - apply (Hgo false) in H as (ds & E' & Hd & Hn & Hr & -> & Hf). exists ds. split; [done|]. split; [by constructor|done].
Qed.

Lemma int_text_fits t s z : int_text t s z -> fits t z = true.
Proof. by destruct 1. Qed.

(** Reading back what was written. *)
Lemma to_chars_text t z : fits t z = true -> (it_size t <= 8)%nat -> int_text t (to_chars z) z.
Proof.
  intros Hf Ht. assert (decimal_range (Z.abs z)) as Hr.
  { apply fits_true in Hf. unfold decimal_range, type_min, type_max in *.
    assert (2 ^ (8 * Z.of_nat (it_size t)) <= 2 ^ 64) by (apply Z.pow_le_mono_r; lia).
    assert (2 ^ (8 * Z.of_nat (it_size t) - 1) <= 2 ^ 64) by (apply Z.pow_le_mono_r; lia).
    change (2 ^ 64) with 18446744073709551616 in *. change (10 ^ 21) with 1000000000000000000000. destruct (it_signed t); lia. }
  unfold to_chars. destruct (Z.ltb_spec z 0) as [Hz|Hz].
  - rewrite Z.abs_neq in Hr by lia. pose proof (it_minus t (pad (width (- z)) (- z))) as H.
    rewrite (digits_value_width (- z)), Z.opp_involutive in H by done.
    apply H; [|apply all_digits_pad|apply pad_nonempty|done].
    apply fits_true in Hf. unfold type_min in Hf. destruct (it_signed t); [done|lia].
  - rewrite Z.abs_eq in Hr by lia. pose proof (it_plain t (pad (width z) z)) as H.
    rewrite (digits_value_width z) in H by done. apply H; [apply all_digits_pad|apply pad_nonempty|done].
Qed.
