(* ===== verification/FieldTypes.v ===== *)
(** * Field types ([include/nativepg/types/base.hpp],
    [include/nativepg/detail/field_traits_base.hpp], [field_traits_nullable.hpp])

    How values of the basic types are read from and written to fields, in the text
    and in the binary format.  A parser maps the old value of its output parameter
    to the error and the new value; [None] is a failed assertion.
    [parse_field_traits] and [serialize_field_traits] are the two customisation
    points, with a value for each C++ type. *)

From stdpp Require Import base list option.
From Stdlib Require Import ZArith Lia.
From S2P Require Import Prelude Errors BackendMessages CommandTag Charconv.

#[local] Open Scope Z_scope.

(** ** Parsers of [types/base.hpp] *)

(** An unsigned load for the types without sign. *)
Definition load_big (t : int_type) (bs : bytes) : Z :=
  if it_signed t then load_big_s bs else be_decode bs.

(** The bytes of a field: none for NULL. *)
Definition data (from : field_view) : bytes := default [] from.

Definition is_null (from : field_view) : bool := match from with None => true | Some _ => false end.

Definition parse_text_to_number (t : int_type) (sv : bytes) (to : Z) : error_code * Z :=
  match from_chars_int t sv with
  | inr (result, []) => (None, result)
  | _ => match sv with [] => (None, to) | _ => (Some (client protocol_value_error), to) end
  end.

Definition parse_text_bool (from : field_view) (to : bool) : error_code * bool :=
  if bool_decide (data from = str "t") then (None, true)
  else if bool_decide (data from = str "f") then (None, false)
  else (Some (client protocol_value_error), to).

Definition parse_binary_bool (from : field_view) (to : bool) : error_code * bool :=
  match data from with
  | [b] => (None, negb (b =? 0))
  | _ => (Some (client protocol_value_error), to)
  end.

(** The loop over pairs of digits; [to] is what has been read. *)
Fixpoint bytea_loop (sv : bytes) (to : bytes) : error_code * bytes :=
  match sv with
  | a :: b :: sv' =>
      match from_chars_hex [a; b] with
      | inr (byte, []) => bytea_loop sv' (to ++ [byte])
      | _ => (Some (client protocol_value_error), to)
      end
  | _ => (None, to)
  end.

Definition parse_text_bytea (from : field_view) (to : bytes) : error_code * bytes :=
  match data from with
  | a :: b :: sv =>
      if negb (a =? 92) || negb (b =? ch "x") then (Some (client protocol_value_error), to)
      else if (length sv mod 2 =? 0)%nat then bytea_loop sv [] else (Some (client protocol_value_error), to)
  | _ => (Some (client protocol_value_error), to)
  end.

Definition parse_binary_bytea (from : field_view) (to : bytes) : error_code * bytes := (None, data from).

(** A [char] is its code, from 0 to 255. *)
Definition parse_text_char (from : field_view) (to : Z) : error_code * Z :=
  match data from with
  | [c] => (None, c)
  | _ => (Some (client protocol_value_error), to)
  end.

Definition parse_binary_char (from : field_view) (to : Z) : error_code * Z :=
  if (length (data from) =? 1)%nat then (None, be_decode (data from)) else (Some (client protocol_value_error), to).

Definition parse_text_int (t : int_type) (from : field_view) (to : Z) : error_code * Z :=
  parse_text_to_number t (data from) to.

Definition parse_binary_int (t : int_type) (from : field_view) (to : Z) : error_code * Z :=
  if (length (data from) =? it_size t)%nat then (None, load_big t (data from))
  else (Some (client protocol_value_error), to).

Definition serialize_text_int (value : Z) (to : bytes) : error_code * bytes := (None, to ++ to_chars value).

Definition serialize_binary_int (t : int_type) (value : Z) (to : bytes) : error_code * bytes :=
  (None, to ++ be_encode (it_size t) value).

Definition parse_text_text (from : field_view) (to : bytes) : error_code * bytes := (None, data from).
Definition parse_binary_text (from : field_view) (to : bytes) : error_code * bytes := (None, data from).
Definition serialize_text_text (value to : bytes) : error_code * bytes := (None, to ++ value).
Definition serialize_binary_text (value to : bytes) : error_code * bytes := (None, to ++ value).

Definition parse_text_oid (from : field_view) (to : Z) : error_code * Z := parse_text_to_number uint32 (data from) to.
Definition parse_binary_oid (from : field_view) (to : Z) : error_code * Z := parse_binary_int uint32 from to.

(** ** The customisation points *)

Record parse_field_traits (T : Type) := {
  is_compatible : Z -> error_code;
  parse_text : field_view -> Z -> T -> option (error_code * T);
  parse_binary : field_view -> Z -> T -> option (error_code * T)
}.
Arguments is_compatible {T} _ _.
Arguments parse_text {T} _ _ _ _.
Arguments parse_binary {T} _ _ _ _.

Record serialize_field_traits (T : Type) := {
  serialize_oid : Z;
  serialize_text : T -> bytes -> error_code * bytes;
  serialize_binary : T -> bytes -> error_code * bytes
}.
Arguments serialize_oid {T} _.
Arguments serialize_text {T} _ _ _.
Arguments serialize_binary {T} _ _ _.

Definition bool_oid : Z := 16.
Definition bytea_oid : Z := 17.
Definition char_oid : Z := 18.
Definition name_oid : Z := 19.
Definition int8_oid : Z := 20.
Definition int2_oid : Z := 21.
Definition int4_oid : Z := 23.
Definition text_oid : Z := 25.
Definition oid_oid : Z := 26.
Definition bpchar_oid : Z := 1042.
Definition varchar_oid : Z := 1043.

Definition is_string_oid (type_oid : Z) : bool :=
  (type_oid =? text_oid) || (type_oid =? varchar_oid) || (type_oid =? name_oid) || (type_oid =? bpchar_oid).

Definition compatible_if (b : bool) : error_code := if b then None else Some (client incompatible_field_type).

(** The check for NULL, and an assertion on the OID, before the parser. *)
Definition non_null {T} (from : field_view) (to : T) (k : option (error_code * T)) : option (error_code * T) :=
  if is_null from then Some (Some (client unexpected_null), to) else k.

Definition asserting {T} (b : bool) (r : error_code * T) : option (error_code * T) := if b then Some r else None.

(** The traits of a type that accepts one set of OIDs and parses them alike. *)
Definition simple_traits {T} (accepts : Z -> bool) (text binary : field_view -> T -> error_code * T) : parse_field_traits T := {|
  is_compatible type_oid := compatible_if (accepts type_oid);
  parse_text from type_oid to := non_null from to (asserting (accepts type_oid) (text from to));
  parse_binary from type_oid to := non_null from to (asserting (accepts type_oid) (binary from to))
|}.

Definition traits_bool : parse_field_traits bool := simple_traits (fun o => o =? bool_oid) parse_text_bool parse_binary_bool.
Definition traits_bytea : parse_field_traits bytes := simple_traits (fun o => o =? bytea_oid) parse_text_bytea parse_binary_bytea.
Definition traits_char : parse_field_traits Z := simple_traits (fun o => o =? char_oid) parse_text_char parse_binary_char.
Definition traits_int16 : parse_field_traits Z :=
  simple_traits (fun o => o =? int2_oid) (parse_text_int int16) (parse_binary_int int16).
Definition traits_string : parse_field_traits bytes := simple_traits is_string_oid parse_text_text parse_binary_text.
Definition traits_uint32 : parse_field_traits Z := simple_traits (fun o => o =? oid_oid) parse_text_oid parse_binary_oid.

(** [value{}], the parser of the narrower type, [to = value]. *)
Definition widen (parse : field_view -> Z -> error_code * Z) (from : field_view) (to : Z) : error_code * Z := parse from 0.

Definition int32_parse (parse : int_type -> field_view -> Z -> error_code * Z) (from : field_view) (type_oid to : Z)
    : option (error_code * Z) :=
  non_null from to (
    if type_oid =? int2_oid then Some (widen (parse int16) from to)
    else if type_oid =? int4_oid then Some (parse int32 from to)
    else None).

Definition traits_int32 : parse_field_traits Z := {|
  is_compatible type_oid := compatible_if ((type_oid =? int4_oid) || (type_oid =? int2_oid));
  parse_text := int32_parse parse_text_int;
  parse_binary := int32_parse parse_binary_int
|}.

Definition int64_parse (parse : int_type -> field_view -> Z -> error_code * Z) (from : field_view) (type_oid to : Z)
    : option (error_code * Z) :=
  non_null from to (
    if type_oid =? int2_oid then Some (widen (parse int16) from to)
    else if type_oid =? int4_oid then Some (widen (parse int32) from to)
    else if type_oid =? int8_oid then Some (parse int64 from to)
    else None).

Definition traits_int64 : parse_field_traits Z := {|
  is_compatible type_oid := compatible_if ((type_oid =? int8_oid) || (type_oid =? int4_oid) || (type_oid =? int2_oid));
  parse_text := int64_parse parse_text_int;
  parse_binary := int64_parse parse_binary_int
|}.

(** [std::optional<T>]: [init] is the value-initialised [T] that [emplace] makes. *)
Definition optional_parse {T} (init : T) (parse : field_view -> Z -> T -> option (error_code * T))
    (from : field_view) (type_oid : Z) (to : option T) : option (error_code * option T) :=
  if is_null from then Some (None, None)
  else '(ec, value) ← parse from type_oid init; Some (ec, Some value).

Definition traits_optional {T} (init : T) (traits : parse_field_traits T) : parse_field_traits (option T) := {|
  is_compatible := is_compatible traits;
  parse_text := optional_parse init (parse_text traits);
  parse_binary := optional_parse init (parse_binary traits)
|}.

Definition serialize_int (oid : Z) (t : int_type) : serialize_field_traits Z := {|
  serialize_oid := oid;
  serialize_text := serialize_text_int;
  serialize_binary := serialize_binary_int t
|}.

Definition serialize_int16 : serialize_field_traits Z := serialize_int int2_oid int16.
Definition serialize_int32 : serialize_field_traits Z := serialize_int int4_oid int32.
Definition serialize_int64 : serialize_field_traits Z := serialize_int int8_oid int64.

Definition serialize_string : serialize_field_traits bytes := {|
  serialize_oid := text_oid;
  serialize_text := serialize_text_text;
  serialize_binary := serialize_binary_text
|}.

(** ** Numbers *)

(** The three integer types and their traits. *)
Inductive integral := I16 | I32 | I64.

Definition the_type (i : integral) : int_type := match i with I16 => int16 | I32 => int32 | I64 => int64 end.
Definition parses (i : integral) : parse_field_traits Z := match i with I16 => traits_int16 | I32 => traits_int32 | I64 => traits_int64 end.
Definition serializes (i : integral) : serialize_field_traits Z :=
  match i with I16 => serialize_int16 | I32 => serialize_int32 | I64 => serialize_int64 end.

Lemma number_text_exact t sv to v : parse_text_to_number t sv to = (None, v) <-> (sv = [] /\ v = to) \/ int_text t sv v.
Proof.
  unfold parse_text_to_number. split.
  - destruct (from_chars_int t sv) as [e|[z [|c r]]] eqn:E.
    + destruct sv; [|done]. intros [= <-]. by left.
    + apply from_chars_inv in E as (s & -> & Hs & _). rewrite app_nil_r. intros [= <-]. by right.
    + destruct sv; [|done]. intros [= <-]. by left.
  - intros [[-> ->]|Hs]; [by destruct t as [[] ?]|].
    pose proof (from_chars_text t sv [] v Hs no_digit_nil) as H. rewrite app_nil_r in H. by rewrite H.
Qed.

Lemma number_text_range t sv to : fits t to = true ->
  exists ec v, parse_text_to_number t sv to = (ec, v) /\ fits t v = true /\ (ec = None \/ ec = Some (client protocol_value_error)).
Proof.
  intros Hto. destruct (parse_text_to_number t sv to) as [ec v] eqn:E. exists ec, v. split; [done|].
  unfold parse_text_to_number in E. destruct (from_chars_int t sv) as [e|[z [|c r]]] eqn:Ef.
  - destruct sv; injection E as <- <-; auto.
  - injection E as <- <-. apply from_chars_inv in Ef as (s & _ & Hs & _). apply int_text_fits in Hs. auto.
  - destruct sv; injection E as <- <-; auto.
Qed.

Lemma fits_int_ok n z : (0 < n)%nat -> fits (IntType true n) z = true <-> int_ok n z.
Proof.
  intros Hn. rewrite fits_true. unfold type_min, type_max, int_ok. cbn [it_signed it_size].
  assert (2 ^ (8 * Z.of_nat n) = 2 * 2 ^ (8 * Z.of_nat n - 1)) as ->; [|lia].
  rewrite <- Z.pow_succ_r by lia. f_equal. lia.
Qed.

Lemma binary_int_range n from to : (0 < n)%nat -> fits (IntType true n) to = true ->
  exists ec v, parse_binary_int (IntType true n) from to = (ec, v) /\ fits (IntType true n) v = true /\
    (ec = None \/ ec = Some (client protocol_value_error)).
Proof.
  intros Hn Hto. unfold parse_binary_int. cbn [it_size]. destruct (Nat.eqb_spec (length (data from)) n) as [E|_]; eexists _, _; (split; [done|]); split; auto.
  apply fits_int_ok; [done|]. unfold load_big. cbn [it_signed]. rewrite <- E. apply load_big_s_ok. lia.
Qed.

Lemma fits_widen n m z : (0 < n <= m)%nat -> fits (IntType true n) z = true -> fits (IntType true m) z = true.
Proof.
  rewrite !fits_true. unfold type_min, type_max. cbn [it_signed it_size]. intros Hn Hz.
  assert (2 ^ (8 * Z.of_nat n - 1) <= 2 ^ (8 * Z.of_nat m - 1)) by (apply Z.pow_le_mono_r; lia). lia.
Qed.

(** An outcome a parser may have. *)
Definition typed_outcome (t : int_type) (r : option (error_code * Z)) : Prop :=
  exists ec v, r = Some (ec, v) /\ fits t v = true /\
    (ec = None \/ ec = Some (client unexpected_null) \/ ec = Some (client protocol_value_error)).

Lemma typed_text n m from to : (0 < n <= m)%nat -> fits (IntType true n) to = true ->
  typed_outcome (IntType true m) (Some (parse_text_int (IntType true n) from to)).
Proof.
  intros Hn Hto. destruct (number_text_range (IntType true n) (data from) to Hto) as (ec & v & Hp & Hv & He).
  exists ec, v. unfold parse_text_int. rewrite Hp. split; [done|]. split; [by apply (fits_widen n)|]. destruct He; auto.
Qed.

Lemma typed_binary n m from to : (0 < n <= m)%nat -> fits (IntType true n) to = true ->
  typed_outcome (IntType true m) (Some (parse_binary_int (IntType true n) from to)).
Proof.
  intros Hn Hto. destruct (binary_int_range n from to ltac:(lia) Hto) as (ec & v & Hp & Hv & He).
  exists ec, v. rewrite Hp. split; [done|]. split; [by apply (fits_widen n)|]. destruct He; auto.
Qed.

Lemma typed_null t from to k : fits t to = true -> typed_outcome t k -> typed_outcome t (non_null from to k).
Proof. intros Hto Hk. unfold non_null. destruct (is_null from); [|done]. exists (Some (client unexpected_null)), to. auto. Qed.

Lemma fits_zero n : (0 < n)%nat -> fits (IntType true n) 0 = true.
Proof. intros Hn. apply fits_int_ok; [done|]. unfold int_ok. pose proof (pow8_pos n). lia. Qed.

(** The OIDs a type accepts. *)
Lemma compatible_cases i type_oid : is_compatible (parses i) type_oid = None ->
  type_oid = int2_oid \/ (type_oid = int4_oid /\ i <> I16) \/ (type_oid = int8_oid /\ i = I64).
Proof.
  destruct i; cbn; unfold compatible_if;
    destruct (Z.eqb_spec type_oid int2_oid), (Z.eqb_spec type_oid int4_oid), (Z.eqb_spec type_oid int8_oid); cbn; intros [=]; auto.
Qed.

(** ** Properties *)

(** C31: A field of a type that [is_compatible] accepts always parses into the
    range of the C++ integer: in both formats, whatever the bytes, no assertion
    fails, the value is in range, and the error, if any, is for NULL or for a
    malformed value. *)
Theorem integer_fields_typed i type_oid from to :
  is_compatible (parses i) type_oid = None -> fits (the_type i) to = true ->
  typed_outcome (the_type i) (parse_text (parses i) from type_oid to) /\
  typed_outcome (the_type i) (parse_binary (parses i) from type_oid to).
Proof.
  intros Hc Hto. apply compatible_cases in Hc as [->|[[-> Hi]|[-> ->]]]; [destruct i|destruct i; [done|..]|];
    split; apply typed_null; try exact Hto; cbn; unfold widen;
    first [apply (typed_text 2)|apply (typed_text 4)|apply (typed_text 8)|apply (typed_binary 2)|apply (typed_binary 4)|apply (typed_binary 8)];
    first [lia|exact Hto|apply fits_zero; lia].
Qed.

Lemma integer_fields_typed_witness :
  typed_outcome int64 (parse_text traits_int64 (Some (str "12x")) int4_oid 7) /\
  typed_outcome int64 (parse_binary traits_int64 (Some (str "12x")) int4_oid 7).
Proof. apply (integer_fields_typed I64); reflexivity. Defined.

Lemma parse_written_text t v to : fits t v = true -> (it_size t <= 8)%nat -> parse_text_int t (Some (to_chars v)) to = (None, v).
Proof. intros Hv Ht. apply number_text_exact. right. by apply to_chars_text. Qed.

Lemma parse_written_binary n v to : (0 < n)%nat -> fits (IntType true n) v = true ->
  parse_binary_int (IntType true n) (Some (be_encode n v)) to = (None, v).
Proof.
  intros Hn Hv. unfold parse_binary_int, load_big. cbn [data from_option id it_size it_signed]. rewrite length_be_encode, Nat.eqb_refl.
  rewrite load_big_s_encode; [done|done|]. by apply fits_int_ok.
Qed.

(** An integer written as a parameter of one type is read back from a field of
    that type by every type that accepts it, in both formats: what is appended
    to the buffer parses to the same value, and needs no more room than the type
    that reads it has. *)
Theorem integer_fields_roundtrip s t v to buffer :
  is_compatible (parses t) (serialize_oid (serializes s)) = None -> fits (the_type s) v = true ->
  fits (the_type t) v = true /\
  (exists txt, serialize_text (serializes s) v buffer = (None, buffer ++ txt) /\
    parse_text (parses t) (Some txt) (serialize_oid (serializes s)) to = Some (None, v)) /\
  (exists bin, serialize_binary (serializes s) v buffer = (None, buffer ++ bin) /\
    parse_binary (parses t) (Some bin) (serialize_oid (serializes s)) to = Some (None, v)).
Proof.
  intros Hc Hv. split; [|split].
  - destruct s, t; try done; first [exact Hv|apply (fits_widen 2); [lia|exact Hv]|apply (fits_widen 4); [lia|exact Hv]].
  - exists (to_chars v). split; [by destruct s|].
    destruct s, t; try done; apply (f_equal Some); apply parse_written_text; first [exact Hv|simpl; lia].
  - exists (be_encode (it_size (the_type s)) v). split; [by destruct s|].
    destruct s, t; try done; apply (f_equal Some);
      first [exact (parse_written_binary 2 v _ (Nat.lt_0_succ 1) Hv)|exact (parse_written_binary 4 v _ (Nat.lt_0_succ 3) Hv)
            |exact (parse_written_binary 8 v _ (Nat.lt_0_succ 7) Hv)].
Qed.

Lemma integer_fields_roundtrip_witness :
  fits int64 (-300) = true /\
  (exists txt, serialize_text serialize_int16 (-300) [] = (None, [] ++ txt) /\ parse_text traits_int64 (Some txt) int2_oid 0 = Some (None, -300)) /\
  (exists bin, serialize_binary serialize_int16 (-300) [] = (None, [] ++ bin) /\ parse_binary traits_int64 (Some bin) int2_oid 0 = Some (None, -300)).
Proof. apply (integer_fields_roundtrip I16 I64); reflexivity. Defined.

(** The text parser of each integer type accepts exactly the decimal numbers of
    its range, with an optional minus sign and nothing around them, and also the
    empty text, for which it reports success and leaves the output alone. *)
Theorem integer_text_exact i s to v :
  parse_text (parses i) (Some s) (serialize_oid (serializes i)) to = Some (None, v) <->
  (s = [] /\ v = to) \/ int_text (the_type i) s v.
Proof.
  rewrite <- number_text_exact. destruct i; cbn; unfold parse_text_int; cbn [data from_option id]; by split; [intros [= ->]|intros ->].
Qed.

(** ** bytea *)

(** PostgreSQL writes a byte as two hexadecimal digits. *)
Inductive hex_pairs : bytes -> bytes -> Prop :=
  | hp_nil : hex_pairs [] []
  | hp_cons a b hi lo s v : hex_digit a = Some hi -> hex_digit b = Some lo -> hex_pairs s v ->
      hex_pairs (a :: b :: s) (hi * 16 + lo :: v).

Definition hex_char (d : Z) : Z := if d <? 10 then ch "0" + d else ch "a" + (d - 10).

Fixpoint hex_text (v : bytes) : bytes :=
  match v with [] => [] | b :: v' => hex_char (b / 16) :: hex_char (b mod 16) :: hex_text v' end.

Lemma hex_digit_range c d : hex_digit c = Some d -> 0 <= d < 16.
Proof.
  unfold hex_digit, is_digit. change (ch "0") with 48. change (ch "9") with 57. change (ch "a") with 97. change (ch "f") with 102.
  change (ch "A") with 65. change (ch "F") with 70.
  destruct ((48 <=? c) && (c <=? 57)) eqn:E1; [intros [= <-]; lia|]. destruct ((97 <=? c) && (c <=? 102)) eqn:E2; [intros [= <-]; lia|].
  destruct ((65 <=? c) && (c <=? 70)) eqn:E3; [intros [= <-]; lia|done].
Qed.

Lemma hex_digit_char d : 0 <= d < 16 -> hex_digit (hex_char d) = Some d.
Proof.
  intros Hd. unfold hex_digit, hex_char, is_digit. change (ch "0") with 48. change (ch "9") with 57. change (ch "a") with 97. change (ch "f") with 102.
  destruct (Z.ltb_spec d 10).
  - assert ((48 <=? 48 + d) && (48 + d <=? 57) = true) as -> by lia. f_equal. lia.
  - assert ((48 <=? 97 + (d - 10)) && (97 + (d - 10) <=? 57) = false) as -> by lia.
    assert ((97 <=? 97 + (d - 10)) && (97 + (d - 10) <=? 102) = true) as -> by lia. f_equal. lia.
Qed.

(** Two characters are read as a byte when both are digits. *)
Lemma from_chars_hex_pair a b v : from_chars_hex [a; b] = inr (v, []) <->
  exists hi lo, hex_digit a = Some hi /\ hex_digit b = Some lo /\ v = hi * 16 + lo.
Proof.
  unfold from_chars_hex. cbn [hex_prefix]. destruct (hex_digit a) as [hi|] eqn:Ea; [|split; [done|by intros (? & ? & [=] & _)]].
  destruct (hex_digit b) as [lo|] eqn:Eb; cbn [foldl].
  - apply hex_digit_range in Ea, Eb. destruct (Z.leb_spec ((0 * 16 + hi) * 16 + lo) 255); [|lia].
    split; [intros [= <-]; exists hi, lo; split_and!; [done|done|lia]|intros (? & ? & [= <-] & [= <-] & ->); do 2 f_equal; lia].
  - destruct (_ <=? 255); (split; [done|by intros (? & ? & _ & [=] & _)]).
Qed.

Lemma bytea_loop_exact n : forall s acc v, (length s <= n)%nat -> (length s mod 2 = 0)%nat ->
  bytea_loop s acc = (None, v) <-> exists w, v = acc ++ w /\ hex_pairs s w.
Proof.
  induction n as [|n IH]; intros s acc v Hn Hm; destruct s as [|a [|b s]]; cbn [bytea_loop]; try (simpl in Hn; lia); try done;
    try (split; [intros [= <-]; exists []; rewrite app_nil_r; by split; [|constructor]|intros (w & -> & Hw); inversion Hw; by rewrite app_nil_r]).
  destruct (from_chars_hex [a; b]) as [e|[byte [|c r]]] eqn:E.
  - split; [done|]. intros (w & -> & Hw). inversion Hw as [|? ? hi lo ? w' Ha Hb Hw']; subst.
    assert (from_chars_hex [a; b] = inr (hi * 16 + lo, [])) as E' by (apply from_chars_hex_pair; eauto). congruence.
  - rewrite IH; [|simpl in Hn; lia|]. 2: { simpl length in Hm. by replace (S (S (length s))) with (length s + 1 * 2)%nat in Hm by lia; rewrite Nat.Div0.mod_add in Hm. }
    apply from_chars_hex_pair in E as (hi & lo & Ha & Hb & ->). split.
    + intros (w & -> & Hw). exists (hi * 16 + lo :: w). rewrite <- app_assoc. split; [done|by constructor].
    + intros (w & -> & Hw). inversion Hw as [|? ? hi' lo' ? w' Ha' Hb' Hw']; subst. simplify_eq. exists w'. by rewrite <- app_assoc.
  - split; [done|]. intros (w & -> & Hw). inversion Hw as [|? ? hi lo ? w' Ha Hb Hw']; subst.
    assert (from_chars_hex [a; b] = inr (hi * 16 + lo, [])) as E' by (apply from_chars_hex_pair; eauto). congruence.
Qed.

Lemma hex_pairs_even s v : hex_pairs s v -> (length s mod 2 = 0)%nat.
Proof. induction 1 as [|a b hi lo s v _ _ _ IH]; [done|]. simpl length. replace (S (S (length s))) with (length s + 1 * 2)%nat by lia. by rewrite Nat.Div0.mod_add. Qed.

Lemma hex_text_pairs v : Forall is_byte v -> hex_pairs (hex_text v) v.
Proof.
  induction 1 as [|b v Hb _ IH]; [constructor|]. cbn [hex_text]. unfold is_byte in Hb.
  rewrite (Z.div_mod b 16) at 3 by lia. rewrite (Z.mul_comm 16). apply hp_cons; [| |done]; apply hex_digit_char;
    [pose proof (Z.div_pos b 16); pose proof (Z.div_lt_upper_bound b 16 16); lia|apply Z.mod_pos_bound; lia].
Qed.

(** The text of a bytea is accepted exactly when it is [\x] and pairs of
    hexadecimal digits, and gives their bytes; so the text PostgreSQL sends for
    some bytes and those bytes sent in the binary format are read alike. *)
Theorem bytea_text_exact s to v :
  (parse_text traits_bytea (Some s) bytea_oid to = Some (None, v) <-> exists h, s = 92 :: ch "x" :: h /\ hex_pairs h v) /\
  (Forall is_byte v -> parse_text traits_bytea (Some (92 :: ch "x" :: hex_text v)) bytea_oid to =
    parse_binary traits_bytea (Some v) bytea_oid to).
Proof.
  assert (forall s v, parse_text traits_bytea (Some s) bytea_oid to = Some (None, v) <-> exists h, s = 92 :: ch "x" :: h /\ hex_pairs h v) as H.
  { clear s v. intros s v. cbn. unfold parse_text_bytea. cbn [data from_option id].
    destruct s as [|a [|b s]]; [by split; [|intros (? & ? & _)]..|].
    destruct (Z.eqb_spec a 92) as [->|Ha]; [|split; [done|by intros (? & ? & _); simplify_eq]].
    destruct (Z.eqb_spec b (ch "x")) as [->|Hb]; [|split; [done|by intros (? & ? & _); simplify_eq]]. cbn [negb orb].
    destruct (Nat.eqb_spec (length s mod 2) 0) as [E|E].
    - pose proof (bytea_loop_exact _ s [] v (le_n _) E) as Hl. split.
      + intros [= Hs]. apply Hl in Hs as (w & -> & Hw). by exists s.
      + intros (h & [= <-] & Hh). f_equal. apply Hl. by exists v.
    - split; [done|]. intros (h & [= <-] & Hh). by apply hex_pairs_even in Hh. }
  split; [apply H|]. intros Hv. rewrite (proj2 (H _ v)); [done|]. eexists. split; [done|]. by apply hex_text_pairs.
Qed.
