(* ===== verification/Statements.v ===== *)
(** * Prepared statements with typed parameters
    ([include/nativepg/request.hpp], [include/nativepg/parameter_ref.hpp],
    [include/nativepg/field_traits.hpp])

    [statement<Params...>] is a name and, at compile time, the types of its
    parameters.  Preparing one declares the OIDs of these types to the server, and
    [bind] turns values of these types into [parameter_ref]s.  The types are a list
    of [field_type]s here, and a pack of values is a tuple of that list of types.

    A type is what its two traits make it; [FieldCodec] is what the traits promise to
    each other, and the theorem on statements is proved against that promise, for
    whatever types specialise the traits. *)

From stdpp Require Import base list option.
From Stdlib Require Import ZArith Lia.
From S2P Require Import Prelude Errors BackendMessages ParseMessage FrontendMessages FrontendSpec Request RequestSpec Charconv FieldTypes.

#[local] Open Scope Z_scope.
#[local] Open Scope pg_scope.

(** ** Field types *)

(** A C++ type that specialises [serialize_field_traits] and [parse_field_traits]. *)
Record field_type := FieldType {
  ft_type : Type;
  ft_serialize : serialize_field_traits ft_type;
  ft_parse : parse_field_traits ft_type
}.

Definition field_serialize_oid (P : field_type) : Z := serialize_oid (ft_serialize P).

(** The field in either format, as [parameter_ref] and the row parsers choose them. *)
Definition field_serialize (P : field_type) (fmt : format_code) (value : ft_type P) : bytes -> error_code * bytes :=
  if fmt =? fmt_binary then serialize_binary (ft_serialize P) value else serialize_text (ft_serialize P) value.
Definition field_parse (P : field_type) (fmt : format_code) (from : bytes) (type_oid : Z) (to : ft_type P) :=
  if fmt =? fmt_binary then parse_binary (ft_parse P) (Some from) type_oid to
  else parse_text (ft_parse P) (Some from) type_oid to.

(** [bs] is the value, for a reader that knows the OID the type declares. *)
Definition encodes_value (P : field_type) (fmt : format_code) (value : ft_type P) (bs : bytes) : Prop :=
  (forall buffer, field_serialize P fmt value buffer = (None, buffer ++ bs)) /\
  (forall to, field_parse P fmt bs (field_serialize_oid P) to = Some (None, value)).

(** The promise: the type accepts its own OID, and its valid values can be written
    in both formats and read back. *)
Class FieldCodec (P : field_type) := {
  codec_valid : ft_type P -> Prop;
  codec_oid : is_compatible (ft_parse P) (field_serialize_oid P) = None;
  codec_encodes : forall fmt value, codec_valid value -> exists bs, encodes_value P fmt value bs
}.

(** ** Statements *)

(** The constructor of [parameter_ref], from a value of a serializable type. *)
Definition make_parameter_ref (P : field_type) (value : ft_type P) : parameter_ref := {|
  pr_oid := field_serialize_oid P;
  pr_text := serialize_text (ft_serialize P) value;
  pr_binary := serialize_binary (ft_serialize P) value
|}.

(** A pack of values [const Params&... values]. *)
Fixpoint values (Params : list field_type) : Type :=
  match Params with [] => unit | P :: Ps => ft_type P * values Ps end.

Record bound_statement := BoundStatement { bs_name : bytes; bs_params : list parameter_ref }.

Record statement (Params : list field_type) := Statement { st_name : bytes }.
Arguments Statement {Params} st_name.
Arguments st_name {Params} _.

Fixpoint parameter_refs (Params : list field_type) : values Params -> list parameter_ref :=
  match Params with
  | [] => fun _ => []
  | P :: Ps => fun vs => make_parameter_ref P vs.1 :: parameter_refs Ps vs.2
  end.

Definition statement_bind {Params} (stmt : statement Params) (vs : values Params) : bound_statement :=
  BoundStatement (st_name stmt) (parameter_refs Params vs).

(** The overloads of [request] that take statements. *)
Definition add_prepare_statement {Params} (query : bytes) (stmt : statement Params) : R :=
  add_prepare query (st_name stmt) (map field_serialize_oid Params).
Definition add_execute_bound (stmt : bound_statement) (param_format result_format : format_code) (max_num_rows : Z) : R :=
  add_execute (bs_name stmt) (bs_params stmt) param_format result_format max_num_rows.
Definition add_bind_bound (stmt : bound_statement) (param_format : format_code) (portal_name : bytes)
    (result_format : format_code) : R :=
  add_bind (bs_name stmt) (bs_params stmt) param_format portal_name result_format.

(** ** What the server gets *)

(** The fields [bss] are the values, one for each parameter, in order. *)
Fixpoint encode_values (fmt : format_code) (Params : list field_type) : values Params -> list bytes -> Prop :=
  match Params with
  | [] => fun _ bss => bss = []
  | P :: Ps => fun vs bss =>
      match bss with [] => False | bs :: bss => encodes_value P fmt vs.1 bs /\ encode_values fmt Ps vs.2 bss end
  end.

(** Every parameter type keeps its promise, and its value is valid. *)
Fixpoint codecs (Params : list field_type) : values Params -> Prop :=
  match Params with
  | [] => fun _ => True
  | P :: Ps => fun vs => (exists c : FieldCodec P, codec_valid (FieldCodec := c) vs.1) /\ codecs Ps vs.2
  end.

Lemma codecs_encode fmt Params : forall vs, codecs Params vs -> exists bss, encode_values fmt Params vs bss.
Proof.
  induction Params as [|P Ps IH]; intros vs H; [by exists []|]. destruct H as [[c Hv] H].
  destruct (codec_encodes fmt vs.1 Hv) as [bs Hbs]. destruct (IH _ H) as [bss Hbss]. by exists (bs :: bss).
Qed.

(** The fields are what the serializers of the types write. *)
Fixpoint written_values (fmt : format_code) (Params : list field_type) : values Params -> list bytes :=
  match Params with
  | [] => fun _ => []
  | P :: Ps => fun vs => (field_serialize P fmt vs.1 []).2 :: written_values fmt Ps vs.2
  end.

Lemma encode_values_eq fmt Params : forall vs bss, encode_values fmt Params vs bss -> bss = written_values fmt Params vs.
Proof.
  induction Params as [|P Ps IH]; intros vs [|bs bss] H; try done. destruct H as [[Hs _] H].
  cbn [written_values]. by rewrite (Hs []), <- (IH _ _ H).
Qed.

Lemma encode_params_write fmt Params : forall vs bss, encode_values fmt Params vs bss ->
  params_write fmt (parameter_refs Params vs) bss.
Proof.
  induction Params as [|P Ps IH]; intros vs [|bs bss] H; try done; [by constructor|].
  destruct H as [[Hs _] H]. constructor; [exact Hs|by apply IH].
Qed.

Lemma refs_oids Params : forall vs, map pr_oid (parameter_refs Params vs) = map field_serialize_oid Params.
Proof. induction Params as [|P Ps IH]; intros vs; [done|]. cbn. by rewrite IH. Qed.

(** The messages of preparing a statement, and of executing it with [bss]. *)
Definition prepare_messages (query name : bytes) (oids : list Z) (autosync : bool) : list frontend_message :=
  Fparse {| p_statement_name := name; p_query := query; p_oids := oids |} :: sync_if autosync.
Definition run_messages (name : bytes) (pf : format_code) (bss : list bytes) (rf : format_code) (n : Z) (autosync : bool)
    : list frontend_message := execute_messages name pf bss rf n ++ sync_if autosync.

(** C38: Statements are typed end to end.  Preparing a statement and executing it with
    bound values sends a Parse that declares the OID of every parameter type, and a
    Bind whose fields, in the format it announces, are read back as exactly the bound
    values by a reader that goes by the declared OIDs: whatever the parameter types,
    in either format, as long as each type keeps the promise of its traits and the
    messages fit. *)
Theorem statements_typed {Params} (stmt : statement Params) (vs : values Params) query pf rf n r :
  codecs Params vs ->
  exists bss, encode_values pf Params vs bss /\
    (let ms := prepare_messages query (st_name stmt) (map field_serialize_oid Params) (rq_autosync r) ++
               run_messages (st_name stmt) pf bss rf n (rq_autosync r) in
     Forall message_fits ms -> vec_ok (rq_buffer r ++ concat (map frontend_wire ms)) ->
     (add_prepare_statement query stmt >> add_execute_bound (statement_bind stmt vs) pf rf n) r =
     (None, extended r ms)).
Proof.
  intros Hc. destruct (codecs_encode pf _ _ Hc) as [bss Hb]. exists bss. split; [done|]. intros ms.
  apply (appends_then _ _ _ _ (rq_autosync r)); [|by apply appends_execute, encode_params_write|done].
  apply (appends_then _ _ [_] _); [by apply appends_one|apply appends_sync].
Qed.

(** A one-shot query with the same values sends the same declaration and the same fields. *)
Lemma query_typed Params (vs : values Params) query pf rf n a bss : encode_values pf Params vs bss ->
  op_emits a (Oadd_query query (parameter_refs Params vs) pf rf n)
    (Fparse {| p_statement_name := []; p_query := query; p_oids := map field_serialize_oid Params |} ::
     run_messages [] pf bss rf n a).
Proof. intros H. rewrite <- (refs_oids Params vs). by apply em_query, encode_params_write. Qed.

(** ** The types of the library *)

Definition integral_field (i : integral) : field_type := FieldType Z (serializes i) (parses i).
Definition string_field : field_type := FieldType bytes serialize_string traits_string.

#[export] Instance integral_codec i : FieldCodec (integral_field i).
Proof.
  refine (Build_FieldCodec (integral_field i) (fun v : Z => fits (the_type i) v = true) _ _); [by destruct i|].
  intros fmt v Hv. unfold encodes_value, field_serialize, field_parse. destruct (fmt =? fmt_binary).
  - exists (be_encode (it_size (the_type i)) v). split; [by destruct i|]. intros to.
    destruct i; apply (f_equal Some);
      [exact (parse_written_binary 2 v _ (Nat.lt_0_succ 1) Hv)|exact (parse_written_binary 4 v _ (Nat.lt_0_succ 3) Hv)
      |exact (parse_written_binary 8 v _ (Nat.lt_0_succ 7) Hv)].
  - exists (to_chars v). split; [by destruct i|]. intros to.
    destruct i; apply (f_equal Some); apply parse_written_text; first [exact Hv|simpl; lia].
Defined.

#[export] Instance string_codec : FieldCodec string_field.
Proof.
  refine (Build_FieldCodec string_field (fun _ => True) _ _); [done|]. intros fmt v _. exists v.
  unfold encodes_value, field_serialize, field_parse. by destruct (fmt =? fmt_binary).
Defined.

(** [statement<std::int32_t, std::string_view>]. *)
Definition sample_statement : statement [integral_field I32; string_field] := Statement (str "myname").

Definition sample_requests : error_code * request :=
  (add_prepare_statement (str "SELECT $1, $2") sample_statement >>
   add_execute_bound (statement_bind sample_statement (42, (str "value", tt))) fmt_binary fmt_text 0) (make_request true).

Lemma statements_typed_witness :
  codecs [integral_field I32; string_field] (42, (str "value", tt)) /\
  exists ms, sample_requests = (None, extended (make_request true) ms) /\
  map type_of ms = [rt_parse; rt_sync; rt_bind; rt_describe; rt_execute; rt_sync].
Proof.
  assert (codecs [integral_field I32; string_field] (42, (str "value", tt))) as Hc.
  { split; [by exists (integral_codec I32)|]. split; [by exists string_codec|done]. }
  split; [exact Hc|].
  destruct (statements_typed sample_statement (42, (str "value", tt)) (str "SELECT $1, $2") fmt_binary fmt_text 0
              (make_request true) Hc) as (bss & Hb & Hr).
  apply encode_values_eq in Hb as ->.
  eexists. split; [apply Hr; [repeat constructor; vm_compute; discriminate|vm_compute; reflexivity]|reflexivity].
Defined.

(** The bytes of the Parse message of that statement. *)
Example typed_prepare :
  rq_buffer (add_prepare_statement (str "SELECT $1, $2") sample_statement (make_request false)).2 =
  ch "P" :: be_encode 4 35 ++ str "myname" ++ [0] ++ str "SELECT $1, $2" ++ [0] ++ be_encode 2 2 ++ be_encode 4 23 ++ be_encode 4 25.
Proof. reflexivity. Qed.
