(* ===== verification/Json.v ===== *)
(** * JSON fields ([include/nativepg/types/json.hpp],
    [include/nativepg/detail/field_traits_json.hpp])

    The JSON parser of Boost is a parameter: [boost::json::parse] of a text gives an
    error code and a value. *)

From stdpp Require Import base list option.
From Stdlib Require Import ZArith Lia.
From S2P Require Import Prelude Errors BackendMessages FieldTypes.

#[local] Open Scope Z_scope.

Class JsonLibrary (V : Type) := { boost_json_parse : bytes -> error_code * V }.

Definition json_oid : Z := 114.
Definition jsonb_oid : Z := 3802.

Section json.
Context {V : Type} `{!JsonLibrary V}.

Definition parse_json (json_text : bytes) (to : V) : error_code * V :=
match json_text with
| [] => (None, to)
| _ => boost_json_parse json_text
end.

Definition parse_binary_jsonb (from : field_view) (to : V) : error_code * V :=
match data from with
| version :: text => if version =? 1 then parse_json text to else (Some (client protocol_value_error), to)
| [] => (Some (client protocol_value_error), to)
end.

Definition is_json_oid (type_oid : Z) : bool := (type_oid =? json_oid) || (type_oid =? jsonb_oid).

Definition parse_binary_json_field (from : field_view) (type_oid : Z) (to : V) : option (error_code * V) :=
non_null from to (
if type_oid =? jsonb_oid then Some (parse_binary_jsonb from to)
else asserting (type_oid =? json_oid) (parse_json (data from) to)).

Definition traits_json : parse_field_traits V := {|
is_compatible type_oid := compatible_if (is_json_oid type_oid);
parse_text from type_oid to := non_null from to (asserting (is_json_oid type_oid) (parse_json (data from) to));
parse_binary := parse_binary_json_field
|}.

(** What the server sends in the binary format for a JSON text. *)
Definition json_send (type_oid : Z) (text : bytes) : bytes := if type_oid =? jsonb_oid then 1 :: text else text.

(** The formats and the types agree: a JSON text is read alike as [json] and as
[jsonb], in the text and in the binary format. *)
Theorem json_formats_agree type_oid text to : is_compatible traits_json type_oid = None ->
parse_binary traits_json (Some (json_send type_oid text)) type_oid to = parse_text traits_json (Some text) json_oid to /\
parse_text traits_json (Some text) type_oid to = parse_text traits_json (Some text) json_oid to.
Proof.
cbn. unfold compatible_if, is_json_oid, parse_binary_json_field, json_send.
destruct (Z.eqb_spec type_oid jsonb_oid) as [->|_]; [done|].
destruct (Z.eqb_spec type_oid json_oid) as [->|_]; done.
Qed.

(** An empty text is no JSON, but it is a success that leaves the output as it was. *)
Theorem empty_json_accepted to :
parse_text traits_json (Some []) json_oid to = Some (None, to) /\
parse_binary traits_json (Some [1]) jsonb_oid to = Some (None, to).
Proof. done. Qed.

(** A [jsonb] of another version is refused, and the output is left as it was. *)
Theorem jsonb_version version text to : version <> 1 ->
parse_binary traits_json (Some (version :: text)) jsonb_oid to = Some (Some (client protocol_value_error), to).
Proof. intros Hv. cbn. unfold parse_binary_json_field. cbn. by rewrite (proj2 (Z.eqb_neq version 1) Hv). Qed.
End json.
