(* ===== verification/FloatTypes.v ===== *)
(** * Floating point fields ([parse_text_float] and [parse_binary_float] of
    [include/nativepg/types/base.hpp], the traits of [float] and [double] in
    [include/nativepg/detail/field_traits_base.hpp])

    A [float] and a [double] are IEEE 754 numbers, as the specification of the
    floats of Rocq has them ([spec_float]); the sign and the payload of a NaN are
    left out.  [std::from_chars] rounds the decimal it reads to nearest. *)

From stdpp Require Import base list option.
From Stdlib Require Import ZArith Lia SpecFloat.
From S2P Require Import Prelude Errors BackendMessages CommandTag Charconv FieldTypes.

#[local] Open Scope Z_scope.

(** The precision, the largest exponent and [sizeof]. *)
Record float_type := FloatType { ft_prec : Z; ft_emax : Z; ft_size : nat }.

Definition float32 : float_type := FloatType 24 128 4.
Definition float64 : float_type := FloatType 53 1024 8.

(** ** From the bytes *)

(** [endian_load<T, sizeof(T), order::big>]: the sign, the biased exponent and the mantissa. *)
Definition float_of_bits (t : float_type) (bits : Z) : spec_float :=
  let mw := ft_prec t - 1 in
  let ew := 8 * Z.of_nat (ft_size t) - ft_prec t in
  let negative := negb (bits / 2 ^ (mw + ew) =? 0) in
  let e := (bits / 2 ^ mw) mod 2 ^ ew in
  let m := bits mod 2 ^ mw in
  if e =? 0 then
    match m with Z.pos p => S754_finite negative p (emin (ft_prec t) (ft_emax t)) | _ => S754_zero negative end
  else if e =? 2 ^ ew - 1 then
    if m =? 0 then S754_infinity negative else S754_nan
  else
    match 2 ^ mw + m with
    | Z.pos p => S754_finite negative p (emin (ft_prec t) (ft_emax t) + e - 1)
    | _ => S754_nan
    end.

(** The conversion of a [float] to a [double], which is exact. *)
Definition convert (t : float_type) (f : spec_float) : spec_float :=
  match f with
  | S754_finite negative m e => binary_normalize (ft_prec t) (ft_emax t) (cond_Zopp negative (Z.pos m)) e negative
  | _ => f
  end.

(** ** From a text *)

(** The number [m * 10 ^ e], rounded to nearest, ties to even. *)
Definition round_decimal (t : float_type) (negative : bool) (m e : Z) : spec_float :=
  match m with
  | Z.pos p =>
      if 0 <=? e then binary_normalize (ft_prec t) (ft_emax t) (cond_Zopp negative (Z.pos p * 10 ^ e)) 0 negative
      else
        match 10 ^ (- e) with
        | Z.pos d => SFdiv (ft_prec t) (ft_emax t) (S754_finite negative p 0) (S754_finite false d 0)
        | _ => S754_nan
        end
  | _ => S754_zero negative
  end.

(** The characters of [w], in any case, at the front. *)
Fixpoint skip_word (w p : bytes) : option bytes :=
  match w, p with
  | [], _ => Some p
  | c :: w', d :: p' => if tolower d =? c then skip_word w' p' else None
  | _ :: _, [] => None
  end.

Definition is_payload (c : Z) : bool := is_digit c || isalpha c || (c =? ch "_").

(** The characters between the parentheses of [nan(...)]; [None] when it is not closed. *)
Fixpoint skip_payload (p : bytes) : option bytes :=
  match p with
  | c :: p' => if c =? ch ")" then Some p' else if is_payload c then skip_payload p' else None
  | [] => None
  end.

Definition from_special (negative : bool) (p : bytes) : option (spec_float * bytes) :=
  match skip_word (str "infinity") p, skip_word (str "inf") p, skip_word (str "nan") p with
  | Some r, _, _ => Some (S754_infinity negative, r)
  | _, Some r, _ => Some (S754_infinity negative, r)
  | _, _, Some r =>
      match r with
      | c :: r' => if c =? ch "(" then Some (S754_nan, default r (skip_payload r')) else Some (S754_nan, r)
      | [] => Some (S754_nan, r)
      end
  | _, _, _ => None
  end.

(** The exponent, which is only read when it has digits. *)
Definition from_exponent (p : bytes) : Z * bytes :=
  match p with
  | c :: p' =>
      if tolower c =? ch "e" then
        let '(negative, q) :=
          match p' with s :: q => if s =? ch "-" then (true, q) else if s =? ch "+" then (false, q) else (false, p') | [] => (false, p') end in
        let '(ds, r) := digits_prefix q in
        match ds with [] => (0, p) | _ => ((if negative then - digits_value ds else digits_value ds), r) end
      else (0, p)
  | [] => (0, p)
  end.

Definition from_decimal (t : float_type) (negative : bool) (p : bytes) : errc + spec_float * bytes :=
  let '(ip, r) := digits_prefix p in
  let '(fp, r) := match r with c :: r' => if c =? ch "." then digits_prefix r' else ([], r) | [] => ([], r) end in
  match ip ++ fp with
  | [] => inl invalid_argument
  | ds =>
      let '(e, r) := from_exponent r in
      match round_decimal t negative (digits_value ds) (e - Z.of_nat (length fp)) with
      | S754_infinity _ => inl result_out_of_range
      | S754_zero b => if digits_value ds =? 0 then inr (S754_zero b, r) else inl result_out_of_range
      | f => inr (f, r)
      end
  end.

(** [std::from_chars] with [chars_format::general]. *)
Definition from_chars_float (t : float_type) (p : bytes) : errc + spec_float * bytes :=
  let '(negative, p) := match p with c :: p' => if c =? ch "-" then (true, p') else (false, p) | [] => (false, p) end in
  match from_special negative p with
  | Some r => inr r
  | None => from_decimal t negative p
  end.

(** ** The parsers *)

(** [parse_text_to_number<T>] for a floating point [T]. *)
Definition parse_text_float (t : float_type) (from : field_view) (to : spec_float) : error_code * spec_float :=
  let sv := data from in
  match from_chars_float t sv with
  | inr (result, []) => (None, result)
  | _ => match sv with [] => (None, to) | _ => (Some (client protocol_value_error), to) end
  end.

Definition parse_binary_float (t : float_type) (from : field_view) (to : spec_float) : error_code * spec_float :=
  if (length (data from) =? ft_size t)%nat then (None, float_of_bits t (be_decode (data from)))
  else (Some (client protocol_value_error), to).

Definition float4_oid : Z := 700.
Definition float8_oid : Z := 701.

Definition traits_float : parse_field_traits spec_float :=
  simple_traits (fun o => o =? float4_oid) (parse_text_float float32) (parse_binary_float float32).

(** [float value{}], the parser of [float], [to = value]. *)
Definition widen_float (parse : field_view -> spec_float -> error_code * spec_float) (from : field_view) : error_code * spec_float :=
  let '(ec, value) := parse from (S754_zero false) in (ec, convert float64 value).

Definition double_parse (parse : float_type -> field_view -> spec_float -> error_code * spec_float)
    (from : field_view) (type_oid : Z) (to : spec_float) : option (error_code * spec_float) :=
  non_null from to (
    if type_oid =? float8_oid then Some (parse float64 from to)
    else if type_oid =? float4_oid then Some (widen_float (parse float32) from)
    else None).

Definition traits_double : parse_field_traits spec_float := {|
  is_compatible type_oid := compatible_if ((type_oid =? float8_oid) || (type_oid =? float4_oid));
  parse_text := double_parse parse_text_float;
  parse_binary := double_parse parse_binary_float
|}.

Example float_third : parse_text_float float64 (Some (str "0.3333333333333333")) (S754_zero false) =
  parse_binary_float float64 (Some [0x3f; 0xd5; 0x55; 0x55; 0x55; 0x55; 0x55; 0x55]) (S754_zero false).
Proof. reflexivity. Qed.

Example float_tenth : parse_text_float float32 (Some (str "-1e-1")) (S754_zero false) =
  parse_binary_float float32 (Some [0xbd; 0xcc; 0xcc; 0xcd]) (S754_zero false).
Proof. reflexivity. Qed.

Example float_words : parse_text_float float32 (Some (str "-Infinity")) (S754_zero false) = (None, S754_infinity true) /\
  parse_text_float float32 (Some (str "NaN")) (S754_zero false) = (None, S754_nan) /\
  parse_text_float float32 (Some (str "1e99")) (S754_zero false) = (Some (client protocol_value_error), S754_zero false).
Proof. done. Qed.

Example float_subnormal : parse_text traits_double (Some (str "1e-45")) float4_oid S754_nan =
  parse_binary traits_double (Some [0; 0; 0; 1]) float4_oid S754_nan.
Proof. reflexivity. Qed.
