(* ===== verification/FloatSpec.v ===== *)
(** * Exactness of the floating point fields

    Rounding a number that the format can hold changes nothing: so a [double] reads
    a [float4] field as the very number a [float] reads, and integers that fit in
    the mantissa are read exactly from a text. *)

From stdpp Require Import base list option.
From Stdlib Require Import ZArith Lia SpecFloat.
From S2P Require Import Prelude Errors BackendMessages CommandTag Charconv FieldTypes FloatTypes.

#[local] Open Scope Z_scope.

(** ** The number of bits of a mantissa *)

Lemma digits2_bound p : 2 ^ (Z.pos (digits2_pos p) - 1) <= Z.pos p < 2 ^ Z.pos (digits2_pos p).
Proof.
  induction p as [p IH|p IH|]; cbn [digits2_pos]; [| |done];
    rewrite Pos2Z.inj_succ, Z.pow_succ_r by lia;
    replace (Z.succ (Z.pos (digits2_pos p)) - 1) with (Z.succ (Z.pos (digits2_pos p) - 1)) by lia;
    rewrite Z.pow_succ_r by lia; lia.
Qed.

Lemma digits2_le p n : 0 <= n -> Z.pos p < 2 ^ n -> Z.pos (digits2_pos p) <= n.
Proof.
  intros Hn Hp. pose proof (digits2_bound p) as [H _].
  assert (Z.pos (digits2_pos p) - 1 < n); [|lia]. apply (Z.pow_lt_mono_r_iff 2); lia.
Qed.

Lemma digits2_iter p k : Z.pos (digits2_pos (Pos.iter xO p k)) = Z.pos (digits2_pos p) + Z.pos k.
Proof.
  induction k as [|k IH] using Pos.peano_ind; [cbn; lia|]. rewrite Pos.iter_succ. cbn [digits2_pos]. lia.
Qed.

Lemma value_iter p k : Z.pos (Pos.iter xO p k) = Z.pos p * 2 ^ Z.pos k.
Proof.
  induction k as [|k IH] using Pos.peano_ind; [cbn; lia|].
  rewrite Pos.iter_succ, Pos2Z.inj_xO, IH, Pos2Z.inj_succ, Z.pow_succ_r by lia. ring.
Qed.

(** ** Rounding *)

Section rounding.
Context (prec emax : Z) (Hemax : prec + 2 <= emax).

(** A mantissa that is where [fexp] wants it is not shifted. *)
Lemma shr_fexp_id m e : fexp prec emax (Z.pos (digits2_pos m) + e) = e ->
shr_fexp prec emax (Z.pos m) e loc_Exact = ({| shr_m := Z.pos m; shr_r := false; shr_s := false |}, e).
Proof. intros H. unfold shr_fexp. cbn [Zdigits2 shr_record_of_loc]. by rewrite H, Z.sub_diag. Qed.

Lemma binary_round_aux_id s m e : fexp prec emax (Z.pos (digits2_pos m) + e) = e -> e <= emax - prec ->
binary_round_aux prec emax s (Z.pos m) e loc_Exact = S754_finite s m e.
Proof.
intros H He. unfold binary_round_aux. rewrite shr_fexp_id by done. cbn [loc_of_shr_record round_nearest_even shr_m].
rewrite shr_fexp_id by done. cbn [shr_m]. by rewrite (proj2 (Z.leb_le e _) He).
Qed.

(** A number the format can hold is only normalised. *)
Lemma binary_round_exact s m e : Z.pos (digits2_pos m) <= prec -> emin prec emax <= e -> Z.pos (digits2_pos m) + e <= emax ->
exists m' e', binary_round prec emax s m e = S754_finite s m' e' /\ e' <= e /\ Z.pos m' = Z.pos m * 2 ^ (e - e').
Proof.
intros Hd He Hmax. set (e' := fexp prec emax (Z.pos (digits2_pos m) + e)).
assert (e' <= e /\ e' <= emax - prec /\ emin prec emax <= e' /\ Z.pos (digits2_pos m) + e - prec <= e' /\
(e' = emin prec emax \/ e' = Z.pos (digits2_pos m) + e - prec)) as (H1 & H2 & H3 & H4 & H5).
{ unfold e', fexp, emin in *. lia. }
unfold binary_round, shl_align. fold e'. destruct (e' - e) as [|k|k] eqn:Ek; [|lia|].
- assert (e' = e) as He' by lia. exists m, e. rewrite binary_round_aux_id by (exact He' || lia).
split_and!; [done|lia|]. rewrite Z.sub_diag. lia.
- exists (Pos.iter xO m k), e'. rewrite binary_round_aux_id.
+ split_and!; [done|lia|]. rewrite value_iter. do 2 f_equal. lia.
+ rewrite digits2_iter. replace (Z.pos (digits2_pos m) + Z.pos k + e') with (Z.pos (digits2_pos m) + e) by lia. done.
+ done.
Qed.
End rounding.

(** ** Properties *)

(** The same number: the same sign and, at the smaller exponent, the same mantissa. *)
Definition same_number (f g : spec_float) : Prop :=
  match f, g with
  | S754_finite s m e, S754_finite s' m' e' => s = s' /\ Z.pos m * 2 ^ (e - Z.min e e') = Z.pos m' * 2 ^ (e' - Z.min e e')
  | _, _ => f = g
  end.

Lemma binary_normalize_exact t s m e : 1 <= ft_prec t -> ft_prec t + 2 <= ft_emax t ->
  Z.pos m < 2 ^ ft_prec t -> emin (ft_prec t) (ft_emax t) <= e -> ft_prec t + e <= ft_emax t ->
  same_number (S754_finite s m e) (binary_normalize (ft_prec t) (ft_emax t) (cond_Zopp s (Z.pos m)) e s).
Proof.
  intros Hp He Hm Hlo Hhi. pose proof (digits2_le m (ft_prec t) ltac:(lia) Hm) as Hd.
  destruct (binary_round_exact (ft_prec t) (ft_emax t) He s m e Hd Hlo ltac:(lia)) as (m' & e' & H & Hle & Hv).
  replace (binary_normalize _ _ _ _ _) with (binary_round (ft_prec t) (ft_emax t) s m e) by (by destruct s).
  rewrite H. split; [done|]. rewrite Z.min_r, Z.sub_diag, Hv by done. lia.
Qed.

(** What the bits of a [float] can be. *)
Lemma float32_shape bits : match float_of_bits float32 bits with
  | S754_finite s m e => Z.pos m < 2 ^ 24 /\ -149 <= e <= 104
  | _ => True
  end.
Proof.
  unfold float_of_bits. cbn [ft_prec ft_emax ft_size float32]. change (8 * Z.of_nat 4 - 24) with 8. change (24 - 1) with 23.
  pose proof (Z.mod_pos_bound (bits / 2 ^ 23) (2 ^ 8) ltac:(lia)) as He.
  pose proof (Z.mod_pos_bound bits (2 ^ 23) ltac:(lia)) as Hm. change (emin 24 128) with (-149).
  destruct (Z.eqb_spec ((bits / 2 ^ 23) mod 2 ^ 8) 0) as [E|E].
  - destruct (bits mod 2 ^ 23) as [|p|p]; [done| |done]. cbn in Hm |- *. lia.
  - destruct (Z.eqb_spec ((bits / 2 ^ 23) mod 2 ^ 8) (2 ^ 8 - 1)) as [E2|E2]; [by destruct (bits mod 2 ^ 23 =? 0)|].
    destruct (2 ^ 23 + bits mod 2 ^ 23) as [|p|p] eqn:Ep; [done| |done]. revert He Hm E E2 Ep.
    generalize ((bits / 2 ^ 23) mod 2 ^ 8) (bits mod 2 ^ 23). cbn. lia.
Qed.

Lemma convert_exact bits : same_number (float_of_bits float32 bits) (convert float64 (float_of_bits float32 bits)).
Proof.
  pose proof (float32_shape bits) as H. destruct (float_of_bits float32 bits) as [| | |s m e]; [done..|].
  destruct H as [Hm He]. apply (binary_normalize_exact float64); unfold emin; cbn in *; lia.
Qed.

(** Widening is exact: every [float4] field in the binary format, whatever its
    bytes, is read by a [double] with the outcome it has for a [float] and as the
    very same number, infinities, zeros and NaN included. *)
Theorem double_reads_float from ec f : parse_binary traits_float from float4_oid (S754_zero false) = Some (ec, f) ->
  exists d, parse_binary traits_double from float4_oid (S754_zero false) = Some (ec, d) /\ same_number f d.
Proof.
  cbn. unfold double_parse, non_null. destruct (is_null from).
  { intros [= <- <-]. by exists (S754_zero false). }
  unfold asserting. change (float4_oid =? float4_oid) with true. change (float4_oid =? float8_oid) with false. cbn iota.
  intros [= H]. unfold widen_float. rewrite H. unfold parse_binary_float in H.
  destruct (_ =? _)%nat; injection H as <- <-; eexists; (split; [done|]); [apply convert_exact|done].
Qed.

Lemma double_reads_float_witness :
  exists d, parse_binary traits_double (Some [0x80; 0; 0; 3]) float4_oid (S754_zero false) = Some (None, d) /\
    same_number (S754_finite true 3 (-149)) d.
Proof. by apply (double_reads_float (Some [0x80; 0; 0; 3])). Defined.

(** The words of the special values do not start with a digit. *)
Lemma from_special_digit negative c p : is_digit c = true -> from_special negative (c :: p) = None.
Proof.
  unfold is_digit. rewrite andb_true_iff, !Z.leb_le. change (ch "0") with 48. change (ch "9") with 57. intros Hc.
  assert (tolower c = c) as Hl.
  { unfold tolower, isupper. change (ch "A") with 65. by rewrite (proj2 (Z.leb_gt 65 c)) by lia. }
  assert ((c =? ch "i") = false) as Hi by (change (ch "i") with 105; lia).
  assert ((c =? ch "n") = false) as Hn by (change (ch "n") with 110; lia).
  unfold from_special. cbn. by rewrite Hl, Hi, Hn.
Qed.

Lemma from_decimal_integer t negative ds : all_digits ds -> ds <> [] ->
  from_decimal t negative ds =
  match round_decimal t negative (digits_value ds) 0 with
  | S754_infinity _ => inl result_out_of_range
  | S754_zero b => if digits_value ds =? 0 then inr (S754_zero b, []) else inl result_out_of_range
  | f => inr (f, [])
  end.
Proof.
  intros Hd Hn. unfold from_decimal. rewrite <- (app_nil_r ds) at 1. rewrite digits_prefix_app by (done || by intros ? ?).
  rewrite app_nil_r. destruct ds; [done|]. cbn [from_exponent]. by destruct (round_decimal _ _ _ _).
Qed.

(** An integer that fits in the mantissa is read exactly from a text. *)
Theorem float_integers_exact t (negative : bool) ds to : t = float32 \/ t = float64 -> all_digits ds -> 0 < digits_value ds < 2 ^ ft_prec t ->
  exists f, parse_text_float t (Some ((if negative then str "-" else []) ++ ds)) to = (None, f) /\
    same_number (S754_finite negative (Z.to_pos (digits_value ds)) 0) f.
Proof.
  intros Ht Hd Hv. assert (ds <> []) as Hn by (intros ->; cbn in Hv; lia).
  unfold parse_text_float. cbn [data from_option id].
  assert (from_chars_float t ((if negative then str "-" else []) ++ ds) = from_decimal t negative ds) as ->.
  { unfold from_chars_float. destruct ds as [|c ds]; [done|]. pose proof (List.Forall_inv Hd) as Hc.
    assert ((c =? ch "-") = false) as Hm.
    { unfold is_digit in Hc. apply andb_true_iff in Hc as [Hc _]. apply Z.leb_le in Hc. apply Z.eqb_neq.
      change (ch "0") with 48 in Hc. change (ch "-") with 45. lia. }
    destruct negative; cbn [app].
    - change (match from_special true (c :: ds) with Some r => inr r | None => from_decimal t true (c :: ds) end = from_decimal t true (c :: ds)).
      by rewrite from_special_digit.
    - rewrite Hm. by rewrite from_special_digit. }
  rewrite from_decimal_integer by done. unfold round_decimal. destruct (digits_value ds) as [|p|p]; [lia| |lia].
  rewrite Z.mul_1_r. cbn [Z.leb Z.compare].
  pose proof (binary_normalize_exact t negative p 0) as H.
  assert (same_number (S754_finite negative p 0) (binary_normalize (ft_prec t) (ft_emax t) (cond_Zopp negative (Z.pos p)) 0 negative)) as Hs.
  { destruct Ht as [-> | ->]; cbn in Hv; apply H; unfold emin; cbn; lia. }
  destruct (binary_normalize _ _ _ _ _); [done..|]. eexists; split; [done|exact Hs].
Qed.

Lemma float_integers_exact_witness :
  exists f, parse_text_float float32 (Some (str "-16777215")) S754_nan = (None, f) /\ same_number (S754_finite true 16777215 0) f.
Proof. apply (float_integers_exact float32 true (str "16777215")); [by left|repeat constructor|done]. Defined.
