(* ===== verification/Numeric.v ===== *)
(** * Numerics and decimals ([include/nativepg/types/numeric.hpp],
    [include/nativepg/types/decimal.hpp], [include/nativepg/detail/field_traits_numeric.hpp],
    [field_traits_decimal.hpp])

    How a field of type [numeric] is read into a number type of Boost.  The number
    type is a parameter: [Number] has the operations the code calls.  The digit
    counts that guard the precision, the loop over the groups of base 10000 and the
    rounding to the display scale are the code's; [None] is a read outside of the
    field, or a loop that has run out of fuel. *)

From stdpp Require Import base list option.
From Stdlib Require Import ZArith Lia.
From S2P Require Import Prelude Errors BackendMessages CommandTag FieldTypes.

#[local] Open Scope Z_scope.

(** ** The number type *)

(** What the parsers use of [boost::multiprecision::number] and of the decimal
    types: [std::numeric_limits<T>::digits10], the constructors from a text (which
    may throw) and from an integer, [pow] to an [int], the arithmetic, [round],
    [quiet_NaN] and [infinity]. *)
Class Number (T : Type) := {
  num_digits10 : Z;
  num_of_text : bytes -> option T;
  num_of_int : Z -> T;
  num_pow : T -> Z -> T;
  num_add : T -> T -> T;
  num_mul : T -> T -> T;
  num_div : T -> T -> T;
  num_round : T -> T;
  num_neg : T -> T;
  num_nan : T;
  num_infinity : T
}.

(** [boost::decimal::from_chars]: whether it succeeded, the output parameter and the
    number of characters before the pointer it returns. *)
Class DecimalChars (T : Type) := { dec_from_chars : bytes -> T -> bool * T * nat }.

(** ** Significant digits *)

(** The characters before the first one that satisfies [p]. *)
Fixpoint before (p : Z -> bool) (s : bytes) : bytes :=
  match s with
  | [] => []
  | c :: r => if p c then [] else c :: before p r
  end.

Fixpoint drop_while (p : Z -> bool) (s : bytes) : bytes :=
  match s with
  | [] => []
  | c :: r => if p c then drop_while p r else s
  end.

Definition is_sign (c : Z) : bool := (c =? ch "+") || (c =? ch "-").
Definition is_point (c : Z) : bool := c =? ch ".".
Definition is_zero (c : Z) : bool := c =? ch "0".
Definition not_numeric (c : Z) : bool := ((c <? ch "0") || (ch "9" <? c)) && negb (is_point c).

Definition strip_sign (s : bytes) : bytes :=
  match s with
  | c :: r => if is_sign c then r else s
  | [] => s
  end.

Definition count_significant_digits_text (s : bytes) : Z :=
  let ws := strip_sign s in
  let numeric_part := before not_numeric ws in
  Z.of_nat (length (drop_while is_zero (rev (drop_while is_zero (List.filter (fun c => negb (is_point c)) numeric_part))))).

(** [boost::endian::endian_load<std::uint16_t, 2, order::big>(p + off)] *)
Definition load16 (p : bytes) (off : nat) : option Z :=
  if (off + 2 <=? length p)%nat then Some (be_decode (take 2 (drop off p))) else None.

(** The groups equal to zero at the end of the first [n]. *)
Fixpoint zero_groups (groups : bytes) (n : nat) : option nat :=
  match n with
  | O => Some O
  | S i => g ← load16 groups (i * 2); if g =? 0 then z ← zero_groups groups i; Some (S z) else Some O
  end.

(** [for (g; g % 10 == 0; g /= 10) ++trailing;] *)
Fixpoint strip_zeros (fuel : nat) (g trailing : Z) : option Z :=
  match fuel with
  | O => None
  | S fuel' => if g mod 10 =? 0 then strip_zeros fuel' (g / 10) (trailing + 1) else Some trailing
  end.

(** A group has at most five digits, and one more step ends the loop. *)
Definition strip_fuel : nat := 5.

Definition lead_width (first : Z) : Z :=
  if 1000 <=? first then 4 else if 100 <=? first then 3 else if 10 <=? first then 2 else 1.

Definition count_significant_digits_binary (ndigits : nat) (groups : bytes) : option Z :=
  if (ndigits =? 0)%nat then Some 0
  else
    first ← load16 groups 0;
    let total := lead_width first + (Z.of_nat ndigits - 1) * 4 in
    zeros ← zero_groups groups ndigits;
    if (zeros =? ndigits)%nat then Some 0
    else
      g ← load16 groups ((ndigits - 1 - zeros) * 2);
      trailing ← strip_zeros strip_fuel g (Z.of_nat zeros * 4);
      Some (wrap64 (total - trailing)).

(** ** The parsers *)

Definition NUMERIC_NEG : Z := 0x4000.
Definition NUMERIC_NAN : Z := 0xC000.
Definition NUMERIC_PINF : Z := 0xD000.
Definition NUMERIC_NINF : Z := 0xF000.

Section parsers.
Context {T : Type} `{!Number T}.

Definition special_value (sign : Z) : option T :=
if sign =? NUMERIC_NAN then Some num_nan
else if sign =? NUMERIC_PINF then Some num_infinity
else if sign =? NUMERIC_NINF then Some (num_neg num_infinity)
else None.

(** The loop over the groups, from the one of index [i], [n] of them. *)
Fixpoint sum_groups (bs : bytes) (weight : Z) (i n : nat) (result : T) : option T :=
match n with
| O => Some result
| S n' =>
raw_digit ← load16 bs (8 + i * 2);
let place_value := num_pow (num_of_int 10000) (weight - Z.of_nat i) in
sum_groups bs weight (S i) n' (num_add result (num_mul (num_of_int raw_digit) place_value))
end.

Definition apply_scale (dscale : Z) (result : T) : T :=
if 0 <? dscale then
let multiplier := num_pow (num_of_int 10) dscale in
num_div (num_round (num_mul result multiplier)) multiplier
else num_round result.

Definition apply_sign (sign : Z) (result : T) : T := if sign =? NUMERIC_NEG then num_neg result else result.

(** The value of the groups after the header, which the length check covers. *)
Definition binary_value (bs : bytes) (ndigits : nat) (weight sign dscale : Z) : option T :=
result ← sum_groups bs weight 0 ndigits (num_of_int 0);
Some (apply_sign sign (apply_scale dscale result)).

(** The four fields of the header: [ndigits], [weight], [sign] and [dscale]. *)
Definition load_header (bs : bytes) : option (nat * Z * Z * Z) :=
ndigits ← load16 bs 0;
weight ← load16 bs 2;
sign ← load16 bs 4;
dscale ← load16 bs 6;
Some (Z.to_nat ndigits, wrapS 2 weight, sign, dscale).

Definition parse_text_numeric (from : field_view) (to : T) : error_code * T :=
let sv := data from in
if num_digits10 <? count_significant_digits_text sv then (Some (client incompatible_response_length), to)
else
match num_of_text sv with
| Some v => (None, v)
| None => (Some (client protocol_value_error), to)
end.

Definition parse_binary_numeric (from : field_view) (to : T) : option (error_code * T) :=
let bs := data from in
if (length bs <? 8)%nat then Some (Some (client protocol_value_error), to)
else
'(ndigits, weight, sign, dscale) ← load_header bs;
match special_value sign with
| Some v => Some (None, v)
| None =>
  if (length bs <? 8 + ndigits * 2)%nat then Some (Some (client protocol_value_error), to)
  else
    digits ← count_significant_digits_binary ndigits (drop 8 bs);
    if num_digits10 <? digits then Some (Some (client incompatible_response_length), to)
    else result ← binary_value bs ndigits weight sign dscale; Some (None, result)
end.

Definition parse_text_decimal `{!DecimalChars T} (from : field_view) (to : T) : error_code * T :=
let sv := data from in
let '(ok, v, consumed) := dec_from_chars sv to in
if negb ok || negb (consumed =? length sv)%nat then (Some (client protocol_value_error), v) else (None, v).

Definition parse_binary_decimal (from : field_view) (to : T) : option (error_code * T) :=
let bs := data from in
if (length bs <? 8)%nat then Some (Some (client protocol_value_error), to)
else
'(ndigits, weight, sign, dscale) ← load_header bs;
match special_value sign with
| Some v => Some (None, v)
| None =>
  if (length bs <? 8 + ndigits * 2)%nat then Some (Some (client protocol_value_error), to)
  else result ← binary_value bs ndigits weight sign dscale; Some (None, result)
end.

Definition numeric_oid : Z := 1700.
Definition decimal_oid : Z := 1700.

Definition traits_numeric : parse_field_traits T := {|
is_compatible type_oid := compatible_if (type_oid =? numeric_oid);
parse_text from type_oid to := non_null from to (asserting (type_oid =? numeric_oid) (parse_text_numeric from to));
parse_binary from type_oid to := non_null from to (if type_oid =? numeric_oid then parse_binary_numeric from to else None)
|}.

Definition traits_decimal `{!DecimalChars T} : parse_field_traits T := {|
is_compatible type_oid := compatible_if (type_oid =? decimal_oid);
parse_text from type_oid to := non_null from to (asserting (type_oid =? decimal_oid) (parse_text_decimal from to));
parse_binary from type_oid to := non_null from to (if type_oid =? decimal_oid then parse_binary_decimal from to else None)
|}.
End parsers.
