(* ===== verification/Digits.v ===== *)
(** * Significant digits of an integer

    The arithmetic that the numeric parsers rest on: the significant decimal digits
    of an integer, which are those of its quotient by the powers of ten that divide
    it, and the integers written by a list of decimal characters and by a list of
    groups of base 10000.  The two counters of [Numeric] are proved to count them. *)

From stdpp Require Import base list option.
From Stdlib Require Import ZArith Lia.
From S2P Require Import Prelude Errors BackendMessages CommandTag Charconv FieldTypes Numeric.

#[local] Open Scope Z_scope.

(** ** Significant digits *)

(** [n] is [m] followed by zeros, [m] has [k] digits and does not end in a zero. *)
Definition sig_digits (n k : Z) : Prop :=
  (n = 0 /\ k = 0) \/
  (exists m j, 0 <= j /\ n = m * 10 ^ j /\ m mod 10 <> 0 /\ 1 <= k /\ 10 ^ (k - 1) <= m < 10 ^ k).

Lemma pow10_pos j : 0 <= j -> 0 < 10 ^ j.
Proof. intros. by apply Z.pow_pos_nonneg. Qed.

Lemma pow10_split j i : 0 <= i -> 0 <= j -> 10 ^ (i + j) = 10 ^ i * 10 ^ j.
Proof. intros. by rewrite Z.pow_add_r. Qed.

Lemma mod10_shift a j : 0 < j -> (a * 10 ^ j) mod 10 = 0.
Proof.
  intros. replace j with (1 + (j - 1)) by lia. rewrite pow10_split by lia. change (10 ^ 1) with 10.
  replace (a * (10 * 10 ^ (j - 1))) with (a * 10 ^ (j - 1) * 10) by ring. by apply Z.mod_mul.
Qed.

Lemma sig_unique_aux m j m' j' : 0 <= j -> 0 <= j' -> m mod 10 <> 0 -> m' mod 10 <> 0 -> m * 10 ^ j = m' * 10 ^ j' ->
  j <= j' -> m = m' /\ j = j'.
Proof.
  intros Hj Hj' Hm Hm' He Hle. replace j' with ((j' - j) + j) in He by lia. rewrite pow10_split, Z.mul_assoc in He by lia.
  apply Z.mul_reg_r in He; [|pose proof (pow10_pos j Hj); lia].
  destruct (Z.eq_dec j j') as [->|Hne]; [rewrite Z.sub_diag, Z.mul_1_r in He; lia|].
  exfalso. apply Hm. rewrite He. apply mod10_shift. lia.
Qed.

Lemma digits_unique m k k' : 1 <= k -> 1 <= k' -> 10 ^ (k - 1) <= m < 10 ^ k -> 10 ^ (k' - 1) <= m < 10 ^ k' -> k = k'.
Proof.
  intros Hk Hk' [H1 H2] [H3 H4].
  assert (k - 1 < k') by (apply (Z.pow_lt_mono_r_iff 10); lia).
  assert (k' - 1 < k) by (apply (Z.pow_lt_mono_r_iff 10); lia). lia.
Qed.

(** An integer has one number of significant digits. *)
Lemma sig_digits_unique n k k' : sig_digits n k -> sig_digits n k' -> k = k'.
Proof.
  intros [[-> ->]|(m & j & Hj & -> & Hm & Hk & Hb)] [[Hz ->]|(m' & j' & Hj' & He & Hm' & Hk' & Hb')]; [done|..].
  - pose proof (pow10_pos j' Hj'). pose proof (pow10_pos (k' - 1)). nia.
  - pose proof (pow10_pos j Hj). pose proof (pow10_pos (k - 1)). nia.
  - assert (m = m') as <-; [|by apply (digits_unique m)].
    destruct (Z.le_ge_cases j j'); [by destruct (sig_unique_aux m j m' j')|by destruct (sig_unique_aux m' j' m j)].
Qed.

(** Zeros at the end do not count. *)
Lemma sig_digits_shift n i k : 0 <= i -> sig_digits n k -> sig_digits (n * 10 ^ i) k.
Proof.
  intros Hi [[-> ->]|(m & j & Hj & -> & Hrest)]; [by left|]. right. exists m, (j + i).
  rewrite pow10_split by lia. split; [lia|]. split; [ring|done].
Qed.

(** The digits of a number with [w] of them that ends in [t] zeros. *)
Lemma sig_digits_width n m t w : 0 <= t -> n = m * 10 ^ t -> m mod 10 <> 0 -> 1 <= w -> 10 ^ (w - 1) <= n < 10 ^ w ->
  sig_digits n (w - t) /\ t < w.
Proof.
  intros Ht -> Hm Hw [Hlo Hhi].
  assert (0 < m) as Hpos by (pose proof (pow10_pos t Ht); pose proof (pow10_pos (w - 1)); nia).
  assert (t < w) as Htw by (apply (Z.pow_lt_mono_r_iff 10); [lia..|pose proof (pow10_pos t Ht); nia]).
  split; [|done]. right. exists m, t. split_and!; [done..|lia| |].
  - replace (w - 1) with ((w - t - 1) + t) in Hlo by lia. rewrite pow10_split in Hlo by lia.
    pose proof (pow10_pos t Ht). nia.
  - replace w with ((w - t) + t) in Hhi by lia. rewrite pow10_split in Hhi by lia.
    pose proof (pow10_pos t Ht). nia.
Qed.

(** ** Decimal characters *)

Lemma digits_value_cons c ds : digits_value (c :: ds) = (c - ch "0") * 10 ^ Z.of_nat (length ds) + digits_value ds.
Proof. exact (digits_value_app [c] ds). Qed.

Lemma is_digit_range c : is_digit c = true -> 0 <= c - ch "0" <= 9.
Proof. unfold is_digit. rewrite andb_true_iff, !Z.leb_le. change (ch "0") with 48. change (ch "9") with 57. lia. Qed.

Lemma digits_value_first c ds : all_digits (c :: ds) -> c <> ch "0" ->
  10 ^ Z.of_nat (length ds) <= digits_value (c :: ds).
Proof.
  intros Hd Hc. inversion_clear Hd as [|? ? H1 H2]. rewrite digits_value_cons. apply is_digit_range in H1.
  pose proof (digits_value_bound ds H2). pose proof (pow10_pos (Z.of_nat (length ds))). nia.
Qed.

Lemma digits_value_last ds c : all_digits (ds ++ [c]) -> c <> ch "0" -> digits_value (ds ++ [c]) mod 10 <> 0.
Proof.
  intros Hd Hc. apply Forall_app in Hd as [_ Hd]. inversion_clear Hd as [|? ? H1 _]. apply is_digit_range in H1.
  rewrite digits_value_app. change (digits_value [c]) with (0 * 10 + (c - ch "0")). cbn [length].
  rewrite Z.add_comm, Z.mod_add, Z.mod_small by lia. lia.
Qed.

(** ** The counter of characters *)

(** What [drop_while] leaves, in front of what it drops. *)
Lemma drop_while_split p s : exists l, s = l ++ drop_while p s /\ Forall (fun c => p c = true) l /\
  (forall c r, drop_while p s = c :: r -> p c = false).
Proof.
  induction s as [|c s (l & Hl & Hp & Hf)]; [by exists []|]. cbn [drop_while]. destruct (p c) eqn:E.
  - exists (c :: l). split; [by rewrite Hl at 1|]. split; [by constructor|done].
  - exists []. split; [done|]. split; [constructor|]. by intros ? ? [= <- <-].
Qed.

Lemma zeros_replicate l : Forall (fun c => is_zero c = true) l -> l = replicate (length l) (ch "0").
Proof. induction 1 as [|c l Hc _ IH]; [done|]. cbn. apply Z.eqb_eq in Hc. by rewrite <- IH, Hc. Qed.

Lemma drop_zeros_value ds : exists j, ds = replicate j (ch "0") ++ drop_while is_zero ds /\
  digits_value (drop_while is_zero ds) = digits_value ds.
Proof.
  destruct (drop_while_split is_zero ds) as (l & Hl & Hp & _). exists (length l). rewrite <- (zeros_replicate l Hp).
  split; [done|]. rewrite Hl at 2. rewrite (zeros_replicate l Hp), digits_value_app, digits_value_zeros. lia.
Qed.

(** The same from the end. *)
Lemma drop_zeros_end es : exists fs j, es = fs ++ replicate j (ch "0") /\
  length (drop_while is_zero (rev es)) = length fs /\ (forall gs c, fs = gs ++ [c] -> c <> ch "0").
Proof.
  destruct (drop_while_split is_zero (rev es)) as (z & Hz & Hp & Hf). exists (rev (drop_while is_zero (rev es))), (length z).
  split_and!; [|by rewrite length_rev|].
  - rewrite <- (rev_involutive es) at 1. rewrite Hz at 1. rewrite rev_app_distr. f_equal.
    rewrite (zeros_replicate z Hp) at 1. rewrite (zeros_replicate (rev _)); rewrite ?length_rev, ?length_replicate; [done|].
    apply List.Forall_rev. by rewrite <- (zeros_replicate z Hp).
  - intros gs c Hgs. apply (f_equal (@rev Z)) in Hgs. rewrite rev_involutive, rev_app_distr in Hgs.
    apply Hf in Hgs. unfold is_zero in Hgs. by apply Z.eqb_neq.
Qed.

(** Without the zeros at both ends, the characters of the digits are the significant ones. *)
Lemma drop_zeros_digits ds : all_digits ds ->
  sig_digits (digits_value ds) (Z.of_nat (length (drop_while is_zero (rev (drop_while is_zero ds))))).
Proof.
  intros Hd. destruct (drop_zeros_value ds) as (i & Hi & <-).
  destruct (drop_while_split is_zero ds) as (_ & _ & _ & Hf).
  destruct (drop_zeros_end (drop_while is_zero ds)) as (fs & j & Hj & -> & Hl).
  assert (all_digits fs) as Hfs.
  { unfold all_digits in *. rewrite Hi, Hj, !Forall_app in Hd. tauto. }
  rewrite Hj in Hf |- *. clear Hi Hj Hd.
  rewrite digits_value_app, digits_value_zeros, length_replicate, Z.add_0_r. apply sig_digits_shift; [lia|].
  destruct fs as [|c fs _] using rev_ind; [by left|]. right. exists (digits_value (fs ++ [c])), 0.
  split_and!; [done|lia|apply digits_value_last; [done|by apply (Hl fs)]|rewrite length_app; cbn; lia| |by apply digits_value_bound].
  destruct fs as [|d fs]; cbn [app] in *.
  - specialize (Hf c _ eq_refl). apply Z.eqb_neq in Hf. by apply (digits_value_first c []).
  - specialize (Hf d _ eq_refl). apply Z.eqb_neq in Hf.
    cbn [length]. replace (Z.of_nat (S (length (fs ++ [c]))) - 1) with (Z.of_nat (length (fs ++ [c]))) by lia.
    by apply digits_value_first.
Qed.

(** A decimal text: a minus sign, integer digits, and fractional digits after a point. *)
Definition decimal_chars (neg : bool) (ip fp : bytes) : bytes :=
  (if neg then str "-" else []) ++ ip ++ (match fp with [] => [] | _ => ch "." :: fp end).

Lemma digit_numeric c : is_digit c = true -> not_numeric c = false /\ is_point c = false /\ is_sign c = false.
Proof.
  unfold not_numeric, is_point, is_sign. intros H%is_digit_range. revert H.
  change (ch "0") with 48. change (ch "9") with 57. change (ch ".") with 46. change (ch "+") with 43. change (ch "-") with 45.
  intros. rewrite (proj2 (Z.ltb_ge c 48)), (proj2 (Z.ltb_ge 57 c)), !(proj2 (Z.eqb_neq c _)) by lia. done.
Qed.

Lemma before_all p s : Forall (fun c => p c = false) s -> before p s = s.
Proof. induction 1 as [|c s Hc _ IH]; [done|]. cbn. by rewrite Hc, IH. Qed.

Lemma filter_digits ds : all_digits ds -> List.filter (fun c => negb (is_point c)) ds = ds.
Proof. induction 1 as [|c ds Hc _ IH]; [done|]. cbn. destruct (digit_numeric c Hc) as (_ & -> & _). cbn. by rewrite IH. Qed.

Lemma digits_numeric ds : all_digits ds -> Forall (fun c => not_numeric c = false) ds.
Proof. induction 1 as [|c ds Hc _ IH]; constructor; [by apply digit_numeric|done]. Qed.

Lemma strip_sign_digits ip r : all_digits ip -> ip <> [] -> strip_sign (ip ++ r) = ip ++ r.
Proof. intros [|c ds Hc _]; [done|]. intros _. cbn. by destruct (digit_numeric c Hc) as (_ & _ & ->). Qed.

Lemma strip_sign_chars neg ip fp : all_digits ip -> ip <> [] ->
  strip_sign (decimal_chars neg ip fp) = ip ++ (match fp with [] => [] | _ => ch "." :: fp end).
Proof. intros Hd Hn. destruct neg; [done|]. exact (strip_sign_digits ip _ Hd Hn). Qed.

(** The counter of a text counts the significant digits of what its digits write. *)
Lemma count_text_sig neg ip fp : all_digits ip -> ip <> [] -> all_digits fp ->
  sig_digits (digits_value (ip ++ fp)) (count_significant_digits_text (decimal_chars neg ip fp)).
Proof.
  intros Hi Hn Hf. unfold count_significant_digits_text. rewrite strip_sign_chars by done. rewrite before_all.
  - replace (List.filter _ _) with (ip ++ fp); [by apply drop_zeros_digits, Forall_app|].
    rewrite List.filter_app, filter_digits by done. f_equal. destruct fp; [done|].
    symmetry. exact (filter_digits _ Hf).
  - apply Forall_app. split; [by apply digits_numeric|]. destruct fp; [constructor|]. constructor; [done|by apply digits_numeric].
Qed.

(** ** Groups of base 10000 *)

Definition base_10000 (gs : list Z) : Z := foldl (fun n g => n * 10000 + g) 0 gs.

Definition groups_enc (gs : list Z) : bytes := concat (map (be_encode 2) gs).

(** What a [uint16_t] holds, and what PostgreSQL puts in it. *)
Definition is_uint16 (g : Z) : Prop := 0 <= g < 65536.
Definition is_group (g : Z) : Prop := 0 <= g < 10000.

Lemma group_uint16 g : is_group g -> is_uint16 g.
Proof. unfold is_group, is_uint16. lia. Qed.

Lemma groups_uint16 gs : Forall is_group gs -> Forall is_uint16 gs.
Proof. apply List.Forall_impl, group_uint16. Qed.

Lemma base_10000_acc gs : forall acc, foldl (fun n g => n * 10000 + g) acc gs = acc * 10 ^ (4 * Z.of_nat (length gs)) + base_10000 gs.
Proof.
  unfold base_10000. induction gs as [|g gs IH]; intros acc; cbn [foldl length]; [rewrite Z.mul_1_r; lia|].
  rewrite IH, (IH (0 * 10000 + g)). replace (4 * Z.of_nat (S (length gs))) with (4 + 4 * Z.of_nat (length gs)) by lia.
  rewrite pow10_split by lia. change (10 ^ 4) with 10000. ring.
Qed.

Lemma base_10000_app gs hs : base_10000 (gs ++ hs) = base_10000 gs * 10 ^ (4 * Z.of_nat (length hs)) + base_10000 hs.
Proof. unfold base_10000 at 1. rewrite foldl_app. apply base_10000_acc. Qed.

Lemma base_10000_cons g gs : base_10000 (g :: gs) = g * 10 ^ (4 * Z.of_nat (length gs)) + base_10000 gs.
Proof. exact (base_10000_app [g] gs). Qed.

Lemma base_10000_zeros z : base_10000 (replicate z 0) = 0.
Proof. induction z as [|z IH]; [done|]. by rewrite replicate_S, base_10000_cons, IH. Qed.

Lemma base_10000_bound gs : Forall is_group gs -> 0 <= base_10000 gs < 10 ^ (4 * Z.of_nat (length gs)).
Proof.
  induction 1 as [|g gs Hg _ IH]; [done|]. rewrite base_10000_cons. unfold is_group in Hg. cbn [length].
  replace (4 * Z.of_nat (S (length gs))) with (4 + 4 * Z.of_nat (length gs)) by lia.
  rewrite pow10_split by lia. change (10 ^ 4) with 10000. nia.
Qed.

Lemma load16_ok p off z : Forall is_byte p -> load16 p off = Some z -> is_uint16 z.
Proof.
  unfold load16. intros Hp. destruct (Nat.leb_spec (off + 2) (length p)) as [Hl|]; [|done]. intros [= <-].
  pose proof (be_decode_acc_bound (take 2 (drop off p)) 0 ltac:(by apply Forall_take, Forall_drop)) as H.
  unfold is_uint16, be_decode. rewrite length_take, length_drop in H.
  replace (2 `min` (length p - off))%nat with 2%nat in H by lia. cbn in H. lia.
Qed.

Lemma load16_is_Some p off : is_Some (load16 p off) <-> (off + 2 <= length p)%nat.
Proof.
  unfold load16. destruct (Nat.leb_spec (off + 2) (length p)); split; [done|intros; by eexists|by intros []|lia].
Qed.

Lemma load16_enc pre g r : is_uint16 g -> load16 (pre ++ be_encode 2 g ++ r) (length pre) = Some g.
Proof.
  intros Hg. unfold load16. rewrite !length_app, length_be_encode.
  destruct (Nat.leb_spec (length pre + 2) (length pre + (2 + length r))); [|lia].
  rewrite drop_app_len by done. rewrite take_app_len by (by rewrite length_be_encode).
  rewrite be_decode_encode. unfold wrapU, is_uint16 in *. rewrite Z.mod_small by (cbn; lia). done.
Qed.

Lemma length_groups_enc gs : length (groups_enc gs) = (length gs * 2)%nat.
Proof. induction gs as [|g gs IH]; [done|]. cbn. unfold groups_enc in IH. rewrite length_app, length_be_encode, IH. lia. Qed.

Lemma groups_enc_app gs hs : groups_enc (gs ++ hs) = groups_enc gs ++ groups_enc hs.
Proof. unfold groups_enc. by rewrite map_app, concat_app. Qed.

Lemma load16_groups pre gs i g r off : off = (length pre + i * 2)%nat -> Forall is_uint16 gs -> gs !! i = Some g ->
  load16 (pre ++ groups_enc gs ++ r) off = Some g.
Proof.
  intros -> Hgs Hi. pose proof (list_elem_of_split_length gs i g Hi) as (l1 & l2 & -> & ->).
  rewrite groups_enc_app. change (groups_enc (g :: l2)) with (be_encode 2 g ++ groups_enc l2).
  rewrite <- !app_assoc, (app_assoc pre), <- length_groups_enc, <- length_app. apply load16_enc.
  apply Forall_app in Hgs as [_ Hgs]. by apply List.Forall_inv in Hgs.
Qed.

Lemma load16_first gs i g r off : off = (i * 2)%nat -> Forall is_uint16 gs -> gs !! i = Some g ->
  load16 (groups_enc gs ++ r) off = Some g.
Proof. exact (load16_groups [] gs i g r off). Qed.

(** ** The counter of groups *)

Lemma zero_groups_spec gs : forall r, Forall is_uint16 gs ->
  exists hs z, gs = hs ++ replicate z 0 /\ zero_groups (groups_enc gs ++ r) (length gs) = Some z /\
    (forall l g, hs = l ++ [g] -> g <> 0).
Proof.
  induction gs as [|g gs IH] using rev_ind; intros r Hgs; [exists [], O; split_and!; [done..|intros [] ? ?; done]|].
  pose proof Hgs as Hgs'. apply Forall_app in Hgs' as [Hgs1 _].
  rewrite length_app, Nat.add_1_r. cbn [zero_groups].
  rewrite (load16_first (gs ++ [g]) (length gs) g) by (done || by apply list_lookup_middle). cbn [mbind option_bind].
  destruct (Z.eqb_spec g 0) as [->|Hg].
  - rewrite groups_enc_app, <- app_assoc. destruct (IH (groups_enc [0] ++ r) Hgs1) as (hs & z & Hh & -> & Hl).
    exists hs, (S z). split_and!; [|done|done]. rewrite Hh at 1. rewrite <- app_assoc. f_equal.
    by rewrite <- replicate_cons_app.
  - exists (gs ++ [g]), O. split_and!; [by rewrite app_nil_r|done|]. intros l h Heq. apply app_inj_tail in Heq as [_ <-]. done.
Qed.

Lemma strip_zeros_spec fuel : forall g trailing, 0 < g < 10 ^ Z.of_nat fuel ->
  exists t m, strip_zeros fuel g trailing = Some (trailing + t) /\ g = m * 10 ^ t /\ m mod 10 <> 0 /\ 0 <= t < Z.of_nat fuel.
Proof.
  induction fuel as [|fuel IH]; intros g trailing Hg; [cbn in Hg; lia|]. cbn [strip_zeros].
  destruct (Z.eqb_spec (g mod 10) 0) as [H0|Hn].
  - rewrite Nat2Z.inj_succ, Z.pow_succ_r in Hg by lia. pose proof (Z.div_mod g 10 ltac:(lia)) as Hd.
    destruct (IH (g / 10) (trailing + 1)) as (t & m & -> & Hm & Hmod & Ht); [lia|].
    exists (t + 1), m. split_and!; [f_equal; lia|rewrite pow10_split by lia; lia|done|lia|lia].
  - exists 0, g. split_and!; [f_equal; lia|lia|done|lia|lia].
Qed.

Lemma strip_zeros_mono fuel : forall fuel' g trailing r, strip_zeros fuel g trailing = Some r -> (fuel <= fuel')%nat ->
  strip_zeros fuel' g trailing = Some r.
Proof.
  induction fuel as [|fuel IH]; intros [|fuel'] g trailing r H Hle; [done..|lia|]. cbn [strip_zeros] in *.
  destruct (g mod 10 =? 0); [apply IH; [done|lia]|done].
Qed.

Lemma lead_width_spec g : 0 < g < 10000 -> 1 <= lead_width g <= 4 /\ 10 ^ (lead_width g - 1) <= g < 10 ^ lead_width g.
Proof.
  intros Hg. unfold lead_width. destruct (Z.leb_spec 1000 g); [cbn; lia|]. destruct (Z.leb_spec 100 g); [cbn; lia|].
  destruct (Z.leb_spec 10 g); cbn; lia.
Qed.

(** The number of digits of the groups, without the zeros the first one is padded with. *)
Lemma base_10000_width g gs : is_group g -> g <> 0 -> Forall is_group gs ->
  let w := lead_width g + Z.of_nat (length gs) * 4 in 10 ^ (w - 1) <= base_10000 (g :: gs) < 10 ^ w.
Proof.
  intros Hg Hz Hgs w. unfold is_group in Hg. destruct (lead_width_spec g ltac:(lia)) as [Hl Hb]. unfold w.
  rewrite base_10000_cons. pose proof (base_10000_bound gs Hgs) as Hr.
  replace (lead_width g + Z.of_nat (length gs) * 4 - 1) with ((lead_width g - 1) + 4 * Z.of_nat (length gs)) by lia.
  replace (lead_width g + Z.of_nat (length gs) * 4) with (lead_width g + 4 * Z.of_nat (length gs)) by lia.
  rewrite !pow10_split by lia. nia.
Qed.

(** The zeros at the end of a number are those of its last group that is not zero,
    and the groups of zeros behind it. *)
Lemma base_10000_trailing hs g m t z : g = m * 10 ^ t -> 0 <= t <= 3 -> m mod 10 <> 0 ->
  exists m', base_10000 ((hs ++ [g]) ++ replicate z 0) = m' * 10 ^ (Z.of_nat z * 4 + t) /\ m' mod 10 <> 0.
Proof.
  intros -> Ht Hm. exists (base_10000 hs * 10 ^ (4 - t) + m). split.
  - rewrite base_10000_app, base_10000_zeros, length_replicate, base_10000_app. change (base_10000 [m * 10 ^ t]) with (0 * 10000 + m * 10 ^ t).
    replace (Z.of_nat z * 4 + t) with (t + 4 * Z.of_nat z) by lia. rewrite pow10_split by lia. cbn [length].
    change (4 * Z.of_nat 1) with 4. replace (10 ^ 4) with (10 ^ ((4 - t) + t)) by (f_equal; lia). rewrite pow10_split by lia. ring.
  - rewrite <- Z.add_mod_idemp_l, mod10_shift by lia. by rewrite Z.add_0_l.
Qed.

(** The counter of groups counts the significant digits of what the groups write. *)
Lemma count_binary_sig gs r : Forall is_group gs -> (forall g l, gs = g :: l -> g <> 0) -> Z.of_nat (length gs) < 65536 ->
  exists k, count_significant_digits_binary (length gs) (groups_enc gs ++ r) = Some k /\ sig_digits (base_10000 gs) k.
Proof.
  intros Hgs Hf Hlen. assert (Forall is_uint16 gs) as Hu by (by apply groups_uint16).
  destruct gs as [|f fs]; [by exists 0; split; [|left]|]. specialize (Hf f fs eq_refl).
  pose proof (base_10000_width f fs ltac:(by inversion Hgs) Hf ltac:(by inversion Hgs)) as Hw.
  destruct (zero_groups_spec (f :: fs) r Hu) as (hs & z & Hh & Hz & Hl).
  unfold count_significant_digits_binary. destruct (Nat.eqb_spec (length (f :: fs)) 0) as [|_]; [done|].
  rewrite (load16_first (f :: fs) 0 f), Hz by done. cbn [mbind option_bind].
  destruct (lead_width_spec f) as [Hlw _]; [inversion Hgs as [|? ? Hg]; unfold is_group in Hg; lia|].
  destruct hs as [|g hs _] using rev_ind.
  { exfalso. destruct z; [done|]. injection Hh as -> _. done. }
  pose proof (f_equal (@length Z) Hh) as Hlen'. rewrite !length_app, length_replicate in Hlen'. cbn [length] in *.
  destruct (Nat.eqb_spec z (S (length fs))) as [|_]; [lia|].
  assert ((f :: fs) !! length hs = Some g) as Hg by (rewrite Hh, <- app_assoc; by apply list_lookup_middle).
  rewrite (load16_first (f :: fs) (length hs) g) by (done || (cbn; lia)). cbn [mbind option_bind].
  pose proof (Hl hs g eq_refl) as Hg0. pose proof (proj1 (Forall_lookup _ _) Hgs _ _ Hg) as Hgg. unfold is_group in Hgg.
  destruct (strip_zeros_spec 4 g (Z.of_nat z * 4)) as (t & m & Hs & Hm & Hmod & Ht); [cbn; lia|].
  destruct (base_10000_trailing hs g m t z Hm ltac:(lia) Hmod) as (m' & Hb & Hmod'). rewrite <- Hh in Hb.
  destruct (sig_digits_width _ m' (Z.of_nat z * 4 + t) (lead_width f + Z.of_nat (length fs) * 4) ltac:(lia) Hb Hmod' ltac:(lia) Hw) as [Hsig Hlt].
  rewrite (strip_zeros_mono 4 strip_fuel _ _ _ Hs) by (unfold strip_fuel; lia). cbn [mbind option_bind].
  eexists; split; [reflexivity|]. unfold wrap64. rewrite Z.mod_small by lia.
  replace (Z.of_nat (S (length fs)) - 1) with (Z.of_nat (length fs)) by lia. done.
Qed.

Lemma zero_groups_total groups n : (n * 2 <= length groups)%nat ->
  exists z, zero_groups groups n = Some z /\ (z <= n)%nat /\
    ((z < n)%nat -> exists g, load16 groups ((n - 1 - z) * 2) = Some g /\ g <> 0).
Proof.
  induction n as [|n IH]; intros Hl; cbn [zero_groups]; [exists O; split_and!; [done|lia|lia]|].
  destruct (proj2 (load16_is_Some groups (n * 2)) ltac:(lia)) as [g Hg]. rewrite Hg. cbn [mbind option_bind].
  destruct (Z.eqb_spec g 0) as [->|Hn].
  - destruct (IH ltac:(lia)) as (z & -> & Hz & H). exists (S z). split_and!; [done|lia|]. intros Hlt.
    destruct H as (g & Hg' & Hn); [lia|]. exists g. split; [|done]. by replace (S n - 1 - S z)%nat with (n - 1 - z)%nat by lia.
  - exists O. split_and!; [done|lia|]. intros _. exists g. split; [|done]. by replace (S n - 1 - 0)%nat with n by lia.
Qed.

(** The counter reads only the groups there are, and its loops end, whatever the groups. *)
Lemma count_binary_total groups n : Forall is_byte groups -> (n * 2 <= length groups)%nat ->
  is_Some (count_significant_digits_binary n groups).
Proof.
  intros Hb Hl. unfold count_significant_digits_binary. destruct (Nat.eqb_spec n 0) as [|Hn]; [done|].
  destruct (proj2 (load16_is_Some groups 0) ltac:(lia)) as [f ->]. cbn [mbind option_bind].
  destruct (zero_groups_total groups n Hl) as (z & -> & Hz & H). cbn [mbind option_bind].
  destruct (Nat.eqb_spec z n) as [|Hzn]; [done|]. destruct (H ltac:(lia)) as (g & Hg & Hg0). rewrite Hg. cbn [mbind option_bind].
  pose proof (load16_ok _ _ _ Hb Hg) as Hr. unfold is_uint16 in Hr.
  destruct (strip_zeros_spec strip_fuel g (Z.of_nat z * 4)) as (t & m & -> & _); [change (10 ^ Z.of_nat strip_fuel) with 100000; lia|]. by eexists.
Qed.
