(* ===== verification/NumericSpec.v ===== *)
(** * What the numeric parsers compute

    The number type is any type whose arithmetic is exact on the values at hand
    ([ExactNumber]: every operation denotes the rational it should, as far as the
    precision of the type goes), and [exact] is one.  A numeric of PostgreSQL is
    read alike from the text and from the binary format. *)

From stdpp Require Import base list option.
From Stdlib Require Import ZArith Lia QArith Qround Qpower Qabs Qfield.
From S2P Require Import Prelude Errors BackendMessages CommandTag FieldTypes Numeric Digits.

#[local] Open Scope Z_scope.

(** ** Exact arithmetic *)

(** To the nearest integer, halves away from zero. *)
Definition round_half_away (q : Q) : Z :=
  if Qle_bool 0 q then Qfloor (q + (1 # 2)) else - Qfloor (- q + (1 # 2)).

#[global] Instance round_half_away_proper : Proper (Qeq ==> eq) round_half_away.
Proof.
  intros p q H. unfold round_half_away. rewrite H. destruct (Qle_bool 0 q); [|f_equal]; apply Qfloor_comp; by rewrite H.
Qed.

Lemma round_integer m : round_half_away (inject_Z m) = m.
Proof.
  unfold round_half_away. assert (forall k, Qfloor (inject_Z k + (1 # 2)) = k) as Hk.
  { intros k. unfold Qfloor, Qplus, inject_Z. cbn [Qnum Qden]. change (Z.pos (1 * 2)) with 2. change (Z.pos 2) with 2.
    rewrite Z.div_add_l by lia. change (1 * 1 / 2) with 0. lia. }
  destruct (Qle_bool 0 (inject_Z m)); [apply Hk|]. rewrite <- inject_Z_opp, Hk. lia.
Qed.

(** What the theorems ask of a number type: what its values denote, if anything,
    and that the operations on them are those of the rationals. *)
Class ExactNumber (T : Type) `{Number T} := {
  denotes : T -> Q -> Prop;
  denotes_proper v p q : (p == q)%Q -> denotes v p -> denotes v q;
  denotes_int z : denotes (num_of_int z) (inject_Z z);
  denotes_add x y p q : denotes x p -> denotes y q -> denotes (num_add x y) (p + q);
  denotes_mul x y p q : denotes x p -> denotes y q -> denotes (num_mul x y) (p * q);
  denotes_div x y p q : ~ (q == 0)%Q -> denotes x p -> denotes y q -> denotes (num_div x y) (p / q);
  denotes_pow x p z : ~ (p == 0)%Q -> denotes x p -> denotes (num_pow x z) (p ^ z);
  denotes_round x p : denotes x p -> denotes (num_round x) (inject_Z (round_half_away p));
  denotes_neg x p : denotes x p -> denotes (num_neg x) (- p)
}.

#[global] Instance denotes_Proper `{ExactNumber T} : Proper (eq ==> Qeq ==> iff) denotes.
Proof. intros v ? <- p q Hpq. split; apply denotes_proper; [done|by symmetry]. Qed.

Create HintDb numeric.
#[export] Hint Resolve denotes_int denotes_add denotes_mul denotes_round denotes_neg : numeric.

Lemma ten_not_zero : ~ (inject_Z 10 == 0)%Q.
Proof. discriminate. Qed.

Lemma pow_not_zero b z : b <> 0 -> ~ (inject_Z b ^ z == 0)%Q.
Proof. intros Hb. apply Qpower_not_0. intros H. apply Hb. apply (inject_Z_injective b 0). exact H. Qed.

(** ** Numerics *)

(** The value written by groups, the first one of weight [w]. *)
Fixpoint groups_value (w : Z) (gs : list Z) : Q :=
  match gs with
  | [] => 0
  | g :: gs' => inject_Z g * inject_Z 10000 ^ w + groups_value (w - 1) gs'
  end.

Definition signed (negative : bool) (q : Q) : Q := if negative then - q else q.

Record numeric := Num { n_groups : list Z; n_weight : Z; n_negative : bool; n_dscale : Z }.

Definition numeric_value (n : numeric) : Q := signed (n_negative n) (groups_value (n_weight n) (n_groups n)).

Definition sign_word (n : numeric) : Z := if n_negative n then NUMERIC_NEG else 0.

(** [numeric_send]: what the server writes. *)
Definition numeric_header (n : numeric) : bytes :=
  be_encode 2 (Z.of_nat (length (n_groups n))) ++ be_encode 2 (n_weight n) ++ be_encode 2 (sign_word n) ++
  be_encode 2 (n_dscale n).

Definition numeric_send (n : numeric) : bytes := numeric_header n ++ groups_enc (n_groups n).

(** A numeric as the server stores it: groups below 10000, none of them zero in
    front, and a display scale that shows all the digits. *)
Record numeric_ok (n : numeric) : Prop := {
  ok_groups : Forall is_group (n_groups n);
  ok_first g l : n_groups n = g :: l -> g <> 0;
  ok_length : Z.of_nat (length (n_groups n)) < 65536;
  ok_weight : int_ok 2 (n_weight n);
  ok_dscale : is_uint16 (n_dscale n);
  ok_scale : exists m, (groups_value (n_weight n) (n_groups n) * inject_Z 10 ^ n_dscale n == inject_Z m)%Q
}.

Definition chars_value (negative : bool) (ip fp : bytes) : Q :=
  signed negative (inject_Z (digits_value (ip ++ fp)) / inject_Z 10 ^ Z.of_nat (length fp)).

(** [numeric_out]: a text with the value of the numeric. *)
Definition numeric_text (n : numeric) (s : bytes) : Prop :=
  exists ip fp, s = decimal_chars (n_negative n) ip fp /\ ip <> [] /\ all_digits ip /\ all_digits fp /\
    (chars_value (n_negative n) ip fp == numeric_value n)%Q.

Lemma signed_inj b p q : (signed b p == signed b q)%Q -> (p == q)%Q.
Proof. destruct b; [|done]. cbn. intros H. by rewrite <- (Qopp_opp p), H, Qopp_opp. Qed.

Lemma groups_value_base gs : forall w,
  (groups_value w gs == inject_Z (base_10000 gs) * inject_Z 10 ^ (4 * (w + 1 - Z.of_nat (length gs))))%Q.
Proof.
  induction gs as [|g gs IH]; intros w; cbn [groups_value]; [by rewrite Qmult_0_l|].
  rewrite IH, base_10000_cons, inject_Z_plus, inject_Z_mult, Zpower_Qpower by lia. cbn [length].
  change (inject_Z 10000) with (inject_Z (10 ^ 4)). rewrite Zpower_Qpower, <- Qpower_mult by lia.
  replace (4 * w) with (4 * Z.of_nat (length gs) + 4 * (w - Z.of_nat (length gs))) by lia.
  rewrite Qpower_plus by apply ten_not_zero.
  replace (w + 1 - Z.of_nat (S (length gs))) with (w - Z.of_nat (length gs)) by lia.
  replace (w - 1 + 1 - Z.of_nat (length gs)) with (w - Z.of_nat (length gs)) by lia. ring.
Qed.

(** A text and the groups of the same value have the same significant digits. *)
Lemma same_digits n ip fp k k' : (chars_value (n_negative n) ip fp == numeric_value n)%Q ->
  sig_digits (digits_value (ip ++ fp)) k -> sig_digits (base_10000 (n_groups n)) k' -> k = k'.
Proof.
  intros Hv Hk Hk'. apply signed_inj in Hv. rewrite groups_value_base in Hv.
  set (e := 4 * (n_weight n + 1 - Z.of_nat (length (n_groups n))) + Z.of_nat (length fp)).
  assert (inject_Z (digits_value (ip ++ fp)) == inject_Z (base_10000 (n_groups n)) * inject_Z 10 ^ e)%Q as He.
  { unfold e. rewrite Qpower_plus by apply ten_not_zero. rewrite Qmult_assoc, <- Hv. field. by apply pow_not_zero. }
  destruct (Z.le_ge_cases 0 e) as [Hpos|Hneg].
  - rewrite <- Zpower_Qpower, <- inject_Z_mult in He by done. apply (proj1 (inject_Z_injective _ _)) in He.
    eapply sig_digits_unique; [exact Hk|]. rewrite He. by apply sig_digits_shift.
  - assert (inject_Z (digits_value (ip ++ fp)) * inject_Z 10 ^ (- e) == inject_Z (base_10000 (n_groups n)))%Q as He'.
    { rewrite He, Qpower_opp. field. by apply pow_not_zero. }
    rewrite <- Zpower_Qpower, <- inject_Z_mult in He' by lia. apply (proj1 (inject_Z_injective _ _)) in He'.
    eapply sig_digits_unique; [|exact Hk']. rewrite <- He'. apply sig_digits_shift; [lia|done].
Qed.

(** ** The binary parser on what the server writes *)

Lemma length_numeric_header n : length (numeric_header n) = 8%nat.
Proof. unfold numeric_header. by rewrite !length_app, !length_be_encode. Qed.

Lemma length_numeric_send n : length (numeric_send n) = (8 + length (n_groups n) * 2)%nat.
Proof. unfold numeric_send. by rewrite length_app, length_numeric_header, length_groups_enc. Qed.

Lemma drop_numeric_send n r : drop 8 (numeric_send n ++ r) = groups_enc (n_groups n) ++ r.
Proof. unfold numeric_send. rewrite <- app_assoc. apply drop_app_len. by rewrite length_numeric_header. Qed.

(** A field of the header, behind the bytes [pre]. *)
Lemma load16_field pre z r off : off = length pre -> load16 (pre ++ be_encode 2 z ++ r) off = Some (wrapU 2 z).
Proof.
  intros ->. unfold load16. rewrite !length_app, length_be_encode.
  destruct (Nat.leb_spec (length pre + 2) (length pre + (2 + length r))); [|lia].
  by rewrite drop_app_len, take_app_len, be_decode_encode by (rewrite ?length_be_encode; done).
Qed.

Lemma load_header_send n r : numeric_ok n ->
  load_header (numeric_send n ++ r) = Some (length (n_groups n), n_weight n, sign_word n, n_dscale n).
Proof.
  intros Hn. unfold load_header, numeric_send, numeric_header. rewrite <- !app_assoc.
  set (f1 := be_encode 2 (Z.of_nat _)). set (f2 := be_encode 2 (n_weight n)). set (f3 := be_encode 2 (sign_word n)).
  set (f4 := be_encode 2 (n_dscale n)). set (bs := f1 ++ _).
  assert (load16 bs 0 = Some (wrapU 2 (Z.of_nat (length (n_groups n))))) as -> by exact (load16_field [] _ _ 0 eq_refl).
  assert (load16 bs 2 = Some (wrapU 2 (n_weight n))) as ->.
  { apply (load16_field f1). unfold f1. by rewrite length_be_encode. }
  assert (load16 bs 4 = Some (wrapU 2 (sign_word n))) as ->.
  { unfold bs. rewrite (app_assoc f1). apply (load16_field (f1 ++ f2)). unfold f1, f2. by rewrite length_app, !length_be_encode. }
  assert (load16 bs 6 = Some (wrapU 2 (n_dscale n))) as ->.
  { unfold bs. rewrite (app_assoc f1), (app_assoc (f1 ++ f2)). apply (load16_field ((f1 ++ f2) ++ f3)).
    unfold f1, f2, f3. by rewrite !length_app, !length_be_encode. }
  cbn [mbind option_bind].
  rewrite wrapS_wrapU, wrapS_id by (lia || apply Hn). unfold wrapU. pose proof (ok_dscale n Hn) as Hd. pose proof (ok_length n Hn) as Hl.
  unfold is_uint16 in Hd. change (2 ^ (8 * Z.of_nat 2)) with 65536.
  rewrite (Z.mod_small (n_dscale n)), (Z.mod_small (Z.of_nat _)), Nat2Z.id by lia.
  repeat f_equal. unfold sign_word. by destruct (n_negative n).
Qed.

Section exact.
Context `{ExactNumber T}.

Lemma sum_groups_exact bs w gs : forall i x q, denotes x q ->
(forall j g, gs !! j = Some g -> load16 bs (8 + (i + j) * 2) = Some g) ->
exists y, sum_groups bs w i (length gs) x = Some y /\ denotes y (q + groups_value (w - Z.of_nat i) gs).
Proof.
induction gs as [|g gs IH]; intros i x q Hx Hl; cbn [length sum_groups groups_value].
- exists x. split; [done|]. by rewrite Qplus_0_r.
- pose proof (Hl 0%nat g eq_refl) as Hg. rewrite Nat.add_0_r in Hg. rewrite Hg. cbn [mbind option_bind].
destruct (IH (S i) (num_add x (num_mul (num_of_int g) (num_pow (num_of_int 10000) (w - Z.of_nat i))))
(q + inject_Z g * inject_Z 10000 ^ (w - Z.of_nat i))%Q) as (y & -> & Hy).
+ apply denotes_add; [done|]. apply denotes_mul; [apply denotes_int|]. apply denotes_pow; [discriminate|apply denotes_int].
+ intros j h Hj. replace (S i + j)%nat with (i + S j)%nat by lia. by apply Hl.
+ exists y. split; [done|]. revert Hy. replace (w - Z.of_nat (S i)) with (w - Z.of_nat i - 1) by lia.
by rewrite Qplus_assoc.
Qed.

Lemma apply_scale_exact x q dscale m : denotes x q -> 0 <= dscale -> (q * inject_Z 10 ^ dscale == inject_Z m)%Q ->
denotes (apply_scale dscale x) q.
Proof.
intros Hx Hd Hm. unfold apply_scale. destruct (Z.ltb_spec 0 dscale) as [Hlt|Hle].
- assert (denotes (num_pow (num_of_int 10) dscale) (inject_Z 10 ^ dscale)) as Hp.
{ apply denotes_pow; [apply ten_not_zero|apply denotes_int]. }
eapply denotes_proper, denotes_div; [|apply (pow_not_zero 10 dscale)|apply denotes_round, denotes_mul; [exact Hx|exact Hp]|exact Hp]; [|done].
rewrite Hm, round_integer, <- Hm. field. by apply pow_not_zero.
- assert (dscale = 0) as -> by lia. rewrite Qpower_0_r, Qmult_1_r in Hm.
eapply denotes_proper, denotes_round; [|exact Hx].
rewrite (round_half_away_proper _ _ Hm), round_integer. by symmetry.
Qed.

Lemma apply_sign_exact n x q : denotes x q -> denotes (apply_sign (sign_word n) x) (signed (n_negative n) q).
Proof. intros Hx. unfold sign_word. destruct (n_negative n); [by apply denotes_neg|done]. Qed.

Lemma binary_value_exact n r : numeric_ok n ->
exists v, binary_value (numeric_send n ++ r) (length (n_groups n)) (n_weight n) (sign_word n) (n_dscale n) = Some v /\
denotes v (numeric_value n).
Proof.
intros Hn. destruct (sum_groups_exact (numeric_send n ++ r) (n_weight n) (n_groups n) 0 (num_of_int 0) 0) as (y & Hs & Hy).
{ apply denotes_int. }
{ intros j g Hj. unfold numeric_send. rewrite <- app_assoc.
by apply (load16_groups _ _ j); [|apply groups_uint16, (ok_groups n Hn)|]. }
unfold binary_value. rewrite Hs. cbn [mbind option_bind]. eexists; split; [reflexivity|].
rewrite Qplus_0_l, Z.sub_0_r in Hy. destruct (ok_scale n Hn) as [m Hm]. pose proof (ok_dscale n Hn) as Hd.
apply apply_sign_exact. unfold is_uint16 in Hd. by apply (apply_scale_exact _ _ _ m); [|lia|].
Qed.

Lemma special_sign n : special_value (T := T) (sign_word n) = None.
Proof. unfold sign_word. by destruct (n_negative n). Qed.
End exact.

(** The conversions from text are exact on decimal texts. *)
Class ExactText (T : Type) `{ExactNumber T} :=
  denotes_text negative ip fp : ip <> [] -> all_digits ip -> all_digits fp ->
    exists v, num_of_text (decimal_chars negative ip fp) = Some v /\ denotes v (chars_value negative ip fp).

Class ExactChars (T : Type) `{ExactNumber T} `{!DecimalChars T} :=
  denotes_chars negative ip fp to : ip <> [] -> all_digits ip -> all_digits fp ->
    exists v, dec_from_chars (decimal_chars negative ip fp) to = (true, v, length (decimal_chars negative ip fp)) /\
      denotes v (chars_value negative ip fp).

(** ** Any bytes at all *)

Section total.
Context `{Number T}.

Lemma load_header_total bs : (8 <= length bs)%nat -> is_Some (load_header bs).
Proof.
intros Hl. unfold load_header.
destruct (proj2 (load16_is_Some bs 0)) as [? ->]; [lia|]. destruct (proj2 (load16_is_Some bs 2)) as [? ->]; [lia|].
destruct (proj2 (load16_is_Some bs 4)) as [? ->]; [lia|]. destruct (proj2 (load16_is_Some bs 6)) as [? ->]; [lia|]. by eexists.
Qed.

Lemma sum_groups_total bs w n : forall i x, (8 + (i + n) * 2 <= length bs)%nat -> is_Some (sum_groups bs w i n x).
Proof.
induction n as [|n IH]; intros i x Hl; cbn [sum_groups]; [done|].
destruct (proj2 (load16_is_Some bs (8 + i * 2))) as [g ->]; [lia|]. apply IH. lia.
Qed.

Lemma binary_value_total bs n w sign dscale : (8 + n * 2 <= length bs)%nat -> is_Some (binary_value bs n w sign dscale).
Proof.
intros Hl. unfold binary_value. destruct (sum_groups_total bs w n 0 (num_of_int 0)) as [v ->]; [lia|]. by eexists.
Qed.
End total.

(** ** A number type *)

(** Rationals, with the special values. *)
Inductive exact := Finite (q : Q) | Not_a_number | Infinite (negative : bool).

Definition lift1 (f : Q -> Q) (x : exact) : exact := match x with Finite q => Finite (f q) | _ => Not_a_number end.
Definition lift2 (f : Q -> Q -> Q) (x y : exact) : exact :=
  match x, y with Finite p, Finite q => Finite (f p q) | _, _ => Not_a_number end.

Definition exact_neg (x : exact) : exact :=
  match x with Finite q => Finite (- q) | Not_a_number => Not_a_number | Infinite b => Infinite (negb b) end.

(** The text of a decimal and nothing else. *)
Definition exact_of_text (s : bytes) : option exact :=
  let '(negative, ws) := match s with c :: r => if c =? ch "-" then (true, r) else (false, s) | [] => (false, s) end in
  let '(ip, r) := digits_prefix ws in
  match ip, r with
  | [], _ => None
  | _, [] => Some (Finite (chars_value negative ip []))
  | _, c :: fp => if is_point c && forallb is_digit fp then Some (Finite (chars_value negative ip fp)) else None
  end.

#[global] Instance exact_Number : Number exact := {|
  num_digits10 := 5;
  num_of_text := exact_of_text;
  num_of_int z := Finite (inject_Z z);
  num_pow x z := lift1 (fun q => (q ^ z)%Q) x;
  num_add := lift2 Qplus;
  num_mul := lift2 Qmult;
  num_div := lift2 Qdiv;
  num_round := lift1 (fun q => inject_Z (round_half_away q));
  num_neg := exact_neg;
  num_nan := Not_a_number;
  num_infinity := Infinite false
|}.

#[global] Instance exact_DecimalChars : DecimalChars exact := {|
  dec_from_chars s to := match exact_of_text s with Some v => (true, v, length s) | None => (false, to, O) end
|}.

Definition is_finite (x : exact) (q : Q) : Prop := match x with Finite p => (p == q)%Q | _ => False end.

#[global] Instance exact_ExactNumber : ExactNumber exact.
Proof.
  refine {| denotes := is_finite |}.
  - intros [p| |b] q q' Hq; cbn; [|done..]. by rewrite Hq.
  - done.
  - intros [x| |?] [y| |?] p q; cbn; try done. by intros -> ->.
  - intros [x| |?] [y| |?] p q; cbn; try done. by intros -> ->.
  - intros [x| |?] [y| |?] p q _; cbn; try done. by intros -> ->.
  - intros [x| |?] p z _; cbn; try done. by intros ->.
  - intros [x| |?] p; cbn; try done. intros Hp. by rewrite (round_half_away_proper _ _ Hp).
  - intros [x| |?] p; cbn; try done. by intros ->.
Defined.

Lemma exact_of_decimal_chars negative ip fp : ip <> [] -> all_digits ip -> all_digits fp ->
  exact_of_text (decimal_chars negative ip fp) = Some (Finite (chars_value negative ip fp)).
Proof.
  intros Hne Hip Hfp. unfold exact_of_text.
  set (r := match fp with [] => [] | _ => ch "." :: fp end).
  assert ((match decimal_chars negative ip fp with c :: r' => if c =? ch "-" then (true, r') else (false, decimal_chars negative ip fp)
    | [] => (false, decimal_chars negative ip fp) end) = (negative, ip ++ r)) as ->.
  { destruct negative; [done|]. destruct Hip as [|c ip Hc _]; [done|]. change (decimal_chars false (c :: ip) fp) with (c :: ip ++ r).
    apply digit_numeric in Hc as (_ & _ & Hc). unfold is_sign in Hc. apply orb_false_iff in Hc as [_ ->]. done. }
  rewrite digits_prefix_app; [|done|destruct fp; [by intros ? ?|by intros ? ? [= <- <-]]].
  destruct ip as [|c ip]; [done|]. unfold r. destruct fp as [|d fp]; [done|]. change (is_point (ch ".")) with true. cbn [andb].
  replace (forallb is_digit (d :: fp)) with true; [done|]. symmetry. by apply forallb_forall, List.Forall_forall.
Qed.

#[global] Instance exact_ExactText : ExactText exact.
Proof. intros negative ip fp Hne Hip Hfp. eexists; split; [by apply exact_of_decimal_chars|]. apply Qeq_refl. Qed.

#[global] Instance exact_ExactChars : ExactChars exact.
Proof.
  intros negative ip fp to Hne Hip Hfp. cbn. rewrite exact_of_decimal_chars by done. eexists; split; [done|]. apply Qeq_refl.
Qed.

(** -2345.67, whose last group is padded. *)
Definition sample_numeric : numeric := Num [2345; 6700] 0 true 2.

Lemma sample_numeric_ok : numeric_ok sample_numeric.
Proof.
  split; cbn [n_groups n_weight n_dscale sample_numeric].
  - repeat constructor; lia.
  - by intros g l [= <- <-].
  - done.
  - apply int_ok_2. lia.
  - done.
  - by exists 234567.
Qed.

Lemma sample_numeric_text : numeric_text sample_numeric (str "-2345.67").
Proof. exists (str "2345"), (str "67"). split_and!; [done|done|repeat constructor..|done]. Qed.

(** ** Properties *)

(** What a parser may do with any field: a value, or an error that leaves the
    output as it was. *)
Definition defined_outcome {T} (to : T) (r : option (error_code * T)) : Prop :=
  exists ec v, r = Some (ec, v) /\
    (ec = None \/ (v = to /\ (ec = Some (client protocol_value_error) \/ ec = Some (client incompatible_response_length)))).

Lemma defined_error {T} (to : T) e : e = protocol_value_error \/ e = incompatible_response_length ->
  defined_outcome to (Some (Some (client e), to)).
Proof. intros [-> | ->]; eexists _, _; (split; [done|]); auto. Qed.

Lemma defined_value {T} (to v : T) : defined_outcome to (Some (None, v)).
Proof. eexists _, _. split; [done|]. by left. Qed.

(** C35: The binary parsers of numerics and decimals are safe on every field, whatever
    its bytes and whatever the arithmetic of the number type: they never read
    outside of the field, the loop that strips zeros ends, and an error leaves the
    output parameter as it was. *)
Theorem numeric_binary_safe {T} `{Number T} bs (to : T) : Forall is_byte bs ->
  defined_outcome to (parse_binary_numeric (Some bs) to) /\ defined_outcome to (parse_binary_decimal (Some bs) to).
Proof.
  intros Hb. unfold parse_binary_numeric, parse_binary_decimal. cbn [data from_option id].
  destruct (Nat.ltb_spec (length bs) 8) as [|Hl]; [split; apply defined_error; auto|].
  destruct (load_header_total bs Hl) as [[[[n w] sign] dscale] ->]. cbn [mbind option_bind].
  destruct (special_value sign); [split; apply defined_value|].
  destruct (Nat.ltb_spec (length bs) (8 + n * 2)) as [|Hl2]; [split; apply defined_error; auto|].
  destruct (binary_value_total bs n w sign dscale Hl2) as [v ->].
  destruct (count_binary_total (drop 8 bs) n) as [k ->]; [by apply Forall_drop|rewrite length_drop; lia|]. cbn [mbind option_bind].
  split; [|apply defined_value]. destruct (num_digits10 <? k); [apply defined_error; auto|apply defined_value].
Qed.

Lemma numeric_binary_safe_witness :
  defined_outcome (Finite 7) (parse_binary_numeric (Some (be_encode 2 1 ++ be_encode 2 0 ++ be_encode 2 0 ++ be_encode 2 0 ++ be_encode 2 60000)) (Finite 7)) /\
  defined_outcome (Finite 7) (parse_binary_decimal (Some (be_encode 2 1 ++ be_encode 2 0 ++ be_encode 2 0 ++ be_encode 2 0 ++ be_encode 2 60000)) (Finite 7)).
Proof. apply (numeric_binary_safe _ (Finite 7)). repeat (apply Forall_app; split); apply is_byte_be_encode. Defined.

(** What both formats of a numeric with [k] significant digits give. *)
Definition reads_as `{ExactNumber T} (limited : bool) (n : numeric) (k : Z) (to : T) (r : option (error_code * T)) : Prop :=
  if limited && (num_digits10 <? k) then r = Some (Some (client incompatible_response_length), to)
  else exists v, r = Some (None, v) /\ denotes v (numeric_value n).



(** The two formats of a numeric are read into a decimal alike: both parsers give
    its value, without a limit on its digits. *)
Theorem decimal_formats_agree {T} `{ExactChars T} n s r (to : T) : numeric_ok n -> numeric_text n s ->
  reads_as false n 0 to (Some (parse_text_decimal (Some s) to)) /\
  reads_as false n 0 to (parse_binary_decimal (Some (numeric_send n ++ r)) to).
Proof.
  intros Hn (ip & fp & -> & Hne & Hip & Hfp & Hv). unfold reads_as. cbn [andb]. split.
  - unfold parse_text_decimal. cbn [data from_option id].
    destruct (denotes_chars (n_negative n) ip fp to) as (v & -> & Hd); [done..|]. rewrite Nat.eqb_refl. exists v. by rewrite Hv in Hd.
  - unfold parse_binary_decimal. cbn [data from_option id]. rewrite length_app, length_numeric_send.
    destruct (Nat.ltb_spec (8 + length (n_groups n) * 2 + length r) 8); [lia|]. rewrite load_header_send by done. cbn [mbind option_bind].
    rewrite special_sign. destruct (Nat.ltb_spec (8 + length (n_groups n) * 2 + length r) (8 + length (n_groups n) * 2)); [lia|].
    destruct (binary_value_exact n r Hn) as (v & -> & Hd). by exists v.
Qed.

Lemma decimal_formats_agree_witness :
  reads_as false sample_numeric 0 (Finite 0) (Some (parse_text_decimal (Some (str "-2345.67")) (Finite 0))) /\
  reads_as false sample_numeric 0 (Finite 0) (parse_binary_decimal (Some (numeric_send sample_numeric ++ str "rest")) (Finite 0)).
Proof. exact (decimal_formats_agree _ _ _ _ sample_numeric_ok sample_numeric_text). Defined.

(** The six digits of the sample are too many for the five of [exact]. *)
Example sample_refused : parse_text_numeric (Some (str "-2345.67")) (Finite 0) = (Some (client incompatible_response_length), Finite 0).
Proof. reflexivity. Qed.

Example padded_accepted : parse_text_numeric (Some (str "0012345.000")) (Finite 0) = (None, Finite (12345000 # 1000)).
Proof. reflexivity. Qed.
