(* ===== verification/Datetime.v ===== *)
(** * Dates and times ([include/nativepg/types/datetime.hpp],
    [include/nativepg/detail/field_traits_datetime.hpp])

    The parsers of the date and time types, in the text format and in the binary
    format.  Durations and time points are their counts: days, seconds or
    microseconds.  [None] is an overflow of signed arithmetic.  Of [std::chrono],
    [year] holds 16 bits with sign, [month] and [day] 8 bits without: what they
    are made from is truncated to that, as the implementations do; and
    [sys_days] counts the days of the proleptic Gregorian calendar. *)

From stdpp Require Import base list option.
From Stdlib Require Import ZArith Lia.
From S2P Require Import Prelude Errors BackendMessages CommandTag Charconv FieldTypes.

#[local] Open Scope Z_scope.

(** ** The calendar *)

Definition is_leap (y : Z) : bool := (y mod 4 =? 0) && (negb (y mod 100 =? 0) || (y mod 400 =? 0)).

Definition last_day (y m : Z) : Z :=
  if m =? 2 then (if is_leap y then 29 else 28)
  else if (m =? 4) || (m =? 6) || (m =? 9) || (m =? 11) then 30 else 31.

(** [year_month_day]: the three fields as they are held. *)
Record ymd := Ymd { ymd_year : Z; ymd_month : Z; ymd_day : Z }.

Definition make_ymd (year month day : Z) : ymd := Ymd (wrapS 2 year) (month mod 256) (day mod 256).

Definition ymd_ok (x : ymd) : bool :=
  (-32767 <=? ymd_year x) && (ymd_year x <=? 32767) && (1 <=? ymd_month x) && (ymd_month x <=? 12) &&
  (1 <=? ymd_day x) && (ymd_day x <=? last_day (ymd_year x) (ymd_month x)).

(** The days of a year before a month. *)
Definition days_before_month (y m : Z) : Z :=
  let leap := if is_leap y then 1 else 0 in
  match m with
  | 1 => 0 | 2 => 31 | 3 => 59 + leap | 4 => 90 + leap | 5 => 120 + leap | 6 => 151 + leap | 7 => 181 + leap
  | 8 => 212 + leap | 9 => 243 + leap | 10 => 273 + leap | 11 => 304 + leap | _ => 334 + leap
  end.

(** The days before a year, from the first day of year 1. *)
Definition days_before_year (y : Z) : Z := 365 * (y - 1) + (y - 1) / 4 - (y - 1) / 100 + (y - 1) / 400.

Definition sys_days (x : ymd) : Z :=
  days_before_year (ymd_year x) + days_before_month (ymd_year x) (ymd_month x) + ymd_day x - 1 - 719162.

(** 2000-01-01. *)
Definition pg_epoch : Z := sys_days (Ymd 2000 1 1).

Definition us_per_second : Z := 1000000.
Definition us_per_day : Z := 86400 * us_per_second.

(** ** Data *)

Record pg_timetz := Timetz { time_since_midnight : Z; utc_offset : Z }.
Record pg_interval := Interval { months : Z; days : Z; time : Z }.

(** ** Helpers *)

Fixpoint drop_spaces (sv : bytes) : bytes :=
  match sv with
  | c :: sv' => if isspace c then drop_spaces sv' else sv
  | [] => []
  end.

Definition trim (sv : bytes) : bytes := rev (drop_spaces (rev (drop_spaces sv))).

Fixpoint iequals (a b : bytes) : bool :=
  match a, b with
  | [], [] => true
  | x :: a', y :: b' => (tolower x =? tolower y) && iequals a' b'
  | _, _ => false
  end.

(** Whether the text ended in BC, and the text without it. *)
Definition consume_bc (sv : bytes) : bool * bytes :=
  let sv := trim sv in
  let n := (length sv - 2)%nat in
  if (length sv <? 2)%nat then (false, sv)
  else if negb (iequals (drop n sv) (str "BC")) then (false, sv)
  else (true, trim (take n sv)).

(** The largest or the smallest value of a type counted in 64 bits. *)
Definition parse_infinity (sv : bytes) : option Z :=
  let sv := trim sv in
  if iequals sv (str "infinity") then Some (type_max int64)
  else if iequals sv (str "-infinity") then Some (type_min int64)
  else None.

Definition from_chars_e (p : bytes) : E (Z * bytes) :=
  match from_chars_int int32 p with
  | inl e => Some (inl (generic e))
  | inr r => Some (inr r)
  end.

(** [if (p >= last || *p != c) return protocol_value_error; ++p;] *)
Definition expect_char (c : Z) (p : bytes) : E bytes :=
  match p with
  | c' :: p' => if c' =? c then Some (inr p') else fail protocol_value_error
  | [] => fail protocol_value_error
  end.

Definition parse_date_parts (sv : bytes) : E (Z * Z * Z) :=
  let sv := trim sv in
  match sv with
  | [] => fail protocol_value_error
  | _ =>
      let! (year, p) := from_chars_e sv in
      let! p := expect_char (ch "-") p in
      let! (month, p) := from_chars_e p in
      let! p := expect_char (ch "-") p in
      let! (day, p) := from_chars_e p in
      match p with [] => Some (inr (year, month, day)) | _ => fail protocol_value_error end
  end.

(** The fraction as microseconds: the loops that divide or multiply by ten. *)
Definition scale_fraction (fraction : Z) (n : nat) : Z :=
  if (6 <? n)%nat then Nat.iter (n - 6) (fun f => f / 10) fraction
  else Nat.iter (6 - n) (fun f => f * 10) fraction.

Definition parse_fraction (p : bytes) : E (Z * bytes) :=
  match p with
  | c :: p' =>
      if c =? ch "." then
        let '(ds, r) := digits_prefix p' in
        match ds with
        | [] => fail protocol_value_error
        | _ =>
            let! (fraction, _) := from_chars_e ds in
            Some (inr (scale_fraction fraction (length ds), r))
        end
      else Some (inr (0, p))
  | [] => Some (inr (0, p))
  end.

(** The time in microseconds and what follows it. *)
Definition parse_time_prefix (p : bytes) : E (Z * bytes) :=
  let! (hours, p) := from_chars_e p in
  let! p := expect_char (ch ":") p in
  let! (minutes, p) := from_chars_e p in
  let! p := expect_char (ch ":") p in
  let! (seconds, p) := from_chars_e p in
  let! (us, p) := parse_fraction p in
  if (hours <? 0) || (minutes <? 0) || (seconds <? 0) then fail protocol_value_error
  else if (minutes >? 59) || (seconds >? 59) then fail protocol_value_error
  else if hours >? 24 then fail protocol_value_error
  else if (hours =? 24) && (negb (minutes =? 0) || negb (seconds =? 0) || negb (us =? 0)) then fail protocol_value_error
  else Some (inr (((hours * 60 + minutes) * 60 + seconds) * us_per_second + us, p)).

(** At most two digits: their number, and what follows. *)
Definition two_digits (p : bytes) : option (Z * bytes) :=
  match p with
  | a :: b :: p' =>
      if isdigit a then
        if isdigit b then Some ((a - ch "0") * 10 + (b - ch "0"), p') else Some (a - ch "0", b :: p')
      else None
  | [a] => if isdigit a then Some (a - ch "0", []) else None
  | [] => None
  end.

(** Two digits and the end. *)
Definition last_two_digits (p : bytes) : option Z :=
  match p with
  | [a; b] => if isdigit a && isdigit b then Some ((a - ch "0") * 10 + (b - ch "0")) else None
  | _ => None
  end.

(** The offset in seconds. *)
Definition parse_tz_suffix (rest : bytes) : E Z :=
  let sv := trim rest in
  if bool_decide (sv = []) then Some (inr 0)
  else if iequals sv (str "Z") || iequals sv (str "UTC") || iequals sv (str "UT") || iequals sv (str "GMT") then Some (inr 0)
  else
    match sv with
    | [] => Some (inr 0)
    | c :: p =>
        if negb (c =? ch "+") && negb (c =? ch "-") then fail protocol_value_error
        else
          let sign := if c =? ch "+" then 1 else -1 in
          match two_digits p with
          | None => fail protocol_value_error
          | Some (hours, p) =>
              match (match p with
                     | [] => Some 0
                     | d :: p' => if d =? ch ":" then last_two_digits p' else if isdigit d then last_two_digits p else None
                     end) with
              | None => fail protocol_value_error
              | Some minutes =>
                  if (hours >? 15) || (minutes >? 59) then fail protocol_value_error
                  else Some (inr ((hours * 3600 + minutes * 60) * sign))
              end
          end
    end.

(** ** Text *)

(** [year = 1 - year] for the years before Christ. *)
Definition bc_year (bc : bool) (year : Z) : E Z :=
  if bc then (if fits int32 (1 - year) then Some (inr (1 - year)) else None) else Some (inr year).

(** The date that the parts make. *)
Definition checked_date (bc : bool) (parts : Z * Z * Z) : E Z :=
  let '(year, month, day) := parts in
  let! year := bc_year bc year in
  let x := make_ymd year month day in
  if ymd_ok x then Some (inr (sys_days x)) else fail protocol_value_error.

Definition parse_text_date (from : bytes) : E Z :=
  match parse_infinity from with
  | Some v => Some (inr v)
  | None =>
      let '(bc, sv) := consume_bc from in
      let! parts := parse_date_parts sv in
      checked_date bc parts
  end.

Definition parse_text_time (from : bytes) : E Z :=
  match from with
  | [] => fail protocol_value_error
  | _ =>
      let! (out, rest) := parse_time_prefix (trim from) in
      if bool_decide (trim rest = []) then Some (inr out) else fail protocol_value_error
  end.

Definition parse_text_timetz (from : bytes) : E pg_timetz :=
  let! (time_of_day, rest) := parse_time_prefix (trim from) in
  let! offset := parse_tz_suffix rest in
  Some (inr (Timetz time_of_day offset)).

(** [find_first_of(" T")]: what is before the separator and after it. *)
Fixpoint split_sep (sv : bytes) : option (bytes * bytes) :=
  match sv with
  | [] => None
  | c :: sv' =>
      if (c =? ch " ") || (c =? ch "T") then Some ([], sv')
      else '(a, b) ← split_sep sv'; Some (c :: a, b)
  end.

(** The two kinds of timestamp differ in what may follow the time: nothing, or an
    offset, which is subtracted. *)
Definition parse_timestamp (suffix : bytes -> E Z) (from : bytes) : E Z :=
  match parse_infinity from with
  | Some v => Some (inr v)
  | None =>
      let '(bc, sv) := consume_bc from in
      match split_sep (trim sv) with
      | None => fail protocol_value_error
      | Some (date_sv, rest) =>
          let! parts := parse_date_parts date_sv in
          let! date := checked_date bc parts in
          let! (tod, rest) := parse_time_prefix (trim rest) in
          let! offset := suffix rest in
          Some (inr (date * us_per_day + tod - offset * us_per_second))
      end
  end.

Definition no_suffix (rest : bytes) : E Z :=
  if bool_decide (trim rest = []) then Some (inr 0) else fail protocol_value_error.

Definition parse_text_timestamp : bytes -> E Z := parse_timestamp no_suffix.
Definition parse_text_timestamptz : bytes -> E Z := parse_timestamp parse_tz_suffix.

(** ** Binary *)

Definition parse_binary_date (from : bytes) : E Z :=
  if (length from =? 4)%nat then Some (inr (pg_epoch + load_big_s from)) else fail protocol_value_error.

Definition parse_binary_time (from : bytes) : E Z :=
  if (length from =? 8)%nat then Some (inr (load_big_s from)) else fail protocol_value_error.

(** The offset is sent in seconds west of UTC. *)
Definition parse_binary_timetz (from : bytes) : E pg_timetz :=
  if (length from =? 12)%nat then
    let offset_west_s := load_big_s (drop 8 from) in
    if fits int32 (- offset_west_s) then Some (inr (Timetz (load_big_s (take 8 from)) (- offset_west_s))) else None
  else fail protocol_value_error.

Definition parse_binary_timestamp (from : bytes) : E Z :=
  if (length from =? 8)%nat then
    let us_since_epoch := pg_epoch * us_per_day + load_big_s from in
    if fits int64 us_since_epoch then Some (inr us_since_epoch) else None
  else fail protocol_value_error.

Definition parse_binary_timestamptz : bytes -> E Z := parse_binary_timestamp.

(** ** Intervals *)

(** What ends a part of an interval. *)
Definition part_end (c : Z) : bool := (c =? 32) || (c =? 9) || (c =? 10) || (c =? 13).

Fixpoint part_of (p : bytes) : bytes :=
  match p with
  | c :: p' => if part_end c then [] else c :: part_of p'
  | [] => []
  end.

Definition add_months (n : Z) (to : pg_interval) : option pg_interval :=
  if fits int32 n && fits int32 (months to + n) then Some (Interval (months to + n) (days to) (time to)) else None.
Definition add_days (n : Z) (to : pg_interval) : option pg_interval :=
  if fits int32 (days to + n) then Some (Interval (months to) (days to + n) (time to)) else None.
Definition add_time (n : Z) (to : pg_interval) : option pg_interval :=
  if fits int64 n && fits int64 (time to + n) then Some (Interval (months to) (days to) (time to + n)) else None.

(** A sign, if there is one. *)
Definition take_sign (p : bytes) : Z * bytes :=
  match p with
  | c :: p' => if c =? ch "-" then (-1, p') else if c =? ch "+" then (1, p') else (1, p)
  | [] => (1, [])
  end.

(** [parse_int]: the inner [None] is the result false; the outer an overflow. *)
Definition parse_int (p : bytes) : option (option (Z * bytes)) :=
  let p := drop_spaces p in
  match p with
  | [] => Some None
  | _ =>
      let '(sign, p) := take_sign p in
      match from_chars_int int32 p with
      | inl _ => Some None
      | inr (val, p) => if fits int32 (val * sign) then Some (Some (val * sign, p)) else None
      end
  end.

Fixpoint take_alpha (p : bytes) : bytes * bytes :=
  match p with
  | c :: p' => if isalpha c then let '(u, r) := take_alpha p' in (c :: u, r) else ([], p)
  | [] => ([], [])
  end.

(** The chain of comparisons of the unit; the inner [None] is an unknown unit. *)
Definition add_unit (unit : bytes) (val : Z) (to : pg_interval) : option (option pg_interval) :=
  let named (a b : bytes) := bool_decide (unit = a) || bool_decide (unit = b) in
  if named (str "year") (str "years") then to ← add_months (val * 12) to; Some (Some to)
  else if named (str "mon") (str "mons") then to ← add_months val to; Some (Some to)
  else if named (str "day") (str "days") then to ← add_days val to; Some (Some to)
  else if named (str "hour") (str "hours") then to ← add_time (val * 3600 * us_per_second) to; Some (Some to)
  else if named (str "minute") (str "minutes") then to ← add_time (val * 60 * us_per_second) to; Some (Some to)
  else if named (str "second") (str "seconds") then to ← add_time (val * us_per_second) to; Some (Some to)
  else Some None.

(** One part of an interval: the error, what the interval becomes, and what
    follows the part. *)
Definition interval_part (p : bytes) (to : pg_interval) : option (error_code * pg_interval * bytes) :=
  let part := part_of p in
  if existsb (Z.eqb (ch ":")) part then
    let '(sign, p') := take_sign p in
    let n := (length part - (length p - length p'))%nat in
    r ← parse_text_time (take n p');
    match r with
    | inl e => Some (Some e, to, p')
    | inr time_part => to ← add_time (time_part * sign) to; Some (None, to, drop n p')
    end
  else
    r ← parse_int p;
    match r with
    | None => Some (Some (client protocol_value_error), to, p)
    | Some (val, p) =>
        let '(unit, p) := take_alpha (drop_spaces p) in
        to' ← add_unit unit val to;
        match to' with
        | None => Some (Some (client protocol_value_error), to, p)
        | Some to => Some (None, to, p)
        end
    end.

(** The loop.  Every part takes at least one character. *)
Fixpoint interval_loop (fuel : nat) (p : bytes) (to : pg_interval) : option (error_code * pg_interval) :=
  match fuel with
  | O => None
  | S fuel' =>
      match drop_spaces p with
      | [] => Some (None, to)
      | p =>
          '(ec, to, p) ← interval_part p to;
          match ec with
          | Some e => Some (Some e, to)
          | None => interval_loop fuel' p to
          end
      end
  end.

(** The error and the output, which is overwritten in any case. *)
Definition parse_text_interval (from : bytes) : option (error_code * pg_interval) :=
  match from with
  | [] => Some (Some (client protocol_value_error), Interval 0 0 0)
  | _ => interval_loop (S (length from)) from (Interval 0 0 0)
  end.

Definition parse_binary_interval (from : bytes) : E pg_interval :=
  if (length from =? 16)%nat then
    Some (inr (Interval (load_big_s (drop 12 from)) (load_big_s (take 4 (drop 8 from))) (load_big_s (take 8 from))))
  else fail protocol_value_error.

(** ** The customisation points *)

Definition date_oid : Z := 1082.
Definition time_oid : Z := 1083.
Definition timetz_oid : Z := 1266.
Definition timestamp_oid : Z := 1114.
Definition timestamptz_oid : Z := 1184.
Definition interval_oid : Z := 1186.

(** The output is assigned on success only. *)
Definition assign {T} (to : T) (r : E T) : option (error_code * T) :=
  r ← r; Some (match r with inl e => (Some e, to) | inr v => (None, v) end).

Definition datetime_traits {T} (oid : Z) (text binary : bytes -> T -> option (error_code * T)) : parse_field_traits T := {|
  is_compatible type_oid := compatible_if (type_oid =? oid);
  parse_text from type_oid to := non_null from to (if type_oid =? oid then text (data from) to else None);
  parse_binary from type_oid to := non_null from to (if type_oid =? oid then binary (data from) to else None)
|}.

Definition assigning {T} (parse : bytes -> E T) (from : bytes) (to : T) : option (error_code * T) := assign to (parse from).

Definition traits_date : parse_field_traits Z :=
  datetime_traits date_oid (assigning parse_text_date) (assigning parse_binary_date).
Definition traits_time : parse_field_traits Z :=
  datetime_traits time_oid (assigning parse_text_time) (assigning parse_binary_time).
Definition traits_timetz : parse_field_traits pg_timetz :=
  datetime_traits timetz_oid (assigning parse_text_timetz) (assigning parse_binary_timetz).
Definition traits_timestamp : parse_field_traits Z :=
  datetime_traits timestamp_oid (assigning parse_text_timestamp) (assigning parse_binary_timestamp).
Definition traits_timestamptz : parse_field_traits Z :=
  datetime_traits timestamptz_oid (assigning parse_text_timestamptz) (assigning parse_binary_timestamptz).
Definition traits_interval : parse_field_traits pg_interval :=
  datetime_traits interval_oid (fun from _ => parse_text_interval from) (assigning parse_binary_interval).
