(* ===== verification/DatetimeSpec.v ===== *)
(** * The text and the binary format of dates and times agree

    [pg_date_text] and the like are how PostgreSQL writes values in its default
    (ISO) style.  The theorems say that the parsers read from that text what they
    read from the binary format, and for which values they do not. *)

From stdpp Require Import base list option.
From Stdlib Require Import ZArith Lia.
From S2P Require Import Prelude Errors BackendMessages CommandTag Charconv FieldTypes Datetime.

#[local] Open Scope Z_scope.

(** ** Spaces *)

Definition trimmed (s : bytes) : Prop :=
  (forall c r, s = c :: r -> isspace c = false) /\ (forall c r, s = r ++ [c] -> isspace c = false).

Lemma drop_spaces_id s : (forall c r, s = c :: r -> isspace c = false) -> drop_spaces s = s.
Proof. destruct s as [|c s]; [done|]. intros H. cbn [drop_spaces]. by rewrite (H c s eq_refl). Qed.

Lemma trim_trimmed s : trimmed s -> trim s = s.
Proof.
  intros [Hf Hl]. unfold trim. rewrite (drop_spaces_id s Hf), drop_spaces_id; [apply rev_involutive|].
  intros c r E. apply (Hl c (rev r)). apply (f_equal (@rev Z)) in E. rewrite rev_involutive in E. exact E.
Qed.

Lemma drop_spaces_idem s : drop_spaces (drop_spaces s) = drop_spaces s.
Proof. induction s as [|c s IH]; [done|]. cbn [drop_spaces]. destruct (isspace c) eqn:E; [done|]. cbn [drop_spaces]. by rewrite E. Qed.

Lemma trim_space_r s : trim (s ++ [32]) = trim s.
Proof.
  unfold trim. f_equal. assert (drop_spaces (s ++ [32]) = match drop_spaces s with [] => [] | t => t ++ [32] end) as ->.
  { induction s as [|c s IH]; [done|]. cbn [app drop_spaces]. destruct (isspace c); [done|]. done. }
  destruct (drop_spaces s) as [|c t]; [done|]. by rewrite rev_app_distr.
Qed.

Lemma trimmed_app a b : trimmed a -> trimmed b -> a <> [] -> b <> [] -> trimmed (a ++ b).
Proof.
  intros [Ha _] [_ Hb] Hna Hnb. split.
  - intros c r E. destruct a as [|x a]; [done|]. injection E as -> _. by eapply Ha.
  - intros c r E. destruct b as [|x b] using rev_ind; [done|]. clear IHb. rewrite app_assoc in E.
    apply app_inj_tail in E as [_ <-]. by eapply Hb.
Qed.

Definition not_space (c : Z) : Prop := isspace c = false.

Lemma trimmed_forall s : Forall not_space s -> trimmed s.
Proof.
  intros H. split; intros c r ->; [by apply Forall_cons_iff in H as [? _]|].
  apply Forall_app in H as [_ H]. by apply Forall_cons_iff in H as [? _].
Qed.

Lemma digit_not_space c : is_digit c = true -> not_space c.
Proof. unfold is_digit, not_space, isspace. change (ch "0") with 48. change (ch "9") with 57. lia. Qed.

Lemma digits_not_space ds : all_digits ds -> Forall not_space ds.
Proof. intros H. eapply List.Forall_impl; [|exact H]. apply digit_not_space. Qed.

Lemma trimmed_digits ds : all_digits ds -> trimmed ds.
Proof. intros H. by apply trimmed_forall, digits_not_space. Qed.

(** ** Texts that begin or end with a digit *)

Definition starts_with_digit (s : bytes) : Prop := exists c r, s = c :: r /\ is_digit c = true.
Definition ends_with_digit (s : bytes) : Prop := exists r c, s = r ++ [c] /\ is_digit c = true.

Lemma digit_chars c : is_digit c = true -> tolower c = c /\ c <> ch "i" /\ c <> ch "-" /\ c <> ch "c".
Proof.
  unfold is_digit, tolower, isupper. change (ch "0") with 48. change (ch "9") with 57. change (ch "A") with 65. change (ch "Z") with 90.
  change (ch "i") with 105. change (ch "-") with 45. change (ch "c") with 99. intros H.
  assert ((65 <=? c) && (c <=? 90) = false) as -> by lia. lia.
Qed.

Lemma iequals_head c d r s : tolower c <> tolower d -> iequals (c :: r) (d :: s) = false.
Proof. intros H. cbn [iequals]. by rewrite (proj2 (Z.eqb_neq _ _) H). Qed.

Lemma parse_infinity_digit s : trimmed s -> starts_with_digit s -> parse_infinity s = None.
Proof.
  intros Ht (c & r & -> & Hc). unfold parse_infinity. rewrite trim_trimmed by done.
  apply digit_chars in Hc as (Hl & Hi & Hm & _).
  change (str "infinity") with (ch "i" :: str "nfinity"). change (str "-infinity") with (ch "-" :: str "infinity").
  rewrite !iequals_head; [done|by rewrite Hl..].
Qed.

Lemma iequals_length a : forall b, iequals a b = true -> length a = length b.
Proof.
  induction a as [|x a IH]; intros [|y b]; try done. cbn [iequals]. intros [_ H]%andb_true_iff. simpl. f_equal. by apply IH.
Qed.

Lemma consume_bc_digit s : trimmed s -> ends_with_digit s -> consume_bc s = (false, s).
Proof.
  intros Ht (r & c & -> & Hc). unfold consume_bc. rewrite trim_trimmed by done.
  destruct (_ <? 2)%nat eqn:El; [done|]. destruct (iequals _ _) eqn:E; [|done]. exfalso.
  destruct r as [|x r] using rev_ind; [done|]. clear IHr.
  rewrite !length_app in E. cbn [length] in E. replace (length r + 1 + 1 - 2)%nat with (length r) in E by lia.
  rewrite <- app_assoc, drop_app_length in E. change (str "BC") with [66; 67] in E. cbn [iequals app] in E.
  apply digit_chars in Hc as (Hl & _ & _ & Hc). rewrite Hl, andb_true_r in E. change (tolower 67) with (ch "c") in E.
  apply andb_true_iff in E as [_ E%Z.eqb_eq]. done.
Qed.

Lemma consume_bc_bc s : trimmed s -> s <> [] -> consume_bc (s ++ str " BC") = (true, s).
Proof.
  intros Ht Hn. unfold consume_bc. rewrite (trim_trimmed (s ++ str " BC")).
  - rewrite length_app. simpl length. destruct (Nat.ltb_spec (length s + 3) 2); [lia|].
    replace (s ++ str " BC") with ((s ++ [32]) ++ str "BC") by (by rewrite <- app_assoc).
    assert (length (s ++ [32%Z]) = (length s + 3 - 2)%nat) as Hl by (rewrite length_app; simpl; lia).
    rewrite (drop_app_len (s ++ [32])), (take_app_len (s ++ [32])) by done. cbn [iequals str negb].
    change (negb (iequals (str "BC") (str "BC"))) with false. by rewrite trim_space_r, trim_trimmed.
  - split; [|intros c r E; replace (s ++ str " BC") with ((s ++ str " B") ++ str "C") in E by (by rewrite <- app_assoc)].
    + intros c r E. destruct s as [|x s]; [done|]. injection E as -> _. by eapply (proj1 Ht).
    + apply app_inj_tail in E as [_ <-]. reflexivity.
Qed.

(** ** Numbers *)

Lemma from_chars_pad k n r : (0 < k)%nat -> 0 <= n < 10 ^ Z.of_nat k -> n <= 2147483647 -> no_digit_first r ->
  from_chars_e (pad k n ++ r) = Some (inr (n, r)).
Proof.
  intros Hk Hn Hi Hr. unfold from_chars_e. rewrite from_chars_digits; [|apply all_digits_pad| |done].
  - rewrite digits_value_pad, Z.mod_small by done. by rewrite (proj2 (fits_int32 n)) by lia.
  - intros E. apply (f_equal length) in E. rewrite length_pad in E. simpl in E. lia.
Qed.

Lemma pad_starts k n : (0 < k)%nat -> exists c r, pad k n = c :: r /\ is_digit c = true.
Proof.
  intros Hk. pose proof (all_digits_pad k n) as Hd. destruct (pad k n) as [|c r] eqn:E.
  - apply (f_equal length) in E. rewrite length_pad in E. simpl in E. lia.
  - exists c, r. split; [done|]. by apply Forall_cons_iff in Hd as [? _].
Qed.

Lemma pad_ends k n : (0 < k)%nat -> exists r c, pad k n = r ++ [c] /\ is_digit c = true.
Proof. destruct k as [|k]; [lia|]. intros _. eexists _, _. split; [reflexivity|]. apply digit_of_Z, Z.mod_pos_bound. lia. Qed.

(** ** What PostgreSQL writes: dates *)

(** A year has at least four digits; the years up to 0 are written from 1 BC on. *)
Definition pg_year (y : Z) : bytes := pad (Nat.max 4 (width y)) y.

Definition era_year (y : Z) : Z := if y <? 1 then 1 - y else y.
Definition era (y : Z) : bytes := if y <? 1 then str " BC" else [].

Definition pg_date (y m d : Z) : bytes := pg_year (era_year y) ++ ch "-" :: pad 2 m ++ ch "-" :: pad 2 d.

Definition pg_date_text (y m d : Z) : bytes := pg_date y m d ++ era y.

(** A day of the calendar in the years PostgreSQL has. *)
Definition pg_day (y m d : Z) : Prop := -4712 <= y <= 5874897 /\ 1 <= m <= 12 /\ 1 <= d <= last_day y m.

Lemma pg_day_month y m d : pg_day y m d -> 1 <= d <= 31.
Proof.
  intros (_ & _ & Hd). unfold last_day in Hd. destruct (m =? 2), (is_leap y), ((m =? 4) || (m =? 6) || (m =? 9) || (m =? 11)); lia.
Qed.

Lemma pg_year_bound y : 0 <= y < 10000000 -> 0 <= y < 10 ^ Z.of_nat (Nat.max 4 (width y)).
Proof.
  intros Hy. split; [lia|]. apply (Z.lt_le_trans _ (10 ^ Z.of_nat (width y))).
  - apply width_loop_bound. change (10 ^ (Z.of_nat 20 + 1)) with 1000000000000000000000. lia.
  - apply Z.pow_le_mono_r; lia.
Qed.

Lemma era_year_range y m d : pg_day y m d -> 0 <= era_year y < 10000000.
Proof. intros [Hy _]. unfold era_year. destruct (Z.ltb_spec y 1); lia. Qed.

Lemma dash_no_digit r : no_digit_first (ch "-" :: r).
Proof. by apply no_digit_cons. Qed.

Lemma pg_date_starts y m d : starts_with_digit (pg_date y m d).
Proof.
  unfold pg_date, pg_year. destruct (pad_starts (Nat.max 4 (width (era_year y))) (era_year y)) as (c & r & -> & Hc); [lia|].
  by exists c, (r ++ ch "-" :: pad 2 m ++ ch "-" :: pad 2 d).
Qed.

Lemma pg_date_ends y m d : ends_with_digit (pg_date y m d).
Proof.
  unfold pg_date. destruct (pad_ends 2 d) as (r & c & -> & Hc); [lia|].
  exists (pg_year (era_year y) ++ ch "-" :: pad 2 m ++ ch "-" :: r), c. split; [|done].
  by rewrite <- app_assoc, <- app_comm_cons, <- app_assoc, <- app_comm_cons.
Qed.

Lemma pg_date_not_space y m d : Forall not_space (pg_date y m d).
Proof.
  assert (forall k n, Forall not_space (pad k n)) as Hp by (intros k n; apply digits_not_space, all_digits_pad).
  unfold pg_date, pg_year. apply Forall_app. split; [apply Hp|]. apply Forall_cons_iff. split; [reflexivity|].
  apply Forall_app. split; [apply Hp|]. apply Forall_cons_iff. split; [reflexivity|apply Hp].
Qed.

Lemma parse_date_parts_text y m d : pg_day y m d -> parse_date_parts (pg_date y m d) = Some (inr (era_year y, m, d)).
Proof.
  intros Hp. pose proof (era_year_range _ _ _ Hp) as Hy. pose proof (pg_day_month _ _ _ Hp) as Hd. destruct Hp as (_ & Hm & _).
  unfold parse_date_parts. rewrite trim_trimmed by (apply trimmed_forall, pg_date_not_space).
  destruct (pg_date_starts y m d) as (c & r & E & _). rewrite E at 1. unfold pg_date, pg_year.
  rewrite from_chars_pad; [|lia|by apply pg_year_bound|lia|apply dash_no_digit]. rewrite ebind_val. cbn [expect_char]. rewrite Z.eqb_refl, ebind_val.
  rewrite from_chars_pad; [|lia|simpl; lia|lia|apply dash_no_digit]. rewrite ebind_val. cbn [expect_char]. rewrite Z.eqb_refl, ebind_val.
  rewrite <- (app_nil_r (pad 2 d)), from_chars_pad; [done|lia|simpl; lia|lia|apply no_digit_nil].
Qed.

(** The era of a text that [consume_bc] takes off. *)
Lemma consume_era y s : trimmed s -> s <> [] -> ends_with_digit s -> consume_bc (s ++ era y) = (y <? 1, s).
Proof.
  intros Ht Hn He. unfold era. destruct (y <? 1); [by apply consume_bc_bc|]. rewrite app_nil_r. by apply consume_bc_digit.
Qed.

Lemma bc_year_era y : -4712 <= y <= 5874897 -> bc_year (y <? 1) (era_year y) = Some (inr y).
Proof.
  intros Hy. unfold bc_year, era_year. destruct (Z.ltb_spec y 1); [|done].
  replace (1 - (1 - y)) with y by lia. by rewrite (proj2 (fits_int32 y)) by lia.
Qed.

(** What the code makes of a date: the year is cut to 16 bits. *)
Definition held_date (y m d : Z) : E Z :=
  if ymd_ok (Ymd (wrapS 2 y) m d) then Some (inr (sys_days (Ymd (wrapS 2 y) m d))) else fail protocol_value_error.

Lemma checked_date_era y m d : pg_day y m d -> checked_date (y <? 1) (era_year y, m, d) = held_date y m d.
Proof.
  intros Hp. pose proof (pg_day_month _ _ _ Hp) as Hd. destruct Hp as (Hy & Hm & _).
  unfold checked_date. rewrite bc_year_era by done. rewrite ebind_val. unfold make_ymd. rewrite !Z.mod_small by lia. done.
Qed.

Lemma starts_app s t : starts_with_digit s -> starts_with_digit (s ++ t).
Proof. intros (c & r & -> & Hc). by exists c, (r ++ t). Qed.

Lemma trimmed_era y s : trimmed s -> s <> [] -> trimmed (s ++ era y).
Proof.
  intros Ht Hn. unfold era. destruct (y <? 1); [|by rewrite app_nil_r].
  split; [intros c r E; destruct s as [|x s]; [done|]; injection E as -> _; by eapply (proj1 Ht)|].
  intros c r E. replace (s ++ str " BC") with ((s ++ str " B") ++ str "C") in E by (by rewrite <- app_assoc).
  apply app_inj_tail in E as [_ <-]. reflexivity.
Qed.

Lemma digit_nonempty s : starts_with_digit s -> s <> [].
Proof. by intros (c & r & -> & _). Qed.

(** ** What PostgreSQL writes: times *)

(** The fraction of a second without the zeros at its end. *)
Fixpoint drop_zeros (ds : bytes) : bytes :=
  match ds with
  | c :: ds' => if c =? ch "0" then drop_zeros ds' else ds
  | [] => []
  end.

Definition fraction_digits (us : Z) : bytes := rev (drop_zeros (rev (pad 6 us))).

Definition pg_fraction (us : Z) : bytes := if us =? 0 then [] else ch "." :: fraction_digits us.

Definition pg_time (t : Z) : bytes :=
  let s := t / us_per_second in
  pad 2 (s / 3600) ++ ch ":" :: pad 2 (s / 60 mod 60) ++ ch ":" :: pad 2 (s mod 60) ++ pg_fraction (t mod us_per_second).

Lemma drop_zeros_split ds : exists n, ds = replicate n (ch "0") ++ drop_zeros ds.
Proof.
  induction ds as [|c ds [n IH]]; [by exists 0%nat|]. cbn [drop_zeros]. destruct (Z.eqb_spec c (ch "0")) as [->|]; [|by exists 0%nat].
  exists (S n). simpl. by f_equal.
Qed.

Lemma replicate_snoc {A} n (a : A) : replicate n a ++ [a] = a :: replicate n a.
Proof. induction n as [|n IH]; [done|]. simpl. by rewrite IH. Qed.

Lemma rev_replicate {A} n (a : A) : rev (replicate n a) = replicate n a.
Proof. induction n as [|n IH]; [done|]. simpl. rewrite IH. apply replicate_snoc. Qed.

Lemma fraction_split us : exists n, pad 6 us = fraction_digits us ++ replicate n (ch "0").
Proof.
  unfold fraction_digits. destruct (drop_zeros_split (rev (pad 6 us))) as [n E]. exists n.
  rewrite <- (rev_replicate n), <- rev_app_distr, <- E. by rewrite rev_involutive.
Qed.

Lemma iter_mul10 n x : Nat.iter n (fun f => f * 10) x = x * 10 ^ Z.of_nat n.
Proof. induction n as [|n IH]; [simpl; lia|]. rewrite Nat2Z.inj_succ, Z.pow_succ_r by lia. cbn. unfold Nat.iter in IH. rewrite IH. lia. Qed.

Lemma fraction_facts us : 0 < us < us_per_second ->
  all_digits (fraction_digits us) /\ fraction_digits us <> [] /\ digits_value (fraction_digits us) <= us /\
  scale_fraction (digits_value (fraction_digits us)) (length (fraction_digits us)) = us.
Proof.
  unfold us_per_second. intros Hu. destruct (fraction_split us) as [n E]. set (ds := fraction_digits us) in *.
  pose proof (all_digits_pad 6 us) as Hd. rewrite E in Hd. apply Forall_app in Hd as [Hd _].
  assert (length ds + n = 6)%nat as Hl by (rewrite <- (length_pad 6 us), E, length_app, length_replicate; lia).
  assert (digits_value ds * 10 ^ Z.of_nat n = us) as Hv.
  { pose proof (digits_value_pad 6 us) as Hp. rewrite E, digits_value_app, digits_value_zeros, length_replicate in Hp.
    change (10 ^ Z.of_nat 6) with 1000000 in Hp. rewrite (Z.mod_small us) in Hp by lia. lia. }
  pose proof (Z.pow_pos_nonneg 10 (Z.of_nat n) ltac:(lia) ltac:(lia)) as Hpow. pose proof (digits_value_bound ds Hd) as Hb.
  split_and!; [done| |nia|].
  - intros E0. rewrite E0 in Hv. change (digits_value []) with 0 in Hv. lia.
  - unfold scale_fraction. destruct (Nat.ltb_spec 6 (length ds)); [lia|]. rewrite iter_mul10. by replace (6 - length ds)%nat with n by lia.
Qed.

(** What may follow a time. *)
Definition ends_time (r : bytes) : Prop := no_digit_first r /\ forall c r', r = c :: r' -> c <> ch ".".

Lemma parse_fraction_text us r : 0 <= us < us_per_second -> ends_time r ->
  parse_fraction (pg_fraction us ++ r) = Some (inr (us, r)).
Proof.
  intros Hu [Hd Hr]. unfold pg_fraction. destruct (Z.eqb_spec us 0) as [->|Hn].
  - cbn [app]. destruct r as [|c r]; [done|]. cbn [parse_fraction]. destruct (Z.eqb_spec c (ch ".")); [by destruct (Hr c r eq_refl)|done].
  - destruct (fraction_facts us) as (Ha & Hne & Hle & Hs); [lia|]. cbn [app parse_fraction]. rewrite Z.eqb_refl.
    rewrite digits_prefix_app by done. destruct (fraction_digits us) as [|c ds] eqn:E; [done|]. rewrite <- E in *.
    unfold from_chars_e. rewrite <- (app_nil_r (fraction_digits us)) at 1. rewrite from_chars_digits by (done || apply no_digit_nil).
    pose proof (digits_value_bound _ Ha). unfold us_per_second in Hu. rewrite (proj2 (fits_int32 _)) by lia. rewrite ebind_val. by rewrite Hs.
Qed.

Lemma pg_fraction_ends us r : 0 <= us < us_per_second -> ends_time r -> no_digit_first (pg_fraction us ++ r).
Proof.
  intros Hu [Hd _]. unfold pg_fraction. destruct (us =? 0); [done|]. by apply no_digit_cons.
Qed.

(** A time of day, 24:00:00 included. *)
Definition pg_time_of_day (t : Z) : Prop := 0 <= t <= us_per_day.

Lemma parse_time_text t r : pg_time_of_day t -> ends_time r -> parse_time_prefix (pg_time t ++ r) = Some (inr (t, r)).
Proof.
  unfold pg_time_of_day, us_per_day. intros Ht Hr.
  pose proof (Z.mod_pos_bound t us_per_second ltac:(unfold us_per_second; lia)) as Hus.
  assert (t = us_per_second * (t / us_per_second) + t mod us_per_second) as Et by (apply Z.div_mod; unfold us_per_second; lia).
  unfold pg_time. set (s := t / us_per_second) in *. set (us := t mod us_per_second) in *.
  pose proof (Z.mod_pos_bound s 60 ltac:(lia)) as Hs. pose proof (Z.mod_pos_bound (s / 60) 60 ltac:(lia)) as Hm.
  assert (0 <= s <= 86400) as Hsr by (unfold us_per_second in *; lia).
  assert (s = 60 * (s / 60) + s mod 60) as Es by (apply Z.div_mod; lia).
  assert (s / 60 = 60 * (s / 3600) + s / 60 mod 60) as Em.
  { replace (s / 3600) with (s / 60 / 60) by (rewrite Z.div_div by lia; done). apply Z.div_mod. lia. }
  rewrite <- !app_assoc. cbn [app]. rewrite <- !app_assoc. cbn [app]. rewrite <- app_assoc. unfold parse_time_prefix.
  rewrite from_chars_pad by (try apply no_digit_cons; try done; simpl; lia). rewrite ebind_val. cbn [expect_char]. rewrite Z.eqb_refl, ebind_val.
  rewrite from_chars_pad by (try apply no_digit_cons; try done; simpl; lia). rewrite ebind_val. cbn [expect_char]. rewrite Z.eqb_refl, ebind_val.
  rewrite from_chars_pad by (try (by apply pg_fraction_ends); simpl; lia). rewrite ebind_val, parse_fraction_text by done. rewrite ebind_val.
  destruct (Z.ltb_spec (s / 3600) 0), (Z.ltb_spec (s / 60 mod 60) 0), (Z.ltb_spec (s mod 60) 0); try lia. cbn [orb].
  destruct (Z.gtb_spec (s / 60 mod 60) 59), (Z.gtb_spec (s mod 60) 59), (Z.gtb_spec (s / 3600) 24); try lia. cbn [orb].
  assert (((s / 3600 =? 24) && (negb (s / 60 mod 60 =? 0) || negb (s mod 60 =? 0) || negb (us =? 0))) = false) as ->.
  { destruct (Z.eqb_spec (s / 3600) 24); [|done]. assert (s = 86400) by lia. assert (us = 0) by (unfold us_per_second in *; lia).
    destruct (Z.eqb_spec (s / 60 mod 60) 0), (Z.eqb_spec (s mod 60) 0), (Z.eqb_spec us 0); try done; lia. }
  do 3 f_equal. lia.
Qed.

(** ** Dates *)

Lemma days_before_year_step y : days_before_year (y + 1) = days_before_year y + (if is_leap y then 366 else 365).
Proof.
  unfold days_before_year, is_leap. replace (y + 1 - 1) with y by lia.
  destruct (Z.eqb_spec (y mod 4) 0), (Z.eqb_spec (y mod 100) 0), (Z.eqb_spec (y mod 400) 0); cbn [andb orb negb];
    Z.to_euclidean_division_equations; lia.
Qed.

Lemma days_before_year_mono y y' : y < y' -> days_before_year (y + 1) <= days_before_year y'.
Proof. unfold days_before_year. Z.to_euclidean_division_equations. lia. Qed.

(** A day of the calendar is a day of its year. *)
Lemma sys_days_year y m d : 1 <= m <= 12 -> 1 <= d <= last_day y m ->
  days_before_year y <= sys_days (Ymd y m d) + 719162 < days_before_year (y + 1).
Proof.
  intros Hm Hd. rewrite days_before_year_step. unfold sys_days. cbn [ymd_year ymd_month ymd_day].
  assert (m = 1 \/ m = 2 \/ m = 3 \/ m = 4 \/ m = 5 \/ m = 6 \/ m = 7 \/ m = 8 \/ m = 9 \/ m = 10 \/ m = 11 \/ m = 12) as Hc by lia.
  unfold last_day in Hd. repeat destruct Hc as [->|Hc]; [..|subst m]; cbn in Hd |- *; destruct (is_leap y); lia.
Qed.

Lemma sys_days_later y m d y' m' d' : 1 <= m <= 12 -> 1 <= d <= last_day y m -> 1 <= m' <= 12 -> 1 <= d' <= last_day y' m' ->
  y < y' -> sys_days (Ymd y m d) < sys_days (Ymd y' m' d').
Proof.
  intros Hm Hd Hm' Hd' Hy. pose proof (sys_days_year y m d Hm Hd). pose proof (sys_days_year y' m' d' Hm' Hd').
  pose proof (days_before_year_mono y y' Hy). lia.
Qed.

Lemma ymd_ok_range y m d : ymd_ok (Ymd y m d) = true <-> -32767 <= y <= 32767 /\ 1 <= m <= 12 /\ 1 <= d <= last_day y m.
Proof. unfold ymd_ok. cbn. lia. Qed.

Lemma held_date_near y m d : pg_day y m d -> y <= 32767 -> held_date y m d = Some (inr (sys_days (Ymd y m d))).
Proof.
  intros (Hy & Hm & Hd) H. unfold held_date. rewrite wrapS_id; [|lia|unfold int_ok; simpl; lia].
  rewrite (proj2 (ymd_ok_range y m d)); [done|lia].
Qed.

Lemma held_date_far y m d : pg_day y m d -> 32767 < y -> held_date y m d <> Some (inr (sys_days (Ymd y m d))).
Proof.
  intros (Hy & Hm & Hd) H. unfold held_date. destruct (ymd_ok _) eqn:E; [|done]. apply ymd_ok_range in E as (Hy' & _ & Hd').
  intros [= Es]. pose proof (sys_days_later (wrapS 2 y) m d y m d Hm Hd' Hm Hd ltac:(lia)). lia.
Qed.

Lemma pg_day_binary y m d : pg_day y m d -> int_ok 4 (sys_days (Ymd y m d) - pg_epoch).
Proof.
  intros (Hy & Hm & Hd). pose proof (sys_days_year y m d Hm Hd) as Hs. rewrite days_before_year_step in Hs.
  change pg_epoch with 10957. unfold days_before_year in Hs. unfold int_ok. simpl.
  Z.to_euclidean_division_equations. destruct (is_leap y); lia.
Qed.

Lemma pg_date_text_parse y m d : pg_day y m d -> parse_text_date (pg_date_text y m d) = held_date y m d.
Proof.
  intros Hp. pose proof (pg_date_starts y m d) as Hst. pose proof (trimmed_forall _ (pg_date_not_space y m d)) as Ht.
  unfold parse_text_date, pg_date_text. rewrite parse_infinity_digit; [|apply trimmed_era; [done|by apply digit_nonempty]|by apply starts_app].
  rewrite consume_era; [|done|by apply digit_nonempty|apply pg_date_ends].
  rewrite parse_date_parts_text by done. rewrite ebind_val. by apply checked_date_era.
Qed.

(** A day of PostgreSQL's calendar (4713 BC to 5874897, the years before 1
    written from 1 BC) is read from the binary format as the count of its days.
    The text format gives the same day exactly when the year is one that
    [std::chrono::year] holds: a later year is cut to 16 bits, and the text is
    read as another day or refused. *)
Theorem date_formats_agree y m d : pg_day y m d ->
  parse_binary_date (be_encode 4 (sys_days (Ymd y m d) - pg_epoch)) = Some (inr (sys_days (Ymd y m d))) /\
  (parse_text_date (pg_date_text y m d) = parse_binary_date (be_encode 4 (sys_days (Ymd y m d) - pg_epoch)) <-> y <= 32767).
Proof.
  intros Hp. assert (parse_binary_date (be_encode 4 (sys_days (Ymd y m d) - pg_epoch)) = Some (inr (sys_days (Ymd y m d)))) as Hb.
  { unfold parse_binary_date. rewrite length_be_encode, load_big_s_encode by (try lia; by apply pg_day_binary). cbn. do 2 f_equal. lia. }
  rewrite Hb, pg_date_text_parse by done. split; [done|]. split.
  - destruct (Z.le_gt_cases y 32767) as [|Hf]; [done|]. intros E. by destruct (held_date_far y m d Hp Hf).
  - by apply held_date_near.
Qed.

Lemma date_formats_agree_witness :
  parse_text_date (str "2024-02-29") = Some (inr 19782) /\ parse_text_date (str "0044-03-15 BC") = Some (inr (-735160)) /\
  (parse_text_date (pg_date_text 70000 1 1) = parse_binary_date (be_encode 4 (sys_days (Ymd 70000 1 1) - pg_epoch)) <-> 70000 <= 32767).
Proof.
  split; [reflexivity|]. split; [reflexivity|].
  refine (proj2 (date_formats_agree 70000 1 1 _)). unfold pg_day, last_day. simpl. lia.
Defined.
