(* ===== verification/TimestampSpec.v ===== *)
(** * Times, offsets and timestamps: the text and the binary format agree

    [pg_offset] is how PostgreSQL writes the offset of a time zone; the text of a
    timestamp is made of the date, the time, the offset and the era. *)

From stdpp Require Import base list option.
From Stdlib Require Import ZArith Lia.
From S2P Require Import Prelude Errors BackendMessages CommandTag Charconv FieldTypes Datetime DatetimeSpec.

#[local] Open Scope Z_scope.

(** ** The offset of a time zone *)

(** Seconds east of UTC: hours, the minutes if there are minutes or seconds, the
    seconds if there are any. *)
Definition pg_offset (o : Z) : bytes :=
  let a := Z.abs o in
  (if o <? 0 then ch "-" else ch "+") :: pad 2 (a / 3600) ++
  (if a mod 3600 =? 0 then [] else ch ":" :: pad 2 (a / 60 mod 60) ++
   (if a mod 60 =? 0 then [] else ch ":" :: pad 2 (a mod 60))).

(** The offsets of PostgreSQL. *)
Definition pg_zone (o : Z) : Prop := Z.abs o < 16 * 3600.

Lemma pad2 n : 0 <= n < 100 -> exists a b, pad 2 n = [a; b] /\ isdigit a = true /\ isdigit b = true /\ (a - ch "0") * 10 + (b - ch "0") = n.
Proof.
  intros Hn. exists (ch "0" + n / 10), (ch "0" + n mod 10). unfold isdigit. change (ch "0") with 48.
  split; [|Z.to_euclidean_division_equations; unfold is_digit; change (ch "0") with 48; change (ch "9") with 57; split_and!; lia].
  cbn [pad app]. change (ch "0") with 48. rewrite (Z.mod_small (n / 10)) by (Z.to_euclidean_division_equations; lia). done.
Qed.

Lemma two_digits_pad n r : 0 <= n < 100 -> two_digits (pad 2 n ++ r) = Some (n, r).
Proof. intros Hn. destruct (pad2 n Hn) as (a & b & -> & Ha & Hb & Hv). cbn. by rewrite Ha, Hb, Hv. Qed.

Lemma last_two_digits_pad n : 0 <= n < 100 -> last_two_digits (pad 2 n) = Some n.
Proof. intros Hn. destruct (pad2 n Hn) as (a & b & -> & Ha & Hb & Hv). cbn. by rewrite Ha, Hb, Hv. Qed.

Lemma last_two_digits_more n c r : 0 <= n < 100 -> last_two_digits (pad 2 n ++ c :: r) = None.
Proof. intros Hn. destruct (pad2 n Hn) as (a & b & -> & _). done. Qed.

Lemma offset_parts o : pg_zone o ->
  0 <= Z.abs o / 3600 <= 15 /\ 0 <= Z.abs o / 60 mod 60 <= 59 /\ 0 <= Z.abs o mod 60 <= 59 /\
  Z.abs o = Z.abs o / 3600 * 3600 + Z.abs o / 60 mod 60 * 60 + Z.abs o mod 60 /\
  Z.abs o mod 3600 = Z.abs o / 60 mod 60 * 60 + Z.abs o mod 60.
Proof. unfold pg_zone. intros Ho. set (a := Z.abs o) in *. assert (0 <= a) by lia. Z.to_euclidean_division_equations. lia. Qed.

Lemma pg_offset_forall (P : Z -> Prop) o : P 43 -> P 45 -> P 58 -> (forall k n, Forall P (pad k n)) -> Forall P (pg_offset o).
Proof.
  intros H1 H2 H3 Hp. unfold pg_offset. apply Forall_cons_iff. split; [by destruct (o <? 0)|].
  repeat match goal with |- Forall _ (_ ++ _) => apply Forall_app; split; [apply Hp|]
  | |- Forall _ (if ?b then _ else _) => destruct b; [constructor|]
  | |- Forall _ (_ :: _) => apply Forall_cons_iff; split; [exact H3|] end. apply Hp.
Qed.

Lemma not_space_pad k n : Forall not_space (pad k n).
Proof. apply digits_not_space, all_digits_pad. Qed.

Lemma pg_offset_not_space o : Forall not_space (pg_offset o).
Proof. apply pg_offset_forall; [reflexivity..|apply not_space_pad]. Qed.

Lemma pg_offset_ends o : ends_with_digit (pg_offset o).
Proof.
  assert (forall l s, ends_with_digit s -> ends_with_digit (l ++ s)) as Ha.
  { intros l s (r & c & -> & Hc). exists (l ++ r), c. by rewrite app_assoc. }
  assert (forall n, ends_with_digit (pad 2 n)) as Hp by (intros n; apply pad_ends; lia).
  unfold pg_offset. cbn zeta. apply (Ha [_]).
  destruct (_ =? 0); [rewrite app_nil_r; apply Hp|]. apply Ha, (Ha [_]). destruct (_ =? 0); [rewrite app_nil_r; apply Hp|]. apply Ha, (Ha [_]), Hp.
Qed.

Lemma pg_offset_ends_time o : ends_time (pg_offset o).
Proof.
  unfold pg_offset. split; [apply no_digit_cons; by destruct (o <? 0)|].
  intros c r [= <- _]. by destruct (o <? 0).
Qed.

Lemma iequals_sign o c s : tolower c <> 43 -> tolower c <> 45 -> iequals (pg_offset o) (c :: s) = false.
Proof. intros H1 H2. unfold pg_offset. apply iequals_head. destruct (o <? 0); intros E; [apply H2|apply H1]; by rewrite <- E. Qed.

(** The offset is read, unless it has seconds. *)
Lemma parse_offset_text o : pg_zone o ->
  parse_tz_suffix (pg_offset o) = if o mod 60 =? 0 then Some (inr o) else fail protocol_value_error.
Proof.
  intros Ho. pose proof (offset_parts o Ho) as (Hh & Hm & Hs & Ea & E36).
  assert ((o mod 60 =? 0) = (Z.abs o mod 60 =? 0)) as -> by (unfold pg_zone in Ho; Z.to_euclidean_division_equations; lia).
  unfold parse_tz_suffix. rewrite trim_trimmed by apply trimmed_forall, pg_offset_not_space.
  rewrite bool_decide_eq_false_2 by done.
  change (str "Z") with (ch "Z" :: []). change (str "UTC") with (ch "U" :: str "TC"). change (str "UT") with (ch "U" :: str "T").
  change (str "GMT") with (ch "G" :: str "MT"). rewrite !iequals_sign by done. cbn [orb]. unfold pg_offset.
  set (h := Z.abs o / 3600) in *. set (m := Z.abs o / 60 mod 60) in *. set (sec := Z.abs o mod 60) in *.
  assert ((if (if o <? 0 then ch "-" else ch "+") =? ch "+" then 1 else -1) = (if o <? 0 then -1 else 1)) as -> by (by destruct (o <? 0)).
  assert (negb ((if o <? 0 then ch "-" else ch "+") =? ch "+") && negb ((if o <? 0 then ch "-" else ch "+") =? ch "-") = false) as -> by (by destruct (o <? 0)).
  rewrite two_digits_pad by lia. rewrite E36. destruct (Z.eqb_spec (m * 60 + sec) 0) as [Hz|Hz].
  - destruct (Z.eqb_spec sec 0); [|lia]. destruct (Z.gtb_spec h 15); [lia|]. cbn. do 2 f_equal. destruct (Z.ltb_spec o 0); lia.
  - rewrite Z.eqb_refl. destruct (Z.eqb_spec sec 0) as [E|E].
    + rewrite app_nil_r, last_two_digits_pad by lia. destruct (Z.gtb_spec h 15), (Z.gtb_spec m 59); try lia. cbn. do 2 f_equal. destruct (Z.ltb_spec o 0); lia.
    + by rewrite last_two_digits_more by lia.
Qed.

(** ** Times *)

Lemma pg_fraction_digits us : 0 <= us < us_per_second -> Forall (fun c => is_digit c = true \/ c = ch ".") (pg_fraction us).
Proof.
  intros Hu. unfold pg_fraction. destruct (Z.eqb_spec us 0); [constructor|]. apply Forall_cons_iff. split; [by right|].
  destruct (fraction_facts us) as (Ha & _); [lia|]. eapply List.Forall_impl; [|exact Ha]. by left.
Qed.

Lemma us_range t : 0 <= t mod us_per_second < us_per_second.
Proof. apply Z.mod_pos_bound. done. Qed.

(** The characters of a time. *)
Lemma pg_time_forall (P : Z -> Prop) t : (forall c, is_digit c = true -> P c) -> P 58 -> P (ch ".") -> Forall P (pg_time t).
Proof.
  intros Hd H1 H2. assert (forall k n, Forall P (pad k n)) as Hp by (intros; eapply List.Forall_impl; [exact Hd|apply all_digits_pad]).
  unfold pg_time. apply Forall_app. split; [apply Hp|]. apply Forall_cons_iff. split; [done|]. apply Forall_app. split; [apply Hp|].
  apply Forall_cons_iff. split; [done|]. apply Forall_app. split; [apply Hp|].
  eapply List.Forall_impl; [|apply pg_fraction_digits, us_range]. intros c [Hc| ->]; [by apply Hd|done].
Qed.

Lemma pg_time_not_space t : Forall not_space (pg_time t).
Proof. apply pg_time_forall; [apply digit_not_space|reflexivity..]. Qed.

Lemma pg_time_starts t : starts_with_digit (pg_time t).
Proof. unfold pg_time. apply starts_app. destruct (pad_starts 2 (t / us_per_second / 3600)) as (c & r & -> & Hc); [lia|]. by exists c, r. Qed.

Lemma ends_app l s : ends_with_digit s -> ends_with_digit (l ++ s).
Proof. intros (r & c & -> & Hc). exists (l ++ r), c. by rewrite app_assoc. Qed.

Lemma digits_end ds : all_digits ds -> ds <> [] -> ends_with_digit ds.
Proof.
  intros Hd Hn. destruct ds as [|c ds _] using rev_ind; [done|]. apply Forall_app in Hd as [_ Hd].
  exists ds, c. split; [done|]. by apply Forall_cons_iff in Hd as [? _].
Qed.

Lemma pg_time_ends t : ends_with_digit (pg_time t).
Proof.
  unfold pg_time. apply ends_app, (ends_app [_]), ends_app, (ends_app [_]). pose proof (us_range t) as Hu.
  unfold pg_fraction. destruct (Z.eqb_spec (t mod us_per_second) 0); [rewrite app_nil_r; apply pad_ends; lia|].
  destruct (fraction_facts (t mod us_per_second)) as (Ha & Hn & _); [lia|]. by apply ends_app, (ends_app [_]), digits_end.
Qed.

Lemma ends_time_nil : ends_time [].
Proof. split; [apply no_digit_nil|done]. Qed.

Lemma parse_text_time_pg t : pg_time_of_day t -> parse_text_time (pg_time t) = Some (inr t).
Proof.
  intros Ht. unfold parse_text_time. rewrite (trim_trimmed (pg_time t)) by apply trimmed_forall, pg_time_not_space.
  rewrite <- (app_nil_r (pg_time t)), parse_time_text by (done || apply ends_time_nil). rewrite app_nil_r.
  pose proof (digit_nonempty _ (pg_time_starts t)) as Hn. by destruct (pg_time t).
Qed.

Lemma parse_text_timetz_pg t o : pg_time_of_day t -> pg_zone o ->
  parse_text_timetz (pg_time t ++ pg_offset o) = if o mod 60 =? 0 then Some (inr (Timetz t o)) else fail protocol_value_error.
Proof.
  intros Ht Ho. unfold parse_text_timetz.
  rewrite trim_trimmed by (apply trimmed_forall, Forall_app; split; [apply pg_time_not_space|apply pg_offset_not_space]).
  rewrite parse_time_text by (done || apply pg_offset_ends_time). rewrite ebind_val, parse_offset_text by done. by destruct (o mod 60 =? 0).
Qed.

Lemma pg_time_binary t : pg_time_of_day t -> int_ok 8 t.
Proof. unfold pg_time_of_day, us_per_day, us_per_second, int_ok. simpl. lia. Qed.

Lemma pg_zone_binary o : pg_zone o -> int_ok 4 (- o).
Proof. unfold pg_zone, int_ok. simpl. lia. Qed.

Lemma parse_binary_timetz_pg t o : pg_time_of_day t -> pg_zone o ->
  parse_binary_timetz (be_encode 8 t ++ be_encode 4 (- o)) = Some (inr (Timetz t o)).
Proof.
  intros Ht Ho. pose proof (length_be_encode 8 t) as Hl. unfold parse_binary_timetz. rewrite length_app, !length_be_encode.
  rewrite (take_app_len (be_encode 8 t)), (drop_app_len (be_encode 8 t)) by done.
  rewrite !load_big_s_encode by (try lia; by apply pg_time_binary || by apply pg_zone_binary).
  replace (- - o) with o by lia. unfold pg_zone in Ho. by rewrite (proj2 (fits_int32 o)) by lia.
Qed.

(** A time of day (from 00:00:00 to 24:00:00 to the microsecond) is the same
    in both formats; so is a time with an offset, which the binary format counts
    westwards, exactly when the offset is whole minutes: the text of an offset
    with seconds is refused, the binary form is not. *)
Theorem time_formats_agree t o : pg_time_of_day t -> pg_zone o ->
  parse_text_time (pg_time t) = Some (inr t) /\ parse_binary_time (be_encode 8 t) = Some (inr t) /\
  parse_binary_timetz (be_encode 8 t ++ be_encode 4 (- o)) = Some (inr (Timetz t o)) /\
  parse_text_timetz (pg_time t ++ pg_offset o) = (if o mod 60 =? 0 then Some (inr (Timetz t o)) else fail protocol_value_error).
Proof.
  intros Ht Ho. split; [by apply parse_text_time_pg|]. split.
  - unfold parse_binary_time. rewrite length_be_encode, load_big_s_encode by (lia || by apply pg_time_binary). done.
  - split; [by apply parse_binary_timetz_pg|by apply parse_text_timetz_pg].
Qed.

Lemma time_formats_agree_witness :
  pg_time 3723045000 ++ pg_offset (-12600) = str "01:02:03.045-03:30" /\
  parse_text_timetz (pg_time 3723045000 ++ pg_offset (-12600)) = Some (inr (Timetz 3723045000 (-12600))).
Proof.
  split; [reflexivity|].
  refine (proj2 (proj2 (proj2 (time_formats_agree 3723045000 (-12600) _ _)))); [vm_compute; by split|reflexivity].
Defined.

(** ** The times and the offsets that are read *)

Lemma iter_div10 n x : 0 <= x -> Nat.iter n (fun f => f / 10) x = x / 10 ^ Z.of_nat n.
Proof.
  intros Hx. induction n as [|n IH]; [simpl; by rewrite Z.div_1_r|]. rewrite Nat2Z.inj_succ, Z.pow_succ_r by lia.
  cbn. unfold Nat.iter in IH. rewrite IH, Z.div_div by lia. f_equal. lia.
Qed.

Lemma scale_fraction_range f n : 0 <= f < 10 ^ Z.of_nat n -> 0 <= scale_fraction f n < us_per_second.
Proof.
  intros Hf. unfold scale_fraction, us_per_second. change 1000000 with (10 ^ 6).
  destruct (Nat.ltb_spec 6 n).
  - rewrite iter_div10 by lia. split; [apply Z.div_pos; lia|]. apply Z.div_lt_upper_bound; [lia|].
    rewrite <- Z.pow_add_r by lia. replace (Z.of_nat (n - 6) + 6) with (Z.of_nat n) by lia. apply Hf.
  - rewrite iter_mul10. pose proof (Z.pow_pos_nonneg 10 (Z.of_nat (6 - n)) ltac:(lia) ltac:(lia)).
    replace (10 ^ 6) with (10 ^ Z.of_nat n * 10 ^ Z.of_nat (6 - n)) by (rewrite <- Z.pow_add_r by lia; f_equal; lia). nia.
Qed.

Lemma parse_fraction_range p us r : parse_fraction p = Some (inr (us, r)) -> 0 <= us < us_per_second.
Proof.
  assert (0 <= 0 < us_per_second) as H0 by done.
  destruct p as [|c p]; cbn [parse_fraction]; [by intros [= <- _]|]. destruct (c =? ch "."); [|by intros [= <- _]].
  destruct (digits_prefix_spec p) as (ds & r' & -> & Hd & Hr). rewrite digits_prefix_app by done.
  destruct ds as [|c' ds']; [done|]. remember (c' :: ds') as ds eqn:E. assert (ds <> []) as Hn by (by rewrite E). clear E.
  unfold from_chars_e. rewrite <- (app_nil_r ds) at 1. rewrite from_chars_digits by (done || apply no_digit_nil).
  destruct (fits _ _); [|done]. rewrite ebind_val. intros [= <- _]. by apply scale_fraction_range, digits_value_bound.
Qed.

Lemma parse_time_prefix_range p t r : parse_time_prefix p = Some (inr (t, r)) -> pg_time_of_day t.
Proof.
  unfold parse_time_prefix. intros ([hours p1] & _ & H)%ebind_inr. apply ebind_inr in H as (p2 & _ & H).
  apply ebind_inr in H as ([minutes p3] & _ & H). apply ebind_inr in H as (p4 & _ & H).
  apply ebind_inr in H as ([seconds p5] & _ & H). apply ebind_inr in H as ([us p6] & Hus%parse_fraction_range & H).
  destruct ((hours <? 0) || (minutes <? 0) || (seconds <? 0)) eqn:E1; [done|]. destruct (_ || _) eqn:E2 in H; [done|].
  destruct (hours >? 24) eqn:E3; [done|]. destruct (_ && _) eqn:E4 in H; [done|]. injection H as <- _.
  unfold pg_time_of_day, us_per_day, us_per_second in *. lia.
Qed.

Lemma isdigit_range c : isdigit c = true -> 0 <= c - ch "0" <= 9.
Proof. unfold isdigit, is_digit. change (ch "0") with 48. change (ch "9") with 57. lia. Qed.

Lemma two_digits_range p n r : two_digits p = Some (n, r) -> 0 <= n <= 99.
Proof.
  destruct p as [|a [|b p]]; cbn [two_digits]; [done|..]; destruct (isdigit a) eqn:Ha; try done; apply isdigit_range in Ha.
  - intros [= <- _]. lia.
  - destruct (isdigit b) eqn:Hb; [apply isdigit_range in Hb|]; intros [= <- _]; lia.
Qed.

Lemma last_two_digits_range p n : last_two_digits p = Some n -> 0 <= n <= 99.
Proof.
  destruct p as [|a [|b [|]]]; cbn [last_two_digits]; try done. destruct (isdigit a && isdigit b) eqn:E; [|done].
  apply andb_true_iff in E as [Ha%isdigit_range Hb%isdigit_range]. intros [= <-]. lia.
Qed.

Lemma parse_tz_suffix_range rest o : parse_tz_suffix rest = Some (inr o) -> pg_zone o /\ o mod 60 = 0.
Proof.
  assert (pg_zone 0 /\ 0 mod 60 = 0) as H0 by done. unfold parse_tz_suffix.
  destruct (bool_decide _); [by intros [= <-]|]. destruct (_ || _); [by intros [= <-]|]. destruct (trim rest) as [|c p]; [by intros [= <-]|].
  destruct (_ && _); [done|]. destruct (two_digits p) as [[h p']|] eqn:Eh; [|done]. apply two_digits_range in Eh.
  destruct (match p' with [] => Some 0 | _ => _ end) as [m|] eqn:Em; [|done].
  assert (0 <= m <= 99) as Hm.
  { destruct p' as [|d p']; [injection Em as <-; lia|]. destruct (d =? ch ":"); [by eapply last_two_digits_range|].
    destruct (isdigit d); [by eapply last_two_digits_range|done]. }
  destruct (_ || _) eqn:E; [done|]. intros [= <-]. unfold pg_zone. assert (h <= 15 /\ m <= 59) as [Hh Hm'] by lia.
  destruct (c =? ch "+"); split; try lia; Z.to_euclidean_division_equations; lia.
Qed.

(** C36: A time read from a text is between 00:00:00 and 24:00:00, and an offset
    is whole minutes, of less than 16 hours: no arithmetic on them overflows. *)
Theorem times_in_range from t o : parse_text_timetz from = Some (inr (Timetz t o)) ->
  pg_time_of_day t /\ pg_zone o /\ o mod 60 = 0.
Proof.
  unfold parse_text_timetz. intros ([t' r] & Ht%parse_time_prefix_range & H)%ebind_inr.
  apply ebind_inr in H as (o' & Ho%parse_tz_suffix_range & [= <- <-]). done.
Qed.

Lemma times_in_range_witness :
  parse_text_timetz (str "23:59:59.9999999+1559") = Some (inr (Timetz 86399999999 57540)) /\ pg_time_of_day 86399999999.
Proof.
  assert (parse_text_timetz (str "23:59:59.9999999+1559") = Some (inr (Timetz 86399999999 57540))) as H by reflexivity.
  split; [exact H|]. exact (proj1 (times_in_range _ _ _ H)).
Defined.

(** ** Timestamps *)

(** The date, the time, the offset (or nothing) and the era. *)
Definition pg_timestamp_text (y m d t : Z) (offset : bytes) : bytes :=
  (pg_date y m d ++ ch " " :: pg_time t ++ offset) ++ era y.

Lemma split_sep_app a b : Forall (fun c => (c =? ch " ") || (c =? ch "T") = false) a -> split_sep (a ++ ch " " :: b) = Some (a, b).
Proof. induction 1 as [|c a Hc _ IH]; [done|]. cbn [app split_sep]. by rewrite Hc, IH. Qed.

Lemma pg_date_no_sep y m d : Forall (fun c => (c =? ch " ") || (c =? ch "T") = false) (pg_date y m d).
Proof.
  assert (forall k n, Forall (fun c => (c =? ch " ") || (c =? ch "T") = false) (pad k n)) as Hp.
  { intros k n. eapply List.Forall_impl; [|apply all_digits_pad]. intros c Hc. unfold is_digit in Hc.
    change (ch "0") with 48 in Hc. change (ch "9") with 57 in Hc. change (ch " ") with 32. change (ch "T") with 84. lia. }
  unfold pg_date, pg_year. apply Forall_app. split; [apply Hp|]. apply Forall_cons_iff. split; [reflexivity|].
  apply Forall_app. split; [apply Hp|]. apply Forall_cons_iff. split; [reflexivity|apply Hp].
Qed.

(** Both kinds of timestamp: what is read from the offset is subtracted. *)
Lemma parse_timestamp_text suffix y m d t offset (o : E Z) :
  pg_day y m d -> pg_time_of_day t -> suffix offset = o -> ends_time offset -> Forall not_space offset ->
  (offset = [] \/ ends_with_digit offset) ->
  parse_timestamp suffix (pg_timestamp_text y m d t offset) =
    let! date := held_date y m d in let! o := o in Some (inr (date * us_per_day + t - o * us_per_second)).
Proof.
  intros Hp Ht Hs He Hn Hd. pose proof (pg_date_starts y m d) as Hst. unfold parse_timestamp, pg_timestamp_text.
  assert (trimmed (pg_time t ++ offset)) as Htt by (apply trimmed_forall, Forall_app; split; [apply pg_time_not_space|done]).
  set (s := pg_date y m d ++ ch " " :: pg_time t ++ offset).
  assert (starts_with_digit s) as Hss by (by apply starts_app).
  assert (ends_with_digit s) as Hse.
  { apply ends_app, (ends_app [_]). destruct Hd as [->|Hd]; [rewrite app_nil_r; apply pg_time_ends|by apply ends_app]. }
  assert (trimmed s) as Hts.
  { split; [destruct Hss as (c & r & -> & Hc); intros ? ? [= <- _]; by apply digit_not_space|].
    destruct Hse as (r & c & -> & Hc). intros c' r' [_ <-]%app_inj_tail. by apply digit_not_space. }
  rewrite parse_infinity_digit; [|apply trimmed_era; [done|by apply digit_nonempty]|by apply starts_app].
  rewrite consume_era; [|done|by apply digit_nonempty|done]. rewrite (trim_trimmed s Hts). unfold s.
  rewrite split_sep_app by apply pg_date_no_sep. rewrite parse_date_parts_text by done. rewrite ebind_val, checked_date_era by done.
  destruct (held_date y m d) as [[e|v]|]; [done| |done].
  by rewrite !ebind_val, (trim_trimmed _ Htt), parse_time_text, ebind_val, Hs by done.
Qed.

(** The microseconds that PostgreSQL counts. *)
Definition pg_instant (y m d t o : Z) : Z := (sys_days (Ymd y m d) - pg_epoch) * us_per_day + t - o * us_per_second.

Lemma parse_binary_timestamp_pg y m d t o : pg_day y m d -> y <= 32767 -> pg_time_of_day t -> pg_zone o ->
  parse_binary_timestamp (be_encode 8 (pg_instant y m d t o)) = Some (inr (sys_days (Ymd y m d) * us_per_day + t - o * us_per_second)).
Proof.
  intros (Hy & Hm & Hd) Hf Ht Ho. pose proof (sys_days_year y m d Hm Hd) as Hs. rewrite days_before_year_step in Hs.
  assert (-3000000 <= sys_days (Ymd y m d) <= 13000000) as Hb by
    (unfold days_before_year in Hs; Z.to_euclidean_division_equations; destruct (is_leap y); lia).
  unfold pg_time_of_day, pg_zone, us_per_day, us_per_second in *.
  assert (pg_epoch * 86400000000 + pg_instant y m d t o = sys_days (Ymd y m d) * 86400000000 + t - o * 1000000) as E
    by (unfold pg_instant, us_per_day, us_per_second; lia).
  assert (int_ok 8 (pg_instant y m d t o)) as Hi.
  { unfold int_ok, pg_instant, us_per_day, us_per_second. change pg_epoch with 10957. simpl. lia. }
  unfold parse_binary_timestamp. rewrite length_be_encode, load_big_s_encode by (lia || done). cbn [Nat.eqb]. cbv zeta.
  change us_per_day with 86400000000. change us_per_second with 1000000. rewrite E. unfold fits. change (type_min int64) with (-9223372036854775808). change (type_max int64) with 9223372036854775807.
  destruct (_ && _) eqn:Ef; [done|lia].
Qed.



(** The infinite values are not the same in the two formats.  The text gives
    the largest and the smallest time point.  The binary forms (the extreme
    values of the wire's integer) are not looked for: a date becomes a finite
    one, the largest timestamp overflows, the smallest becomes finite. *)
Theorem infinity_formats_differ :
  parse_text_date (str "infinity") = Some (inr (type_max int64)) /\
  parse_binary_date (be_encode 4 (type_max int32)) = Some (inr (pg_epoch + type_max int32)) /\
  parse_text_timestamp (str "infinity") = Some (inr (type_max int64)) /\
  parse_binary_timestamp (be_encode 8 (type_max int64)) = None /\
  parse_text_timestamp (str "-infinity") = Some (inr (type_min int64)) /\
  parse_binary_timestamp (be_encode 8 (type_min int64)) = Some (inr (type_min int64 + pg_epoch * us_per_day)).
Proof. split_and!; vm_compute; reflexivity. Qed.
