(* ===== verification/IntervalSpec.v ===== *)
(** * Intervals: the loop ends, and the two formats agree

    [parts_run] is the sequence of parts that are read with success.
    [pg_interval_text] is how PostgreSQL writes an interval in its default style. *)

From stdpp Require Import base list option.
From Stdlib Require Import ZArith Lia.
From S2P Require Import Prelude Errors BackendMessages CommandTag Charconv FieldTypes Datetime DatetimeSpec TimestampSpec.

#[local] Open Scope Z_scope.

(** ** Every part takes characters *)

Lemma drop_spaces_length s : (length (drop_spaces s) <= length s)%nat.
Proof. induction s as [|c s IH]; [done|]. cbn [drop_spaces]. destruct (isspace c); simpl; lia. Qed.

Lemma take_sign_length p : (length (take_sign p).2 <= length p)%nat.
Proof. destruct p as [|c p]; [done|]. cbn [take_sign]. repeat case_match; simpl; lia. Qed.

Lemma take_alpha_length p : (length (take_alpha p).2 <= length p)%nat.
Proof.
  induction p as [|c p IH]; [done|]. cbn [take_alpha]. destruct (isalpha c); [|done]. destruct (take_alpha p). simpl in *. lia.
Qed.

Lemma parse_int_takes p v r : parse_int p = Some (Some (v, r)) -> (length r < length p)%nat.
Proof.
  unfold parse_int. intros H. pose proof (drop_spaces_length p) as Hl. pose proof (take_sign_length (drop_spaces p)) as Hs.
  destruct (drop_spaces p) as [|c q] eqn:E; [done|]. rewrite <- E in *.
  destruct (take_sign (drop_spaces p)) as [sign q']. simpl in Hs. destruct (from_chars_int int32 q') as [e|[x r']] eqn:Ef; [done|].
  apply from_chars_inv in Ef as (s & -> & Ht & _). destruct (fits int32 _); [|done]. injection H as _ <-.
  rewrite length_app in Hs. assert (0 < length s)%nat by (destruct Ht as [[]|]; simpl; done || lia). lia.
Qed.

Lemma parse_text_time_takes s t : parse_text_time s = Some (inr t) -> s <> [].
Proof. by destruct s. Qed.

Lemma interval_part_takes p to to' r : interval_part p to = Some (None, to', r) -> (length r < length p)%nat.
Proof.
  unfold interval_part. destruct (existsb _ _).
  - pose proof (take_sign_length p) as Hs. destruct (take_sign p) as [sign p']. cbn zeta. set (n := (length _ - _)%nat).
    destruct (parse_text_time (take n p')) as [[e|t]|] eqn:Et; [done| |done]. cbn. destruct (add_time _ to); [|done]. intros [= _ <-].
    apply parse_text_time_takes in Et. assert (0 < length (take n p'))%nat as Hp by (destruct (take n p'); simpl; done || lia).
    rewrite length_take in Hp. rewrite length_drop. simpl in Hs. lia.
  - destruct (parse_int p) as [[[v q]|]|] eqn:Ei; [|done|done]. apply parse_int_takes in Ei. cbn.
    pose proof (drop_spaces_length q) as Hd. pose proof (take_alpha_length (drop_spaces q)) as Ha.
    destruct (take_alpha (drop_spaces q)) as [u r']. simpl in Ha. destruct (add_unit u v to) as [[x|]|]; cbn; try done. intros [= _ <-]. lia.
Qed.

(** ** The loop *)

Inductive parts_run : bytes -> pg_interval -> bytes -> pg_interval -> Prop :=
  | run_none p to : parts_run p to p to
  | run_part p to to' r p' to'' : drop_spaces p <> [] -> interval_part (drop_spaces p) to = Some (None, to', r) ->
      parts_run r to' p' to'' -> parts_run p to p' to''.

(** How the loop stops: at the end of the text, at a part that is refused, or at
    an overflow. *)
Inductive loop_end (p : bytes) (to : pg_interval) : option (error_code * pg_interval) -> Prop :=
  | end_text : drop_spaces p = [] -> loop_end p to (Some (None, to))
  | end_error e to' r : drop_spaces p <> [] -> interval_part (drop_spaces p) to = Some (Some e, to', r) -> loop_end p to (Some (Some e, to'))
  | end_overflow : drop_spaces p <> [] -> interval_part (drop_spaces p) to = None -> loop_end p to None.

Lemma interval_loop_step fuel p to : interval_loop (S fuel) p to =
  match drop_spaces p with
  | [] => Some (None, to)
  | q => '(ec, to, r) ← interval_part q to; match ec with Some e => Some (Some e, to) | None => interval_loop fuel r to end
  end.
Proof. done. Qed.

Lemma interval_loop_run fuel : forall p to, (length p < fuel)%nat ->
  exists p' to', parts_run p to p' to' /\ loop_end p' to' (interval_loop fuel p to).
Proof.
  induction fuel as [|fuel IH]; intros p to Hf; [lia|]. rewrite interval_loop_step.
  pose proof (drop_spaces_length p) as Hl. destruct (drop_spaces p) as [|c q] eqn:E.
  { exists p, to. split; [constructor|by constructor]. }
  rewrite <- E in *. assert (drop_spaces p <> []) as Hn by (by rewrite E). destruct (interval_part (drop_spaces p) to) as [[[[e|] to'] r]|] eqn:Ep; cbn.
  - exists p, to. split; [constructor|by eapply end_error].
  - pose proof (interval_part_takes _ _ _ _ Ep). destruct (IH r to') as (p' & to'' & Hr & He); [lia|].
    exists p', to''. split; [by eapply run_part|done].
  - exists p, to. split; [constructor|by apply end_overflow].
Qed.

(** Reading an interval that is not empty always comes to an end: after
    finitely many parts that were read, at the end of the text, at a part that is
    refused (whose error is the result, with what was read before it already in
    the output), or at an overflow of the output's integers. *)
Theorem interval_loop_ends from :
  from = [] \/ exists p to, parts_run from (Interval 0 0 0) p to /\ loop_end p to (parse_text_interval from).
Proof.
  destruct from as [|c from]; [by left|]. right. apply interval_loop_run. lia.
Qed.

(** ** What PostgreSQL writes *)

(** A part: the number, with a plus sign if it is positive and the part before it
    was negative, and the unit, in the plural unless the number is 1. *)
Definition pg_sign (before : bool) (v : Z) : bytes := if v <? 0 then [ch "-"] else if before then [ch "+"] else [].

Definition pg_part (before : bool) (v : Z) (unit : bytes) : bytes :=
  pg_sign before v ++ pad (width (Z.abs v)) (Z.abs v) ++ ch " " :: unit ++ (if v =? 1 then [] else str "s").

(** The parts that are not zero, and whether the last one was negative. *)
Fixpoint pg_parts (before : bool) (l : list (Z * bytes)) : list bytes * bool :=
  match l with
  | [] => ([], before)
  | (v, unit) :: l' =>
      if v =? 0 then pg_parts before l' else let '(ts, b) := pg_parts (v <? 0) l' in (pg_part before v unit :: ts, b)
  end.

Fixpoint join (ts : list bytes) : bytes :=
  match ts with
  | [] => []
  | [t] => t
  | t :: ts' => t ++ ch " " :: join ts'
  end.

Definition pg_units (i : pg_interval) : list (Z * bytes) :=
  [(Z.quot (months i) 12, str "year"); (Z.rem (months i) 12, str "mon"); (days i, str "day")].

(** The time is written if it is not zero or if nothing else is. *)
Definition pg_interval_text (i : pg_interval) : bytes :=
  let '(ts, before) := pg_parts false (pg_units i) in
  let time := pg_sign before (time i) ++ pg_time (Z.abs (Datetime.time i)) in
  join (ts ++ (if bool_decide (ts = []) || negb (Datetime.time i =? 0) then [time] else [])).

(** ** Reading it *)

(** A text that is read as one part, whatever follows it. *)
Definition reads_part (s : bytes) (to to' : pg_interval) : Prop :=
  s <> [] /\ (forall c r, s = c :: r -> isspace c = false) /\
  forall r, (r = [] \/ exists q, r = ch " " :: q) -> interval_part (s ++ r) to = Some (None, to', r).

Inductive reads_parts : list bytes -> pg_interval -> pg_interval -> Prop :=
  | reads_nil to : reads_parts [] to to
  | reads_cons s ts to to1 to2 : reads_part s to to1 -> reads_parts ts to1 to2 -> reads_parts (s :: ts) to to2.

Lemma reads_parts_app ts ts' a b c : reads_parts ts a b -> reads_parts ts' b c -> reads_parts (ts ++ ts') a c.
Proof. induction 1; intros H'; [done|]. cbn [app]. eapply reads_cons; eauto. Qed.

Lemma interval_loop_space fuel p to : interval_loop fuel (ch " " :: p) to = interval_loop fuel p to.
Proof. by destruct fuel. Qed.

Lemma interval_loop_reads fuel s r to to' : reads_part s to to' -> (r = [] \/ exists q, r = ch " " :: q) ->
  interval_loop (S fuel) (s ++ r) to = interval_loop fuel r to'.
Proof.
  intros (Hn & Hs & Hr) He. rewrite interval_loop_step. rewrite drop_spaces_id.
  - specialize (Hr r He). destruct s as [|c s]; [done|]. cbn [app] in *. by rewrite Hr.
  - intros c q E. destruct s as [|c' s]; [done|]. injection E as -> _. by eapply Hs.
Qed.

Lemma interval_loop_join ts to to' : reads_parts ts to to' -> forall fuel, (length (join ts) < fuel)%nat ->
  interval_loop fuel (join ts) to = Some (None, to').
Proof.
  induction 1 as [to|s ts to to1 to2 Hs Hts IH]; intros [|fuel] Hf; try (simpl in Hf; lia); [done|].
  pose proof (proj1 Hs) as Hn. assert (0 < length s)%nat by (destruct s; simpl; done || lia).
  cbn [join] in *. destruct ts as [|t ts].
  - rewrite <- (app_nil_r s), (interval_loop_reads _ _ _ _ _ Hs) by (by left). inversion Hts; subst. destruct fuel; [lia|done].
  - rewrite (interval_loop_reads _ _ _ _ _ Hs) by (right; by eexists). rewrite interval_loop_space. apply IH.
    rewrite length_app in Hf. simpl in Hf |- *. lia.
Qed.

Lemma part_of_app a r : Forall (fun c => part_end c = false) a -> (r = [] \/ exists q, r = ch " " :: q) -> part_of (a ++ r) = a.
Proof.
  induction 1 as [|c a Hc _ IH]; intros Hr.
  - by destruct Hr as [->|[q ->]].
  - cbn [app part_of]. rewrite Hc. f_equal. by apply IH.
Qed.

(** What is not a digit of a number or its sign, and what is not an end. *)
Definition number_char (c : Z) : Prop := is_digit c = true \/ c = ch "+" \/ c = ch "-".

Lemma number_char_facts c : number_char c -> part_end c = false /\ (ch ":" =? c) = false /\ isspace c = false.
Proof.
  intros [H|[->| ->]]; [|done..]. unfold is_digit in H. change (ch "0") with 48 in H. change (ch "9") with 57 in H.
  unfold part_end, isspace. change (ch ":") with 58. lia.
Qed.

Lemma pg_sign_chars before v : Forall number_char (pg_sign before v).
Proof. unfold pg_sign, number_char. destruct (v <? 0); [|destruct before]; try (apply Forall_cons_iff; split; [tauto|]); constructor. Qed.

(** The sign that [take_sign] takes. *)
Lemma take_sign_pg before v p : starts_with_digit p ->
  take_sign (pg_sign before v ++ p) = ((if v <? 0 then -1 else 1), p).
Proof.
  intros (c & r & -> & Hc). unfold pg_sign. destruct (v <? 0); [done|]. destruct before; [done|]. cbn [app take_sign].
  assert ((c =? ch "-") = false /\ (c =? ch "+") = false) as [-> ->]; [|done].
  unfold is_digit in Hc. change (ch "0") with 48 in Hc. change (ch "9") with 57 in Hc. change (ch "-") with 45. change (ch "+") with 43. lia.
Qed.

Lemma existsb_forall_false {A} (f : A -> bool) l : Forall (fun a => f a = false) l -> existsb f l = false.
Proof. induction 1 as [|a l Ha _ IH]; [done|]. simpl. by rewrite Ha, IH. Qed.

Definition int32_text (v : Z) : Prop := -2147483647 <= v <= 2147483647.

Lemma pad_width_starts n : starts_with_digit (pad (width n) n).
Proof. destruct (pad_starts (width n) n) as (c & r & E & Hc); [apply width_pos|]. by exists c, r. Qed.

Lemma parse_int_pg before v rest : int32_text v ->
  parse_int (pg_sign before v ++ pad (width (Z.abs v)) (Z.abs v) ++ ch " " :: rest) = Some (Some (v, ch " " :: rest)).
Proof.
  intros Hv. unfold int32_text in Hv. pose proof (starts_app _ (ch " " :: rest) (pad_width_starts (Z.abs v))) as Hst.
  set (q := pad (width (Z.abs v)) (Z.abs v) ++ ch " " :: rest) in *. unfold parse_int.
  rewrite drop_spaces_id.
  2: { intros c r E. apply number_char_facts. pose proof (pg_sign_chars before v) as Hs. destruct (pg_sign before v) as [|c' s].
       - destruct Hst as (c' & r' & Eq & Hc). rewrite app_nil_l, Eq in E. injection E as -> _. by left.
       - injection E as -> _. by apply Forall_cons_iff in Hs as [? _]. }
  rewrite take_sign_pg by done. destruct (pg_sign before v ++ q) as [|c r] eqn:E.
  { destruct Hst as (c & r & Eq & _). rewrite Eq in E. by destruct (pg_sign before v). }
  unfold q. rewrite from_chars_digits by (apply all_digits_pad || apply pad_nonempty || by apply no_digit_cons).
  rewrite digits_value_width by (unfold decimal_range; change (10 ^ 21) with 1000000000000000000000; lia).
  rewrite (proj2 (fits_int32 (Z.abs v))) by lia.
  assert (Z.abs v * (if v <? 0 then -1 else 1) = v) as -> by (destruct (Z.ltb_spec v 0); lia).
  by rewrite (proj2 (fits_int32 v)) by lia.
Qed.

Lemma take_alpha_app u r : Forall (fun c => isalpha c = true) u -> (r = [] \/ exists q, r = ch " " :: q) -> take_alpha (u ++ r) = (u, r).
Proof.
  induction 1 as [|c u Hc _ IH]; intros Hr.
  - by destruct Hr as [->|[q ->]].
  - cbn [app take_alpha]. by rewrite Hc, IH.
Qed.

(** A unit of the text, after the number [v]. *)
Definition unit_word (v : Z) (unit : bytes) : bytes := unit ++ (if v =? 1 then [] else str "s").

Lemma unit_word_alpha v unit : Forall (fun c => isalpha c = true) unit -> Forall (fun c => isalpha c = true) (unit_word v unit).
Proof. intros H. apply Forall_app. split; [done|]. destruct (v =? 1); repeat constructor. Qed.

Lemma pg_part_reads before v unit to to' : int32_text v -> Forall (fun c => isalpha c = true) unit -> unit <> [] ->
  (forall c r, unit = c :: r -> isspace c = false) ->
  add_unit (unit_word v unit) v to = Some (Some to') -> reads_part (pg_part before v unit) to to'.
Proof.
  intros Hv Hu Hun Hus Ha. pose proof (pg_sign_chars before v) as Hs. unfold pg_part.
  assert (Forall number_char (pg_sign before v ++ pad (width (Z.abs v)) (Z.abs v))) as Hc.
  { apply Forall_app. split; [done|]. eapply List.Forall_impl; [|apply all_digits_pad]. intros c Hc. by left. }
  assert (pg_sign before v ++ pad (width (Z.abs v)) (Z.abs v) <> []) as Hne.
  { intros E. apply (pad_nonempty (Z.abs v)). by apply app_eq_nil in E as [_ E]. }
  split; [|split].
  - rewrite app_assoc. intros E. by apply app_eq_nil in E as [E _].
  - rewrite app_assoc. intros c r E. apply number_char_facts. destruct (pg_sign before v ++ _) as [|c' s]; [done|].
    injection E as -> _. by apply Forall_cons_iff in Hc as [? _].
  - intros r Hr. rewrite <- !app_assoc. cbn [app]. rewrite <- app_assoc. unfold interval_part.
    rewrite app_assoc, part_of_app, <- app_assoc; [|eapply List.Forall_impl; [|exact Hc]; intros c H; apply number_char_facts, H|right; by eexists].
    rewrite existsb_forall_false by (eapply List.Forall_impl; [|exact Hc]; intros c H; apply number_char_facts, H).
    rewrite parse_int_pg by done. cbn [mbind option_bind]. rewrite (app_assoc unit). fold (unit_word v unit).
    change (drop_spaces (ch " " :: unit_word v unit ++ r)) with (drop_spaces (unit_word v unit ++ r)).
    rewrite drop_spaces_id.
    + rewrite take_alpha_app by (done || by apply unit_word_alpha). by rewrite Ha.
    + intros c q E. unfold unit_word in E. destruct unit as [|c' unit]; [done|]. injection E as -> _. by eapply Hus.
Qed.

Lemma pg_parts_step before v unit l to to' ts b : pg_parts before ((v, unit) :: l) = (ts, b) ->
  (v = 0 -> to' = to) -> (v <> 0 -> reads_part (pg_part before v unit) to to') ->
  exists before' ts', pg_parts before' l = (ts', b) /\ forall to2, reads_parts ts' to' to2 -> reads_parts ts to to2.
Proof.
  cbn [pg_parts]. destruct (Z.eqb_spec v 0) as [->|Hv].
  - intros E H0 _. exists before, ts. split; [done|]. by rewrite H0.
  - destruct (pg_parts (v <? 0) l) as [ts' b'] eqn:El. intros [= <- <-] _ H1. exists (v <? 0), ts'. split; [done|].
    intros to2 H. eapply reads_cons; [by apply H1|done].
Qed.

(** The time at the end. *)
Lemma pg_time_reads before to t : Z.abs t <= us_per_day -> time to = 0 ->
  reads_part (pg_sign before t ++ pg_time (Z.abs t)) to (Interval (months to) (days to) t).
Proof.
  intros Ht Hz. pose proof (pg_time_starts (Z.abs t)) as Hst. pose proof (pg_sign_chars before t) as Hs.
  assert (Forall (fun c => isspace c = false /\ part_end c = false) (pg_sign before t ++ pg_time (Z.abs t))) as Hf.
  { apply Forall_app. split; [eapply List.Forall_impl; [|exact Hs]; intros c H; split; apply number_char_facts, H|].
    apply pg_time_forall; [|done..]. intros c Hc. assert (number_char c) as H by (by left). split; apply number_char_facts, H. }
  split; [|split].
  - intros E. apply app_eq_nil in E as [_ E]. by apply (digit_nonempty _ Hst).
  - intros c r E. rewrite E in Hf. apply Forall_cons_iff in Hf as [Hf _]. apply Hf.
  - intros r Hr. unfold interval_part. rewrite part_of_app; [|eapply List.Forall_impl; [|exact Hf]; by intros c []|done].
    assert (existsb (Z.eqb (ch ":")) (pg_sign before t ++ pg_time (Z.abs t)) = true) as ->.
    { apply existsb_exists. exists (ch ":"). split; [|done]. apply in_or_app. right. unfold pg_time. apply in_or_app. right. by left. }
    rewrite <- app_assoc, take_sign_pg by (by apply starts_app). cbn zeta.
    assert ((length (pg_sign before t ++ pg_time (Z.abs t)) - (length (pg_sign before t ++ pg_time (Z.abs t) ++ r) - length (pg_time (Z.abs t) ++ r)))%nat
      = length (pg_time (Z.abs t))) as -> by (rewrite !length_app; lia).
    rewrite (take_app_len (pg_time (Z.abs t))), (drop_app_len (pg_time (Z.abs t))) by done. rewrite parse_text_time_pg by (split; [lia|done]). cbn [mbind option_bind].
    assert (Z.abs t * (if t <? 0 then -1 else 1) = t) as -> by (destruct (Z.ltb_spec t 0); lia).
    unfold add_time. rewrite Hz, Z.add_0_l. unfold us_per_day, us_per_second in Ht.
    assert (fits int64 t = true) as ->; [|done]. apply fits_true. change (type_min int64) with (-9223372036854775808). change (type_max int64) with 9223372036854775807. lia.
Qed.

(** The intervals that the text can tell. *)
Definition pg_interval_ok (i : pg_interval) : Prop :=
  int_ok 4 (months i) /\ int32_text (days i) /\ Z.abs (time i) <= us_per_day.

Lemma add_unit_year v to : add_unit (unit_word v (str "year")) v to = (to ← add_months (v * 12) to; Some (Some to)).
Proof. unfold unit_word. by destruct (v =? 1). Qed.
Lemma add_unit_mon v to : add_unit (unit_word v (str "mon")) v to = (to ← add_months v to; Some (Some to)).
Proof. unfold unit_word. by destruct (v =? 1). Qed.
Lemma add_unit_day v to : add_unit (unit_word v (str "day")) v to = (to ← add_days v to; Some (Some to)).
Proof. unfold unit_word. by destruct (v =? 1). Qed.

Lemma add_months_fits n to : -2147483648 <= n <= 2147483647 -> -2147483648 <= months to + n <= 2147483647 ->
  add_months n to = Some (Interval (months to + n) (days to) (time to)).
Proof. intros H1 H2. unfold add_months. by rewrite (proj2 (fits_int32 _) H1), (proj2 (fits_int32 _) H2). Qed.

Lemma pg_parts_read i ts b : pg_interval_ok i -> pg_parts false (pg_units i) = (ts, b) ->
  reads_parts ts (Interval 0 0 0) (Interval (months i) (days i) 0).
Proof.
  destruct i as [mo d t]. intros (Hmo & Hd & _) E. unfold pg_units in E. cbn [months days time] in *.
  unfold int_ok in Hmo. simpl in Hmo.
  pose proof (Z.quot_rem mo 12 ltac:(lia)) as Eq. unfold int32_text in *.
  assert (Z.abs (Z.rem mo 12) < 12) as Hr by (apply Z.rem_bound_abs; lia).
  assert (-178956971 <= Z.quot mo 12 <= 178956971 /\ -2147483648 <= Z.quot mo 12 * 12 <= 2147483647) as [Hq Hq']
    by (Z.to_euclidean_division_equations; lia).
  apply (pg_parts_step _ _ _ _ (Interval 0 0 0) (Interval (Z.quot mo 12 * 12) 0 0)) in E as (b1 & ts1 & E & H1).
  2: { intros ->. done. }
  2: { intros _. apply pg_part_reads; [unfold int32_text; lia|repeat constructor|done|by intros ? ? [= <- _]|].
       rewrite add_unit_year, add_months_fits by (cbn [months]; lia). done. }
  apply (pg_parts_step _ _ _ _ (Interval (Z.quot mo 12 * 12) 0 0) (Interval mo 0 0)) in E as (b2 & ts2 & E & H2).
  2: { intros H0. f_equal. cbn [months] in H0. lia. }
  2: { intros _. cbn [months]. apply pg_part_reads; [unfold int32_text; lia|repeat constructor|done|by intros ? ? [= <- _]|].
       rewrite add_unit_mon, add_months_fits by (cbn [months]; lia). cbn. do 3 f_equal. lia. }
  apply (pg_parts_step _ _ _ _ (Interval mo 0 0) (Interval mo d 0)) in E as (b3 & ts3 & E & H3).
  2: { cbn [days]. intros ->. done. }
  2: { intros _. cbn [days]. apply pg_part_reads; [done|repeat constructor|done|by intros ? ? [= <- _]|].
       rewrite add_unit_day. unfold add_days. cbn [days months time]. by rewrite (proj2 (fits_int32 _)) by lia. }
  injection E as <- <-. apply H1, H2, H3. constructor.
Qed.



(** What PostgreSQL writes but the text parser refuses: an interval of more than
    24 hours, for the parser of times of day reads its time, and the least number
    of days, whose sign is taken off before the number is read.  The binary format
    has both. *)
Theorem interval_text_limits :
  parse_text_interval (str "100:00:00") = Some (Some (client protocol_value_error), Interval 0 0 0) /\
  parse_binary_interval (be_encode 8 360000000000 ++ be_encode 4 0 ++ be_encode 4 0) = Some (inr (Interval 0 0 360000000000)) /\
  pg_interval_text (Interval 0 (-2147483648) 0) = str "-2147483648 days" /\
  parse_text_interval (str "-2147483648 days") = Some (Some (client protocol_value_error), Interval 0 0 0) /\
  parse_text_interval (str "1 year 2 mons 25:00:00") = Some (Some (client protocol_value_error), Interval 14 0 0).
Proof. split_and!; vm_compute; reflexivity. Qed.
