(* ===== verification/ResultsetCallback.v ===== *)
(** * Rows as C++ objects ([include/nativepg/responses/resultset_callback.hpp],
    [include/nativepg/detail/row_traits.hpp])

    [resultset_callback_t<T, Callback>]: the handler that parses every row into an
    object of type [T] and calls the user's callback with it.  [T] is the list of
    its described members, a row the tuple of their values.  The callback is a
    function on a state of its own.  [None] is a failed assertion, or the
    [std::out_of_range] that [random_access_data_.at] throws. *)

From stdpp Require Import base list option sets.
From Stdlib Require Import ZArith Lia.
From S2P Require Import Prelude Errors Views BackendMessages Request CommandTag ReadResponse ReadResponseSpec ReadResponseGrammar Responses Resultsets Describe FieldTypes.

#[local] Open Scope Z_scope.

(** ** Row types *)

(** A described member: its name, its type and the type's traits, and the value
    that value initialisation gives it. *)
Record member := Member {
  mb_name : bytes;
  mb_type : Type;
  mb_init : mb_type;
  mb_traits : parse_field_traits mb_type
}.

Fixpoint row (ms : list member) : Type :=
  match ms with
  | [] => unit
  | m :: ms' => mb_type m * row ms'
  end%type.

Definition row_name_table (ms : list member) : list bytes := map mb_name ms.

(** [if (!ec) ec = ec2;] *)
Definition first_error (ec ec2 : error_code) : error_code := match ec with None => ec2 | Some _ => ec end.

(** ** The handler *)

Inductive callback_state := parsing_meta | parsing_data | callback_done.

Section handler.
Context {C : Type} (ms : list member) (invoke : row ms -> C -> C).

Record resultset_callback := RC {
rc_state : callback_state;
rc_pos_map : list pos_map_entry;
rc_err : extended_error;
rc_cb : C;
rc_info : option command_info
}.

Definition rc_store_error (ec : error_code) (h : resultset_callback) : resultset_callback :=
match code (rc_err h) with
| None => RC (rc_state h) (rc_pos_map h) (EE ec []) (rc_cb h) (rc_info h)
| Some _ => h
end.

(** The loop that checks the types of the fields. *)
Fixpoint check_types (l : list member) (pos_map : list pos_map_entry) : option error_code :=
match l, pos_map with
| [], _ => Some None
| m :: l', ent :: pos_map' =>
let ec2 := is_compatible (mb_traits m) (pm_type_oid ent) in
ec ← check_types l' pos_map';
Some (first_error ec2 ec)
| _ :: _, [] => None
end.

Definition on_row_description (msg : row_description) (h : resultset_callback) : option resultset_callback :=
match rc_state h with
| parsing_meta =>
'(ec, pos_map) ← compute_pos_map msg (row_name_table ms) (rc_pos_map h);
let h := RC parsing_data pos_map (rc_err h) (rc_cb h) (rc_info h) in
match ec with
| Some _ => Some (rc_store_error ec h)
| None =>
ec ← check_types ms pos_map;
Some (match ec with Some _ => rc_store_error ec h | None => h end)
end
| _ => None
end.

(** The loop over the members of a row. *)
Fixpoint parse_members (l : list member) (pos_map : list pos_map_entry) (random_access_data : list field_view)
: option (error_code * row l) :=
match l with
| [] => Some (None, tt)
| m :: l' =>
match pos_map with
| [] => None
| ent :: pos_map' =>
fv ← random_access_data !! Z.to_nat (db_index ent);
'(ec2, value) ←
(if pm_fmt_code ent =? fmt_text then parse_text (mb_traits m) fv (pm_type_oid ent) (mb_init m)
 else parse_binary (mb_traits m) fv (pm_type_oid ent) (mb_init m));
'(ec, values) ← parse_members l' pos_map' random_access_data;
Some (first_error ec2 ec, (value, values))
end
end.

Definition on_data_row (msg : data_row) (h : resultset_callback) : option resultset_callback :=
match rc_state h with
| parsing_data =>
match code (rc_err h) with
| Some _ => Some h
| None =>
random_access_data ← fpv_range (columns msg);
'(ec, r) ← parse_members ms (rc_pos_map h) random_access_data;
Some (match ec with
    | Some _ => rc_store_error ec h
    | None => RC (rc_state h) (rc_pos_map h) (rc_err h) (invoke r (rc_cb h)) (rc_info h)
    end)
end
| _ => None
end.

Definition on_done (h : resultset_callback) : option resultset_callback :=
match rc_state h with
| parsing_data => Some (RC callback_done (rc_pos_map h) (rc_err h) (rc_cb h) (rc_info h))
| _ => None
end.

Definition set_info (info : option command_info) (h : resultset_callback) : resultset_callback :=
RC (rc_state h) (rc_pos_map h) (rc_err h) (rc_cb h) info.

Definition callback_message (msg : any_request_message) (h : resultset_callback) : option resultset_callback :=
match msg with
| Aerror_response err => Some (RC (rc_state h) (rc_pos_map h) (maybe_store_error err (rc_err h)) (rc_cb h) (rc_info h))
| Aparse_complete | Abind_complete => Some h
| Arow_description d => on_row_description d h
| Adata_row r => on_data_row r h
| Acommand_complete v =>
on_done (set_info (match rc_info h with Some info => Some (from_command_complete info v) | None => None end) h)
| Aportal_suspended =>
on_done (set_info (match rc_info h with
             | Some info => Some (CI (command_complete_tag info) (affected_rows info) true)
             | None => None
             end) h)
| Amessage_skipped => Some (rc_store_error (Some (client step_skipped)) h)
| Aclose_complete | Aparameter_description _ | Aempty_query_response => None
end.

#[global] Instance resultset_callback_handler : ResponseHandler resultset_callback := {
setup req offset h :=
let info := match rc_info h with Some info => Some (reset_info info) | None => None end in
r ← resultset_setup req offset; Some (r, RC parsing_meta (rc_pos_map h) no_error (rc_cb h) info);
on_message msg _ h := callback_message msg h;
result := rc_err
}.

(** ** What the rows mean

The member of a name takes the last column of that name. *)
Fixpoint last_by {A} (p : A -> bool) (l : list A) : option A :=
match l with
| [] => None
| a :: l' => match last_by p l' with Some b => Some b | None => if p a then Some a else None end
end.

Definition named (name : bytes) (f : field_description) : bool := bool_decide (fd_name f = name).

(** The error of a description: a member without a column, or the first member,
in the order of the type, whose column has an incompatible type. *)
Fixpoint incompatible_member (l : list member) (fields : list field_description) : error_code :=
match l with
| [] => None
| m :: l' =>
match last_by (named (mb_name m)) fields with
| None => None
| Some f => first_error (is_compatible (mb_traits m) (type_oid f)) (incompatible_member l' fields)
end
end.

Definition description_error (fields : list field_description) : error_code :=
if bool_decide (Forall (fun name => name ∈ map fd_name fields) (row_name_table ms)) then incompatible_member ms fields
else Some (client field_not_found).

(** A row: every member parsed from its column in the column's type and format,
and the first error among them. *)
Fixpoint decode_row (l : list member) (fields : list field_description) (cols : list field_view)
: option (error_code * row l) :=
match l with
| [] => Some (None, tt)
| m :: l' =>
'(f, fv) ← last_by (fun c => named (mb_name m) c.1) (zip fields cols);
'(ec2, value) ← (if fmt_code f =? fmt_text then parse_text (mb_traits m) fv (type_oid f) (mb_init m)
           else parse_binary (mb_traits m) fv (type_oid f) (mb_init m));
'(ec, values) ← decode_row l' fields cols;
Some (first_error ec2 ec, (value, values))
end.

(** The callback is called with the rows up to the first that has an error. *)
Fixpoint deliver (fields : list field_description) (rows : list (list field_view)) (c : C) : option (error_code * C) :=
match rows with
| [] => Some (None, c)
| cols :: rows' =>
'(ec, r) ← decode_row ms fields cols;
match ec with
| Some _ => Some (ec, c)
| None => deliver fields rows' (invoke r c)
end
end.
End handler.

(** ** Traits that do not assert

    The contract between the handler and the traits of a type: once
    [is_compatible] has accepted an OID, parsing a field of it gives a result. *)

Class TotalTraits {T : Type} (traits : parse_field_traits T) := {
  total_text oid from to : is_compatible traits oid = None -> exists r, parse_text traits from oid to = Some r;
  total_binary oid from to : is_compatible traits oid = None -> exists r, parse_binary traits from oid to = Some r
}.

Lemma compatible_if_true b : compatible_if b = None -> b = true.
Proof. by destruct b. Qed.

Lemma non_null_total {T} from (to : T) k : (exists r, k = Some r) -> exists r, non_null from to k = Some r.
Proof. intros [r ->]. unfold non_null. destruct (is_null from); by eexists. Qed.

#[export] Instance simple_traits_total {T} accepts (text binary : field_view -> T -> error_code * T) :
  TotalTraits (simple_traits accepts text binary).
Proof.
  split; intros oid from to Hc%compatible_if_true; apply non_null_total; cbn in *; rewrite Hc; by eexists.
Qed.

#[export] Instance traits_int32_total : TotalTraits traits_int32.
Proof.
  split; intros oid from to Hc%compatible_if_true; apply non_null_total; cbn in *;
    (destruct (oid =? int2_oid); [by eexists|]; rewrite orb_false_r in Hc; rewrite Hc; by eexists).
Qed.

#[export] Instance traits_int64_total : TotalTraits traits_int64.
Proof.
  split; intros oid from to Hc%compatible_if_true; apply non_null_total; cbn in *;
    (destruct (oid =? int2_oid); [by eexists|]; destruct (oid =? int4_oid); [by eexists|];
     rewrite !orb_false_r in Hc; rewrite Hc; by eexists).
Qed.

#[export] Instance traits_optional_total {T} (init : T) traits : TotalTraits traits -> TotalTraits (traits_optional init traits).
Proof.
  intros Ht. split; intros oid from to Hc; cbn; unfold optional_parse; destruct (is_null from); try by eexists.
  - destruct (total_text oid from init Hc) as [[ec v] ->]. by eexists.
  - destruct (total_binary oid from init Hc) as [[ec v] ->]. by eexists.
Qed.

Definition total_member (m : member) : Prop := TotalTraits (mb_traits m).

(** ** Lemmas *)

Lemma last_by_none {A} (p : A -> bool) l : Forall (fun a => p a = false) l -> last_by p l = None.
Proof. induction 1 as [|a l Ha _ IH]; [done|]. cbn [last_by]. by rewrite IH, Ha. Qed.

Lemma last_by_app {A} (p : A -> bool) pre a post : p a = true -> Forall (fun a => p a = false) post ->
  last_by p (pre ++ a :: post) = Some a.
Proof.
  intros Ha Hp. induction pre as [|b pre IH]; cbn [app last_by]; [by rewrite last_by_none, Ha|]. by rewrite IH.
Qed.

(** The entries that [compute_pos_map] leaves for the members. *)
Definition maps_to (fields : list field_description) (m : member) (ent : pos_map_entry) : Prop :=
  exists pre f post, fields = pre ++ f :: post /\ fd_name f = mb_name m /\ Forall (fun f => fd_name f <> mb_name m) post /\
    ent = PME (Z.of_nat (length pre)) (type_oid f) (fmt_code f).

Lemma named_false name f : fd_name f <> name -> named name f = false.
Proof. intros H. unfold named. by rewrite bool_decide_eq_false_2. Qed.

Lemma maps_to_field fields m ent : maps_to fields m ent ->
  exists f, last_by (named (mb_name m)) fields = Some f /\ pm_type_oid ent = type_oid f /\ pm_fmt_code ent = fmt_code f.
Proof.
  intros (pre & f & post & -> & Hn & Hp & ->). exists f. split; [|done]. apply last_by_app.
  - unfold named. by rewrite bool_decide_eq_true_2.
  - eapply List.Forall_impl; [|exact Hp]. intros. by apply named_false.
Qed.

(** With at least as many columns as descriptions, the entry's column is there. *)
Lemma maps_to_column fields (cols : list field_view) m ent : maps_to fields m ent -> (length fields <= length cols)%nat ->
  exists f fv, last_by (fun c => named (mb_name m) c.1) (zip fields cols) = Some (f, fv) /\
    cols !! Z.to_nat (db_index ent) = Some fv /\ last_by (named (mb_name m)) fields = Some f /\
    pm_type_oid ent = type_oid f /\ pm_fmt_code ent = fmt_code f.
Proof.
  intros Hm Hl. destruct (maps_to_field _ _ _ Hm) as (f' & Hf' & Ho & Hc). destruct Hm as (pre & f & post & -> & Hn & Hp & ->).
  cbn [db_index pm_type_oid pm_fmt_code] in *. rewrite Nat2Z.id.
  assert (last_by (named (mb_name m)) (pre ++ f :: post) = Some f) as Hf.
  { apply last_by_app; [by apply bool_decide_eq_true_2|]. eapply List.Forall_impl; [|exact Hp]. intros. by apply named_false. }
  rewrite length_app in Hl. cbn [length] in Hl.
  destruct (lookup_lt_is_Some_2 cols (length pre)) as [fv Hfv]; [lia|]. exists f, fv. split; [|done].
  pose proof (take_drop_middle cols (length pre) fv Hfv) as <-.
  assert (length pre = length (take (length pre) cols)) as Elen by (rewrite length_take; lia).
  assert (zip (pre ++ f :: post) (take (length pre) cols ++ fv :: drop (S (length pre)) cols) =
    zip pre (take (length pre) cols) ++ (f, fv) :: zip post (drop (S (length pre)) cols)) as ->.
  { exact (zip_with_app pair pre (f :: post) (take (length pre) cols) (fv :: drop (S (length pre)) cols) Elen). }
  apply last_by_app; [by apply bool_decide_eq_true_2|]. clear -Hp. revert Hp. generalize (drop (S (length pre)) cols) as cs.
  induction post as [|g post IH]; intros cs Hp; [constructor|]. destruct cs as [|c cs]; [constructor|].
  apply Forall_cons_iff in Hp as [Hg Hp]. apply Forall_cons_iff. split; [by apply named_false|by apply IH].
Qed.

Lemma check_types_incompatible l fields pos_map : Forall2 (maps_to fields) l pos_map ->
  check_types l pos_map = Some (incompatible_member l fields).
Proof.
  induction 1 as [|m ent l pos_map Hm _ IH]; [done|]. cbn [check_types incompatible_member].
  destruct (maps_to_field _ _ _ Hm) as (f & -> & -> & _). by rewrite IH.
Qed.

Lemma incompatible_none m l fields : incompatible_member (m :: l) fields = None -> forall f,
  last_by (named (mb_name m)) fields = Some f -> is_compatible (mb_traits m) (type_oid f) = None /\ incompatible_member l fields = None.
Proof. cbn [incompatible_member]. intros H f Hf. rewrite Hf in H. unfold first_error in H. by destruct (is_compatible _ _). Qed.

(** The row is parsed, as the members say. *)
Lemma parse_members_decode l fields pos_map cols : Forall2 (maps_to fields) l pos_map -> Forall total_member l ->
  incompatible_member l fields = None -> (length fields <= length cols)%nat ->
  exists r, parse_members l pos_map cols = Some r /\ decode_row l fields cols = Some r.
Proof.
  intros Hm Ht Hi Hl. induction Hm as [|m ent l pos_map Hm _ IH]; [by exists (None, tt)|].
  apply Forall_cons_iff in Ht as [Htm Ht]. destruct (maps_to_column _ _ _ _ Hm Hl) as (f & fv & E1 & E2 & E3 & E4 & E5).
  destruct (incompatible_none _ _ _ Hi f E3) as [Hc Hi']. destruct (IH Ht Hi') as ([ec r] & H1 & H2).
  cbn [parse_members decode_row]. rewrite E1, E2, E4, E5. cbn [mbind option_bind].
  unfold total_member in Htm. destruct (fmt_code f =? fmt_text).
  - destruct (total_text (type_oid f) fv (mb_init m) Hc) as [[ec2 v] ->]. cbn. rewrite H1, H2. by eexists.
  - destruct (total_binary (type_oid f) fv (mb_init m) Hc) as [[ec2 v] ->]. cbn. rewrite H1, H2. by eexists.
Qed.

(** What the description leaves. *)
Lemma compute_pos_map_maps l d fields output : NoDup (row_name_table l) -> length output = length l ->
  fpv_range (field_descriptions d) = Some fields -> Z.of_nat (length fields) < SIZE_MAX ->
  exists pos_map, 
    (if bool_decide (Forall (fun name => name ∈ map fd_name fields) (row_name_table l))
     then compute_pos_map d (row_name_table l) output = Some (None, pos_map) /\ Forall2 (maps_to fields) l pos_map
     else compute_pos_map d (row_name_table l) output = Some (Some (client field_not_found), pos_map)).
Proof.
  intros Hnd Hl Hf Hs. assert (length output = length (row_name_table l)) as Hl' by (unfold row_name_table; by rewrite length_map).
  destruct (compute_pos_map_spec d _ output fields Hnd Hl' Hf Hs) as (ec & out & E & Hec & Hmap). exists out.
  assert (length out = length l) as Hlo.
  { unfold compute_pos_map in E. rewrite Hl', Nat.eqb_refl, Hf in E. injection E as _ <-. by rewrite map_fields_length, length_map. }
  case_bool_decide as Hall; [|by rewrite E, Hec]. rewrite E, Hec. split; [done|].
  apply Forall2_same_length_lookup. split; [done|]. intros i m ent Hm He.
  assert (row_name_table l !! i = Some (mb_name m)) as Hn by (unfold row_name_table; by rewrite list_lookup_fmap, Hm).
  destruct (last_occurrence (mb_name m) fields) as [Hnone|(pre & f & post & -> & Hfn & Hp)].
  - exfalso. rewrite Forall_forall in Hall. pose proof (Hall _ (list_elem_of_lookup_2 _ _ _ Hn)) as Hin.
    apply list_elem_of_fmap in Hin as (f & Ef & Hin). rewrite Forall_forall in Hnone. by apply (Hnone f Hin).
  - exists pre, f, post. split_and!; [done..|]. rewrite (Hmap i _ pre f post Hn eq_refl Hfn Hp) in He. by injection He as <-.
Qed.

(** ** Properties *)

Section delivery.
Context {C : Type} (ms : list member) (invoke : row ms -> C -> C).

#[local] Abbreviation handler := (@resultset_callback C).
#[local] Existing Instance resultset_callback_handler.

Fixpoint run (cs : list any_request_message) (h : handler) : option handler :=
match cs with
| [] => Some h
| c :: cs' => h ← callback_message ms invoke c h; run cs' h
end.

Lemma run_cons c cs h : run (c :: cs) h = (h ← callback_message ms invoke c h; run cs h).
Proof. done. Qed.

Lemma run_app cs cs' : forall h, run (cs ++ cs') h = (h ← run cs h; run cs' h).
Proof. induction cs as [|c cs IH]; intros h; [done|]. cbn [app run]. destruct (callback_message ms invoke c h); [apply IH|done]. Qed.

Lemma replay_run tr : forall h : handler, @replay _ (resultset_callback_handler ms invoke) tr h = run (map snd tr) h.
Proof.
induction tr as [|[i c] tr IH]; intros h; [done|]. cbn [map snd replay]. rewrite run_cons. cbn [on_message resultset_callback_handler].
destruct (callback_message ms invoke c h) as [h1|]; [|done]. apply IH.
Qed.

(** After the description, the rows are skipped if there is an error, and
delivered otherwise. *)
Lemma run_rows_error rows h e : rc_state h = parsing_data -> code (rc_err h) = Some e -> run (map Adata_row rows) h = Some h.
Proof.
intros Hs He. induction rows as [|r rows IH]; [done|]. cbn [map]. rewrite run_cons. cbn [callback_message].
unfold on_data_row. rewrite Hs, He. apply IH.
Qed.

(** The rows, as lists of columns, none shorter than the description. *)
Definition rows_columns (fields : list field_description) (rows : list data_row) (cols : list (list field_view)) : Prop :=
Forall2 (fun r cs => fpv_range (columns r) = Some cs /\ (length fields <= length cs)%nat) rows cols.

Lemma run_rows fields rows cols : rows_columns fields rows cols -> forall h,
Forall2 (maps_to fields) ms (rc_pos_map h) -> Forall total_member ms -> incompatible_member ms fields = None ->
rc_state h = parsing_data -> rc_err h = no_error ->
exists ec c, deliver ms invoke fields cols (rc_cb h) = Some (ec, c) /\
run (map Adata_row rows) h = Some (RC parsing_data (rc_pos_map h) (EE ec []) c (rc_info h)).
Proof.
induction 1 as [|r cs rows cols [Hr Hl] _ IH]; intros h Hm Ht Hi Hs He.
- exists None, (rc_cb h). split; [done|]. cbn. destruct h. cbn in *. by subst.
- destruct (parse_members_decode _ _ _ cs Hm Ht Hi Hl) as ([ec v] & Hp & Hd).
cbn [map deliver]. rewrite run_cons, Hd. cbn [callback_message mbind option_bind]. unfold on_data_row. rewrite Hs, He. cbn [code no_error].
rewrite Hr. cbn [mbind option_bind]. rewrite Hp. cbn [mbind option_bind]. destruct ec as [e|].
+ exists (Some e), (rc_cb h). split; [done|]. unfold rc_store_error. rewrite He. cbn [code no_error].
rewrite (run_rows_error _ _ e) by done. by rewrite Hs.
+ destruct (IH (RC (rc_state h) (rc_pos_map h) (rc_err h) (invoke v (rc_cb h)) (rc_info h)) Hm Ht Hi Hs He)
as (ec & c & H1 & H2). cbn [rc_cb rc_pos_map rc_info] in *. exists ec, c. rewrite Hs, He in H2. by split.
Qed.

(** What may come before the description. *)
Definition ignored_call (c : any_request_message) : Prop := c = Aparse_complete \/ c = Abind_complete.

Lemma run_ignored pre h : Forall ignored_call pre -> run pre h = Some h.
Proof. induction 1 as [|c pre [->| ->] _ IH]; [done|..]; rewrite run_cons; apply IH. Qed.

(** The outcome: the error of the description, before any row; otherwise the rows
up to the first with an error. *)
Definition delivered (fields : list field_description) (cols : list (list field_view)) (c : C) : option (error_code * C) :=
match description_error ms fields with
| Some e => Some (Some e, c)
| None => deliver ms invoke fields cols c
end.

Lemma run_description fields d rows cols h : NoDup (row_name_table ms) -> length (rc_pos_map h) = length ms ->
Forall total_member ms -> fpv_range (field_descriptions d) = Some fields -> Z.of_nat (length fields) < SIZE_MAX ->
rows_columns fields rows cols -> rc_state h = parsing_meta -> rc_err h = no_error ->
exists ec c pos_map, delivered fields cols (rc_cb h) = Some (ec, c) /\
run (Arow_description d :: map Adata_row rows) h = Some (RC parsing_data pos_map (EE ec []) c (rc_info h)).
Proof.
intros Hnd Hl Ht Hf Hlen Hr Hs He. destruct (compute_pos_map_maps ms d fields _ Hnd Hl Hf Hlen) as (pos_map & Hc).
rewrite run_cons. cbn [callback_message]. unfold on_row_description, delivered, description_error. rewrite Hs.
case_bool_decide as Hall.
- destruct Hc as [-> Hm]. cbn [mbind option_bind]. rewrite (check_types_incompatible _ _ _ Hm). cbn [mbind option_bind].
destruct (incompatible_member ms fields) as [e|] eqn:Ei.
+ exists (Some e), (rc_cb h), pos_map. split; [done|]. unfold rc_store_error. cbn [rc_err rc_state rc_pos_map rc_cb rc_info]. rewrite He. by rewrite (run_rows_error _ _ e).
+ destruct (run_rows fields rows cols Hr (RC parsing_data pos_map (rc_err h) (rc_cb h) (rc_info h)) Hm Ht Ei eq_refl He)
as (ec & c & H1 & H2). exists ec, c, pos_map. by split.
- rewrite Hc. cbn [mbind option_bind]. exists (Some (client field_not_found)), (rc_cb h), pos_map. split; [done|].
unfold rc_store_error. cbn [rc_err rc_state rc_pos_map rc_cb rc_info]. rewrite He. by rewrite (run_rows_error _ _ (client field_not_found)).
Qed.

(** The rows of a resultset reach the user's callback as objects, and only
good ones.  For members with different names whose traits do not assert, on the
calls of a resultset (completions of the steps before, a description, rows that
are no shorter than it, the command tag) the handler never fails.  If a name has
no column, or the column's type is not compatible, that is the result and no
row is delivered; otherwise every member is parsed from the last column of its
name, in its type and format, and the callback is called with the rows in order
up to the first that cannot be parsed, whose error is the result. *)
Theorem rows_delivered fields d rows cols pre tag tr h : NoDup (row_name_table ms) -> length (rc_pos_map h) = length ms ->
Forall total_member ms -> fpv_range (field_descriptions d) = Some fields -> Z.of_nat (length fields) < SIZE_MAX ->
rows_columns fields rows cols -> rc_state h = parsing_meta -> rc_err h = no_error -> Forall ignored_call pre ->
map snd tr = pre ++ Arow_description d :: map Adata_row rows ++ [Acommand_complete tag] ->
exists ec c h', delivered fields cols (rc_cb h) = Some (ec, c) /\
@replay _ (resultset_callback_handler ms invoke) tr h = Some h' /\
rc_err h' = EE ec [] /\ rc_cb h' = c /\ rc_state h' = callback_done /\
rc_info h' = (info ← rc_info h; Some (from_command_complete info tag)).
Proof.
intros Hnd Hl Ht Hf Hlen Hr Hs He Hpre Htr.
destruct (run_description fields d rows cols h Hnd Hl Ht Hf Hlen Hr Hs He) as (ec & c & pos_map & Hd & Hrun).
rewrite replay_run, Htr, run_app, run_ignored by done. cbn [mbind option_bind].
change (Arow_description d :: map Adata_row rows ++ [Acommand_complete tag])
with ((Arow_description d :: map Adata_row rows) ++ [Acommand_complete tag]).
rewrite run_app, Hrun. cbn [mbind option_bind]. exists ec, c. eexists. split; [done|]. split; [reflexivity|].
by split_and!.
Qed.
End delivery.

(** A row type with a member of another order, and one that may be null. *)
Definition sample_members : list member :=
  [Member (str "n") (option Z) None (traits_optional 0 traits_int32); Member (str "id") Z 0 traits_int64].

(** A callback that collects the rows. *)
Definition collect (r : row sample_members) (rs : list (row sample_members)) : list (row sample_members) := rs ++ [r].

Definition sample_handler : resultset_callback :=
  RC parsing_meta (repeat (PME 0 0 0) 2) no_error ([] : list (row sample_members)) (Some (CI [] None false)).

Definition sample_calls : trace :=
  [(0%nat, Aparse_complete); (1%nat, Abind_complete); (2%nat, Arow_description sample_description);
   (3%nat, Adata_row (sample_row (Some (str "7")) None)); (3%nat, Adata_row (sample_row (Some (str "8")) (Some (str "-9"))));
   (3%nat, Adata_row (sample_row None None)); (3%nat, Adata_row (sample_row (Some (str "1")) None));
   (3%nat, Acommand_complete {| tag := str "SELECT 4" |})].

Lemma rows_delivered_witness :
  exists h', @replay _ (resultset_callback_handler sample_members collect) sample_calls sample_handler = Some h' /\
    rc_err h' = EE (Some (client unexpected_null)) [] /\ rc_cb h' = [(None, (7, tt)); (Some (-9), (8, tt))] /\
    rc_info h' = Some (CI (str "SELECT 4") (Some 4) false).
Proof.
  destruct (rows_delivered sample_members collect [sample_column (str "id"); sample_column (str "n")] sample_description
    [sample_row (Some (str "7")) None; sample_row (Some (str "8")) (Some (str "-9")); sample_row None None; sample_row (Some (str "1")) None]
    [[Some (str "7"); None]; [Some (str "8"); Some (str "-9")]; [None; None]; [Some (str "1"); None]]
    [Aparse_complete; Abind_complete] {| tag := str "SELECT 4" |} sample_calls sample_handler)
    as (ec & c & h' & Hd & Hr & He & Hc & _ & Hi).
  - apply (bool_decide_unpack _). vm_compute. exact I.
  - reflexivity.
  - constructor; [|constructor; [|constructor]]; unfold total_member; apply _.
  - vm_compute. reflexivity.
  - vm_compute. reflexivity.
  - repeat constructor; vm_compute; reflexivity.
  - reflexivity.
  - reflexivity.
  - constructor; [by left|constructor; [by right|constructor]].
  - reflexivity.
  - vm_compute in Hd. injection Hd as <- <-. exists h'. split; [exact Hr|]. split; [exact He|]. split; [exact Hc|].
    rewrite Hi. vm_compute. reflexivity.
Defined.

(** What the handler cannot take, although a server may send it: the second
    resultset of a simple query with several statements, and an empty query, fail
    assertions; a row with fewer columns than its description makes [at] throw out
    of the handler. *)
Theorem callback_fails (invoke : row sample_members -> list (row sample_members) -> list (row sample_members)) d v h rest :
  @feed _ (resultset_callback_handler sample_members invoke)
    (Mrow_description sample_description :: Mcommand_complete v :: Mrow_description d :: rest)
    (make_fsm (Req [] [rt_query] true) sample_handler false) = None /\
  callback_message sample_members invoke Aempty_query_response h = None /\
  @feed _ (resultset_callback_handler sample_members invoke)
    (Mrow_description sample_description :: Mdata_row {| columns := FPV 1 (items_enc [Some (str "7")]) |} :: rest)
    (make_fsm (Req [] [rt_query] true) sample_handler false) = None.
Proof. split_and!; [vm_compute; reflexivity|reflexivity|vm_compute; reflexivity]. Qed.
