(* ===== verification/NotificationQueue.v ===== *)
(** * The queue of notifications
    ([src/src/nativepg_internal/notification_queue.hpp], and its use in
    [src/src/co_multiplexed_connection.cpp])

    A multiplexed connection reports notifications, connects and disconnects to a
    consumer through [notification_queue], with backpressure on the notifications.
    The events of the library are flags: [wait] on one that is set completes at
    once, on another it suspends the task until it is set. *)

From stdpp Require Import base list option relations.
From Stdlib Require Import ZArith Lia.
From S2P Require Import Prelude Errors BackendMessages.

Inductive notification_event_type := ev_notify | ev_connect | ev_disconnect.

#[global] Instance notification_event_type_eq_dec : EqDecision notification_event_type.
Proof. solve_decision. Defined.

Record notification_event := NE {
  ne_type : notification_event_type;
  ne_backend_pid : Z;
  ne_channel : bytes;
  ne_payload : bytes
}.

(** [{.type = t}]: the other members have their default values. *)
Definition event_of (t : notification_event_type) : notification_event := NE t 0 [] [].

Definition notify_of (msg : notification_response) : notification_event :=
  NE ev_notify (nr_process_id msg) (channel_name msg) (payload msg).

Record notification_queue := NQ {
  max_pending_ : nat;
  pending_ : list notification_event;
  events_available_ : bool;
  space_available_ : bool
}.

(** The constructor asserts that there is room for something. *)
Definition make_queue (max_pending : nat) : option notification_queue :=
  if (max_pending =? 0)%nat then None else Some (NQ max_pending [] false true).

Definition has_space (q : notification_queue) : bool := (length (pending_ q) <? max_pending_ q)%nat.

Definition add_event (evt : notification_event) (q : notification_queue) : notification_queue :=
  let q := NQ (max_pending_ q) (pending_ q ++ [evt]) (events_available_ q) (space_available_ q) in
  NQ (max_pending_ q) (pending_ q) true (if negb (has_space q) then false else space_available_ q).

Definition add_connect : notification_queue -> notification_queue := add_event (event_of ev_connect).

(** Whether the last element is a connect. *)
Definition last_is_connect (l : list notification_event) : bool :=
  match last l with Some e => bool_decide (ne_type e = ev_connect) | None => false end.

Definition add_disconnect (q : notification_queue) : notification_queue :=
  if last_is_connect (pending_ q) then
    let q := NQ (max_pending_ q) (removelast (pending_ q)) (events_available_ q) (space_available_ q) in
    NQ (max_pending_ q) (pending_ q) (match pending_ q with [] => false | _ => events_available_ q end)
      (if has_space q then true else space_available_ q)
  else add_event (event_of ev_disconnect) q.

Definition do_add_notification (msg : notification_response) : notification_queue -> notification_queue :=
  add_event (notify_of msg).

(** [None] is the result [false]. *)
Definition try_add_notify (msg : notification_response) (q : notification_queue) : option notification_queue :=
  if has_space q then Some (do_add_notification msg q) else None.

(** What a task that waits in a loop does: it goes on, it is suspended, or it runs
    around the loop for ever. *)
Inductive waiting (A : Type) := Ready (a : A) | Suspended | Spinning.
Arguments Ready {A} _.
Arguments Suspended {A}.
Arguments Spinning {A}.

(** [while (!condition) co_await event.wait()] *)
Definition wait_until {A} (condition event : bool) (result : A) : waiting A :=
  if condition then Ready result else if event then Spinning else Suspended.

Definition add_notify (msg : notification_response) (q : notification_queue) : waiting notification_queue :=
  wait_until (has_space q) (space_available_ q) (do_add_notification msg q).

(** The events move to the consumer's vector, whose old contents are cleared. *)
Definition read_events (q : notification_queue) : waiting (notification_queue * list notification_event) :=
  wait_until (match pending_ q with [] => false | _ => true end) (events_available_ q)
    (NQ (max_pending_ q) [] false true, pending_ q).

(** What the reader of the connection does with a notification. *)
Definition deliver_notification (msg : notification_response) (q : notification_queue) : waiting notification_queue :=
  match try_add_notify msg q with
  | Some q' => Ready q'
  | None => add_notify msg q
  end.

(** ** A connection and a consumer

    The connection adds a connect when it is established, the notifications it
    reads while it is, and a disconnect when it is lost; the consumer reads at any
    time.  [sent] is everything the connection has added, [taken] what the consumer
    was given. *)
Inductive session : nat -> notification_queue -> bool -> list notification_event -> list notification_event -> Prop :=
| sn_start n q : make_queue n = Some q -> session n q false [] []
| sn_connect n q taken sent : session n q false taken sent ->
    session n (add_connect q) true taken (sent ++ [event_of ev_connect])
| sn_disconnect n q taken sent : session n q true taken sent ->
    session n (add_disconnect q) false taken (sent ++ [event_of ev_disconnect])
| sn_notify n q q' msg taken sent : session n q true taken sent -> deliver_notification msg q = Ready q' ->
    session n q' true taken (sent ++ [notify_of msg])
| sn_read n q q' c events taken sent : session n q c taken sent -> read_events q = Ready (q', events) ->
    session n q' c (taken ++ events) sent.

(** A connect and the disconnect that follows it are dropped. *)
Inductive drop_cycle : list notification_event -> list notification_event -> Prop :=
| drop_here l l' : drop_cycle (l ++ event_of ev_connect :: event_of ev_disconnect :: l') (l ++ l').

(** What a consumer knows after some events: whether the connection is up, if they
    make sense. *)
Fixpoint connected_after (up : bool) (l : list notification_event) : option bool :=
  match l with
  | [] => Some up
  | e :: l =>
      match ne_type e, up with
      | ev_notify, true => connected_after true l
      | ev_connect, false => connected_after true l
      | ev_disconnect, true => connected_after false l
      | _, _ => None
      end
  end.

(** ** Lemmas *)

Lemma connected_app l1 : forall up l2, connected_after up (l1 ++ l2) = (up' ← connected_after up l1; connected_after up' l2).
Proof.
  induction l1 as [|e l1 IH]; intros up l2; [done|]. cbn [connected_after app].
  destruct (ne_type e), up; by rewrite ?IH.
Qed.

Lemma last_is_connect_spec l : last_is_connect l = true -> exists l' e, l = l' ++ [e] /\ ne_type e = ev_connect /\ removelast l = l'.
Proof.
  unfold last_is_connect. destruct l as [|x l _] using rev_ind; [done|]. rewrite last_snoc, removelast_last.
  intros He%bool_decide_eq_true. eauto.
Qed.

Lemma last_is_connect_snoc l e : last_is_connect (l ++ [e]) = bool_decide (ne_type e = ev_connect).
Proof. unfold last_is_connect. by rewrite last_snoc. Qed.

Lemma drop_cycle_app l1 l2 l3 : drop_cycle l1 l2 -> drop_cycle (l1 ++ l3) (l2 ++ l3).
Proof. intros [l l']. rewrite <- !app_assoc. simpl. apply drop_here. Qed.

Lemma drop_cycles_app l1 l2 l3 : rtc drop_cycle l1 l2 -> rtc drop_cycle (l1 ++ l3) (l2 ++ l3).
Proof. induction 1; [done|]. eapply rtc_l; [by apply drop_cycle_app|done]. Qed.

(** The flags say what they stand for. *)
Definition flags_ok (q : notification_queue) : Prop :=
  (events_available_ q = true <-> pending_ q <> []) /\ space_available_ q = has_space q.

Lemma add_event_flags e q : flags_ok q -> flags_ok (add_event e q).
Proof.
  intros [_ Hs]. unfold flags_ok, add_event, has_space in *. simpl. split; [by split; [intros _; by destruct (pending_ q)|]|].
  rewrite length_app. simpl. destruct (Nat.ltb_spec (length (pending_ q) + 1) (max_pending_ q)); simpl; [|done].
  rewrite Hs. apply Nat.ltb_lt. lia.
Qed.

Lemma add_disconnect_flags q : flags_ok q -> flags_ok (add_disconnect q).
Proof.
  intros Hf. unfold add_disconnect. destruct (last_is_connect (pending_ q)) eqn:El; [|by apply add_event_flags].
  apply last_is_connect_spec in El as (l & e & Hp & _ & Hr). destruct Hf as [He Hs].
  unfold flags_ok, has_space in *. simpl. rewrite Hr. rewrite Hp in *. rewrite length_app in Hs. simpl in Hs. split.
  - destruct l as [|x l]; [done|]. split; [done|]. intros _. by apply He.
  - destruct (Nat.ltb_spec (length l) (max_pending_ q)); [done|]. rewrite Hs. apply Nat.ltb_ge. lia.
Qed.

(** How long the queue can be: two events more than what notifications may fill. *)
Definition length_bound (n : nat) (up : bool) (l : list notification_event) : nat :=
  if up then if last_is_connect l then n + 2 else n else n + 1.

(** The invariant of a session. *)
Record session_inv (n : nat) (q : notification_queue) (up : bool) (taken sent : list notification_event) : Prop := {
  si_max : max_pending_ q = n;
  si_pos : (0 < n)%nat;
  si_flags : flags_ok q;
  si_length : (length (pending_ q) <= length_bound n up (pending_ q))%nat;
  si_dropped : rtc drop_cycle sent (taken ++ pending_ q);
  si_events : connected_after false (taken ++ pending_ q) = Some up;
  si_connects : Forall (fun e => ne_type e <> ev_notify -> e = event_of (ne_type e)) (pending_ q)
}.

(** An event that fits where the session is. *)
Lemma add_event_inv n q up up' taken sent e : session_inv n q up taken sent -> connected_after up [e] = Some up' ->
  (length (pending_ q) < length_bound n up' (pending_ q ++ [e]))%nat -> (ne_type e <> ev_notify -> e = event_of (ne_type e)) ->
  session_inv n (add_event e q) up' taken (sent ++ [e]).
Proof.
  intros [Hm Hn Hf Hl Hd He Hc] Hup Hlen Hev. split; cbn [add_event max_pending_ pending_]; [done|done|by apply add_event_flags|..].
  - rewrite length_app. simpl. lia.
  - rewrite app_assoc. by apply drop_cycles_app.
  - rewrite app_assoc, connected_app, He. exact Hup.
  - apply Forall_app. by split; [|apply Forall_cons].
Qed.

Lemma add_disconnect_inv n q taken sent : session_inv n q true taken sent ->
  session_inv n (add_disconnect q) false taken (sent ++ [event_of ev_disconnect]).
Proof.
  intros Hi. pose proof Hi as [Hm Hn Hf Hl Hd He Hc]. unfold add_disconnect. destruct (last_is_connect (pending_ q)) eqn:El.
  - pose proof (add_disconnect_flags q Hf) as Hf'. unfold add_disconnect in Hf'. rewrite El in Hf'.
    unfold length_bound in Hl. rewrite El in Hl. apply last_is_connect_spec in El as (l & e & Hp & Ht & Hr).
    rewrite Hp in Hd, He, Hc, Hl. rewrite Hr in *. apply Forall_app in Hc as [Hc Hce]; apply Forall_inv in Hce. rewrite length_app in Hl. simpl in Hl.
    cbn beta in Hce. rewrite Ht in Hce. rewrite Hce in Hd, He by done. split; [done|done|exact Hf'|..]; cbn [pending_].
    + simpl. lia.
    + etrans; [by apply drop_cycles_app|]. apply rtc_once. rewrite (app_assoc taken l), <- app_assoc. simpl.
      rewrite <- (app_nil_r (taken ++ l)) at 2. apply drop_here.
    + rewrite app_assoc, connected_app in He. destruct (connected_after false (taken ++ l)) as [[]|]; [done|done|done].
    + done.
  - apply (add_event_inv n q true false taken sent); [done..| |done]. unfold length_bound in *. rewrite El in Hl. lia.
Qed.

Lemma deliver_notification_adds msg q q' : deliver_notification msg q = Ready q' -> has_space q = true /\ q' = add_event (notify_of msg) q.
Proof.
  unfold deliver_notification, try_add_notify, add_notify, wait_until. destruct (has_space q); [by intros [= <-]|].
  by destruct (space_available_ q).
Qed.

Lemma session_preserved n q up taken sent : session n q up taken sent -> session_inv n q up taken sent.
Proof.
  induction 1 as [n q Hq|n q taken sent _ IH|n q taken sent _ IH|n q q' msg taken sent _ IH Hd|n q q' c evs taken sent _ IH Hr].
  - unfold make_queue in Hq. destruct (Nat.eqb_spec n 0); [done|]. injection Hq as <-. split; simpl; try done; try (unfold length_bound; simpl; lia).
    split; [done|]. unfold has_space. simpl. symmetry. apply Nat.ltb_lt. lia.
  - apply (add_event_inv n q false true taken sent); [done|done| |done]. unfold length_bound. rewrite last_is_connect_snoc.
    pose proof (si_length _ _ _ _ _ IH) as Hl. unfold length_bound in Hl. simpl. lia.
  - by apply add_disconnect_inv.
  - apply deliver_notification_adds in Hd as [Hs ->]. apply (add_event_inv n q true true taken sent); [done|done| |done].
    unfold length_bound. rewrite last_is_connect_snoc. unfold has_space in Hs. rewrite (si_max _ _ _ _ _ IH) in Hs.
    apply Nat.ltb_lt in Hs. done.
  - unfold read_events, wait_until in Hr. destruct (pending_ q) eqn:Ep; [by destruct (events_available_ q)|]. injection Hr as <- <-.
    rewrite <- Ep. destruct IH as [Hm Hn Hf Hl Hd He Hc]. split; cbn [max_pending_ pending_]; rewrite ?app_nil_r; try done; [|simpl; lia].
    split; [done|]. unfold has_space. simpl. symmetry. apply Nat.ltb_lt. lia.
Qed.

(** C24: The consumer of the notifications sees all of them, in order, and the queue
    stays small.  Whatever the order in which the connection goes up and down, is
    notified and the consumer reads: what the consumer has been given and what is
    queued is what the connection reported, less connects that were directly
    followed by a disconnect; it has every notification; it is a sensible history,
    which ends in the actual state of the connection; the queue never holds more
    than two events over its limit; and the flags tell the truth, so that no task
    spins and none sleeps while it could go on. *)
Theorem notifications_delivered n q up taken sent : session n q up taken sent ->
  let seen := taken ++ pending_ q in
  rtc drop_cycle sent seen /\
  filter (fun e => ne_type e = ev_notify) seen = filter (fun e => ne_type e = ev_notify) sent /\
  connected_after false seen = Some up /\ (length (pending_ q) <= n + 2)%nat /\
  (events_available_ q = true <-> pending_ q <> []) /\ (space_available_ q = true <-> (length (pending_ q) < n)%nat) /\
  read_events q <> Spinning /\ forall msg, deliver_notification msg q <> Spinning.
Proof.
  intros Hs. apply session_preserved in Hs as [Hm Hn [Hfe Hfs] Hl Hd He _]. cbn zeta. split_and!; [done| |done| |done|..].
  - clear -Hd. induction Hd as [|? ? ? [l l'] _ IH]; [done|]. rewrite IH, !filter_app. done.
  - unfold length_bound in Hl. repeat case_match; lia.
  - rewrite Hfs. unfold has_space. rewrite Hm. apply Nat.ltb_lt.
  - unfold read_events, wait_until. destruct (pending_ q); [|done]. destruct (events_available_ q); [|done]. by destruct Hfe as [[] _].
  - intros msg. unfold deliver_notification, try_add_notify, add_notify, wait_until. rewrite Hfs. by destruct (has_space q).
Qed.

(** Up, a notification that the consumer reads, down, up and down again. *)
Definition sample_notification : notification_response :=
  {| nr_process_id := 42; channel_name := str "jobs"; payload := str "7" |}.

Lemma notifications_delivered_witness : exists q sent,
  session 1 q false [event_of ev_connect] sent /\
  rtc drop_cycle sent [event_of ev_connect; notify_of sample_notification; event_of ev_disconnect] /\
  (length (pending_ q) <= 1 + 2)%nat.
Proof.
  assert (session 1 (NQ 1 [notify_of sample_notification; event_of ev_disconnect] true false) false [event_of ev_connect]
    [event_of ev_connect; notify_of sample_notification; event_of ev_disconnect; event_of ev_connect; event_of ev_disconnect]) as Hs.
  { apply (sn_disconnect 1 (NQ 1 [notify_of sample_notification; event_of ev_disconnect; event_of ev_connect] true false) _ [_; _; _; _]).
    apply (sn_connect 1 (NQ 1 [notify_of sample_notification; event_of ev_disconnect] true false) _ [_; _; _]).
    apply (sn_disconnect 1 (NQ 1 [notify_of sample_notification] true false) _ [_; _]).
    refine (sn_notify 1 (NQ 1 [] false true) _ sample_notification _ [_] _ _); [|reflexivity].
    refine (sn_read 1 (NQ 1 [event_of ev_connect] true false) _ _ _ [] _ _ _); [|reflexivity].
    apply (sn_connect 1 (NQ 1 [] false true) [] []). by apply sn_start. }
  destruct (notifications_delivered _ _ _ _ _ Hs) as (Hd & _ & _ & Hl & _).
  eexists _, _. split; [exact Hs|]. split; [exact Hd|exact Hl].
Defined.
