(* ===== verification/Pool.v ===== *)
(** * The connection pool
    ([src/src/nativepg_internal/connection_pool/sansio_connection_node.hpp],
    [connection_node.hpp], [connection_pool_impl.hpp], [check_pool_params.hpp],
    [include/nativepg/co_connection_pool.hpp], [src/src/co_connection_pool.cpp])

    The pool is a set of tasks on one thread: [run], a task per connection, and a
    task per call of [get_connection].  A definition is what a task does between two
    suspensions, on the state they share; [pool_step] makes any task that can go on
    do so.  What the I/O operations report, and when, is an input.  A connection is
    its position in [all_conns_].  [None] is a failed assertion.

    The timer [idle_connections_cv] is used as a condition variable: [Timer] is
    which of its waiters [cancel_one] completes. *)

From stdpp Require Import base list option.
From Stdlib Require Import ZArith Lia.
From S2P Require Import Prelude Errors Startup.

#[local] Open Scope Z_scope.

(** ** Parameters *)

Record pool_params := PP {
  transport : connect_params;
  initial_size : Z;
  max_size : Z;
  connect_timeout : Z;
  retry_interval : Z;
  ping_interval : Z;
  ping_timeout : Z
}.

(** The message of the [std::invalid_argument], if there is one. *)
Definition check_pool_params (params : pool_params) : option bytes :=
  if max_size params =? 0 then Some (str "pool_params::max_size must be greater than zero")
  else if max_size params <? initial_size params then
    Some (str "pool_params::max_size must be greater than pool_params::initial_size")
  else if connect_timeout params <? 0 then Some (str "pool_params::connect_timeout must not be negative")
  else if retry_interval params <=? 0 then Some (str "pool_params::retry_interval must be greater than zero")
  else if ping_interval params <? 0 then Some (str "pool_params::ping_interval must not be negative")
  else if ping_timeout params <? 0 then Some (str "pool_params::ping_timeout must not be negative")
  else None.

(** ** The state machine of a connection *)

Inductive node_status :=
| ns_initial | connect_in_progress | sleep_connect_failed_in_progress | reset_in_progress | ping_in_progress
| ns_idle | in_use | terminated.

#[global] Instance node_status_eq_dec : EqDecision node_status.
Proof. solve_decision. Defined.

Inductive next_connection_action := act_none | act_connect | act_sleep_connect_failed | act_idle_wait | act_reset | act_ping.

#[global] Instance next_connection_action_eq_dec : EqDecision next_connection_action.
Proof. solve_decision. Defined.

Inductive collection_state := collect_none | needs_collect | needs_collect_with_reset.

#[global] Instance collection_state_eq_dec : EqDecision collection_state.
Proof. solve_decision. Defined.

Definition is_pending (status : node_status) : bool :=
  match status with ns_initial | ns_idle | in_use | terminated => false | _ => true end.

Definition status_to_action (status : node_status) : next_connection_action :=
  match status with
  | connect_in_progress => act_connect
  | sleep_connect_failed_in_progress => act_sleep_connect_failed
  | ping_in_progress => act_ping
  | reset_in_progress => act_reset
  | ns_idle | in_use => act_idle_wait
  | _ => act_none
  end.

(** What [sansio_connection_node<Derived>] asks of [Derived]. *)
Class NodeHooks (S : Type) := {
  entering_idle : S -> S;
  exiting_idle : S -> S;
  entering_pending : S -> S;
  exiting_pending : S -> S
}.

Section sansio_connection_node.
Context {S : Type} `{!NodeHooks S}.

(** The node is its status, the hooks act on [s]. *)
Definition set_status (new_status : node_status) (x : node_status * S) : next_connection_action * (node_status * S) :=
let '(status, s) := x in
let s :=
if bool_decide (new_status = ns_idle) && negb (bool_decide (status = ns_idle)) then entering_idle s
else if negb (bool_decide (new_status = ns_idle)) && bool_decide (status = ns_idle) then exiting_idle s
else s in
let s :=
if negb (is_pending status) && is_pending new_status then entering_pending s
else if is_pending status && negb (is_pending new_status) then exiting_pending s
else s in
(status_to_action new_status, (new_status, s)).

Definition mark_as_in_use (x : node_status * S) : option (node_status * S) :=
if bool_decide (fst x = ns_idle) then Some (snd (set_status in_use x)) else None.

Definition cancel (x : node_status * S) : node_status * S := snd (set_status terminated x).

Definition resume (ec : error_code) (col_st : collection_state) (x : node_status * S)
: next_connection_action * (node_status * S) :=
match fst x with
| ns_initial => set_status connect_in_progress x
| connect_in_progress =>
match ec with Some _ => set_status sleep_connect_failed_in_progress x | None => set_status ns_idle x end
| sleep_connect_failed_in_progress => set_status connect_in_progress x
| ns_idle => set_status ping_in_progress x
| in_use =>
match col_st with
| needs_collect => set_status ns_idle x
| needs_collect_with_reset => set_status reset_in_progress x
| collect_none => (act_idle_wait, x)
end
| ping_in_progress | reset_in_progress =>
match ec with Some _ => set_status connect_in_progress x | None => set_status ns_idle x end
| terminated => (act_none, x)
end.
End sansio_connection_node.

(** [num_connections_to_create], on values of [size_t]. *)
Definition num_connections_to_create (initial_size max_size current_connections pending_connections pending_requests : Z)
  : option Z :=
  if (initial_size <=? max_size) && (current_connections <=? max_size) && (pending_connections <=? current_connections) then
    let required_by_requests := if pending_requests >? pending_connections then pending_requests - pending_connections else 0 in
    let required_by_min := if current_connections <? initial_size then initial_size - current_connections else 0 in
    let room := max_size - current_connections in
    Some (Z.min (Z.max required_by_requests required_by_min) room)
  else None.

(** [++] and [--] of [size_t]. *)
Definition increment (n : Z) : Z := if n =? SIZE_MAX then 0 else n + 1.
Definition decrement (n : Z) : Z := if n =? 0 then SIZE_MAX else n - 1.

(** ** The state the connections share *)

(** One of the waiters, and the others. *)
Class Timer := wake : list nat -> option (nat * list nat).

(** What the documentation says of [cancel_one]: it completes one wait, if any. *)
Class TimerLaws {timer : Timer} := {
  wake_none l : wake l = None -> l = [];
  wake_some l t l' : wake l = Some (t, l') -> t :: l' ≡ₚ l
}.

(** The tasks whose wait is pending, and those whose wait has completed and that
    have not been resumed. *)
Record conn_shared_state := CSS {
  idle_list : list nat;
  waiting : list nat;
  woken : list nat;
  num_pending_connections : Z;
  num_pending_requests : Z;
  num_running_connections : Z;
  conns_finished : bool
}.

Definition on_connection_start (s : conn_shared_state) : conn_shared_state :=
  CSS (idle_list s) (waiting s) (woken s) (num_pending_connections s) (num_pending_requests s)
    (increment (num_running_connections s)) (conns_finished s).

Definition on_connection_finish (s : conn_shared_state) : conn_shared_state :=
  let n := decrement (num_running_connections s) in
  CSS (idle_list s) (waiting s) (woken s) (num_pending_connections s) (num_pending_requests s) n
    (if n =? 0 then true else conns_finished s).

Section timer.
Context {timer : Timer}.

Definition set_idle (l : list nat) (s : conn_shared_state) : conn_shared_state :=
CSS l (waiting s) (woken s) (num_pending_connections s) (num_pending_requests s) (num_running_connections s) (conns_finished s).

Definition set_num_pending (n : Z) (s : conn_shared_state) : conn_shared_state :=
CSS (idle_list s) (waiting s) (woken s) n (num_pending_requests s) (num_running_connections s) (conns_finished s).

(** The tasks of the timer and the counter of the requests. *)
Definition set_tasks (ws wk : list nat) (n : Z) (s : conn_shared_state) : conn_shared_state :=
CSS (idle_list s) ws wk (num_pending_connections s) n (num_running_connections s) (conns_finished s).

(** [idle_connections_cv.cancel_one()] *)
Definition cancel_one (s : conn_shared_state) : conn_shared_state :=
match wake (waiting s) with
| Some (t, ws) => set_tasks ws (t :: woken s) (num_pending_requests s) s
| None => s
end.

(** The hooks of the connection [i]. *)
Definition node_hooks (i : nat) : NodeHooks conn_shared_state := {|
entering_idle s := cancel_one (set_idle (idle_list s ++ [i]) s);
exiting_idle s := set_idle (List.remove Nat.eq_dec i (idle_list s)) s;
entering_pending s := set_num_pending (increment (num_pending_connections s)) s;
exiting_pending s := set_num_pending (decrement (num_pending_connections s)) s
|}.

(** ** The task of a connection *)

Inductive node_task := not_started | doing (act : next_connection_action) | finished.

#[global] Instance node_task_eq_dec : EqDecision node_task.
Proof. solve_decision. Defined.

Record connection_node := CN {
status_ : node_status;
collection_state_ : collection_state;
collection_ev_ : bool;
task_ : node_task
}.

Definition node_resume (i : nat) (ec : error_code) (col_st : collection_state) (n : connection_node) (s : conn_shared_state)
: next_connection_action * connection_node * conn_shared_state :=
let '(act, (status, s)) := @resume _ (node_hooks i) ec col_st (status_ n, s) in
(act, CN status (collection_state_ n) (collection_ev_ n) (task_ n), s).

Definition with_task (t : node_task) (n : connection_node) : connection_node :=
CN (status_ n) (collection_state_ n) (collection_ev_ n) t.

(** The loop of [run], up to the next operation; [stop] is [stop_requested()].
A reset does nothing, and does not suspend. *)
Fixpoint node_loop (fuel : nat) (i : nat) (act : next_connection_action) (stop : bool) (n : connection_node)
(s : conn_shared_state) : option (connection_node * conn_shared_state) :=
match fuel with
| O => None
| Datatypes.S fuel' =>
if stop then Some (with_task finished n, on_connection_finish s)
else
match act with
| act_reset =>
let '(act, n, s) := node_resume i None collect_none n s in
node_loop fuel' i act stop n s
| act_none => Some (with_task finished n, on_connection_finish s)
| _ => Some (with_task (doing act) n, s)
end
end.

(** [run], up to the first operation. *)
Definition node_start (i : nat) (stop : bool) (n : connection_node) (s : conn_shared_state) :=
let s := on_connection_start s in
let '(act, n, s) := node_resume i None collect_none n s in
node_loop 2 i act stop n s.

(** The operation [act] has completed with [ec]. *)
Definition node_continue (i : nat) (act : next_connection_action) (ec : error_code) (stop : bool) (n : connection_node)
(s : conn_shared_state) :=
let '(n, col_st) :=
match act with
| act_idle_wait => (CN (status_ n) collect_none false (task_ n), collection_state_ n)
| _ => (n, collect_none)
end in
let '(act, n, s) := node_resume i ec col_st n s in
node_loop 2 i act stop n s.

Definition mark_as_collectable (should_reset : bool) (n : connection_node) : connection_node :=
CN (status_ n) (if should_reset then needs_collect_with_reset else needs_collect) true (task_ n).

(** ** The pool *)

Inductive pool_state := pool_initial | pool_running | pool_cancelled.

(** Where [run] is: not called, waiting for [connections_needed_], waiting for the
connections to finish, or returned. *)
Inductive run_task := run_none | run_waiting | run_finishing | run_returned.

(** [held] is which connections the valid [pooled_connection]s point to. *)
Record pool := Pool {
pl_params : pool_params;
pl_state : pool_state;
all_conns_ : list connection_node;
shared_st_ : conn_shared_state;
cancel_ev_ : bool;
connections_needed_ : bool;
run_ : run_task;
held : list nat
}.

Definition make_pool (params : pool_params) : bytes + pool :=
match check_pool_params params with
| Some msg => inl msg
| None => inr (Pool params pool_initial [] (CSS [] [] [] 0 0 0 false) false false run_none [])
end.

Definition set_nodes (conns : list connection_node) (s : conn_shared_state) (p : pool) : pool :=
Pool (pl_params p) (pl_state p) conns s (cancel_ev_ p) (connections_needed_ p) (run_ p) (held p).

Definition set_shared (s : conn_shared_state) (p : pool) : pool := set_nodes (all_conns_ p) s p.

Definition set_held (l : list nat) (p : pool) : pool :=
Pool (pl_params p) (pl_state p) (all_conns_ p) (shared_st_ p) (cancel_ev_ p) (connections_needed_ p) (run_ p) l.

Definition set_needed (b : bool) (p : pool) : pool :=
Pool (pl_params p) (pl_state p) (all_conns_ p) (shared_st_ p) (cancel_ev_ p) b (run_ p) (held p).

Definition create_connection (p : pool) : pool :=
set_nodes (all_conns_ p ++ [CN ns_initial collect_none false not_started]) (shared_st_ p) p.

Definition create_connections (p : pool) : option pool :=
let size := Z.of_nat (length (all_conns_ p)) in
n ← num_connections_to_create (initial_size (pl_params p)) (max_size (pl_params p)) size
(num_pending_connections (shared_st_ p)) (num_pending_requests (shared_st_ p));
if size + n <=? max_size (pl_params p) then Some (Nat.iter (Z.to_nat n) create_connection p) else None.

(** The wait of the task [t] on the timer begins. *)
Definition enter_request_pending (t : nat) (p : pool) : pool :=
let s := shared_st_ p in
set_needed true (set_shared (set_tasks (waiting s ++ [t]) (woken s) (increment (num_pending_requests s)) s) p).

(** The wait of [t] is over. *)
Definition exit_request_pending (t : nat) (p : pool) : option pool :=
let s := shared_st_ p in
if num_pending_requests s >? 0 then
Some (set_shared (set_tasks (waiting s) (List.remove Nat.eq_dec t (woken s)) (decrement (num_pending_requests s)) s) p)
else None.

Definition try_get_connection (p : pool) : option (pool * option nat) :=
match idle_list (shared_st_ p) with
| [] => Some (p, None)
| i :: _ =>
n ← all_conns_ p !! i;
'(status, s) ← @mark_as_in_use _ (node_hooks i) (status_ n, shared_st_ p);
Some (set_nodes (<[i := CN status (collection_state_ n) (collection_ev_ n) (task_ n)]> (all_conns_ p)) s p, Some i)
end.

(** What [get_connection] does next: it returns a connection or an error, or waits. *)
Inductive get_result := Got (i : nat) | Got_canceled | Waits.

(** [if (auto* node = try_get_connection()) co_return ...], or what follows. *)
Definition try_get_or (p : pool) (otherwise : pool -> pool * get_result) : option (pool * get_result) :=
'(p, res) ← try_get_connection p;
Some (match res with
| Some i => (set_held (i :: held p) p, Got i)
| None => otherwise p
end).

Definition is_cancelled (p : pool) : bool := match pl_state p with pool_cancelled => true | _ => false end.

Definition get_connection (t : nat) (p : pool) : option (pool * get_result) :=
if is_cancelled p then Some (p, Got_canceled)
else try_get_or p (fun p => (enter_request_pending t p, Waits)).

(** The rest of the body of its loop. *)
Definition get_connection_woken (t : nat) (stop : bool) (p : pool) : option (pool * get_result) :=
p ← exit_request_pending t p;
if is_cancelled p then Some (p, Got_canceled)
else try_get_or p (fun p => if stop then (p, Got_canceled) else (enter_request_pending t p, Waits)).

Definition set_run (st : pool_state) (r : run_task) (p : pool) : pool :=
Pool (pl_params p) st (all_conns_ p) (shared_st_ p) (cancel_ev_ p) (connections_needed_ p) r (held p).

(** [run], up to its first wait. *)
Definition run_start (p : pool) : option pool :=
match pl_state p with
| pool_initial => create_connections (set_run pool_running run_waiting p)
| _ => None
end.

(** More connections are needed. *)
Definition run_needed (p : pool) : option pool := create_connections (set_needed false p).

(** The wait was cancelled.  When the timer expires all its waits complete. *)
Definition run_cancelled (p : pool) : pool :=
let s := shared_st_ p in
let s := set_tasks [] (waiting s ++ woken s) (num_pending_requests s) s in
Pool (pl_params p) pool_cancelled (all_conns_ p) s true (connections_needed_ p)
(match all_conns_ p with [] => run_returned | _ => run_finishing end) (held p).

(** ** Steps *)

Inductive pool_op :=
| op_run | op_needed | op_cancel | op_run_returns
| op_start (i : nat) (stop : bool)
| op_continue (i : nat) (ec : error_code) (stop : bool)
| op_get (t : nat)
| op_woken (t : nat) (stop : bool)
| op_stop (t : nat)
| op_return (i : nat) (should_reset : bool).

(** What a task of the connection [i] does. *)
Definition node_step (i : nat) (f : connection_node -> conn_shared_state -> option (connection_node * conn_shared_state))
(p : pool) : option (pool * get_result) :=
n ← all_conns_ p !! i;
'(n, s) ← f n (shared_st_ p);
Some (set_nodes (<[i := n]> (all_conns_ p)) s p, Waits).

(** [Waits] is also the result of the steps of other tasks. *)
Definition pool_step (op : pool_op) (p : pool) : option (pool * get_result) :=
match op with
| op_run => p ← run_start p; Some (p, Waits)
| op_needed => p ← run_needed p; Some (p, Waits)
| op_cancel => Some (run_cancelled p, Waits)
| op_run_returns => Some (set_run (pl_state p) run_returned p, Waits)
| op_start i stop => node_step i (node_start i stop) p
| op_continue i ec stop =>
node_step i (fun n => match task_ n with doing act => node_continue i act ec stop n | _ => fun _ => None end) p
| op_get t => get_connection t p
| op_woken t stop => get_connection_woken t stop p
| op_stop t =>
let s := shared_st_ p in
Some (set_shared (set_tasks (List.remove Nat.eq_dec t (waiting s)) (t :: woken s) (num_pending_requests s) s) p, Waits)
| op_return i should_reset =>
n ← all_conns_ p !! i;
Some (set_held (List.remove Nat.eq_dec i (held p))
  (set_nodes (<[i := mark_as_collectable should_reset n]> (all_conns_ p)) (shared_st_ p) p), Waits)
end.

(** Which task can go on.  A stop is requested of a connection when [cancel_ev_] has
been set, which ends the [when_any] it is in; a wait on [collection_ev_] succeeds
when it is set, and may fail at any time, since it has a timeout.  There are less
than 2^64 tasks, [run] is called once, and users return connections they have. *)
Definition enabled (op : pool_op) (p : pool) : Prop :=
let s := shared_st_ p in
match op with
| op_run => run_ p = run_none
| op_needed => run_ p = run_waiting /\ connections_needed_ p = true
| op_cancel => run_ p = run_waiting
| op_run_returns => run_ p = run_finishing /\ conns_finished s = true
| op_start i stop => exists n, all_conns_ p !! i = Some n /\ task_ n = not_started /\ (stop = true -> cancel_ev_ p = true)
| op_continue i ec stop =>
exists n act, all_conns_ p !! i = Some n /\ task_ n = doing act /\ (stop = true -> cancel_ev_ p = true) /\
(act = act_idle_wait -> ec = None -> collection_ev_ n = true)
| op_get t => (t ∉ waiting s ++ woken s) /\ Z.of_nat (length (waiting s ++ woken s)) < SIZE_MAX
| op_woken t stop => t ∈ woken s
| op_stop t => t ∈ waiting s
| op_return i should_reset => i ∈ held p
end.

(** The states a pool can be in. *)
Inductive reachable (params : pool_params) : pool -> Prop :=
| rc_start p : make_pool params = inr p -> reachable params p
| rc_step p op p' res : reachable params p -> enabled op p -> pool_step op p = Some (p', res) -> reachable params p'.
End timer.

(** Waits complete in the order they began. *)
#[export] Instance fifo_timer : Timer := fun l => match l with [] => None | t :: l' => Some (t, l') end.

#[export] Instance fifo_timer_laws : TimerLaws.
Proof. split; [by intros []|]. by intros [|? ?] t l'; [done|intros [= -> ->]]. Qed.
