(* ===== verification/PoolSpec.v ===== *)
(** * The connection pool is exact
    ([src/src/nativepg_internal/connection_pool/])

    The invariant of the pool of [Pool], over every interleaving of its tasks: the
    counters count, the list of idle connections lists them, no connection is given
    to two users, nobody sleeps while there is a connection for them. *)

From stdpp Require Import base list option.
From Stdlib Require Import ZArith Lia.
From S2P Require Import Prelude Errors Startup Pool.

#[local] Open Scope Z_scope.

(** ** What the hooks maintain *)

Definition pending_node (n : connection_node) : bool := is_pending (status_ n).

(** A connection on its way. *)
Definition coming_node (n : connection_node) : bool :=
  match status_ n with ns_initial => true | st => is_pending st end.

Record hooks_inv (conns : list connection_node) (s : conn_shared_state) : Prop := {
  hi_size : Z.of_nat (length conns) <= SIZE_MAX;
  hi_nodup : NoDup (idle_list s);
  hi_idle i : i ∈ idle_list s <-> status_ <$> conns !! i = Some ns_idle;
  hi_pending : num_pending_connections s = Z.of_nat (count pending_node conns);
  hi_tasks : NoDup (waiting s ++ woken s);
  hi_wakeup : waiting s = [] \/ (length (idle_list s) <= length (woken s))%nat
}.

(** What the steps of a connection leave alone. *)
Record same_rest (s s' : conn_shared_state) : Prop := {
  sr_requests : num_pending_requests s' = num_pending_requests s;
  sr_running : num_running_connections s' = num_running_connections s;
  sr_finished : conns_finished s' = conns_finished s;
  sr_tasks : waiting s' ++ woken s' ≡ₚ waiting s ++ woken s;
  sr_waiting : (length (waiting s') <= length (waiting s))%nat
}.

#[global] Instance same_rest_preorder : PreOrder same_rest.
Proof.
  split; [by split|]. intros s1 s2 s3 [A1 A2 A3 A4 A5] [B1 B2 B3 B4 B5]. split; [congruence..| |lia]. by rewrite B4.
Qed.

(** Each waiting task has a connection on its way. *)
Definition supplied (conns : list connection_node) (s : conn_shared_state) : Prop :=
  (length (waiting s) <= count coming_node conns)%nat.

Section hooks.
Context {timer : Timer} {laws : TimerLaws}.

Lemma cancel_one_spec s : (waiting s = [] /\ cancel_one s = s) \/
exists t ws, t :: ws ≡ₚ waiting s /\ cancel_one s = set_tasks ws (t :: woken s) (num_pending_requests s) s.
Proof.
unfold cancel_one. destruct (wake (waiting s)) as [[t ws]|] eqn:Ew; [right|left].
- exists t, ws. split; [by apply wake_some|done].
- split; [by apply wake_none|done].
Qed.

(** A connection becomes idle: one of the tasks that wait is woken. *)
Lemma entering_idle_ok conns s i n n' : hooks_inv conns s -> conns !! i = Some n -> status_ n <> ns_idle -> status_ n' = ns_idle ->
pending_node n' = false ->
let s' := @entering_idle _ (node_hooks i) s in
hooks_inv (<[i := n']> conns) (set_num_pending (Z.of_nat (count pending_node (<[i := n']> conns))) s') /\ same_rest s s' /\
num_pending_connections s' = num_pending_connections s /\
(waiting s = [] \/ S (length (waiting s')) = length (waiting s)).
Proof.
intros [Hs Hn Hi Hp Ht Hw] Hl Hst Hst' _. cbn [node_hooks entering_idle].
set (s0 := set_idle (idle_list s ++ [i]) s). assert (i ∉ idle_list s) as Hni by (rewrite Hi, Hl; simpl; congruence).
assert (NoDup (idle_list s ++ [i])) as Hnd.
{ apply list.NoDup_app. split_and!; [done| |apply NoDup_singleton]. by intros j Hj ->%list_elem_of_singleton. }
assert (forall j, j ∈ idle_list s ++ [i] <-> status_ <$> <[i := n']> conns !! j = Some ns_idle) as Hj.
{ intros j. rewrite elem_of_app, list_elem_of_singleton. destruct (decide (j = i)) as [->|Hne].
- rewrite list_lookup_insert_eq by (by eapply lookup_lt_Some). simpl. rewrite Hst'. split; [done|by right].
- rewrite list_lookup_insert_ne, Hi by done. tauto. }
destruct (cancel_one_spec s0) as [[Hw0 ->]|(t & ws & Hperm & ->)]; simpl in *.
- split; [|by split; [split|split; [|left]]]. split; simpl; try done; [by rewrite length_insert|by left].
- assert (ws ++ t :: woken s ≡ₚ waiting s ++ woken s) as Ha by (rewrite <- Hperm; by rewrite <- Permutation_middle).
assert (S (length ws) = length (waiting s)) as Hlen by (by rewrite <- Hperm).
split; [|split; [|split; [done|by right]]].
+ split; simpl; try done; [by rewrite length_insert|by rewrite Ha|]. right. rewrite length_app. simpl.
destruct Hw as [Hw|Hw]; [by rewrite Hw in Hlen|lia].
+ split; simpl; [done..|lia].
Qed.

Lemma leaving_idle_ok conns s i n n' : hooks_inv conns s -> conns !! i = Some n -> status_ n' <> ns_idle ->
let s' := set_idle (List.remove Nat.eq_dec i (idle_list s)) s in
hooks_inv (<[i := n']> conns) (set_num_pending (Z.of_nat (count pending_node (<[i := n']> conns))) s').
Proof.
intros [Hs Hn Hi Hp Ht Hw] Hl Hst'. split; simpl; try done.
- by rewrite length_insert.
- by apply NoDup_remove_eq.
- intros j. rewrite elem_of_remove. destruct (decide (j = i)) as [->|Hne].
+ rewrite list_lookup_insert_eq by (by eapply lookup_lt_Some). simpl. split; [by intros []|by intros [= ?]].
+ rewrite list_lookup_insert_ne, Hi by done. tauto.
- destruct Hw as [Hw|Hw]; [by left|right]. etrans; [apply List.remove_length_le|done].
Qed.

(** The counter of pending connections, after a change of status. *)
Lemma set_status_pending conns i n n' (s : conn_shared_state) : conns !! i = Some n ->
Z.of_nat (length conns) <= SIZE_MAX -> num_pending_connections s = Z.of_nat (count pending_node conns) ->
let s' := if negb (pending_node n) && pending_node n' then @entering_pending _ (node_hooks i) s
else if pending_node n && negb (pending_node n') then @exiting_pending _ (node_hooks i) s else s in
s' = set_num_pending (Z.of_nat (count pending_node (<[i := n']> conns))) s.
Proof.
intros Hl Hs Hp. pose proof (count_insert pending_node conns i n n' Hl) as Hc.
pose proof (count_le pending_node (<[i := n']> conns)) as Hle. rewrite length_insert in Hle.
destruct s as [l1 l2 l3 np nr nc fin]. cbn in *. unfold set_num_pending, increment, decrement. simpl.
destruct (pending_node n), (pending_node n'); simpl in *; f_equal; try lia.
- destruct (Z.eqb_spec np 0); lia.
- destruct (Z.eqb_spec np SIZE_MAX); lia.
Qed.

Lemma same_idle_ok conns s i n n' : hooks_inv conns s -> conns !! i = Some n -> (status_ n = ns_idle <-> status_ n' = ns_idle) ->
hooks_inv (<[i := n']> conns) (set_num_pending (Z.of_nat (count pending_node (<[i := n']> conns))) s).
Proof.
intros [Hs Hn Hi Hp Ht Hw] Hl Hst. split; simpl; try done; [by rewrite length_insert|].
intros j. rewrite Hi. destruct (decide (j = i)) as [->|Hne]; [|by rewrite list_lookup_insert_ne].
rewrite list_lookup_insert_eq by (by eapply lookup_lt_Some). rewrite Hl. simpl. destruct Hst. split; intros [= ?]; f_equal; auto.
Qed.

(** Connections on their way, after a change of status. *)
Lemma supplied_insert conns s s' i n n' : conns !! i = Some n -> (length (waiting s') <= length (waiting s))%nat ->
(coming_node n = true -> coming_node n' = true \/ waiting s = [] \/ S (length (waiting s')) = length (waiting s)) ->
supplied conns s -> supplied (<[i := n']> conns) s'.
Proof.
unfold supplied. intros Hl Hw Hc Hs. pose proof (count_insert coming_node conns i n n' Hl) as Hcount.
destruct (coming_node n); [destruct (Hc eq_refl) as [Hc'|[Hc'|Hc']]|]; rewrite ?Hc' in *; simpl in *; lia.
Qed.

(** Any change of status keeps what the hooks maintain. *)
Lemma set_status_ok conns s i n n' act st' s' : hooks_inv conns s -> conns !! i = Some n ->
@set_status _ (node_hooks i) (status_ n') (status_ n, s) = (act, (st', s')) ->
act = status_to_action (status_ n') /\ st' = status_ n' /\ hooks_inv (<[i := n']> conns) s' /\ same_rest s s' /\
((coming_node n = true -> coming_node n' = true \/ status_ n' = ns_idle) -> supplied conns s -> supplied (<[i := n']> conns) s').
Proof.
intros Hi Hl Hset. unfold set_status in Hset. pose proof (hi_size _ _ Hi) as Hs. pose proof (hi_pending _ _ Hi) as Hp.
assert (forall s1, num_pending_connections s1 = num_pending_connections s ->
(act, (st', s')) = (status_to_action (status_ n'), (status_ n', set_num_pending (Z.of_nat (count pending_node (<[i := n']> conns))) s1)) ->
same_rest s s1 -> hooks_inv (<[i := n']> conns) (set_num_pending (Z.of_nat (count pending_node (<[i := n']> conns))) s1) ->
(status_ n' = ns_idle -> coming_node n = true -> waiting s = [] \/ S (length (waiting s1)) = length (waiting s)) ->
act = status_to_action (status_ n') /\ st' = status_ n' /\ hooks_inv (<[i := n']> conns) s' /\ same_rest s s' /\
((coming_node n = true -> coming_node n' = true \/ status_ n' = ns_idle) -> supplied conns s -> supplied (<[i := n']> conns) s')) as Hall.
{ intros s1 _ [= -> -> ->] Hsame Hinv Hw. split_and!; [done|done|done| |].
- by destruct Hsame.
- intros Hc. apply (supplied_insert conns s _ i n n' Hl); [by destruct Hsame|]. intros Hn.
destruct (Hc Hn) as [|Hidle]; [by left|right]. by apply Hw. }
do 2 case_bool_decide; simpl in Hset.
- refine (Hall s eq_refl _ _ _ _); [|done|apply (same_idle_ok conns s i n n'); done|].
+ rewrite <- Hset. by rewrite <- (set_status_pending conns i n n' s).
+ unfold coming_node. by rewrite H0.
- destruct (entering_idle_ok conns s i n n' Hi Hl) as (Hinv & Hsame & Hnp & Hw); [done|done|unfold pending_node; by rewrite H|].
refine (Hall _ Hnp _ Hsame Hinv _); [|done]. rewrite <- Hset. by rewrite <- (set_status_pending conns i n n'); [|done..|rewrite Hnp].
- refine (Hall (set_idle (List.remove Nat.eq_dec i (idle_list s)) s) eq_refl _ _ _ _); [|done|by apply (leaving_idle_ok conns s i n n')|done].
rewrite <- Hset. by rewrite <- (set_status_pending conns i n n').
- refine (Hall s eq_refl _ _ _ _); [|done|by apply (same_idle_ok conns s i n n')|done].
rewrite <- Hset. by rewrite <- (set_status_pending conns i n n' s).
Qed.

(** Other members than the status do not matter. *)
Lemma same_status_ok conns s i n n' : conns !! i = Some n -> status_ n' = status_ n ->
(hooks_inv conns s -> hooks_inv (<[i := n']> conns) s) /\ (supplied conns s -> supplied (<[i := n']> conns) s).
Proof.
intros Hl Hst. split.
- intros Hi. pose proof (same_idle_ok conns s i n n' Hi Hl) as H'. rewrite Hst in H'. specialize (H' ltac:(done)).
pose proof (count_insert pending_node conns i n n' Hl) as Hc. unfold pending_node in Hc at 2 4. rewrite Hst in Hc.
replace (count pending_node (<[i := n']> conns)) with (count pending_node conns) in H' by lia.
rewrite <- (hi_pending _ _ Hi) in H'. by destruct s.
- apply (supplied_insert conns s s i n n'); [done|lia|]. intros Hc. left. unfold coming_node in *. by rewrite Hst.
Qed.

(** ** A step of a connection

[resume] is a change of status. *)
Definition next_status (ec : error_code) (col_st : collection_state) (st : node_status) : node_status :=
match st with
| ns_initial => connect_in_progress
| connect_in_progress => match ec with Some _ => sleep_connect_failed_in_progress | None => ns_idle end
| sleep_connect_failed_in_progress => connect_in_progress
| ns_idle => ping_in_progress
| in_use => match col_st with needs_collect => ns_idle | needs_collect_with_reset => reset_in_progress | collect_none => in_use end
| ping_in_progress | reset_in_progress => match ec with Some _ => connect_in_progress | None => ns_idle end
| terminated => terminated
end.

Lemma resume_sets {S} `{NodeHooks S} ec col_st x : resume ec col_st x = set_status (next_status ec col_st (fst x)) x.
Proof. destruct x as [[] s]; [done|by destruct ec|done|by destruct ec|by destruct ec|done|by destruct col_st|done]. Qed.

Lemma node_resume_ok conns s i n ec col_st act n' s' : hooks_inv conns s -> conns !! i = Some n ->
node_resume i ec col_st n s = (act, n', s') ->
n' = CN (next_status ec col_st (status_ n)) (collection_state_ n) (collection_ev_ n) (task_ n) /\
act = status_to_action (status_ n') /\ hooks_inv (<[i := n']> conns) s' /\ same_rest s s' /\
(supplied conns s -> supplied (<[i := n']> conns) s').
Proof.
intros Hi Hl. unfold node_resume. rewrite (@resume_sets _ (node_hooks i)).
destruct (@set_status _ (node_hooks i) _ _) as [act0 [st0 s0]] eqn:Eset. intros [= <- <- <-]. cbn [fst] in Eset.
destruct (set_status_ok conns s i n (CN (next_status ec col_st (status_ n)) (collection_state_ n) (collection_ev_ n) (task_ n))
act0 st0 s0 Hi Hl Eset) as (Ha & Hst & Hh & Hr & Hsup).
cbn [status_] in *. subst st0. split_and!; [done..|]. apply Hsup. unfold coming_node. cbn [status_].
by destruct (status_ n), ec, col_st; simpl; auto.
Qed.

(** What a step of a connection does to it and to the shared state. *)
Record node_moves (conns : list connection_node) (i : nat) (stop : bool) (s : conn_shared_state) (n' : connection_node)
(s' : conn_shared_state) : Prop := {
nm_hooks : hooks_inv (<[i := n']> conns) s';
nm_supplied : supplied conns s -> supplied (<[i := n']> conns) s';
nm_rest : exists s1, same_rest s s1 /\ s' = if stop then on_connection_finish s1 else s1;
nm_status : status_ n' <> ns_initial /\ status_ n' <> terminated;
nm_task : if stop then task_ n' = finished else task_ n' = doing (status_to_action (status_ n')) /\ status_ n' <> reset_in_progress
}.

Lemma finish_hooks conns s : (hooks_inv conns s -> hooks_inv conns (on_connection_finish s)) /\
(supplied conns s -> supplied conns (on_connection_finish s)).
Proof. split; [|done]. intros []. by split. Qed.

Lemma node_loop_ok conns s s1 i n n1 stop : hooks_inv (<[i := n1]> conns) s1 -> conns !! i = Some n -> same_rest s s1 ->
status_ n1 <> ns_initial -> status_ n1 <> terminated -> (supplied conns s -> supplied (<[i := n1]> conns) s1) ->
exists n' s', node_loop 2 i (status_to_action (status_ n1)) stop n1 s1 = Some (n', s') /\ node_moves conns i stop s n' s' /\
collection_state_ n' = collection_state_ n1 /\
status_ n' = (if negb stop && bool_decide (status_ n1 = reset_in_progress) then ns_idle else status_ n1).
Proof.
intros Hi Hl Hr H1 H2 Hsup.
assert (forall n0, <[i := n1]> conns !! i = Some n1 /\ <[i := n0]> (<[i := n1]> conns) = <[i := n0]> conns) as Hins.
{ intros n0. split; [apply list_lookup_insert_eq; by eapply lookup_lt_Some|apply list_insert_insert_eq]. }
assert (forall t, hooks_inv (<[i := with_task t n1]> conns) s1 /\ (supplied conns s -> supplied (<[i := with_task t n1]> conns) s1)) as Htask.
{ intros t. destruct (Hins (with_task t n1)) as [Hl1 <-]. destruct (same_status_ok (<[i := n1]> conns) s1 i n1 (with_task t n1) Hl1 eq_refl).
split; auto. }
destruct stop; cbn [node_loop].
{ eexists _, _. split; [reflexivity|]. split; [|done]. destruct (Htask finished) as [Ha Hb]. split; try done; [by apply finish_hooks|by eexists]. }
destruct (decide (status_ n1 = reset_in_progress)) as [Hrs|Hrs].
- rewrite Hrs. cbn [status_to_action]. destruct (node_resume i None collect_none n1 s1) as [[act2 n2] s2] eqn:E2.
destruct (Hins (with_task (doing act_idle_wait) n2)) as [Hl1 _].
destruct (node_resume_ok _ _ _ _ _ _ _ _ _ Hi Hl1 E2) as (-> & -> & Hi2 & Hr2 & Hs2). rewrite Hrs in *. cbn [next_status status_ status_to_action] in *.
rewrite (proj2 (Hins _)) in Hi2, Hs2. eexists _, _. split; [reflexivity|]. cbn [negb andb]. rewrite bool_decide_true by done. split; [|done].
set (n2 := CN ns_idle _ _ _) in *. set (n3 := with_task _ n2).
assert (<[i := n2]> conns !! i = Some n2) as Hl2 by (apply list_lookup_insert_eq; by eapply lookup_lt_Some).
destruct (same_status_ok _ s2 i n2 n3 Hl2 eq_refl) as [Hk1 Hk2]. rewrite list_insert_insert_eq in Hk1, Hk2.
split; [auto|auto|exists s2; split; [by etrans|done]|done|done].
- destruct (Htask (doing (status_to_action (status_ n1)))) as [Ha Hb].
exists (with_task (doing (status_to_action (status_ n1))) n1), s1. split; [clear -H1 H2 Hrs; destruct (status_ n1); first [reflexivity|congruence]|]. cbn [negb andb]. rewrite bool_decide_false by done.
split; [|done]. split; try done. by exists s1.
Qed.
End hooks.

(** ** The invariant *)

Definition running_node (n : connection_node) : bool := match task_ n with doing _ => true | _ => false end.

(** A connection that a user has, and has not returned. *)
Definition given (n : connection_node) : bool :=
  bool_decide (status_ n = in_use) && bool_decide (collection_state_ n = collect_none).

Record node_ok (stopped : bool) (n : connection_node) : Prop := {
  no_collection : status_ n <> in_use -> collection_state_ n = collect_none;
  no_terminated : status_ n <> terminated;
  no_start : task_ n = not_started <-> status_ n = ns_initial;
  no_doing act : task_ n = doing act -> act = status_to_action (status_ n) /\ status_ n <> reset_in_progress;
  no_finished : task_ n = finished -> stopped = true
}.

(** Where the pool is. *)
Definition phase_ok (p : pool) : Prop :=
  match run_ p with
  | run_none => pl_state p = pool_initial /\ cancel_ev_ p = false /\ all_conns_ p = []
  | run_waiting => pl_state p = pool_running /\ cancel_ev_ p = false
  | _ => pl_state p = pool_cancelled /\ cancel_ev_ p = true /\ waiting (shared_st_ p) = []
  end.

Definition full (p : pool) : Prop := Z.of_nat (length (all_conns_ p)) = max_size (pl_params p).

Record pool_inv (params : pool_params) (p : pool) : Prop := {
  pi_params : pl_params p = params;
  pi_hooks : hooks_inv (all_conns_ p) (shared_st_ p);
  pi_max : Z.of_nat (length (all_conns_ p)) <= max_size params;
  pi_nodes : Forall (node_ok (cancel_ev_ p)) (all_conns_ p);
  pi_requests : num_pending_requests (shared_st_ p) = Z.of_nat (length (waiting (shared_st_ p) ++ woken (shared_st_ p)));
  pi_few : Z.of_nat (length (waiting (shared_st_ p) ++ woken (shared_st_ p))) <= SIZE_MAX;
  pi_running : num_running_connections (shared_st_ p) = Z.of_nat (count running_node (all_conns_ p));
  pi_held_nodup : NoDup (held p);
  pi_held i : i ∈ held p <-> given <$> all_conns_ p !! i = Some true;
  pi_phase : phase_ok p;
  pi_unfinished : cancel_ev_ p = false -> conns_finished (shared_st_ p) = false;
  pi_supply : run_ p = run_waiting -> connections_needed_ p = true \/ full p \/ supplied (all_conns_ p) (shared_st_ p)
}.

(** The parameters are what the constructor accepts, and [size_t]s. *)
Definition params_ok (params : pool_params) : Prop := check_pool_params params = None /\ 0 <= initial_size params /\ max_size params <= SIZE_MAX.

Lemma params_sizes params : params_ok params -> 0 <= initial_size params <= max_size params /\ 0 < max_size params /\ max_size params <= SIZE_MAX.
Proof.
  intros (Hc & Hi & Hm). unfold check_pool_params in Hc.
  destruct (Z.eqb_spec (max_size params) 0); [done|]. destruct (Z.ltb_spec (max_size params) (initial_size params)); [done|lia].
Qed.

Lemma make_pool_inv params p : params_ok params -> make_pool params = inr p -> pool_inv params p.
Proof.
  intros Hp. pose proof (params_sizes params Hp) as Hs. unfold make_pool. rewrite (proj1 Hp). intros [= <-].
  split; simpl; try done; try lia; try apply NoDup_nil_2; try by constructor.
  - split; simpl; try done; try apply NoDup_nil_2; try by left. intros i. split; [by intros ?%not_elem_of_nil|done].
  - intros i. split; [by intros ?%not_elem_of_nil|done].
Qed.

Lemma pool_lookup params p i n : pool_inv params p -> all_conns_ p !! i = Some n -> node_ok (cancel_ev_ p) n.
Proof. intros Hi Hl. exact (Forall_lookup_1 _ _ _ _ (pi_nodes _ _ Hi) Hl). Qed.

(** ** Steps of connections *)

Lemma held_insert params p i n n' : pool_inv params p -> all_conns_ p !! i = Some n -> given n' = given n ->
  forall j, j ∈ held p <-> given <$> <[i := n']> (all_conns_ p) !! j = Some true.
Proof.
  intros Hi Hl Hg j. rewrite (pi_held _ _ Hi). destruct (decide (j = i)) as [->|Hne]; [|by rewrite list_lookup_insert_ne].
  rewrite list_lookup_insert_eq by (by eapply lookup_lt_Some). rewrite Hl. simpl. by rewrite Hg.
Qed.

Section steps.
Context {timer : Timer} {laws : TimerLaws}.

(** The count of the running connections, over a step. *)
Lemma running_moves params p i n s0 n' s' stop : pool_inv params p -> all_conns_ p !! i = Some n ->
s0 = shared_st_ p /\ running_node n = true \/ s0 = on_connection_start (shared_st_ p) /\ running_node n = false ->
node_moves (all_conns_ p) i stop s0 n' s' ->
num_running_connections s' = Z.of_nat (count running_node (<[i := n']> (all_conns_ p))) /\
conns_finished s' = (if stop then if num_running_connections s' =? 0 then true else conns_finished (shared_st_ p) else conns_finished (shared_st_ p)).
Proof.
intros Hi Hl Hs0 [_ _ (s1 & Hr & ->) _ Ht]. pose proof (pi_running _ _ Hi) as Hrun. pose proof (hi_size _ _ (pi_hooks _ _ Hi)) as Hsz.
pose proof (count_insert running_node _ i n n' Hl) as Hc. pose proof (count_le running_node (<[i := n']> (all_conns_ p))) as Hle.
pose proof (count_insert running_node _ i n (with_task (doing act_none) n) Hl) as Hc2.
pose proof (count_le running_node (<[i := with_task (doing act_none) n]> (all_conns_ p))) as Hle2.
rewrite length_insert in Hle, Hle2. cbn [running_node with_task task_ Nat.b2n] in Hc2.
assert (running_node n' = negb stop) as Hn' by (unfold running_node; destruct stop; [by rewrite Ht|by destruct Ht as [-> _]]).
rewrite Hn' in Hc. pose proof (sr_running _ _ Hr) as Hrr. pose proof (sr_finished _ _ Hr) as Hrf.
destruct Hs0 as [[-> Hn]|[-> Hn]]; rewrite Hn in Hc, Hc2; destruct stop; cbn [on_connection_start on_connection_finish num_running_connections conns_finished negb Nat.b2n] in *;
rewrite ?Hrr, ?Hrf, ?Hrun; unfold increment, decrement; split; try done; try lia.
- destruct (Z.eqb_spec (Z.of_nat (count running_node (all_conns_ p))) 0); lia.
- destruct (Z.eqb_spec (Z.of_nat (count running_node (all_conns_ p))) SIZE_MAX); [lia|].
destruct (Z.eqb_spec (Z.of_nat (count running_node (all_conns_ p)) + 1) 0); lia.
- destruct (Z.eqb_spec (Z.of_nat (count running_node (all_conns_ p))) SIZE_MAX); lia.
Qed.

Lemma node_moves_inv params p i n s0 n' s' stop : pool_inv params p -> all_conns_ p !! i = Some n ->
s0 = shared_st_ p /\ running_node n = true \/ s0 = on_connection_start (shared_st_ p) /\ running_node n = false ->
node_moves (all_conns_ p) i stop s0 n' s' -> node_ok (cancel_ev_ p) n' -> given n' = given n -> (stop = true -> cancel_ev_ p = true) ->
pool_inv params (set_nodes (<[i := n']> (all_conns_ p)) s' p).
Proof.
intros Hi Hl Hs0 Hm Hok Hg Hstop. destruct (running_moves params p i n s0 n' s' stop Hi Hl Hs0 Hm) as [Hrun Hfin].
destruct Hm as [Hh Hsup (s1 & Hr & Hs') _ _].
assert (same_rest s0 s1 -> waiting s' ++ woken s' ≡ₚ waiting (shared_st_ p) ++ woken (shared_st_ p) /\
num_pending_requests s' = num_pending_requests (shared_st_ p) /\ (length (waiting s') <= length (waiting (shared_st_ p)))%nat) as Htasks.
{ intros [H1 _ _ H4 H5]. rewrite Hs'. by destruct Hs0 as [[-> _]|[-> _]], stop. }
destruct (Htasks Hr) as (Hperm & Hreq & Hwait). destruct Hi as [Hpar Hhk Hmax Hnodes Hrq Hfew Hrn Hnd Hhe Hph Hun Hsu].
split; cbn [set_nodes pl_params pl_state all_conns_ shared_st_ cancel_ev_ connections_needed_ run_ held]; try done.
- by rewrite length_insert.
- by apply Forall_insert.
- by rewrite Hreq, Hrq, Hperm.
- by rewrite Hperm.
- eapply (held_insert params p i n n'); [by split|done..].
- unfold phase_ok in *. cbn. destruct (run_ p); [by destruct Hph as (_ & _ & Hnil); rewrite Hnil in Hl|done|..];
(destruct Hph as (? & ? & Hw); split_and!; [done|done|]; apply nil_length_inv; rewrite Hw in Hwait; simpl in Hwait; lia).
- intros Hc. rewrite Hfin. destruct stop; [by rewrite Hstop in Hc|auto].
- intros Hw. destruct (Hsu Hw) as [|[Hf|Hsup']]; [by left|right; left|right; right].
+ unfold full in *. cbn. by rewrite length_insert.
+ apply Hsup. by destruct Hs0 as [[-> _]|[-> _]].
Qed.

Lemma moved_ok conns i stop s n' s' stopped : node_moves conns i stop s n' s' -> (stop = true -> stopped = true) ->
(status_ n' <> in_use -> collection_state_ n' = collect_none) -> node_ok stopped n'.
Proof.
intros [_ _ _ [H1 H2] Ht] Hstop Hc. split; try done.
- split; [|done]. destruct stop; [by rewrite Ht|by destruct Ht as [-> _]].
- intros act Ha. destruct stop; [by rewrite Ht in Ha|]. destruct Ht as [Ht Hr]. rewrite Ht in Ha. by injection Ha as <-.
- destruct stop; [auto|]. by destruct Ht as [-> _].
Qed.

(** A task that starts. *)
Lemma node_start_ok params p i n stop : pool_inv params p -> all_conns_ p !! i = Some n -> task_ n = not_started ->
(stop = true -> cancel_ev_ p = true) ->
exists n' s', node_start i stop n (shared_st_ p) = Some (n', s') /\ pool_inv params (set_nodes (<[i := n']> (all_conns_ p)) s' p).
Proof.
intros Hi Hl Ht Hstop. pose proof (pool_lookup _ _ _ _ Hi Hl) as Hok. pose proof (proj1 (no_start _ _ Hok) Ht) as Hst.
unfold node_start. set (s0 := on_connection_start (shared_st_ p)).
assert (hooks_inv (all_conns_ p) s0) as Hh by (destruct (pi_hooks _ _ Hi); by split).
destruct (node_resume i None collect_none n s0) as [[act n1] s1] eqn:Er.
destruct (node_resume_ok _ _ _ _ _ _ _ _ _ Hh Hl Er) as (-> & -> & Hh1 & Hr1 & Hs1).
destruct (node_loop_ok _ s0 s1 i n _ stop Hh1 Hl Hr1) as (n' & s' & Hloop & Hm & Hc' & Hst'); [cbn; by rewrite Hst..|done|].
exists n', s'. split; [exact Hloop|]. cbn [status_ collection_state_] in Hst', Hc'. rewrite Hst in Hst'. cbn [next_status] in Hst'.
assert (status_ n' = connect_in_progress) as Hst2 by (rewrite Hst'; by destruct stop).
rewrite (no_collection _ _ Hok) in Hc' by (by rewrite Hst).
eapply (node_moves_inv params p i n s0 n' s' stop); [done|done|right; split; [done|by unfold running_node; rewrite Ht]|exact Hm| |by unfold given; rewrite Hst2, Hst|done].
by apply (moved_ok _ _ _ _ _ _ _ Hm).
Qed.

(** A task that goes on. *)
Lemma node_continue_ok params p i n act ec stop : pool_inv params p -> all_conns_ p !! i = Some n -> task_ n = doing act ->
(stop = true -> cancel_ev_ p = true) ->
exists n' s', node_continue i act ec stop n (shared_st_ p) = Some (n', s') /\
node_moves (all_conns_ p) i stop (shared_st_ p) n' s' /\ pool_inv params (set_nodes (<[i := n']> (all_conns_ p)) s' p).
Proof.
intros Hi Hl Ht Hstop. pose proof (pool_lookup _ _ _ _ Hi Hl) as Hok. destruct (no_doing _ _ Hok act Ht) as [-> Hnr].
assert (status_ n <> ns_initial) as Hni by (rewrite <- (no_start _ _ Hok), Ht; done). pose proof (no_terminated _ _ Hok) as Hnt.
unfold node_continue.
set (n0 := CN (status_ n) collect_none (match status_ n with ns_idle | in_use => false | _ => collection_ev_ n end) (task_ n)).
assert (match status_to_action (status_ n) with act_idle_wait => (CN (status_ n) collect_none false (task_ n), collection_state_ n) | _ => (n, collect_none) end
= (n0, collection_state_ n)) as ->.
{ unfold n0. pose proof (no_collection _ _ Hok) as Hcol. destruct n as [st c e t]. cbn in *. by destruct st; try done; rewrite ?Hcol. }
destruct (same_status_ok (all_conns_ p) (shared_st_ p) i n n0 Hl eq_refl) as [Hh0 Hs0]. specialize (Hh0 (pi_hooks _ _ Hi)).
assert (<[i := n0]> (all_conns_ p) !! i = Some n0) as Hl0 by (apply list_lookup_insert_eq; by eapply lookup_lt_Some).
destruct (node_resume i ec (collection_state_ n) n0 (shared_st_ p)) as [[act n1] s1] eqn:Er.
destruct (node_resume_ok _ _ _ _ _ _ _ _ _ Hh0 Hl0 Er) as (-> & -> & Hh1 & Hr1 & Hs1). rewrite list_insert_insert_eq in Hh1, Hs1.
destruct (node_loop_ok _ (shared_st_ p) s1 i n _ stop Hh1 Hl Hr1) as (n' & s' & Hloop & Hm & Hc' & Hst');
[cbn; by destruct (status_ n), ec, (collection_state_ n)..|auto|].
exists n', s'. split; [exact Hloop|]. split; [exact Hm|]. cbn [status_ collection_state_ n0] in Hst', Hc'.
eapply (node_moves_inv params p i n (shared_st_ p) n' s' stop); [done|done|left; split; [done|by unfold running_node; rewrite Ht]|exact Hm| | |done].
- by apply (moved_ok _ _ _ _ _ _ _ Hm).
- unfold given. rewrite Hc', Hst'. by destruct (status_ n), ec, (collection_state_ n), stop.
Qed.
End steps.
