(* ===== verification/PoolSafety.v ===== *)
(** * The steps of the connection pool
    ([src/src/nativepg_internal/connection_pool/connection_pool_impl.hpp])

    Every step that [Pool.enabled] allows is defined, which is to say that no
    assertion fails, and keeps the invariant of [PoolSpec]; what follows for the
    users of the pool, and how the pool shuts down. *)

From stdpp Require Import base list option relations.
From Stdlib Require Import ZArith Lia.
From S2P Require Import Prelude Errors Startup Pool PoolSpec.

#[local] Open Scope Z_scope.

(** ** Creating connections *)

Definition new_node : connection_node := CN ns_initial collect_none false not_started.

Lemma iter_create k : forall p, Nat.iter k create_connection p = set_nodes (all_conns_ p ++ replicate k new_node) (shared_st_ p) p.
Proof.
  induction k as [|k IH]; intros p.
  - simpl. rewrite app_nil_r. by destruct p.
  - rewrite replicate_S_end, app_assoc. change (Nat.iter (S k) create_connection p) with (create_connection (Nat.iter k create_connection p)).
    by rewrite IH.
Qed.

Lemma lookup_new {A} (f : connection_node -> A) l k i (a : A) : f <$> (l ++ replicate k new_node) !! i = Some a ->
  a <> f new_node -> f <$> l !! i = Some a.
Proof.
  intros Hi Ha. destruct (decide (i < length l)%nat).
  - by rewrite lookup_app_l in Hi by done.
  - rewrite lookup_app_r in Hi by lia. apply fmap_Some in Hi as (m & Hn & Hfa). apply lookup_replicate in Hn as [Hn _]. by rewrite Hfa, Hn in Ha.
Qed.

Lemma lookup_old {A} (f : connection_node -> A) l k i (a : A) : f <$> l !! i = Some a ->
  f <$> (l ++ replicate k new_node) !! i = Some a.
Proof. intros Hi. apply fmap_Some in Hi as (n & Hn & ->). by rewrite (lookup_app_l_Some _ _ _ _ Hn). Qed.

Lemma hooks_new l k s : hooks_inv l s -> Z.of_nat (length l + k) <= SIZE_MAX -> hooks_inv (l ++ replicate k new_node) s.
Proof.
  intros [Hs Hn Hi Hp Ht Hw] Hk. split; try done.
  - by rewrite length_app, length_replicate.
  - intros i. rewrite Hi. split; [apply lookup_old|]. intros Hl. by eapply lookup_new.
  - by rewrite count_iter_skip.
Qed.

Lemma pending_le_coming l : (count pending_node l <= count coming_node l)%nat.
Proof. apply count_mono. intros n. unfold pending_node, coming_node. by destruct (status_ n). Qed.

(** What [create_connections] adds: enough for the requests, if there is room. *)
Lemma create_connections_ok params p : params_ok params -> pl_params p = params -> hooks_inv (all_conns_ p) (shared_st_ p) ->
  Z.of_nat (length (all_conns_ p)) <= max_size params ->
  num_pending_requests (shared_st_ p) = Z.of_nat (length (waiting (shared_st_ p) ++ woken (shared_st_ p))) ->
  exists k p', create_connections p = Some p' /\ p' = set_nodes (all_conns_ p ++ replicate k new_node) (shared_st_ p) p /\
    Z.of_nat (length (all_conns_ p) + k) <= max_size params /\ (full p' \/ supplied (all_conns_ p') (shared_st_ p')) /\
    (initial_size params <= Z.of_nat (length (all_conns_ p'))).
Proof.
  intros Hp Hpar Hh Hm Hreq. pose proof (params_sizes _ Hp) as Hs. unfold create_connections, num_connections_to_create. rewrite Hpar.
  pose proof (count_le pending_node (all_conns_ p)) as Hle. pose proof (pending_le_coming (all_conns_ p)) as Hpc.
  rewrite (hi_pending _ _ Hh), Hreq, length_app, Z.gtb_ltb. rewrite !(proj2 (Z.leb_le _ _)) by lia. cbn [andb mbind option_bind].
  set (n := Z.min _ _). assert (0 <= n <= max_size params - Z.of_nat (length (all_conns_ p))) as Hn by (unfold n; repeat case_match; lia).
  rewrite (proj2 (Z.leb_le _ _)) by lia. exists (Z.to_nat n). eexists. split; [reflexivity|]. rewrite iter_create. split; [done|].
  split; [lia|]. unfold full, supplied. cbn [all_conns_ set_nodes shared_st_ pl_params]. rewrite count_iter_app, length_app, length_replicate, Hpar by done.
  unfold n. clear n Hn.
  destruct (Z.ltb_spec (Z.of_nat (count pending_node (all_conns_ p))) (Z.of_nat (length (waiting (shared_st_ p)) + length (woken (shared_st_ p)))));
  destruct (Z.ltb_spec (Z.of_nat (length (all_conns_ p))) (initial_size params)); lia.
Qed.

(** [run], which starts or has been woken, creates connections. *)
Lemma create_inv params p b : params_ok params -> pool_inv params p -> run_ p = run_none \/ run_ p = run_waiting ->
  exists p', create_connections (set_needed b (set_run pool_running run_waiting p)) = Some p' /\ pool_inv params p' /\
    initial_size params <= Z.of_nat (length (all_conns_ p')) /\ (full p' \/ supplied (all_conns_ p') (shared_st_ p')).
Proof.
  intros Hp Hi Hrun. pose proof (params_sizes _ Hp) as Hs. destruct Hi as [Hpar Hhk Hmax Hnodes Hrq Hfew Hrn Hnd Hhe Hph Hun Hsu].
  destruct (create_connections_ok params (set_needed b (set_run pool_running run_waiting p)) Hp Hpar Hhk Hmax Hrq)
    as (k & p' & Hc & Hp' & Hk & Hsup & Hmin).
  exists p'. split; [done|]. split; [|done]. rewrite Hp' in Hsup |- *. cbn in Hk.
  split; cbn [set_nodes set_needed set_run pl_params pl_state all_conns_ shared_st_ cancel_ev_ connections_needed_ run_ held]; try done.
  - apply hooks_new; [done|lia].
  - by rewrite length_app, length_replicate.
  - apply Forall_app. split; [done|]. apply Forall_replicate. by split.
  - by rewrite count_iter_skip.
  - intros i. rewrite Hhe. split; [apply lookup_old|]. intros Hl. by eapply lookup_new.
  - unfold phase_ok in *. cbn. destruct Hrun as [Hr|Hr]; rewrite Hr in Hph; [by destruct Hph as (_ & ? & _)|by destruct Hph].
  - intros _. by right.
Qed.

(** ** Tasks that wait *)

Definition with_tasks (ws wk : list nat) (p : pool) : pool :=
  set_shared (set_tasks ws wk (Z.of_nat (length (ws ++ wk))) (shared_st_ p)) p.

Lemma tasks_inv params p ws wk b : pool_inv params p -> NoDup (ws ++ wk) ->
  ws = [] \/ (length (idle_list (shared_st_ p)) <= length wk)%nat -> Z.of_nat (length (ws ++ wk)) <= SIZE_MAX ->
  (cancel_ev_ p = true -> ws = []) ->
  b = true \/ b = connections_needed_ p /\ (length ws <= length (waiting (shared_st_ p)))%nat ->
  pool_inv params (set_needed b (with_tasks ws wk p)).
Proof.
  intros [Hpar [Hs Hn Hid Hp Ht Hw] Hmax Hnodes Hrq Hfew Hrn Hnd Hhe Hph Hun Hsu] Hnt Hwk Hf Hc Hb.
  split; cbn [set_needed with_tasks set_shared set_nodes set_tasks pl_params pl_state all_conns_ shared_st_ cancel_ev_
    connections_needed_ run_ held waiting woken num_pending_requests num_running_connections conns_finished]; try done.
  - unfold phase_ok in *. cbn. destruct (run_ p); [done|done|..]; (destruct Hph as (? & ? & _); auto).
  - intros Hrun. destruct Hb as [->|[-> Hlen]]; [by left|]. destruct (Hsu Hrun) as [|[|]]; [by left|by right; left|right; right].
    unfold supplied in *. cbn. lia.
Qed.

Lemma set_needed_same p : set_needed (connections_needed_ p) p = p.
Proof. by destruct p. Qed.

Lemma not_cancelled params p : pool_inv params p -> is_cancelled p = false -> cancel_ev_ p = false.
Proof.
  intros Hi. pose proof (pi_phase _ _ Hi) as Hph. unfold phase_ok, is_cancelled in *. destruct (run_ p); try by destruct Hph as (-> & ? & ?).
  by destruct Hph.
Qed.

Lemma cancelled_waiting params p : pool_inv params p -> cancel_ev_ p = true -> waiting (shared_st_ p) = [] /\ is_cancelled p = true.
Proof.
  intros Hi Hc. pose proof (pi_phase _ _ Hi) as Hph. unfold phase_ok, is_cancelled in *. destruct (run_ p); destruct Hph as [H1 H2].
  - by rewrite Hc in H2; destruct H2.
  - by rewrite Hc in H2.
  - rewrite H1. by destruct H2.
  - rewrite H1. by destruct H2.
Qed.

(** ** Idle connections are taken *)

(** The wait of a task may have ended just before. *)
Definition woken_before (s : conn_shared_state) (wk : list nat) : Prop :=
  wk = woken s \/ exists t, t ∈ woken s /\ wk = List.remove Nat.eq_dec t (woken s).

Lemma woken_before_tasks s wk : NoDup (waiting s ++ woken s) -> woken_before s wk ->
  NoDup (waiting s ++ wk) /\ (length wk <= length (woken s) <= S (length wk))%nat.
Proof.
  intros Hn [->|(t & Ht & ->)]; [split; [done|lia]|]. apply list.NoDup_app in Hn as (Hn1 & Hn2 & Hn3).
  pose proof (length_remove_eq _ _ Hn3 Ht) as Hl. split; [|lia]. apply list.NoDup_app. split_and!; [done| |by apply NoDup_remove_eq].
  intros j Hj Hj'. apply elem_of_remove in Hj' as [Hj' _]. by eapply Hn2.
Qed.

(** The connection at the front of the list, given to a user. *)
Definition give (i : nat) (n : connection_node) (wk : list nat) (p : pool) : pool :=
  let s := shared_st_ p in
  set_held (i :: held p)
    (set_nodes (<[i := CN in_use (collection_state_ n) (collection_ev_ n) (task_ n)]> (all_conns_ p))
       (set_idle (List.remove Nat.eq_dec i (idle_list s)) (set_tasks (waiting s) wk (Z.of_nat (length (waiting s ++ wk))) s)) p).

Lemma give_inv params p i n wk : pool_inv params p -> i ∈ idle_list (shared_st_ p) -> all_conns_ p !! i = Some n ->
  woken_before (shared_st_ p) wk -> pool_inv params (give i n wk p).
Proof.
  intros Hi Hin Hl Hwk. pose proof (pool_lookup _ _ _ _ Hi Hl) as Hok. set (n' := CN in_use (collection_state_ n) (collection_ev_ n) (task_ n)).
  assert (status_ n = ns_idle) as Hst by (apply (hi_idle _ _ (pi_hooks _ _ Hi)) in Hin; rewrite Hl in Hin; by injection Hin).
  pose proof (no_collection _ _ Hok) as Hcol. rewrite Hst in Hcol. specialize (Hcol ltac:(done)).
  assert (given n = false) as Hg by (unfold given; by rewrite Hst). assert (given n' = true) as Hg' by (unfold given, n'; cbn; by rewrite Hcol).
  assert (running_node n' = running_node n) as Hrun by done.
  destruct Hi as [Hpar Hhk Hmax Hnodes Hrq Hfew Hrn Hnd Hhe Hph Hun Hsu].
  destruct (woken_before_tasks _ _ (hi_tasks _ _ Hhk) Hwk) as [Hnt Hlen].
  assert (length (waiting (shared_st_ p) ++ wk) <= length (waiting (shared_st_ p) ++ woken (shared_st_ p)))%nat as Hle by (rewrite !length_app; lia).
  pose proof (leaving_idle_ok _ _ i n n' Hhk Hl ltac:(done)) as [Hs1 Hn1 Hid1 Hp1 _ _].
  pose proof (length_remove_eq i _ (hi_nodup _ _ Hhk) Hin) as Hrem.
  pose proof (count_insert pending_node _ i n n' Hl) as Hcp. pose proof (count_insert running_node _ i n n' Hl) as Hcr.
  unfold pending_node in Hcp at 2 4. rewrite Hst in Hcp. cbn [n' status_ is_pending Nat.b2n] in Hcp. rewrite Hrun in Hcr.
  split; cbn [give set_held set_nodes set_idle set_tasks pl_params pl_state all_conns_ shared_st_ cancel_ev_ connections_needed_
    run_ held waiting woken idle_list num_pending_requests num_running_connections conns_finished]; fold n'; try done.
  - split; try done; cbn.
    + rewrite (hi_pending _ _ Hhk). lia.
    + destruct (hi_wakeup _ _ Hhk) as [|Hw]; [by left|right; lia].
  - by rewrite length_insert.
  - apply Forall_insert; [done|]. split; cbn; try done.
    + destruct (no_start _ _ Hok) as [Hns _]. rewrite Hst in Hns. split; [intros Hts; by specialize (Hns Hts)|done].
    + intros act Ha. destruct (no_doing _ _ Hok act Ha) as [-> _]. by rewrite Hst.
    + apply (no_finished _ _ Hok).
  - lia.
  - rewrite Hrn. lia.
  - constructor; [|done]. rewrite Hhe, Hl. cbn. by rewrite Hg.
  - intros j. rewrite elem_of_cons, Hhe. destruct (decide (j = i)) as [->|Hne].
    + rewrite list_lookup_insert_eq by (by eapply lookup_lt_Some). cbn. rewrite Hg'. split; [done|by left].
    + rewrite list_lookup_insert_ne by done. tauto.
  - unfold phase_ok in *. cbn. destruct (run_ p); [|done..]. destruct Hph as (_ & _ & Hnil). by rewrite Hnil, lookup_nil in Hl.
  - intros Hr. destruct (Hsu Hr) as [|[|Hsup]]; [by left|right; left; unfold full in *; cbn; by rewrite length_insert|right; right].
    apply (supplied_insert _ (shared_st_ p) _ i n n' Hl); [done| |done]. unfold coming_node. by rewrite Hst.
Qed.

(** What [try_get_connection] finds. *)
Lemma try_get_ok params p wk otherwise : pool_inv params p -> woken_before (shared_st_ p) wk ->
  let p1 := with_tasks (waiting (shared_st_ p)) wk p in
  match idle_list (shared_st_ p) with
  | [] => try_get_or p1 otherwise = Some (otherwise p1)
  | i :: _ => exists n, all_conns_ p !! i = Some n /\ status_ n = ns_idle /\ try_get_or p1 otherwise = Some (give i n wk p, Got i)
  end.
Proof.
  intros Hi Hwk p1. unfold try_get_or, try_get_connection. change (idle_list (shared_st_ p1)) with (idle_list (shared_st_ p)).
  destruct (idle_list (shared_st_ p)) as [|i rest] eqn:Eidle; [done|].
  assert (i ∈ idle_list (shared_st_ p)) as Hin by (rewrite Eidle; left).
  pose proof (proj1 (hi_idle _ _ (pi_hooks _ _ Hi) i) Hin) as Hst. apply fmap_Some in Hst as (n & Hl & Hst). exists n. split_and!; [done|done|].
  change (all_conns_ p1) with (all_conns_ p). rewrite Hl. cbn [mbind option_bind]. rewrite <- Hst. reflexivity.
Qed.

Lemma exit_ok params p t : pool_inv params p -> t ∈ woken (shared_st_ p) ->
  exit_request_pending t p = Some (with_tasks (waiting (shared_st_ p)) (List.remove Nat.eq_dec t (woken (shared_st_ p))) p).
Proof.
  intros Hi Ht. unfold exit_request_pending, with_tasks. rewrite (pi_requests _ _ Hi).
  pose proof (hi_tasks _ _ (pi_hooks _ _ Hi)) as Hn. apply list.NoDup_app in Hn as (_ & _ & Hn).
  pose proof (length_remove_eq _ _ Hn Ht) as Hl. rewrite !length_app. unfold decrement.
  rewrite Z.gtb_ltb. destruct (Z.ltb_spec 0 (Z.of_nat (length (waiting (shared_st_ p)) + length (woken (shared_st_ p))))); [|lia].
  destruct (Z.eqb_spec (Z.of_nat (length (waiting (shared_st_ p)) + length (woken (shared_st_ p)))) 0); [lia|].
  do 3 f_equal. lia.
Qed.

Lemma enter_ok t p ws wk : Z.of_nat (length (ws ++ wk)) < SIZE_MAX ->
  enter_request_pending t (with_tasks ws wk p) = set_needed true (with_tasks (ws ++ [t]) wk p).
Proof.
  intros Hs. unfold enter_request_pending, with_tasks. cbn [shared_st_ set_shared set_nodes waiting woken set_tasks num_pending_requests].
  unfold increment. destruct (Z.eqb_spec (Z.of_nat (length (ws ++ wk))) SIZE_MAX); [lia|].
  unfold set_needed, set_shared, set_nodes, set_tasks. cbn. do 2 f_equal. rewrite !length_app. simpl. lia.
Qed.

Lemma with_tasks_same params p : pool_inv params p -> with_tasks (waiting (shared_st_ p)) (woken (shared_st_ p)) p = p.
Proof. intros Hi. unfold with_tasks. rewrite <- (pi_requests _ _ Hi). by destruct p as [? ? ? []]. Qed.

(** ** Every step *)

(** What a step promises of the connection it gives to a user. *)
Definition result_ok (p p' : pool) (r : get_result) : Prop :=
  match r with
  | Got i => is_cancelled p = false /\ (i ∉ held p) /\ held p' = i :: held p /\ status_ <$> all_conns_ p !! i = Some ns_idle
  | _ => True
  end.

Lemma give_result params p i n wk : pool_inv params p -> is_cancelled p = false -> all_conns_ p !! i = Some n -> status_ n = ns_idle ->
  result_ok p (give i n wk p) (Got i).
Proof.
  intros Hi Hc Hl Hst. split_and!; [done| |done|by rewrite Hl; cbn; rewrite Hst].
  rewrite (pi_held _ _ Hi), Hl. cbn. unfold given. by rewrite Hst.
Qed.

Lemma get_ok params p t : pool_inv params p -> (t ∉ waiting (shared_st_ p) ++ woken (shared_st_ p)) ->
  Z.of_nat (length (waiting (shared_st_ p) ++ woken (shared_st_ p))) < SIZE_MAX ->
  exists p' r, get_connection t p = Some (p', r) /\ pool_inv params p' /\ result_ok p p' r.
Proof.
  intros Hi Ht Hf. unfold get_connection. destruct (is_cancelled p) eqn:Ec; [by eexists _, _|].
  pose proof (try_get_ok params p (woken (shared_st_ p)) (fun p => (enter_request_pending t p, Waits)) Hi (or_introl eq_refl)) as Htry.
  cbn zeta in Htry. rewrite (with_tasks_same params p Hi) in Htry. destruct (idle_list (shared_st_ p)) as [|i rest] eqn:Eidle.
  - assert (enter_request_pending t p = set_needed true (with_tasks (waiting (shared_st_ p) ++ [t]) (woken (shared_st_ p)) p)) as He
      by (rewrite <- (with_tasks_same params p Hi) at 1; by apply enter_ok).
    rewrite Htry, He. eexists _, _. split; [reflexivity|]. split; [|done].
    pose proof (hi_tasks _ _ (pi_hooks _ _ Hi)) as Hn.
    assert ((waiting (shared_st_ p) ++ [t]) ++ woken (shared_st_ p) ≡ₚ t :: waiting (shared_st_ p) ++ woken (shared_st_ p)) as Hperm
      by (rewrite <- app_assoc; simpl; by rewrite <- Permutation_middle).
    apply tasks_inv; [done|rewrite Hperm; by constructor| | | |by left].
    + right. rewrite Eidle. simpl. lia.
    + rewrite Hperm. simpl. lia.
    + by rewrite (not_cancelled params p Hi Ec).
  - destruct Htry as (n & Hl & Hst & ->). eexists _, _. split; [reflexivity|]. split; [|by eapply give_result].
    apply give_inv; [done|rewrite Eidle; left|done|by left].
Qed.

Lemma woken_ok params p t stop : pool_inv params p -> t ∈ woken (shared_st_ p) ->
  exists p' r, get_connection_woken t stop p = Some (p', r) /\ pool_inv params p' /\ result_ok p p' r.
Proof.
  intros Hi Ht. unfold get_connection_woken. rewrite (exit_ok params p t Hi Ht). cbn [mbind option_bind].
  set (wk := List.remove Nat.eq_dec t (woken (shared_st_ p))). set (ws := waiting (shared_st_ p)). set (p1 := with_tasks ws wk p).
  assert (woken_before (shared_st_ p) wk) as Hwk by (right; by exists t).
  pose proof (hi_tasks _ _ (pi_hooks _ _ Hi)) as Hn. destruct (woken_before_tasks _ _ Hn Hwk) as [Hnt Hlen]. pose proof (pi_few _ _ Hi) as Hfew.
  assert (S (length wk) = length (woken (shared_st_ p))) as Hl by (apply length_remove_eq; [by apply list.NoDup_app in Hn as (_ & _ & ?)|done]).
  assert (S (length (ws ++ wk)) = length (waiting (shared_st_ p) ++ woken (shared_st_ p))) as Hl' by (rewrite !length_app; unfold ws; lia).
  assert (idle_list (shared_st_ p) = [] \/ is_cancelled p = true -> pool_inv params p1) as Hp1.
  { intros Hor. rewrite <- (set_needed_same p1). apply tasks_inv; [done|done| |lia|by intros []%(cancelled_waiting params p Hi)|by right].
    destruct Hor as [->|Hc]; [right; simpl; lia|left].
    unfold is_cancelled in Hc. pose proof (pi_phase _ _ Hi) as Hph. unfold phase_ok in Hph.
    destruct (run_ p); [by destruct Hph as (Hp & _); rewrite Hp in Hc|by destruct Hph as [Hp _]; rewrite Hp in Hc|by destruct Hph as (_ & _ & ?)..]. }
  change (is_cancelled p1) with (is_cancelled p). destruct (is_cancelled p) eqn:Ec; [eexists _, _; split; [reflexivity|]; split; [by apply Hp1; right|done]|].
  pose proof (try_get_ok params p wk (fun p => if stop then (p, Got_canceled) else (enter_request_pending t p, Waits)) Hi Hwk) as Htry.
  cbn zeta in Htry. fold ws p1 in Htry. destruct (idle_list (shared_st_ p)) as [|i rest] eqn:Eidle.
  - rewrite Htry. destruct stop; eexists _, _; (split; [reflexivity|]); (split; [|done]); [by apply Hp1; left|].
    unfold p1. rewrite enter_ok by lia.
    assert ((ws ++ [t]) ++ wk ≡ₚ waiting (shared_st_ p) ++ woken (shared_st_ p)) as Hperm.
    { rewrite <- app_assoc. simpl. apply Permutation_app_head. apply remove_permutation; [by apply list.NoDup_app in Hn as (_ & _ & ?)|done]. }
    apply tasks_inv; [done|by rewrite Hperm| |by rewrite Hperm| |by left].
    + right. rewrite Eidle. simpl. lia.
    + by rewrite (not_cancelled params p Hi Ec).
  - destruct Htry as (n & Hln & Hst & ->). eexists _, _. split; [reflexivity|]. split; [|by eapply give_result].
    apply give_inv; [done|rewrite Eidle; left|done|done].
Qed.

Lemma stop_ok params p t : pool_inv params p -> t ∈ waiting (shared_st_ p) ->
  pool_inv params (with_tasks (List.remove Nat.eq_dec t (waiting (shared_st_ p))) (t :: woken (shared_st_ p)) p).
Proof.
  intros Hi Ht. pose proof (hi_tasks _ _ (pi_hooks _ _ Hi)) as Hn. pose proof Hn as (Hn1 & _ & _)%list.NoDup_app.
  assert (List.remove Nat.eq_dec t (waiting (shared_st_ p)) ++ t :: woken (shared_st_ p) ≡ₚ waiting (shared_st_ p) ++ woken (shared_st_ p)) as Hperm.
  { rewrite <- Permutation_middle. change (t :: ?a ++ ?b) with ((t :: a) ++ b). apply Permutation_app_tail. by apply remove_permutation. }
  pose proof (pi_few _ _ Hi). rewrite <- (set_needed_same (with_tasks _ _ p)). apply tasks_inv; [done|by rewrite Hperm| |by rewrite Hperm| |].
  - destruct (hi_wakeup _ _ (pi_hooks _ _ Hi)) as [Hw|Hw]; [by rewrite Hw in Ht; apply not_elem_of_nil in Ht|right; simpl; lia].
  - intros Hc. by rewrite (proj1 (cancelled_waiting params p Hi Hc)).
  - right. split; [done|]. pose proof (length_remove_eq _ _ Hn1 Ht). lia.
Qed.

Lemma return_ok params p i should_reset : pool_inv params p -> i ∈ held p ->
  exists n, all_conns_ p !! i = Some n /\ pool_inv params (set_held (List.remove Nat.eq_dec i (held p))
    (set_nodes (<[i := mark_as_collectable should_reset n]> (all_conns_ p)) (shared_st_ p) p)).
Proof.
  intros Hi Hin. pose proof (proj1 (pi_held _ _ Hi i) Hin) as (n & Hl & Hg)%fmap_Some. exists n. split; [done|].
  pose proof (pool_lookup _ _ _ _ Hi Hl) as Hok. set (n' := mark_as_collectable should_reset n).
  unfold given in Hg. symmetry in Hg. apply andb_true_iff in Hg as [Hst%bool_decide_eq_true _].
  destruct (same_status_ok (all_conns_ p) (shared_st_ p) i n n' Hl eq_refl) as [Hh Hsup].
  pose proof (count_insert running_node _ i n n' Hl) as Hcr. change (running_node n') with (running_node n) in Hcr.
  destruct Hi as [Hpar Hhk Hmax Hnodes Hrq Hfew Hrn Hnd Hhe Hph Hun Hsu].
  split; cbn [set_held set_nodes pl_params pl_state all_conns_ shared_st_ cancel_ev_ connections_needed_ run_ held]; try done.
  - auto.
  - by rewrite length_insert.
  - apply Forall_insert; [done|]. destruct Hok. by split.
  - rewrite Hrn. lia.
  - by apply NoDup_remove_eq.
  - intros j. rewrite elem_of_remove, Hhe. destruct (decide (j = i)) as [->|Hne].
    + rewrite list_lookup_insert_eq by (by eapply lookup_lt_Some). split; [by intros []|]. cbn. unfold given, n'. cbn. by destruct should_reset; rewrite andb_false_r.
    + rewrite list_lookup_insert_ne by done. tauto.
  - unfold phase_ok in *. cbn. destruct (run_ p); [|done..]. destruct Hph as (_ & _ & Hnil). by rewrite Hnil, lookup_nil in Hl.
  - intros Hr. destruct (Hsu Hr) as [|[|]]; [by left|right; left; unfold full in *; cbn; by rewrite length_insert|right; right; auto].
Qed.

Lemma cancel_ok params p : pool_inv params p -> run_ p = run_waiting -> pool_inv params (run_cancelled p).
Proof.
  intros Hi Hr. destruct Hi as [Hpar [Hs Hn Hid Hp Ht Hw] Hmax Hnodes Hrq Hfew Hrn Hnd Hhe Hph Hun Hsu].
  split; cbn; try done.
  - split; cbn; try done. by left.
  - eapply Forall_impl; [exact Hnodes|]. intros n [H1 H2 H3 H4 H5]. by split.
  - unfold phase_ok. cbn. by destruct (all_conns_ p).
  - intros Hr'. by destruct (all_conns_ p).
Qed.

Lemma returns_ok params p : pool_inv params p -> run_ p = run_finishing -> pool_inv params (set_run (pl_state p) run_returned p).
Proof.
  intros Hi Hr. destruct Hi as [Hpar Hhk Hmax Hnodes Hrq Hfew Hrn Hnd Hhe Hph Hun Hsu]. split; cbn; try done.
  unfold phase_ok in *. cbn. by rewrite Hr in Hph.
Qed.

Section all_steps.
Context {timer : Timer} {laws : TimerLaws}.

Lemma step_ok params p op : params_ok params -> pool_inv params p -> enabled op p ->
exists p' r, pool_step op p = Some (p', r) /\ pool_inv params p' /\ result_ok p p' r.
Proof.
intros Hp Hi He. destruct op as [| | | |i stop|i ec stop|t|t stop|t|i should_reset]; cbn [enabled] in He; cbn [pool_step].
- pose proof (pi_phase _ _ Hi) as Hph. unfold phase_ok in Hph. rewrite He in Hph. unfold run_start. rewrite (proj1 Hph).
destruct (create_inv params p (connections_needed_ p) Hp Hi (or_introl He)) as (p' & Hc & Hi' & _).
change (set_needed (connections_needed_ p) (set_run pool_running run_waiting p)) with (set_run pool_running run_waiting p) in Hc.
rewrite Hc. by eexists _, _.
- destruct He as [He _]. destruct (create_inv params p false Hp Hi (or_intror He)) as (p' & Hc & Hi' & _). unfold run_needed.
pose proof (pi_phase _ _ Hi) as Hph. unfold phase_ok in Hph. rewrite He in Hph.
replace (set_run pool_running run_waiting p) with p in Hc by (destruct p; cbn in *; by destruct Hph as [-> _]; rewrite He).
rewrite Hc. by eexists _, _.
- eexists _, _. split; [reflexivity|]. split; [by apply cancel_ok|done].
- eexists _, _. split; [reflexivity|]. split; [apply returns_ok; [done|by destruct He]|done].
- destruct He as (n & Hl & Ht & Hst). destruct (node_start_ok params p i n stop Hi Hl Ht Hst) as (n' & s' & Hstart & Hi').
unfold node_step. rewrite Hl. cbn [mbind option_bind]. rewrite Hstart. by eexists _, _.
- destruct He as (n & act & Hl & Ht & Hst & _). destruct (node_continue_ok params p i n act ec stop Hi Hl Ht Hst) as (n' & s' & Hgo & _ & Hi').
unfold node_step. rewrite Hl. cbn [mbind option_bind]. rewrite Ht, Hgo. by eexists _, _.
- destruct He. by apply get_ok.
- by apply woken_ok.
- pose proof (stop_ok params p t Hi He) as Hi'. eexists _, Waits. split; [|split; [exact Hi'|done]]. unfold with_tasks.
replace (Z.of_nat _) with (num_pending_requests (shared_st_ p)); [done|]. rewrite (pi_requests _ _ Hi).
pose proof (hi_tasks _ _ (pi_hooks _ _ Hi)) as (Hn1 & _ & _)%list.NoDup_app. pose proof (length_remove_eq _ _ Hn1 He).
rewrite !length_app. simpl. lia.
- destruct (return_ok params p i should_reset Hi He) as (n & Hl & Hi'). rewrite Hl. by eexists _, _.
Qed.

Lemma reachable_inv params p : params_ok params -> reachable params p -> pool_inv params p.
Proof.
intros Hp. induction 1 as [p Hm|p op p' r _ IH He Hs]; [by apply make_pool_inv|].
destruct (step_ok params p op Hp IH He) as (p2 & r2 & Hs2 & Hi2 & _). rewrite Hs in Hs2. by injection Hs2 as <- <-.
Qed.
End all_steps.

(** ** What the pool does for its users *)

Section pool.
Context {timer : Timer} {laws : TimerLaws} (params : pool_params) (Hparams : params_ok params).

(** C19: No assertion of the pool can fail, whatever the order in which its tasks run,
and a connection has one user.  Every step of a task that can go on is defined;
a connection that [get_connection] returns was idle, no user had it, and the pool
was not cancelled. *)
Theorem pool_steps_defined p op : reachable params p -> enabled op p ->
exists p' r, pool_step op p = Some (p', r) /\
match r with
| Got i => is_cancelled p = false /\ (i ∉ held p) /\ held p' = i :: held p /\ status_ <$> all_conns_ p !! i = Some ns_idle
| _ => True
end.
Proof using Hparams laws.
intros Hr He. destruct (step_ok params p op Hparams (reachable_inv params p Hparams Hr) He) as (p' & r & Hs & _ & Hres).
by exists p', r.
Qed.

(** C21: The pool's books are right in every state it can be in: it never has more
connections than the maximum; the list of idle connections holds each of them
once; the counters of pending connections, waiting requests and running tasks
are the numbers of those, without wrapping; the connections the users have are
those in use that have not been returned, each once; and a connection that is
not in use has no collection pending. *)
Theorem pool_books p : reachable params p ->
Z.of_nat (length (all_conns_ p)) <= max_size params /\
NoDup (idle_list (shared_st_ p)) /\ (forall i, i ∈ idle_list (shared_st_ p) <-> status_ <$> all_conns_ p !! i = Some ns_idle) /\
num_pending_connections (shared_st_ p) = Z.of_nat (count (fun n => is_pending (status_ n)) (all_conns_ p)) /\
num_pending_requests (shared_st_ p) = Z.of_nat (length (waiting (shared_st_ p) ++ woken (shared_st_ p))) /\
num_running_connections (shared_st_ p) = Z.of_nat (count running_node (all_conns_ p)) /\
NoDup (held p) /\ (forall i, i ∈ held p <-> given <$> all_conns_ p !! i = Some true) /\
Forall (fun n => status_ n <> in_use -> collection_state_ n = collect_none) (all_conns_ p).
Proof using Hparams laws.
intros Hr. destruct (reachable_inv params p Hparams Hr) as [Hpar [Hs Hn Hid Hp Ht Hw] Hmax Hnodes Hrq Hfew Hrn Hnd Hhe Hph Hun Hsu].
split_and!; try done. eapply Forall_impl; [exact Hnodes|]. intros n Hok. apply (no_collection _ _ Hok).
Qed.

(** C20: No request is forgotten.  When no task has been woken and some wait, there is
no idle connection they could have; while the pool runs, it is about to create
connections, or is full, or a connection is on its way for each waiting request;
and when it creates them the maximum is reached or there is one on its way for
each, and it has its initial size. *)
Theorem pool_serves p : reachable params p ->
(waiting (shared_st_ p) <> [] -> woken (shared_st_ p) = [] -> idle_list (shared_st_ p) = []) /\
(run_ p = run_waiting -> enabled op_needed p \/ full p \/ (length (waiting (shared_st_ p)) <= count coming_node (all_conns_ p))%nat) /\
(run_ p = run_waiting -> exists p', pool_step op_needed p = Some (p', Waits) /\
initial_size params <= Z.of_nat (length (all_conns_ p')) /\
(full p' \/ (length (waiting (shared_st_ p')) <= count coming_node (all_conns_ p'))%nat)).
Proof using Hparams laws.
intros Hr. pose proof (reachable_inv params p Hparams Hr) as Hi. split_and!.
- intros Hne Hw. destruct (hi_wakeup _ _ (pi_hooks _ _ Hi)) as [|Hle]; [done|]. rewrite Hw in Hle. simpl in Hle.
apply nil_length_inv. lia.
- intros Hrun. destruct (pi_supply _ _ Hi Hrun) as [|[|]]; [by left|by right; left|by right; right].
- intros Hrun. destruct (create_inv params p false Hparams Hi (or_intror Hrun)) as (p' & Hc & _ & Hmin & Hsup). exists p'.
pose proof (pi_phase _ _ Hi) as Hph. unfold phase_ok in Hph. rewrite Hrun in Hph.
replace (set_run pool_running run_waiting p) with p in Hc by (destruct p; cbn in *; by destruct Hph as [-> _]; rewrite Hrun).
unfold pool_step, run_needed. by rewrite Hc.
Qed.

(** ** Shutting down *)

Definition pool_moves (p p' : pool) : Prop := exists op r, enabled op p /\ pool_step op p = Some (p', r).

Definition started (n : connection_node) : Prop := task_ n <> not_started.

(** The states after the cancellation. *)
Record shutting (p : pool) : Prop := {
sh_inv : pool_inv params p;
sh_cancelled : cancel_ev_ p = true;
sh_started : Forall started (all_conns_ p);
sh_finished : conns_finished (shared_st_ p) = true <-> count running_node (all_conns_ p) = 0%nat
}.

Lemma continue_shutting p i n act ec stop : shutting p -> all_conns_ p !! i = Some n -> task_ n = doing act ->
exists p', pool_step (op_continue i ec stop) p = Some (p', Waits) /\ shutting p' /\
count running_node (all_conns_ p') = (if stop then pred (count running_node (all_conns_ p)) else count running_node (all_conns_ p)) /\
(0 < count running_node (all_conns_ p))%nat.
Proof using Hparams laws.
intros [Hi Hc Hst Hfin] Hl Ht. destruct (node_continue_ok params p i n act ec stop Hi Hl Ht (fun _ => Hc)) as (n' & s' & Hgo & Hm & Hi').
assert (running_node n = true) as Hrn by (unfold running_node; by rewrite Ht).
destruct (running_moves params p i n _ n' s' stop Hi Hl (or_introl (conj eq_refl Hrn)) Hm) as [Hnum Hcf].
pose proof (count_insert running_node _ i n n' Hl) as Hcount. pose proof (nm_task _ _ _ _ _ _ Hm) as Htask.
assert (running_node n' = negb stop /\ started n') as [Hrn' Hs'].
{ unfold running_node, started. destruct stop; [by rewrite Htask|by destruct Htask as [-> _]]. }
pose proof (count_insert running_node _ i n (with_task finished n) Hl) as Hpos. rewrite Hrn in Hpos. simpl in Hpos.
rewrite Hrn, Hrn' in Hcount.
eexists. split; [unfold pool_step, node_step; rewrite Hl; cbn [mbind option_bind]; rewrite Ht, Hgo; reflexivity|].
split; [|cbn [set_nodes all_conns_]; destruct stop; simpl in Hcount; lia]. split; [done|done|by apply Forall_insert|].
cbn [set_nodes shared_st_ all_conns_]. rewrite Hcf, Hnum. destruct stop; simpl in Hcount.
- destruct (Z.eqb_spec (Z.of_nat (count running_node (<[i:=n']> (all_conns_ p)))) 0); [split; [lia|done]|]. rewrite Hfin. lia.
- rewrite Hfin. lia.
Qed.

(** The other steps do not matter. *)
Lemma shutting_same p p' : shutting p -> pool_inv params p' -> cancel_ev_ p' = cancel_ev_ p -> all_conns_ p' = all_conns_ p ->
conns_finished (shared_st_ p') = conns_finished (shared_st_ p) -> shutting p'.
Proof using. intros [Hi Hc Hst Hfin] Hi' H1 H2 H3. split; [done|by rewrite H1|by rewrite H2|by rewrite H2, H3]. Qed.

Lemma cancelled_not_running p : shutting p -> run_ p <> run_none /\ run_ p <> run_waiting /\ is_cancelled p = true /\ waiting (shared_st_ p) = [].
Proof using.
intros [Hi Hc _ _]. destruct (cancelled_waiting params p Hi Hc) as [Hw Hic]. pose proof (pi_phase _ _ Hi) as Hph. unfold phase_ok in Hph.
rewrite Hc in Hph. split_and!; [..|done|done]; intros Hr; rewrite Hr in Hph; by destruct Hph as (? & ?); destruct_and?.
Qed.

Lemma shutting_moves p p' : pool_moves p p' -> shutting p -> shutting p'.
Proof using Hparams laws.
intros (op & r & He & Hs) Hsh. destruct (cancelled_not_running p Hsh) as (H1 & H2 & Hic & Hw). pose proof (sh_inv _ Hsh) as Hi.
assert (pool_inv params p') as Hi'.
{ destruct (step_ok params p op Hparams Hi He) as (p2 & r2 & Hs2 & Hi2 & _). rewrite Hs in Hs2. by injection Hs2 as <- <-. }
destruct op as [| | | |i stop|i ec stop|t|t stop|t|i should_reset]; cbn [enabled] in He.
- done.
- by destruct He.
- done.
- injection Hs as <- _. by apply (shutting_same p).
- destruct He as (n & Hl & Ht & _). by destruct (Forall_lookup_1 _ _ _ _ (sh_started _ Hsh) Hl).
- destruct He as (n & act & Hl & Ht & _). destruct (continue_shutting p i n act ec stop Hsh Hl Ht) as (p2 & Hs2 & Hsh2 & _).
rewrite Hs in Hs2. by injection Hs2 as ->.
- cbn [pool_step] in Hs. unfold get_connection in Hs. rewrite Hic in Hs. by injection Hs as <- _.
- cbn [pool_step] in Hs. unfold get_connection_woken in Hs. rewrite (exit_ok params p t Hi He) in Hs. cbn [mbind option_bind] in Hs.
change (is_cancelled (with_tasks _ _ p)) with (is_cancelled p) in Hs. rewrite Hic in Hs. injection Hs as <- _. by apply (shutting_same p).
- rewrite Hw in He. by apply not_elem_of_nil in He.
- cbn [pool_step] in Hs. destruct (all_conns_ p !! i) as [n|] eqn:Hl; [|done]. injection Hs as <- _.
destruct Hsh as [_ Hc Hst Hfin]. split; [done|done|..]; cbn [set_held set_nodes all_conns_ shared_st_].
+ apply Forall_insert; [done|]. exact (Forall_lookup_1 _ _ _ _ Hst Hl).
+ pose proof (count_insert running_node _ i n (mark_as_collectable should_reset n) Hl) as Hcr.
change (running_node (mark_as_collectable should_reset n)) with (running_node n) in Hcr. rewrite Hfin. lia.
Qed.

Lemma finished_all p : shutting p -> count running_node (all_conns_ p) = 0%nat <-> Forall (fun n => task_ n = finished) (all_conns_ p).
Proof using.
intros [_ _ Hst _]. induction Hst as [|n l Hn _ IH]; [by split|]. unfold started in Hn. unfold count in *. simpl.
rewrite Forall_cons, <- IH. unfold running_node at 1. destruct (task_ n); [done|split; [by intros [=]|by intros []]|].
split; [intros Hc; by split|by intros []].
Qed.

End pool.

(** ** A pool in use

    A request waits for the first connection and gets it. *)
Definition sample_params : pool_params := PP (CP (str "me") (str "secret") (str "db")) 1 2 20 30 30 10.

Definition sample_ops : list pool_op :=
  [op_run; op_get 7; op_start 0 false; op_continue 0 None false; op_woken 7 false].

Fixpoint all_enabled (ops : list pool_op) (p : pool) : Prop :=
  match ops with
  | [] => True
  | op :: ops => enabled op p /\ match pool_step op p with Some (p', _) => all_enabled ops p' | None => False end
  end.

Fixpoint after_ops (ops : list pool_op) (p : pool) : pool :=
  match ops with
  | [] => p
  | op :: ops => match pool_step op p with Some (p', _) => after_ops ops p' | None => p end
  end.

Definition sample_pool (ops : list pool_op) : pool :=
  match make_pool sample_params with
  | inr p => after_ops ops p
  | inl _ => Pool sample_params pool_initial [] (CSS [] [] [] 0 0 0 false) false false run_none []
  end.

Lemma reachable_ops ops : forall p, reachable sample_params p -> all_enabled ops p -> reachable sample_params (after_ops ops p).
Proof.
  induction ops as [|op ops IH]; intros p Hr Hops; [done|]. destruct Hops as [He Hops]. cbn [after_ops].
  destruct (pool_step op p) as [[p' r]|] eqn:Es; [|done]. apply IH; [|done]. by eapply rc_step.
Qed.

Lemma sample_params_ok : params_ok sample_params.
Proof. split; [reflexivity|]. unfold sample_params, SIZE_MAX. simpl. lia. Qed.

(** One operation: that it is enabled is decided, and it is computed. *)
Ltac op_decides := apply (bool_decide_unpack _); vm_compute; exact I.

Ltac op_enabled :=
  cbn; lazymatch goal with
  | |- exists n act, _ => do 2 eexists; split; [reflexivity|split; [reflexivity|split; [done|intros; done]]]
  | |- exists n, _ => eexists; split; [reflexivity|split; [reflexivity|done]]
  | |- _ /\ _ => split; op_decides || reflexivity
  | _ => op_decides || reflexivity
  end.

Ltac next_op :=
  split; [op_enabled|
    match goal with |- match ?s with _ => _ end => let r := eval vm_compute in s in replace s with r by (vm_compute; reflexivity) end;
    cbv iota beta].

Lemma sample_reachable k : (k <= 5)%nat -> reachable sample_params (sample_pool (take k sample_ops)).
Proof.
  intros Hk. apply reachable_ops; [by apply rc_start|].
  do 6 (destruct k as [|k]; [cbn [take sample_ops all_enabled]; repeat next_op; exact I|]). lia.
Qed.

Lemma pool_steps_defined_witness :
  exists p', pool_step (op_woken 7 false) (sample_pool (take 4 sample_ops)) = Some (p', Got 0) /\ held p' = [0%nat].
Proof.
  destruct (pool_steps_defined sample_params sample_params_ok (sample_pool (take 4 sample_ops)) (op_woken 7 false)
    (sample_reachable 4 ltac:(lia)) ltac:(change (7%nat ∈ woken (shared_st_ (sample_pool (take 4 sample_ops)))); op_decides)) as (p' & r & Hs & Hr).
  vm_compute in Hs. injection Hs as <- <-. eexists. split; [reflexivity|]. exact (proj1 (proj2 (proj2 Hr))).
Defined.

Lemma pool_books_witness :
  num_pending_connections (shared_st_ (sample_pool (take 3 sample_ops))) = 1 /\ held (sample_pool (take 5 sample_ops)) = [0%nat] /\
  NoDup (held (sample_pool (take 5 sample_ops))).
Proof.
  destruct (pool_books sample_params sample_params_ok _ (sample_reachable 3 ltac:(lia))) as (_ & _ & _ & H1 & _).
  destruct (pool_books sample_params sample_params_ok _ (sample_reachable 5 ltac:(lia))) as (_ & _ & _ & _ & _ & _ & H2 & _).
  split; [by rewrite H1|split; [reflexivity|exact H2]].
Defined.

Lemma pool_serves_witness :
  waiting (shared_st_ (sample_pool (take 3 sample_ops))) = [7%nat] /\ idle_list (shared_st_ (sample_pool (take 3 sample_ops))) = [] /\
  exists p', pool_step op_needed (sample_pool (take 3 sample_ops)) = Some (p', Waits) /\ initial_size sample_params <= Z.of_nat (length (all_conns_ p')).
Proof.
  destruct (pool_serves sample_params sample_params_ok _ (sample_reachable 3 ltac:(lia))) as (H1 & _ & H2).
  split; [reflexivity|]. split; [by apply H1|]. destruct (H2 eq_refl) as (p' & Hs & Hm & _). by exists p'.
Defined.

