(* ===== verification/PoolPing.v ===== *)
(** * Pings of the connection pool
    ([src/src/nativepg_internal/connection_pool/connection_node.hpp])

    An idle connection is pinged from time to time: a request made of a single Sync is
    executed, and whether that succeeds decides if the connection is idle again or has
    to be established anew.  The machine that executes requests, [Exec], meets the task
    of the connection, [Pool], here. *)

From stdpp Require Import base list option.
From Stdlib Require Import ZArith Lia.
From S2P Require Import Prelude Errors BackendMessages ParseMessage FrontendMessages FrontendSpec Request ReadResponse ReadResponseSpec ReadResponseGrammar.
From S2P Require Import BackendWire Sqlstate ReadBuffer MessagePump Exec Responses Pool.

#[local] Open Scope Z_scope.

(** ** The handler and the request *)

(** [check_handler] of the pool.  Unlike [check], it keeps the last error. *)
Record ping_check := PingCheck { ping_err : extended_error }.

#[global] Instance ping_check_handler : ResponseHandler ping_check := {
  setup req offset h :=
    if (offset =? 0)%nat then Some (setup_ok (length (rq_types req)), PingCheck no_error) else None;
  on_message msg _ h :=
    Some (match msg with Aerror_response err => PingCheck (store_error err (ping_err h)) | _ => h end);
  result := ping_err
}.

(** [ping_req_], as the constructor of the connection makes it. *)
Definition ping_req : request := (add_sync (make_request true)).2.

(** [conn_.exec(ping_req_, handler)], over reads of the given sizes. *)
Definition ping {alloc : Allocator} (sizes : list nat) (stream : bytes) (st : connection_state) :=
  exec_session sizes stream (make_exec ping_req (PingCheck no_error)) st.

(** The connection resumes with the error of the ping. *)
Definition after_ping {timer : Timer} (i : nat) (ec : extended_error) (stop : bool) (n : connection_node) (s : conn_shared_state) :=
  node_continue i act_ping (code ec) stop n s.

(** ** What answers a ping *)

Section pings.
Context {alloc : Allocator}.

Lemma ping_request : frontend_wire Fsync = rq_buffer ping_req /\ check_request ping_req = None.
Proof. done. Qed.

(** What an answer makes of the ping. *)
Definition ping_outcome (m : any_backend_message) : error_code :=
match m with Mready_for_query _ => None | _ => Some (client unexpected_message) end.

(** Anything else than asynchronous messages ends the ping. *)
Lemma feed_ping asyncs m : Forall (fun m => is_async m = true) asyncs -> is_async m = false ->
exists f, feed (asyncs ++ [m]) (make_fsm ping_req (PingCheck no_error) false) =
Some (Rdone (ping_outcome m), f, []) /\
handler_ f = PingCheck no_error.
Proof.
intros Ha Hm. induction Ha as [|a asyncs Ha _ IH].
- destruct m; try done; eexists; by split.
- destruct IH as (f & Hf & Hh). exists f. split; [|done]. cbn [app feed]. unfold ReadResponse.resume at 1.
rewrite Ha. cbn [mbind option_bind]. exact Hf.
Qed.
End pings.

(** C22: A ping tells whether the server answers.  Executing it sends one Sync message
    and nothing else, however the answer is cut into reads and whatever asynchronous
    messages come first; if then ReadyForQuery comes, the connection joins the idle
    list and one waiting request is woken; if anything else comes (a server error
    too), the connection leaves for a new [connect], and the list is not touched.
    What follows the answer is kept. *)
Theorem ping_exact {alloc : Allocator} {timer : Timer} asyncs m bs extra stream sizes st i n s :
  Forall (fun a => is_async a = true) asyncs -> is_async m = false -> encodes (asyncs ++ [m]) bs ->
  rb_inv (st_read_buffer st) -> committed_area (st_read_buffer st) ++ stream = bs ++ extra ->
  Forall (fun k => 0 < k)%nat sizes -> (length stream <= length sizes)%nat -> status_ n = ping_in_progress ->
  exists ec x st', ping sizes stream st = Some (frontend_wire Fsync, io_done ec, x, st') /\
    (exists unread, committed_area (st_read_buffer st') ++ unread = extra) /\
    after_ping i (exec_get_result x ec) false n s = Some
      (match m with
       | Mready_for_query _ =>
           (CN ns_idle (collection_state_ n) (collection_ev_ n) (doing act_idle_wait),
            let s' := cancel_one (set_idle (idle_list s ++ [i]) s) in set_num_pending (decrement (num_pending_connections s')) s')
       | _ => (CN connect_in_progress (collection_state_ n) (collection_ev_ n) (doing act_connect), s)
       end).
Proof.
  intros Ha Hm He Hrb Hs Hpos Hlen Hn. destruct (feed_ping asyncs m Ha Hm) as (f & Hf & Hh).
  edestruct (exec_session_feed ping_req (PingCheck no_error) (PingCheck no_error) (ping_outcome m) f st sizes (asyncs ++ [m]) bs extra stream)
    as (x & st' & Hx & _ & Hr & Hu); [done|done|exact Hf|done..|].
  exists (ping_outcome m), x, st'. split; [exact Hx|]. split; [exact Hu|]. rewrite Hr, Hh.
  unfold after_ping, node_continue, node_resume, Pool.resume. cbn [fst]. rewrite Hn.
  destruct m; done.
Qed.

(** A parameter change, then the answer, read one byte at a time. *)
Definition ping_answer : list any_backend_message :=
  [Mparameter_status {| ps_name := str "TimeZone"; ps_value := str "UTC" |}; Mready_for_query {| status := idle |}].

Definition ping_answer_bytes : bytes := frame (ch "S") (str "TimeZone" ++ 0 :: str "UTC" ++ [0]) ++ frame (ch "Z") [ch "I"].

Lemma ping_answer_encodes : encodes ping_answer ping_answer_bytes.
Proof.
  apply (encodes_cons _ _ _ (str "TimeZone" ++ 0 :: str "UTC" ++ [0])).
  - apply (W_parameter_status {| ps_name := str "TimeZone"; ps_value := str "UTC" |}); apply (bool_decide_unpack _); vm_compute; exact I.
  - apply (bool_decide_unpack _). vm_compute. exact I.
  - vm_compute. discriminate.
  - rewrite <- (app_nil_r (frame (ch "Z") [ch "I"])). apply (encodes_cons _ _ _ [ch "I"]).
    + by apply (W_ready_for_query {| status := idle |}).
    + apply (bool_decide_unpack _). vm_compute. exact I.
    + vm_compute. discriminate.
    + constructor.
Qed.

Definition pinged : connection_node := CN ping_in_progress collect_none false (doing act_ping).
Definition ping_state : conn_shared_state := CSS [] [7%nat] [] 1 1 1 false.

Lemma ping_exact_witness : exists ec x st',
  @ping zero_alloc (repeat 1%nat 40) ping_answer_bytes sample_state = Some (frontend_wire Fsync, io_done ec, x, st') /\
  @after_ping fifo_timer 0 (exec_get_result x ec) false pinged ping_state =
  Some (CN ns_idle collect_none false (doing act_idle_wait), CSS [0%nat] [] [7%nat] 0 1 1 false).
Proof.
  destruct (@ping_exact zero_alloc fifo_timer [Mparameter_status {| ps_name := str "TimeZone"; ps_value := str "UTC" |}]
    (Mready_for_query {| status := idle |}) ping_answer_bytes [] ping_answer_bytes (repeat 1%nat 40) sample_state 0
    pinged ping_state) as (ec & x & st' & Hp & _ & Ha).
  - by constructor.
  - done.
  - apply ping_answer_encodes.
  - apply sample_state_inv.
  - reflexivity.
  - apply (bool_decide_unpack _). vm_compute. exact I.
  - vm_compute. lia.
  - done.
  - exists ec, x, st'. split; [exact Hp|]. rewrite Ha. reflexivity.
Defined.
