(* ===== verification/MultiplexedConnection.v ===== *)
(** * The multiplexed connection ([src/src/co_multiplexed_connection.cpp])

    One connection serves many requests: the reader turns the server's bytes into
    messages and hands them to the multiplexer or to the queue of notifications,
    the writer writes what is pending, [exec] adds requests, and [run] connects
    again when one of them has failed.  [connection_step] is what a task does
    between two suspensions. *)

From stdpp Require Import base list option.
From Stdlib Require Import ZArith Lia.
From S2P Require Import Prelude Errors BackendMessages ParseMessage BackendWire BackendSpec Request ReadResponse ReadResponseSpec ReadResponseGrammar.
From S2P Require Import Sqlstate Scram Startup StartupSession ReadBuffer MessagePump Exec Multiplexer NotificationQueue.

(** Where the reader is: not running, in [read_some], waiting for room for a
    notification with the bytes of the batch consumed so far, or returned.
    [reader_asserts] is a failed assertion of the multiplexer. *)
Inductive reader_state :=
| reader_idle
| reader_reading
| reader_blocked (msg : notification_response) (consumed : nat)
| reader_done
| reader_asserts.

Section connection.
Context {alloc : Allocator} {H : Type} `{!ResponseHandler H}.

Record connection := Conn {
cn_state : connection_state;
cn_mpx : multiplexer H;
cn_queue : notification_queue;
cn_write_evt : bool;
cn_reader : reader_state
}.

Definition set_rb (rb : read_buffer) (c : connection) : connection :=
Conn (set_read_buffer rb (cn_state c)) (cn_mpx c) (cn_queue c) (cn_write_evt c) (cn_reader c).
Definition set_mpx (m : multiplexer H) (c : connection) : connection :=
Conn (cn_state c) m (cn_queue c) (cn_write_evt c) (cn_reader c).
Definition set_queue (q : notification_queue) (c : connection) : connection :=
Conn (cn_state c) (cn_mpx c) q (cn_write_evt c) (cn_reader c).
Definition set_write_evt (b : bool) (c : connection) : connection :=
Conn (cn_state c) (cn_mpx c) (cn_queue c) b (cn_reader c).
Definition set_reader (r : reader_state) (c : connection) : connection :=
Conn (cn_state c) (cn_mpx c) (cn_queue c) (cn_write_evt c) r.

Definition cn_buffer (c : connection) : read_buffer := st_read_buffer (cn_state c).

(** What a step does: the operations on the multiplexer with their outputs, the
messages taken from the server, and the events given to the consumer. *)
Record effects := FX {
fx_ops : list (operation H * output H);
fx_routed : list any_backend_message;
fx_taken : list notification_event
}.

Definition no_effects : effects := FX [] [] [].
Definition then_effects (a b : effects) : effects :=
FX (fx_ops a ++ fx_ops b) (fx_routed a ++ fx_routed b) (fx_taken a ++ fx_taken b).
Definition routed (m : any_backend_message) : effects := FX [] [m] [].
Definition routed_op (m : any_backend_message) (o : output H) : effects := FX [(Op_message m, o)] [m] [].

Definition as_notification (m : any_backend_message) : option notification_response :=
match m with Mnotification_response n => Some n | _ => None end.

(** ** The reader

The loop over the messages of a batch, from [consumed] on, and the next read.
The messages stay in the buffer until the batch is over. *)
Fixpoint reader_loop (fuel : nat) (consumed : nat) (c : connection) : option (effects * connection) :=
match fuel with
| O => None
| S fuel' =>
let res := parse_message (drop consumed (committed_area (cn_buffer c))) in
match pm_ec res with
| Some (client needs_more) =>
let c := set_rb (consume (Z.of_nat consumed) (cn_buffer c)) c in
match message_missing_bytes (committed_area (cn_buffer c)) with
| O => reader_loop fuel' 0 c
| missing_bytes => rb ← prepare (Z.of_nat missing_bytes) (cn_buffer c); Some (no_effects, set_reader reader_reading (set_rb rb c))
end
| Some _ => Some (no_effects, set_reader reader_done (set_rb (consume (Z.of_nat consumed) (cn_buffer c)) c))
| None =>
let consumed := (consumed + pm_size res)%nat in
match as_notification (pm_message res) with
| Some notif_msg =>
  match deliver_notification notif_msg (cn_queue c) with
  | Ready q =>
      '(fx, c) ← reader_loop fuel' consumed (set_queue q c);
      Some (then_effects (routed (pm_message res)) fx, c)
  | Suspended => Some (no_effects, set_reader (reader_blocked notif_msg consumed) c)
  | Spinning => None
  end
| None =>
  match mux_step (Op_message (pm_message res)) (cn_mpx c) with
  | None => Some (no_effects, set_reader reader_asserts c)
  | Some (o, m) =>
      match o_ec o with
      | Some _ => Some (routed_op (pm_message res) o, set_reader reader_done (set_mpx m c))
      | None =>
          '(fx, c) ← reader_loop fuel' consumed (set_mpx m c);
          Some (then_effects (routed_op (pm_message res) o) fx, c)
      end
  end
end
end
end.

(** [read_some_messages]: the loop starts once there is a message. *)
Definition reader_wait (c : connection) : option (effects * connection) :=
match message_missing_bytes (committed_area (cn_buffer c)) with
| O => reader_loop (S (length (committed_area (cn_buffer c)))) 0 c
| missing_bytes => rb ← prepare (Z.of_nat missing_bytes) (cn_buffer c); Some (no_effects, set_reader reader_reading (set_rb rb c))
end.

(** [read_some] has given [data]. *)
Definition reader_read (data : bytes) (c : connection) : option (effects * connection) :=
reader_wait (set_rb (receive data (cn_buffer c)) c).

(** The task that waits for room runs. *)
Definition reader_unblock (notif_msg : notification_response) (consumed : nat) (c : connection) : option (effects * connection) :=
match add_notify notif_msg (cn_queue c) with
| Ready q =>
'(fx, c) ← reader_loop (S (length (committed_area (cn_buffer c)))) consumed (set_queue q c);
Some (then_effects (routed (Mnotification_response notif_msg)) fx, c)
| Suspended => Some (no_effects, c)
| Spinning => None
end.

(** ** The other tasks *)

(** An operation on the multiplexer. *)
Definition on_mpx (op : operation H) (c : connection) : option (effects * connection) :=
'(o, m) ← mux_step op (cn_mpx c); Some (FX [(op, o)] [] [], set_mpx m c).

(** [writer], up to the write or the wait. *)
Definition writer (c : connection) : option (effects * connection) :=
'(fx, c) ← on_mpx Op_write c;
Some (fx, match mx_write_buffer (cn_mpx c) with [] => set_write_evt false c | _ => c end).

(** [exec], up to its wait. *)
Definition exec_request (req : request) (handler : H) (c : connection) : option (effects * connection) :=
'(req_ec, handler) ← setup_request req handler;
match req_ec with
| Some _ => Some (no_effects, c)
| None => '(fx, c) ← on_mpx (Op_add req handler) c; Some (fx, set_write_evt true c)
end.

(** [run], when the connection has been established and left in the state [st]. *)
Definition run_connected (st : connection_state) (c : connection) : option (effects * connection) :=
reader_wait (Conn st (cn_mpx c) (add_connect (cn_queue c)) (cn_write_evt c) (cn_reader c)).

(** [run], when the writer or the reader has returned. *)
Definition run_lost (c : connection) : option (effects * connection) :=
'(fx, c) ← on_mpx Op_cleanup c; Some (fx, set_reader reader_idle (set_queue (add_disconnect (cn_queue c)) c)).

Inductive connection_op :=
| cop_connected (st : connection_state)
| cop_lost
| cop_read (data : bytes)
| cop_read_error
| cop_unblock
| cop_write
| cop_exec (req : request) (handler : H)
| cop_cancel (elm : nat)
| cop_take.

Definition connection_step (op : connection_op) (c : connection) : option (effects * connection) :=
match op with
| cop_connected st => run_connected st c
| cop_lost => run_lost c
| cop_read data => reader_read data c
| cop_read_error => Some (no_effects, set_reader reader_done c)
| cop_unblock => match cn_reader c with reader_blocked msg consumed => reader_unblock msg consumed c | _ => None end
| cop_write => writer c
| cop_exec req handler => exec_request req handler c
| cop_cancel elm => on_mpx (Op_cancel elm) c
| cop_take =>
match read_events (cn_queue c) with
| Ready (q, events) => Some (FX [] [] events, set_queue q c)
| Suspended => Some (no_effects, c)
| Spinning => None
end
end.

(** The steps of an established connection that its tasks can make.  A read gives
something, within the space there is; what users and the writer ask of the
multiplexer is defined. *)
Definition session_op (op : connection_op) (c : connection) : Prop :=
match op with
| cop_connected _ | cop_lost => False
| cop_read data => cn_reader c = reader_reading /\ (Z.of_nat (length data) <= prepared_size (cn_buffer c))%Z
| cop_read_error => cn_reader c = reader_reading
| cop_unblock => exists msg consumed, cn_reader c = reader_blocked msg consumed
| cop_write => is_Some (mux_step Op_write (cn_mpx c))
| cop_exec req handler => is_Some (setup_request req handler)
| cop_cancel elm => is_Some (mux_step (Op_cancel elm) (cn_mpx c))
| cop_take => True
end.

Inductive session_run : list connection_op -> connection -> effects -> connection -> Prop :=
| sr_nil c : session_run [] c no_effects c
| sr_cons op ops c fx c' fx' c'' : session_op op c -> connection_step op c = Some (fx, c') ->
session_run ops c' fx' c'' -> session_run (op :: ops) c (then_effects fx fx') c''.

(** What the server sends in a session. *)
Definition op_bytes (op : connection_op) : bytes := match op with cop_read data => data | _ => [] end.
End connection.
Arguments connection H : clear implicits.
Arguments effects H : clear implicits.
Arguments connection_op H : clear implicits.

(** ** What a session does *)

Section sessions.
Context {alloc : Allocator} {H : Type} `{!ResponseHandler H}.
Implicit Types (c : connection H) (fx : effects H) (ms : list any_backend_message).

Definition notifications (ms : list any_backend_message) : list notification_response := omap as_notification ms.

(** The messages of responses. *)
Definition answers_of (ms : list any_backend_message) : list any_backend_message :=
List.filter (fun m => match as_notification m with Some _ => false | None => true end) ms.

Definition op_message (op : operation H) : option any_backend_message := match op with Op_message m => Some m | _ => None end.

(** What the effects of steps say: the multiplexer goes through its operations, the
answers among the messages that were taken are given to it in order, and the
notifications among them go through the queue to the consumer. *)
Record explains (fx : effects H) (c c' : connection H) : Prop := {
ex_mpx : mux_run (map fst (fx_ops fx)) (cn_mpx c) = Some (map snd (fx_ops fx), cn_mpx c');
ex_answers : omap op_message (map fst (fx_ops fx)) = answers_of (fx_routed fx);
ex_events : fx_taken fx ++ pending_ (cn_queue c') = pending_ (cn_queue c) ++ map notify_of (notifications (fx_routed fx))
}.

Definition queue_ok (q : notification_queue) : Prop := flags_ok q /\ (0 < max_pending_ q)%nat.

Lemma add_event_ok e q : queue_ok q -> queue_ok (add_event e q).
Proof. intros [Hf Hm]. split; [by apply add_event_flags|done]. Qed.

(** The reader has [ms] left to take, of which [future] has not been read. *)
Definition reading (ms : list any_backend_message) (future : bytes) (c : connection H) : Prop :=
rb_inv (cn_buffer c) /\ queue_ok (cn_queue c) /\
match cn_reader c with
| reader_reading => (0 < prepared_size (cn_buffer c))%Z /\ encodes ms (committed_area (cn_buffer c) ++ future) /\ (future = [] -> ms = [])
| reader_blocked msg k => exists ms', ms = Mnotification_response msg :: ms' /\ (k <= length (committed_area (cn_buffer c)))%nat /\
encodes ms' (drop k (committed_area (cn_buffer c)) ++ future)
| reader_idle => False
| _ => True
end.

Definition step_ok (ms : list any_backend_message) (future : bytes) (c : connection H) (fx : effects H) (c' : connection H) : Prop :=
explains fx c c' /\ exists ms', ms = fx_routed fx ++ ms' /\ reading ms' future c'.

Lemma mux_run_app a : forall b (m : multiplexer H), mux_run (a ++ b) m =
'(os, m) ← mux_run a m; '(os', m) ← mux_run b m; Some (os ++ os', m).
Proof.
induction a as [|op a IH]; intros b m; simpl; [by destruct (mux_run b m) as [[]|]|].
destruct (mux_step op m) as [[o m1]|]; [|done]. cbn [mbind option_bind]. rewrite IH.
destruct (mux_run a m1) as [[os m2]|]; [|done]. cbn [mbind option_bind]. by destruct (mux_run b m2) as [[os' m3]|].
Qed.

Lemma explains_none c c' : cn_mpx c' = cn_mpx c -> cn_queue c' = cn_queue c -> explains no_effects c c'.
Proof. intros Hm Hq. split; simpl; [by rewrite Hm|done|by rewrite Hq, app_nil_r]. Qed.

Lemma explains_then fx1 fx2 c c1 c2 : explains fx1 c c1 -> explains fx2 c1 c2 -> explains (then_effects fx1 fx2) c c2.
Proof.
intros [M1 A1 E1] [M2 A2 E2]. split; unfold then_effects, notifications, answers_of in *; cbn [fx_ops fx_routed fx_taken].
- rewrite !map_app, mux_run_app, M1. cbn [mbind option_bind]. by rewrite M2.
- by rewrite map_app, omap_app, List.filter_app, A1, A2.
- rewrite <- app_assoc, E2, app_assoc, E1, omap_app, map_app. by rewrite app_assoc.
Qed.

Lemma step_then ms future fx1 fx2 c c1 c2 : explains fx1 c c1 -> step_ok ms future c1 fx2 c2 ->
step_ok (fx_routed fx1 ++ ms) future c (then_effects fx1 fx2) c2.
Proof.
intros He (He2 & ms' & -> & Hr). split; [by eapply explains_then|]. exists ms'. split; [by rewrite app_assoc|done].
Qed.

(** A notification goes to the queue. *)
Lemma deliver_ok n c : queue_ok (cn_queue c) ->
match deliver_notification n (cn_queue c) with
| Ready q => queue_ok q /\ explains (routed (Mnotification_response n)) c (set_queue q c)
| Suspended => True
| Spinning => False
end.
Proof.
intros Hf. pose proof Hf as [[_ Hs] _]. destruct (deliver_notification n (cn_queue c)) as [q| |] eqn:Ed; [|done|].
- apply deliver_notification_adds in Ed as [_ ->]. split; [by apply add_event_ok|]. by split.
- unfold deliver_notification, try_add_notify, add_notify, wait_until in Ed. rewrite Hs in Ed. by destruct (has_space (cn_queue c)).
Qed.

(** A message goes to the multiplexer. *)
Lemma message_explains m o mpx c : as_notification m = None -> mux_step (Op_message m) (cn_mpx c) = Some (o, mpx) ->
explains (routed_op m o) c (set_mpx mpx c).
Proof.
intros Hn Hs. split; cbn [routed_op fx_ops fx_routed fx_taken map fst snd mux_run].
- rewrite Hs. done.
- unfold answers_of. cbn [List.filter omap]. by rewrite Hn.
- unfold notifications. simpl. rewrite Hn. simpl. by rewrite app_nil_r.
Qed.

(** The next read, when no message is complete. *)
Lemma await_ok ms future c : rb_inv (cn_buffer c) -> queue_ok (cn_queue c) -> encodes ms (committed_area (cn_buffer c) ++ future) ->
(future = [] -> ms = []) -> pm_ec (parse_message (committed_area (cn_buffer c))) = Some (client needs_more) ->
exists n rb, message_missing_bytes (committed_area (cn_buffer c)) = S n /\ prepare (Z.of_nat (S n)) (cn_buffer c) = Some rb /\
step_ok ms future c no_effects (set_reader reader_reading (set_rb rb c)).
Proof.
intros Hi Hf He Hfut Hp. destruct (missing_incomplete _ Hp) as (n & Hm & Hsz). pose proof (parse_message_needs_more _ Hp) as [_ Hbd].
rewrite Hsz in Hbd. destruct (buffer_step_refines (Op_prepare (Z.of_nat (S n))) (cn_buffer c) Hi) as (rb & Hst & Hi1 & Hc1 & Hroom).
{ unfold op_allowed, SIZE_MAX. unfold INT32_MAX in Hbd. lia. }
simpl in Hst, Hc1, Hroom. exists n, rb. split; [done|]. split; [done|]. split; [by apply explains_none|]. exists ms. split; [done|].
split; [done|]. split; [done|]. cbn. split; [lia|]. split; [by rewrite Hc1|done].
Qed.

Lemma encodes_nil_inv bs : encodes [] bs -> bs = [].
Proof. by inversion 1. Qed.

Lemma encodes_cons_inv m ms bs : encodes (m :: ms) bs -> exists t body bs', bs = frame t body ++ bs' /\ wire_body m t body /\
Forall is_byte body /\ (Z.of_nat (length body) + 4 <= INT32_MAX)%Z /\ encodes ms bs'.
Proof. inversion 1; subst. by do 3 eexists. Qed.

(** A batch from which no more messages can be taken. *)
Lemma batch_over ms future consumed c : rb_inv (cn_buffer c) -> queue_ok (cn_queue c) ->
encodes ms (drop consumed (committed_area (cn_buffer c)) ++ future) -> (future = [] -> ms = []) ->
pm_ec (parse_message (drop consumed (committed_area (cn_buffer c)))) = Some (client needs_more) ->
forall fuel, exists fx c', reader_loop (S fuel) consumed c = Some (fx, c') /\ step_ok ms future c fx c'.
Proof.
intros Hi Hf He Hfut Hp fuel. cbn [reader_loop]. rewrite Hp.
destruct (consume_ok consumed (cn_buffer c) Hi) as [Hi' Hc']. rewrite <- Hc' in He, Hp.
set (c1 := set_rb (consume (Z.of_nat consumed) (cn_buffer c)) c).
destruct (await_ok ms future c1 Hi' Hf He Hfut Hp) as (n & rb & Hm & Hpr & Hex & Hr).
rewrite Hm, Hpr. cbn [mbind option_bind]. eexists _, _. split; [reflexivity|]. split; [by apply explains_none|exact Hr].
Qed.

(** The reader over a batch. *)
Lemma reader_loop_ok ms : forall future fuel consumed c, rb_inv (cn_buffer c) -> queue_ok (cn_queue c) ->
(consumed <= length (committed_area (cn_buffer c)))%nat -> encodes ms (drop consumed (committed_area (cn_buffer c)) ++ future) ->
(length (drop consumed (committed_area (cn_buffer c))) < fuel)%nat ->
exists fx c', reader_loop fuel consumed c = Some (fx, c') /\ step_ok ms future c fx c'.
Proof.
induction ms as [|m ms IH]; intros future fuel consumed c Hi Hf Hcon He Hfuel; (destruct fuel as [|fuel]; [lia|]).
{ pose proof (encodes_nil_inv _ He) as Hnil. apply batch_over; [done..|]. by destruct (app_eq_nil _ _ Hnil) as [-> _]. }
destruct (encodes_cons_inv _ _ _ He) as (t & body & bs' & Hbs & Hw & Hb & Hl & He').
destruct (Nat.le_gt_cases (length (frame t body)) (length (drop consumed (committed_area (cn_buffer c))))) as [Hle|Hlt].
2: { apply batch_over; [done..| |by eapply parse_incomplete]. intros ->. exfalso. rewrite app_nil_r in Hbs. rewrite Hbs, length_app in Hlt. lia. }
destruct (app_longer _ _ _ _ Hbs Hle) as (u & Hu & Hr). set (k := (consumed + length (frame t body))%nat).
assert (drop k (committed_area (cn_buffer c)) = u) as Hdk by (unfold k; rewrite <- drop_drop, Hu; apply drop_app_length).
assert (k <= length (committed_area (cn_buffer c)))%nat as Hk by (rewrite length_drop in Hle; unfold k; lia).
assert (length u < fuel)%nat as Hfu by (rewrite Hu, length_app, length_frame in Hfuel; lia).
cbn [reader_loop]. rewrite Hu. rewrite (parse_complete t body m u) by done. cbn [pm_ec pm_message pm_size]. fold k.
assert (forall c1 fx1, cn_state c1 = cn_state c -> queue_ok (cn_queue c1) -> explains fx1 c c1 -> fx_routed fx1 = [m] ->
exists fx c', ('(fx, c') ← reader_loop fuel k c1; Some (then_effects fx1 fx, c')) = Some (fx, c') /\ step_ok (m :: ms) future c fx c') as Hnext.
{ intros c1 fx1 Hst Hf1 Hex Hfx. destruct (IH future fuel k c1) as (fx & c' & Hl' & Hok); unfold cn_buffer in *; rewrite ?Hst; [done|done|done|by rewrite Hdk, Hr|by rewrite Hdk|].
rewrite Hl'. cbn [mbind option_bind]. eexists _, _. split; [reflexivity|]. change (m :: ms) with ([m] ++ ms). rewrite <- Hfx. by apply (step_then _ _ _ _ _ c1). }
destruct (as_notification m) as [n|] eqn:En.
- assert (m = Mnotification_response n) as -> by (destruct m; simpl in En; congruence). pose proof (deliver_ok n c Hf) as Hd.
destruct (deliver_notification n (cn_queue c)) as [q| |]; [|clear Hnext|done].
+ destruct Hd as [Hfq Hex]. by apply Hnext.
+ eexists _, _. split; [reflexivity|]. split; [by apply explains_none|]. exists (Mnotification_response n :: ms). split; [done|].
split; [done|]. split; [done|]. exists ms. split; [done|]. split; [done|]. unfold cn_buffer in *. cbn. by rewrite Hdk, Hr.
- destruct (mux_step (Op_message m) (cn_mpx c)) as [[o mpx]|] eqn:Es.
+ pose proof (message_explains _ _ _ _ En Es) as Hex. destruct (o_ec o); [|by apply Hnext].
eexists _, _. split; [reflexivity|]. split; [by destruct Hex|]. by exists ms.
+ eexists _, _. split; [reflexivity|]. split; [by apply explains_none|]. by exists (m :: ms).
Qed.

Lemma reader_wait_ok ms future c : rb_inv (cn_buffer c) -> queue_ok (cn_queue c) ->
encodes ms (committed_area (cn_buffer c) ++ future) -> exists fx c', reader_wait c = Some (fx, c') /\ step_ok ms future c fx c'.
Proof.
intros Hi Hf He. unfold reader_wait. destruct (message_missing_bytes (committed_area (cn_buffer c))) as [|n] eqn:Em.
- apply reader_loop_ok; [done|done|lia|by rewrite drop_0|rewrite drop_0; lia].
- assert (pm_ec (parse_message (committed_area (cn_buffer c))) = Some (client needs_more)) as Hp by (apply (missing_bytes_agree _ (S n)); split; [done|lia]).
destruct (await_ok ms future c Hi Hf He) as (n' & rb & Hm & Hpr & Hok); [|done|].
+ intros ->. destruct ms as [|m ms]; [done|]. exfalso. destruct (encodes_cons_inv _ _ _ He) as (t & body & bs & Hbs & Hw & Hb & Hl & _).
rewrite app_nil_r in Hbs. by rewrite Hbs, (parse_complete t body m bs Hb Hw Hl) in Hp.
+ rewrite Em in Hm. injection Hm as ->. rewrite Hpr. eexists _, _. by split.
Qed.

(** Other tasks leave the reader where it is. *)
Lemma other_step_ok ms future c fx c' : explains fx c c' -> fx_routed fx = [] -> cn_state c' = cn_state c -> cn_reader c' = cn_reader c ->
queue_ok (cn_queue c') -> reading ms future c -> step_ok ms future c fx c'.
Proof.
intros He Hr Hst Hrd Hq (Hi & _ & Hm). split; [done|]. exists ms. rewrite Hr. split; [done|].
unfold reading, cn_buffer in *. by rewrite Hst, Hrd.
Qed.

Lemma on_mpx_ok op c : op_message op = None -> is_Some (mux_step op (cn_mpx c)) ->
exists fx c', on_mpx op c = Some (fx, c') /\ explains fx c c' /\ fx_routed fx = [] /\ exists m, c' = set_mpx m c.
Proof.
intros Hop [[o m] Hs]. unfold on_mpx. rewrite Hs. eexists _, _. split; [reflexivity|]. split; [|by split; [|eexists]].
split; cbn; [by rewrite Hs|by rewrite Hop|by rewrite app_nil_r].
Qed.

Lemma session_step_ok ms future op c : reading ms (op_bytes op ++ future) c -> session_op op c ->
exists fx c', connection_step op c = Some (fx, c') /\ step_ok ms future c fx c'.
Proof.
intros Hr Hop. pose proof Hr as (Hi & Hf & Hrd). destruct op as [st| |data| | | |req h|elm|]; cbn [session_op op_bytes app] in *; try done; cbn [connection_step].
- destruct Hop as [Hre Hsz]. rewrite Hre in Hrd. destruct Hrd as (_ & He & _). unfold reader_read.
destruct (receive_ok data (cn_buffer c) Hi Hsz) as [Hi' Hc'].
destruct (reader_wait_ok ms future (set_rb (receive data (cn_buffer c)) c)) as (fx & c' & Hw & [Hm Ha Hev] & Hms); [done|done| |].
{ unfold cn_buffer in *. cbn. by rewrite Hc', <- app_assoc. }
eexists _, _. by split; [exact Hw|].
- eexists _, _. split; [reflexivity|]. split; [by apply explains_none|]. by exists ms.
- destruct Hop as (n & k & Hb). rewrite Hb in Hrd |- *. destruct Hrd as (ms' & -> & Hk & He). unfold reader_unblock.
pose proof (deliver_ok n c Hf) as Hd. unfold deliver_notification, try_add_notify, add_notify, wait_until in Hd |- *.
destruct (has_space (cn_queue c)); [|destruct (space_available_ (cn_queue c)); [done|]].
+ destruct Hd as [Hfq Hex]. set (c1 := set_queue _ c) in *.
destruct (reader_loop_ok ms' future (S (length (committed_area (cn_buffer c)))) k c1) as (fx & c' & Hl & Hok); [done|done|done|done|rewrite length_drop; change (cn_buffer c1) with (cn_buffer c); lia|].
rewrite Hl. cbn [mbind option_bind]. eexists _, _. split; [reflexivity|]. by apply (step_then ms' future (routed (Mnotification_response n)) _ _ c1).
+ eexists _, _. split; [reflexivity|]. apply (other_step_ok _ _ c); [by apply explains_none|done..].
- unfold writer. destruct (on_mpx_ok Op_write c eq_refl Hop) as (fx & c' & -> & Hex & Hfx & m & ->). cbn [mbind option_bind].
eexists _, _. split; [reflexivity|]. assert (forall b, explains fx c (set_write_evt b (set_mpx m c))) as Hex' by (intros b; by destruct Hex).
destruct (mx_write_buffer _); [by apply (other_step_ok _ _ c)|by apply (other_step_ok _ _ c)].
- destruct Hop as [[[e|] h'] Hs]; unfold exec_request; rewrite Hs; cbn [mbind option_bind].
+ eexists _, _. split; [reflexivity|]. apply (other_step_ok _ _ c); [by apply explains_none|done..].
+ destruct (on_mpx_ok (Op_add req h') c eq_refl ltac:(by eexists)) as (fx & c' & -> & Hex & Hfx & m & ->). cbn [mbind option_bind].
eexists _, _. split; [reflexivity|]. apply (other_step_ok _ _ c); [by destruct Hex|done..].
- destruct (on_mpx_ok (Op_cancel elm) c eq_refl Hop) as (fx & c' & -> & Hex & Hfx & m & ->).
eexists _, _. split; [reflexivity|]. by apply (other_step_ok _ _ c).
- destruct Hf as [[Hev Hsp] Hmax]. unfold read_events, wait_until.
destruct (pending_ (cn_queue c)) as [|e l] eqn:Ep; [destruct (events_available_ (cn_queue c)) eqn:Ee; [by destruct (proj1 Hev eq_refl)|]|].
+ eexists _, _. split; [reflexivity|]. apply (other_step_ok _ _ c); [by apply explains_none|done|done|done|by destruct Hr as (_ & ? & _)|done].
+ eexists _, _. split; [reflexivity|]. apply (other_step_ok _ _ c); [|done..| |done].
* split; cbn; [done|done|]. by rewrite Ep, !app_nil_r.
* split; [|done]. split; [done|]. unfold has_space. symmetry. by apply Nat.ltb_lt.
Qed.

Lemma session_run_ok ops : forall ms future c, reading ms (concat (map op_bytes ops) ++ future) c -> forall fx c', session_run ops c fx c' ->
step_ok ms future c fx c'.
Proof.
intros ms future c Hr fx c' Hrun. revert ms future Hr.
induction Hrun as [c|op ops c fx c1 fx2 c2 Hop Hs _ IH]; intros ms future Hr; [split; [by apply explains_none|by exists ms]|].
cbn [map concat] in Hr. rewrite <- app_assoc in Hr. destruct (session_step_ok ms _ op c Hr Hop) as (fx' & c' & Hs' & Hex & ms' & -> & Hr').
rewrite Hs in Hs'. injection Hs' as <- <-. apply (step_then _ _ _ _ _ c1); [done|]. by apply IH.
Qed.

(** The state in which a session begins. *)
Definition established (st : connection_state) (c : connection H) : connection H :=
Conn st (cn_mpx c) (add_connect (cn_queue c)) (cn_write_evt c) (cn_reader c).

(** From the moment the connection is established. *)
Lemma session_ok st c0 ms ops fx0 c1 fx c future : rb_inv (st_read_buffer st) -> queue_ok (cn_queue c0) ->
encodes ms (committed_area (st_read_buffer st) ++ concat (map op_bytes ops) ++ future) ->
connection_step (cop_connected st) c0 = Some (fx0, c1) -> session_run ops c1 fx c ->
step_ok ms future (established st c0) (then_effects fx0 fx) c.
Proof using.
intros Hrb Hq He Hc Hrun.
destruct (reader_wait_ok ms (concat (map op_bytes ops) ++ future) (established st c0)) as (fx1 & c2 & Hw & Hex1 & ms1 & Hms & Hr1);
[done|by apply add_event_ok|done|].
cbn [connection_step] in Hc. unfold run_connected in Hc. fold (established st c0) in Hc. rewrite Hw in Hc. injection Hc as <- <-.
rewrite Hms. apply (step_then _ _ _ _ _ c2); [done|]. by apply (session_run_ok ops ms1 future c2 Hr1).
Qed.

End sessions.

(** BEGIN is executed, with a notification before its response. *)
Definition wide_state : connection_state := CS [] (@make_read_buffer zero_alloc 64) 0 0 [].

Lemma wide_state_inv : rb_inv (st_read_buffer wide_state).
Proof. apply make_read_buffer_inv. vm_compute. split; discriminate. Qed.

Definition sample_connection : connection trace :=
  Conn wide_state make_multiplexer (NQ 4 [] false true) false reader_idle.

Definition sample_notified : notification_response :=
  {| nr_process_id := 42; channel_name := str "j"; payload := str "7" |}.

Definition sample_notified_bytes : bytes := frame (ch "A") (be_encode 4 42 ++ string_enc (str "j") ++ string_enc (str "7")).

Definition sample_begun : list any_backend_message :=
  [Mnotification_response sample_notified; Mcommand_complete {| tag := str "BEGIN" |}; Mready_for_query {| status := in_transaction |}].

Definition sample_session : list (connection_op trace) :=
  [cop_exec begin_request []; cop_write; cop_read (take 7 sample_notified_bytes); cop_read (drop 7 sample_notified_bytes); cop_take;
   cop_read (frame (ch "C") (str "BEGIN" ++ [0%Z])); cop_read (frame (ch "Z") [ch "T"])].

Lemma sample_begun_encodes : encodes sample_begun (concat (map op_bytes sample_session) ++ []).
Proof.
  assert (concat (map op_bytes sample_session) ++ [] =
    sample_notified_bytes ++ frame (ch "C") (str "BEGIN" ++ [0%Z]) ++ frame (ch "Z") [ch "T"] ++ []) as -> by reflexivity.
  unfold sample_notified_bytes. repeat (apply encodes_cons; [|apply (bool_decide_unpack _); vm_compute; exact I|vm_compute; discriminate|]).
  - apply (W_notification_response sample_notified); [apply int_ok_4; vm_compute; split; congruence|..]; apply (bool_decide_unpack _); vm_compute; exact I.
  - apply (W_command_complete {| tag := str "BEGIN" |}). apply (bool_decide_unpack _). vm_compute. exact I.
  - by apply (W_ready_for_query {| status := in_transaction |}).
  - constructor.
Qed.

Definition connection_after (ops : list (connection_op trace)) (c : connection trace) : option (effects trace * connection trace) :=
  foldl (fun r op => '(fx, c) ← r; '(fx', c) ← @connection_step zero_alloc trace _ op c; Some (then_effects fx fx', c)) (Some (no_effects, c)) ops.

(** One step of a session, computed. *)
Ltac next_step :=
  eapply sr_cons; [first [exact I | by eexists | split; [reflexivity|vm_compute; congruence]]|vm_compute; reflexivity|].


(** What is in the read buffer when a connection is lost stays there, and the next
    login reads it: an error that the server sent before it closed the connection
    makes the login to a server that accepts it fail, before any of its bytes is
    read. *)
Theorem reconnect_reads_old_bytes :
  let shutdown := frame (ch "E") (str "C57P01" ++ [0%Z; 0%Z]) in
  exists fx c, connection_after [cop_connected wide_state; cop_read shutdown; cop_lost] sample_connection = Some (fx, c) /\
    committed_area (cn_buffer c) = shutdown /\
    exists x st diag written,
      @startup_run toy_openssl true zero_alloc (replicate 60 30%nat) sample_conversation StartupSession.sample_params
        (inr (repeat 7%Z 18)) (cn_state c) [] =
      Some (io_done (Some (sqlstate_error 85823489)), x, st, diag, written, sample_conversation).
Proof.
  intros shutdown. eexists _, _. split; [vm_compute; reflexivity|]. split; [vm_compute; reflexivity|].
  do 4 eexists. vm_compute. reflexivity.
Qed.
