(* ===== verification/SessionAnswers.v ===== *)
(** * From a user of the multiplexed connection to the server and back

    The tasks of the connection ([MultiplexedConnection]), the parser and the read
    buffer below them, and the multiplexer with its specification
    ([MultiplexerRefine]) put together: what [co_multiplexed_connection::exec]
    promises to the users of one connection. *)

From stdpp Require Import base list option.
From Stdlib Require Import ZArith Lia.
From S2P Require Import Prelude Errors BackendMessages ParseMessage BackendWire BackendSpec Request ReadResponse ReadResponseSpec ReadResponseGrammar.
From S2P Require Import ReadBuffer MessagePump Exec Multiplexer MultiplexerSpec MultiplexerRefine NotificationQueue MultiplexedConnection.

Section answers.
Context {alloc : Allocator} {H : Type} `{!ResponseHandler H}.

Lemma make_multiplexer_wf : mux_wf (H := H) make_multiplexer.
Proof. split; [constructor|]. intros [=]. Qed.

(** Where nothing is owed, only abandoned elements stand. *)
Lemma written_nothing (es : list (multiplexer_elem H)) : written es [] -> queued es = [].
Proof.
remember [] as ss eqn:E. intros Hw. revert E. induction Hw as [|e es ss0 _ Hk _ IH|]; intros E; [done| |done].
rewrite queued_cons, Hk. by apply IH.
Qed.

(** A channel on which nothing is left is a multiplexer without requests. *)
Lemma mux_rel_done (m : multiplexer H) n : mux_rel m (Channel [] [] n) -> queued (elems_ m) = [].
Proof.
intros (es & ps & He & _ & Hs & Hw & _). cbn in Hs, Hw. inversion Hw; subst.
rewrite He, app_nil_r. inversion Hs; subst. by apply written_nothing.
Qed.

(** C30: Users of one multiplexed connection are answered.  Over a new connection,
for every interleaving of the tasks and reads of any sizes: when the server
sends each request written a response of the grammar, in order, the outputs
of the multiplexer are those of the specification (each live request completes
once, when the last message of its own response arrives, with the handler
that response leaves), the messages it is given are those the server sent less
the notifications, and when everything has been answered every request that
was added has been completed or cancelled, exactly once, and none is left. *)
Theorem session_answers st (c0 : connection H) ms ops fx0 c1 fx c os ch :
rb_inv (st_read_buffer st) -> queue_ok (cn_queue c0) -> cn_mpx c0 = make_multiplexer ->
encodes ms (committed_area (st_read_buffer st) ++ concat (map op_bytes ops)) ->
connection_step (cop_connected st) c0 = Some (fx0, c1) -> session_run ops c1 fx c -> cn_reader c = reader_reading ->
let mops := map fst (fx_ops (then_effects fx0 fx)) in
channel_run mops empty_channel os ch ->
map snd (fx_ops (then_effects fx0 fx)) = os /\
omap op_message mops = answers_of ms /\
(sent ch = [] -> MultiplexerRefine.waiting ch = [] ->
queued (elems_ (cn_mpx c)) = [] /\ all_completed os ++ all_cancelled mops ≡ₚ seq 0 (count_adds mops)).
Proof using.
intros Hrb Hq Hm0 He Hc Hrun Hrd mops Hch.
destruct (session_ok st c0 ms ops fx0 c1 fx c [] Hrb Hq ltac:(by rewrite app_nil_r) Hc Hrun) as ([Hm Ha _] & ms2 & Hms & Hr2).
destruct Hr2 as (_ & _ & Hr2). rewrite Hrd in Hr2. destruct Hr2 as (_ & _ & Hr2). rewrite (Hr2 eq_refl), app_nil_r in Hms.
fold mops in Hm, Ha. cbn [established cn_mpx] in Hm. rewrite Hm0 in Hm.
destruct (mux_simulates_run _ _ _ _ Hch _ mux_rel_empty) as (m & Hm' & Hrel). rewrite Hm in Hm'. injection Hm' as Hos <-.
split; [done|]. split; [by rewrite Ha, Hms|]. intros Hs Hw. destruct ch as [s w n]. cbn in Hs, Hw. subst s w.
pose proof (mux_rel_done _ _ Hrel) as Hel. split; [done|]. rewrite <- Hos.
pose proof (mux_run_queued mops _ _ _ make_multiplexer_wf Hm) as Hp. rewrite Hel in Hp. cbn in Hp. by rewrite app_nil_r in Hp.
Qed.
End answers.

(** BEGIN, with a notification before its response, from the call to the completion. *)
Definition begun_calls : trace :=
  [(0%nat, Arow_description empty_row_description); (0%nat, Acommand_complete {| tag := str "BEGIN" |})].

Lemma begin_answers : answers begin_request ([] : trace) begun_calls
  [Mcommand_complete {| tag := str "BEGIN" |}; Mready_for_query {| status := in_transaction |}].
Proof. exact (sample_answers "Q"). Qed.

Definition begun_outputs : list (output trace) :=
  [Output None [] []; Output None (rq_buffer begin_request) []; Output None [] []; Output None [] [Completion 0 None (Some begun_calls)]].

Lemma begun_channel :
  channel_run [Op_add begin_request ([] : trace); Op_write; Op_message (Mcommand_complete {| tag := str "BEGIN" |});
      Op_message (Mready_for_query {| status := in_transaction |})] empty_channel begun_outputs (Channel [] [] 1).
Proof.
  eapply cr_step; [by apply cs_add|]. eapply cr_step.
  { apply (cs_write [] _ _ (rq_buffer begin_request)). rewrite <- (app_nil_r (rq_buffer begin_request)).
    apply (wo_live 0 begin_request [] begun_calls [Mcommand_complete {| tag := str "BEGIN" |}; Mready_for_query {| status := in_transaction |}] [] []); [exact begin_answers|constructor]. }
  eapply cr_step; [by apply cs_message|]. eapply cr_step; [by apply (cs_last _ 0 (Some begun_calls) [] [] 1)|]. constructor.
Qed.

Lemma session_answers_witness : exists fx0 c1 fx c,
  @connection_step zero_alloc trace _ (cop_connected wide_state) sample_connection = Some (fx0, c1) /\
  @session_run zero_alloc trace _ sample_session c1 fx c /\
  map snd (fx_ops (then_effects fx0 fx)) = begun_outputs /\ queued (elems_ (cn_mpx c)) = [].
Proof.
  eexists _, _, _, _.
  match goal with |- ?a /\ ?b /\ ?c => assert (a /\ b) as [Hc Hrun] end.
  { split; [vm_compute; reflexivity|]. unfold sample_session. do 7 next_step. apply sr_nil. }
  split; [exact Hc|]. split; [exact Hrun|].
  destruct (@session_answers zero_alloc trace _ wide_state sample_connection sample_begun sample_session _ _ _ _ begun_outputs (Channel [] [] 1)
    wide_state_inv ltac:(repeat split; done || (vm_compute; lia)) eq_refl
    (eq_ind _ (encodes sample_begun) sample_begun_encodes _ (app_nil_r _)) Hc Hrun eq_refl begun_channel) as (Hos & _ & Hdone).
  split; [exact Hos|]. by apply Hdone.
Defined.
