(* ===== verification/BufferBound.v ===== *)
(** * How large the read buffer grows
    ([include/nativepg/protocol/detail/read_buffer.hpp], [src/src/exec_fsm.cpp], [src/src/startup_fsm.cpp])

    The buffer never gives memory back, and a peer chooses what it has to hold.  The
    sizes that the peer declares bound it: it is never larger than it was and the power
    of two that holds the largest frame of the stream, however many messages the stream
    has, however they are cut into reads and whatever is in them. *)

From stdpp Require Import base list option.
From Stdlib Require Import ZArith Lia.
From S2P Require Import Prelude Errors BackendMessages ParseMessage BackendWire BackendSpec ReadBuffer MessagePump.
From S2P Require Import FrontendMessages Request ReadResponse ReadResponseSpec ReadResponseGrammar Exec Scram Startup StartupSession.

#[local] Open Scope Z_scope.

(** ** The frames of a stream *)

(** The size of the first frame, once its header is there: zero before, and for a
    header that is refused. *)
Definition declared_size (s : bytes) : Z :=
  if (length s <? 5)%nat then 0
  else match parse_header (take 5 s) with inl _ => 0 | inr h => mh_size h + 1 end.

Fixpoint largest_loop (fuel : nat) (s : bytes) : Z :=
  match fuel with
  | O => 0
  | S fuel' =>
      let res := parse_message s in
      Z.max (declared_size s) (match pm_ec res with None => largest_loop fuel' (drop (pm_size res) s) | Some _ => 0 end)
  end.

(** A frame has five bytes or more. *)
Definition largest_frame (s : bytes) : Z := largest_loop (S (length s)) s.

Lemma largest_fuel fuel : forall fuel' s, (length s < fuel)%nat -> (length s < fuel')%nat -> largest_loop fuel s = largest_loop fuel' s.
Proof.
  induction fuel as [|fuel IH]; intros [|fuel'] s Hf Hf'; try lia. cbn [largest_loop].
  destruct (pm_ec (parse_message s)) as [e|] eqn:E; [done|]. apply parse_message_size in E.
  f_equal. apply IH; rewrite length_drop; lia.
Qed.

Lemma largest_unfold s : largest_frame s =
  Z.max (declared_size s) (match pm_ec (parse_message s) with None => largest_frame (drop (pm_size (parse_message s)) s) | Some _ => 0 end).
Proof.
  unfold largest_frame at 1. cbn [largest_loop]. destruct (pm_ec (parse_message s)) as [e|] eqn:E; [done|].
  apply parse_message_size in E. f_equal. unfold largest_frame. apply largest_fuel; rewrite ?length_drop; lia.
Qed.

Lemma declared_bounds s : 0 <= declared_size s <= INT32_MAX + 1.
Proof.
  unfold declared_size. destruct (Nat.ltb_spec (length s) 5); [unfold INT32_MAX; lia|].
  destruct (parse_header (take 5 s)) as [e|h] eqn:Eh; [unfold INT32_MAX; lia|]. apply parse_header_size in Eh; lia.
Qed.

Lemma largest_bounds s : 0 <= largest_frame s <= INT32_MAX + 1.
Proof.
  unfold largest_frame. generalize (S (length s)) as fuel. intros fuel. revert s.
  induction fuel as [|fuel IH]; intros s; cbn [largest_loop]; [unfold INT32_MAX; lia|]. pose proof (declared_bounds s).
  destruct (pm_ec _); [lia|]. specialize (IH (drop (pm_size (parse_message s)) s)). lia.
Qed.

(** What is not there yet of the first frame is part of it, or of its header. *)
Lemma missing_declared s t : pm_ec (parse_message s) = Some (client needs_more) ->
  Z.of_nat (length s) + Z.of_nat (pm_size (parse_message s)) <= Z.max 5 (largest_frame (s ++ t)).
Proof.
  intros He. rewrite largest_unfold. enough (Z.of_nat (length s) + Z.of_nat (pm_size (parse_message s)) <= Z.max 5 (declared_size (s ++ t))) by lia.
  pose proof (parse_message_needs_more s He) as Hm. unfold parse_message in *. unfold declared_size.
  destruct (Nat.ltb_spec (length s) 5) as [Hl|Hl]; [cbn [pm_needs_more pm_size]; lia|].
  rewrite (proj2 (Nat.ltb_ge _ _)) by (rewrite length_app; lia). rewrite take_app_le by lia.
  destruct (parse_header (take 5 s)) as [e|h] eqn:Eh; [cbn [pm_error pm_size] in *; lia|].
  apply parse_header_size in Eh; [|done].
  destruct (Nat.ltb_spec (length s) (Z.to_nat (mh_size h + 1))) as [Hr|Hr]; [cbn [pm_needs_more pm_size]; lia|].
  destruct (parse_any_message _ _); [cbn [pm_error pm_size] in *; lia|done].
Qed.

(** A frame that is read leaves smaller ones. *)
Lemma largest_consumed s t : pm_ec (parse_message s) = None ->
  largest_frame (drop (pm_size (parse_message s)) s ++ t) <= largest_frame (s ++ t).
Proof.
  intros He. pose proof (parse_message_size s He) as Hs. rewrite (largest_unfold (s ++ t)).
  rewrite parse_message_app, He by (rewrite He; done). rewrite drop_app_le by lia. lia.
Qed.

(** ** The buffer *)

Lemma next_power_of_2_mono n m : 0 <= n <= m -> m <= SIZE_MAX -> next_power_of_2 n <= next_power_of_2 m.
Proof.
  intros Hn Hm. unfold next_power_of_2 at 2. destruct (Z.leb_spec m (SIZE_MAX / 2 + 1)) as [Hle|Hgt].
  - unfold next_power_of_2. rewrite (proj2 (Z.leb_le _ _)) by lia. apply Z.pow_le_mono_r; [lia|]. apply Z.log2_up_le_mono. lia.
  - pose proof (next_power_of_2_bounds n). lia.
Qed.

Section bound.
Context {alloc : Allocator}.

Lemma prepare_size n rb rb' : rb_inv rb -> 0 <= n -> Z.of_nat (length (committed_area rb)) + n <= SIZE_MAX -> prepare n rb = Some rb' ->
rb_size rb' = rb_size rb \/ rb_size rb' = next_power_of_2 (Z.of_nat (length (committed_area rb)) + n).
Proof.
intros _ Hn Hs. unfold prepare, wrap64. rewrite (Z.mod_small (Z.of_nat _ + n)) by (unfold SIZE_MAX in Hs; lia).
destruct (_ >=? n); [intros [= <-]; by left|].
destruct (rb_buffer rb); [destruct (_ >=? n); [intros [= <-]; by left|]|];
(destruct (_ <? _); [done|]); intros [= <-]; by right.
Qed.

(** What a stream lets the buffer grow to: [rb] holds its beginning. *)
Definition buffer_bound (rb : read_buffer) (stream : bytes) : Z :=
Z.max (rb_size rb) (next_power_of_2 (Z.max 5 (largest_frame (committed_area rb ++ stream)))).

Lemma bound_mono rb rb' stream stream' : rb_size rb' <= rb_size rb ->
largest_frame (committed_area rb' ++ stream') <= largest_frame (committed_area rb ++ stream) ->
buffer_bound rb' stream' <= buffer_bound rb stream.
Proof.
intros Hs Hl. unfold buffer_bound. pose proof (largest_bounds (committed_area rb ++ stream)).
pose proof (next_power_of_2_mono (Z.max 5 (largest_frame (committed_area rb' ++ stream')))
(Z.max 5 (largest_frame (committed_area rb ++ stream)))).
unfold INT32_MAX, SIZE_MAX in *. lia.
Qed.

Section pump.
Context {R S : Type} (step : any_backend_message -> S -> option (option R * S)).

Lemma pump_loop_bound fuel : forall rb x stream r rb' x', rb_inv rb -> pump_loop step fuel rb x = Some (r, rb', x') ->
rb_inv rb' /\ buffer_bound rb' stream <= buffer_bound rb stream.
Proof.
induction fuel as [|fuel IH]; intros rb x stream r rb' x' Hi; cbn [pump_loop]; [done|].
destruct (pm_ec (parse_message (committed_area rb))) as [e|] eqn:E.
- destruct (decide (e = client needs_more)) as [->|He].
+ pose proof (parse_message_needs_more _ E) as [Hp Hb]. pose proof (missing_declared _ stream E) as Hm.
set (n := pm_size _) in *.
destruct (buffer_step_refines (Op_prepare (Z.of_nat n)) rb Hi) as (rb1 & Hs & Hi1 & Hc & _);
  [unfold op_allowed, SIZE_MAX; unfold INT32_MAX in Hb; lia|].
cbn [buffer_step queue_op] in Hs, Hc. rewrite Hs. intros [= <- <- <-]. split; [done|].
pose proof (prepare_size _ _ _ Hi (Nat2Z.is_nonneg n) ltac:(unfold SIZE_MAX; unfold INT32_MAX in Hb; lia) Hs) as Hsz.
unfold buffer_bound. rewrite Hc. pose proof (largest_bounds (committed_area rb ++ stream)).
pose proof (next_power_of_2_mono (Z.of_nat (length (committed_area rb)) + Z.of_nat n)
  (Z.max 5 (largest_frame (committed_area rb ++ stream)))). unfold INT32_MAX, SIZE_MAX in *. lia.
+ destruct e as [[]| | |]; try done; intros [= <- <- <-]; (split; [done|lia]).
- destruct (step _ x) as [[o y]|]; [|done]. cbn [mbind option_bind].
destruct (consume_ok (pm_size (parse_message (committed_area rb))) rb Hi) as [Hi1 Hc].
assert (buffer_bound (consume (Z.of_nat (pm_size (parse_message (committed_area rb)))) rb) stream <= buffer_bound rb stream) as Hb.
{ apply bound_mono; [done|]. rewrite Hc. by apply largest_consumed. }
destruct o as [o|]; [intros [= <- <- <-]; by split|].
intros Hl. destruct (IH _ _ stream _ _ _ Hi1 Hl) as [Hi2 Hb2]. split; [done|lia].
Qed.

(** A read takes the bytes from the stream to the buffer. *)
Lemma receive_bound data rb stream : rb_inv rb -> Z.of_nat (length data) <= prepared_size rb ->
rb_inv (receive data rb) /\ buffer_bound (receive data rb) stream = buffer_bound rb (data ++ stream).
Proof.
intros Hi Hd. destruct (receive_ok data rb Hi Hd) as [Hi' Hc]. split; [done|].
unfold buffer_bound. by rewrite Hc, <- app_assoc.
Qed.

Lemma read_bound n rb stream : rb_inv rb ->
let data := take (Nat.min n (Z.to_nat (prepared_size rb))) stream in
rb_inv (receive data rb) /\ buffer_bound (receive data rb) (drop (length data) stream) = buffer_bound rb stream.
Proof.
intros Hi data. assert (Z.of_nat (length data) <= prepared_size rb) as Hd.
{ unfold data. destruct Hi as (a & b & c & Hl). rewrite (layout_prepared _ _ _ _ Hl), length_take. lia. }
destruct (receive_bound data rb (drop (length data) stream) Hi Hd) as [H1 H2]. split; [done|].
rewrite H2. f_equal. unfold data. apply take_drop_len.
Qed.
End pump.

(** ** The machines *)

Section exec.
Context {H : Type} `{!ResponseHandler H}.

Lemma exec_loop_bound x st stream r x' st' : rb_inv (st_read_buffer st) -> exec_loop x st = Some (r, x', st') ->
rb_inv (st_read_buffer st') /\ buffer_bound (st_read_buffer st') stream <= buffer_bound (st_read_buffer st) stream /\
(r = io_read -> resume_point_ x' = 2%nat).
Proof.
intros Hi. unfold exec_loop. destruct (pump _ _ _) as [[[p rb] f]|] eqn:E; [|done]. cbn [mbind option_bind].
destruct (pump_loop_bound _ _ _ _ stream _ _ _ Hi E) as [Hi' Hb]. by destruct p; intros [= <- <- <-].
Qed.

Lemma exec_reads_bound sizes : forall stream r x st r' x' st', rb_inv (st_read_buffer st) -> (r = io_read -> resume_point_ x = 2%nat) ->
exec_reads sizes stream r x st = Some (r', x', st') -> rb_size (st_read_buffer st') <= buffer_bound (st_read_buffer st) stream.
Proof.
induction sizes as [|n sizes IH]; intros stream r x st r' x' st' Hi Hp; destruct r as [ec|data|]; cbn [exec_reads];
try (intros [= <- <- <-]; unfold buffer_bound; lia).
set (data := take _ stream). unfold exec_resume. rewrite (Hp eq_refl).
destruct (read_bound n (st_read_buffer st) stream Hi) as [Hi1 Hb1]. fold data in Hi1, Hb1.
destruct (exec_loop x _) as [[[r1 x1] st1]|] eqn:E; [|done]. cbn [mbind option_bind]. intros Hr.
destruct (exec_loop_bound x (set_read_buffer (receive data (st_read_buffer st)) st) (drop (length data) stream) _ _ _ Hi1 E) as (Hi2 & Hb2 & Hp2).
specialize (IH _ _ _ _ _ _ _ Hi2 Hp2 Hr). cbn [st_read_buffer set_read_buffer] in Hb2. lia.
Qed.
End exec.

Section startup.
Context {ssl : OpenSSL} (char_signed : bool).

Lemma startup_reading_bound p x st diag stream r x' st' diag' : rb_inv (st_read_buffer st) ->
startup_reading char_signed p (x, st, diag) = Some (r, x', st', diag') ->
rb_inv (st_read_buffer st') /\ buffer_bound (st_read_buffer st') stream <= buffer_bound (st_read_buffer st) stream.
Proof.
intros Hi. unfold startup_reading. destruct (pump _ _ _) as [[[o rb] [[x1 st1] d1]]|] eqn:E; [|done]. cbn [mbind option_bind].
destruct (pump_loop_bound _ _ _ _ stream _ _ _ Hi E) as [Hi' Hb]. by destruct o as [[]| |]; intros [= <- <- <- <-].
Qed.

Lemma startup_loop_bound p i l stream r x' st' diag' : rb_inv (st_read_buffer l.1.2) ->
startup_loop char_signed p i l = Some (r, x', st', diag') ->
rb_inv (st_read_buffer st') /\ buffer_bound (st_read_buffer st') stream <= buffer_bound (st_read_buffer l.1.2) stream.
Proof.
destruct l as [[x st] diag]. intros Hi. destruct i; cbn [startup_loop startup_action];
[intros [= <- <- <- <-]; by split|by apply startup_reading_bound|intros [= <- <- <- <-]; by split].
Qed.

Lemma startup_resume_bound x st diag n stream r x' st' diag' : rb_inv (st_read_buffer st) -> sf_point x <> 2%nat ->
startup_resume char_signed x st diag None n = Some (r, x', st', diag') ->
rb_inv (st_read_buffer st') /\ buffer_bound (st_read_buffer st') stream <= buffer_bound (st_read_buffer st) stream.
Proof.
intros Hi Hp. assert (forall p, ('(i, l) ← impl_resume char_signed Mnone (impl_ x, st, diag); startup_loop char_signed p i l) =
Some (r, x', st', diag') -> rb_inv (st_read_buffer st') /\ buffer_bound (st_read_buffer st') stream <= buffer_bound (st_read_buffer st) stream) as Hl.
{ intros p. destruct (impl_resume _ _ _) as [[i l]|] eqn:E; [|done]. apply impl_resume_keeps in E. cbn [fst snd mbind option_bind] in *.
rewrite <- E. apply startup_loop_bound. by rewrite E. }
unfold startup_resume. destruct (sf_point x) as [|[|[|]]]; [apply Hl|apply Hl|done|done].
Qed.

Lemma startup_session_bound net : forall stream r x st diag written r' x' st' diag' written' rest, rb_inv (st_read_buffer st) ->
startup_waits r x -> startup_session char_signed net stream r x st diag written = Some (r', x', st', diag', written', rest) ->
rb_size (st_read_buffer st') <= buffer_bound (st_read_buffer st) stream.
Proof.
induction net as [|n net IH]; intros stream r x st diag written r' x' st' diag' written' rest Hi Hw; destruct r as [ec|data|];
cbn [startup_session]; try (intros [= <- <- <- <- <- <-]; unfold buffer_bound; lia).
- destruct (startup_resume _ _ _ _ _ _) as [[[[r1 x1] st1] diag1]|] eqn:E; [|done]. cbn [mbind option_bind]. intros Hs.
pose proof (startup_resume_waits _ _ _ _ _ _ _ _ _ _ E) as Hw1. cbn in Hw.
apply (startup_resume_bound _ _ _ _ stream) in E as [Hi1 Hb1]; [|done|by rewrite Hw].
specialize (IH _ _ _ _ _ _ _ _ _ _ _ _ Hi1 Hw1 Hs). lia.
- set (data := take _ stream). destruct (read_bound n (st_read_buffer st) stream Hi) as [Hi0 Hb0]. fold data in Hi0, Hb0.
destruct (startup_resume _ _ _ _ _ _) as [[[[r1 x1] st1] diag1]|] eqn:E; [|done]. cbn [mbind option_bind]. intros Hs.
pose proof (startup_resume_waits _ _ _ _ _ _ _ _ _ _ E) as Hw1. unfold startup_resume in E. cbn [startup_waits] in Hw. rewrite Hw in E.
apply (startup_reading_bound _ _ (set_read_buffer (receive data (st_read_buffer st)) st) _ (drop (length data) stream)) in E as [Hi1 Hb1]; [|done].
specialize (IH _ _ _ _ _ _ _ _ _ _ _ _ Hi1 Hw1 Hs). cbn [st_read_buffer set_read_buffer] in Hb1. lia.
Qed.
End startup.
End bound.

(** ** The property *)

(** C8: The memory of a connection is bounded by the largest frame it is sent.  Whatever
    the stream holds, complete messages or hostile bytes, and however it is cut into reads,
    at every point of executing a request and of the login the read buffer is no
    larger than it was or than the power of two that holds the largest frame that the
    stream declares; since a frame declares less than two gigabytes, it never grows
    past 2 GiB. *)
Theorem buffer_bounded {ssl : OpenSSL} {alloc : Allocator} {H : Type} `{!ResponseHandler H} cs stream st :
  rb_inv (st_read_buffer st) ->
  let bound := Z.max (rb_size (st_read_buffer st))
    (next_power_of_2 (Z.max 5 (largest_frame (committed_area (st_read_buffer st) ++ stream)))) in
  (forall sizes req (h : H) written r x st', exec_session sizes stream (make_exec req h) st = Some (written, r, x, st') ->
    rb_size (st_read_buffer st') <= bound) /\
  (forall net params random diag r x st' diag' written rest,
    startup_run cs net stream params random st diag = Some (r, x, st', diag', written, rest) ->
    rb_size (st_read_buffer st') <= bound) /\
  bound <= Z.max (rb_size (st_read_buffer st)) (2 ^ 31).
Proof.
  intros Hi bound. fold (buffer_bound (st_read_buffer st) stream) in bound. split_and!.
  - intros sizes req h written r x st'. unfold exec_session.
    assert (exec_resume (make_exec req h) st None 0 = ('(ec, h1) ← setup_request req h; Some (match ec with
      | Some e => (io_done (Some e), Exec 0 (make_fsm req h1 false), st) | None => (io_write (rq_buffer req), Exec 1 (make_fsm req h1 false), st) end))) as ->.
    { unfold exec_resume. cbn. by destruct (setup_request req h) as [[[e|] h1]|]. }
    destruct (setup_request req h) as [[[e|] h1]|]; cbn [mbind option_bind]; [intros [= <- <- <- <-]; unfold bound, buffer_bound; lia| |done].
    unfold exec_resume. cbn [resume_point_]. destruct (exec_loop _ st) as [[[r1 x1] st1]|] eqn:E; [|done]. cbn [mbind option_bind].
    destruct (exec_loop_bound _ _ stream _ _ _ Hi E) as (Hi1 & Hb & Hp).
    destruct (exec_reads _ _ _ _ _) as [[[r2 x2] st2]|] eqn:Er; [|done]. intros [= <- <- <- <-].
    pose proof (exec_reads_bound _ _ _ _ _ _ _ _ Hi1 Hp Er). unfold bound. lia.
  - intros net params random diag r x st' diag' written rest. unfold startup_run.
    destruct (startup_resume _ _ _ _ _ _) as [[[[r1 x1] st1] diag1]|] eqn:E; [|done]. cbn [mbind option_bind]. intros Hs.
    pose proof (startup_resume_waits _ _ _ _ _ _ _ _ _ _ E) as Hw.
    apply (startup_resume_bound _ _ _ _ _ stream) in E as [Hi1 Hb]; [|done|done].
    pose proof (startup_session_bound _ _ _ _ _ _ _ _ _ _ _ _ _ _ Hi1 Hw Hs). unfold bound. lia.
  - unfold bound, buffer_bound. pose proof (largest_bounds (committed_area (st_read_buffer st) ++ stream)) as Hl.
    pose proof (next_power_of_2_mono (Z.max 5 (largest_frame (committed_area (st_read_buffer st) ++ stream))) (INT32_MAX + 1)).
    change (next_power_of_2 (INT32_MAX + 1)) with (2 ^ 31) in *. unfold INT32_MAX, SIZE_MAX in *. lia.
Qed.

(** A header that declares a message of a hundred bytes makes room for it, and no more. *)
Lemma buffer_bounded_witness :
  let stream := ch "D" :: be_encode 4 100 in
  largest_frame stream = 101 /\
  exists r x st', @exec_session zero_alloc trace _ [3; 2]%nat stream (make_exec sample_request []) sample_state =
      Some (rq_buffer sample_request, r, x, st') /\
    rb_size (st_read_buffer st') = 128 /\
    rb_size (st_read_buffer st') <= Z.max (rb_size (st_read_buffer sample_state)) (next_power_of_2 (Z.max 5 (largest_frame stream))).
Proof.
  intros stream. split; [reflexivity|]. eexists _, _, _. split; [vm_compute; reflexivity|]. split; [reflexivity|].
  exact (proj1 (@buffer_bounded toy_openssl zero_alloc trace trace_handler true stream sample_state sample_state_inv)
    [3; 2]%nat sample_request [] _ _ _ _ ltac:(vm_compute; reflexivity)).
Defined.
