(* ===== verification/QueryRows.v ===== *)
(** * A query, from its text to the rows of the user
    ([include/nativepg/request.hpp], [include/nativepg/co_connection.hpp],
    [include/nativepg/responses/resultset_callback.hpp])

    What a user does: [request::add_query], then [exec] of a connection with a
    [resultset_callback_t].  The builder, the serializers, the operations of the
    connection, the read buffer, the parsers, the reader of responses and the handler
    have their own theorems; here they are put end to end. *)

From stdpp Require Import base list option.
From Stdlib Require Import ZArith Lia.
From S2P Require Import Prelude Errors Sqlstate ParseContext Views BackendMessages ParseMessage BackendWire BackendSpec FrontendMessages FrontendSpec Request RequestSpec.
From S2P Require Import Responses Resultsets Describe FieldTypes ReadResponse ReadResponseSpec ReadResponseGrammar ReadBuffer MessagePump Exec.
From S2P Require Import ResultsetCallback Connect Connection Streaming ConnectionSession.

#[local] Open Scope Z_scope.

(** ** The request *)

Definition query_messages (q : bytes) (ps : list parameter_ref) (pf : format_code) (vs : list bytes) (rf : format_code) (n : Z) : list frontend_message :=
  Fparse {| p_statement_name := []; p_query := q; p_oids := map pr_oid ps |} :: execute_messages [] pf vs rf n ++ [Fsync].

Definition query_request q ps pf vs rf n : request := extended (make_request true) (query_messages q ps pf vs rf n).

Lemma query_types q ps pf vs rf n :
  rq_types (query_request q ps pf vs rf n) = [rt_parse; rt_bind; rt_describe; rt_execute; rt_sync].
Proof. done. Qed.

Lemma query_checked q ps pf vs rf n : check_request (query_request q ps pf vs rf n) = None.
Proof. done. Qed.

(** ** What the server may answer *)

(** The end of the rows: the command tag, or an error. *)
Definition rows_over (fin : command_complete + error_notice_fields) : any_backend_message :=
  match fin with inl tag => Mcommand_complete tag | inr e => Merror_response e end.
Definition rows_over_call (fin : command_complete + error_notice_fields) : any_request_message :=
  match fin with inl tag => Acommand_complete tag | inr e => Aerror_response e end.

Definition rows_answer (d : row_description) (rows : list data_row) (fin : command_complete + error_notice_fields) (s : ready_for_query)
    : list any_backend_message :=
  Mparse_complete :: Mbind_complete :: Mrow_description d :: map Mdata_row rows ++ [rows_over fin; Mready_for_query s].

Definition rows_calls (d : row_description) (rows : list data_row) (fin : command_complete + error_notice_fields) : trace :=
  (0%nat, Aparse_complete) :: (1%nat, Abind_complete) :: (2%nat, Arow_description d) :: 
    calls_at 3 (map Adata_row rows ++ [rows_over_call fin]).

(** An error before the rows: in parsing, binding or describing. *)
Inductive failed_step := at_parse | at_bind | at_describe.

Definition steps_done (k : failed_step) : list any_backend_message :=
  match k with at_parse => [] | at_bind => [Mparse_complete] | at_describe => [Mparse_complete; Mbind_complete] end.

Definition failed_answer (k : failed_step) (e : error_notice_fields) (s : ready_for_query) : list any_backend_message :=
  steps_done k ++ [Merror_response e; Mready_for_query s].

Definition failed_calls (k : failed_step) (e : error_notice_fields) : trace :=
  match k with
  | at_parse => [(0%nat, Aerror_response e); (1%nat, Amessage_skipped); (2%nat, Amessage_skipped); (3%nat, Amessage_skipped)]
  | at_bind => [(0%nat, Aparse_complete); (1%nat, Aerror_response e); (2%nat, Amessage_skipped); (3%nat, Amessage_skipped)]
  | at_describe => [(0%nat, Aparse_complete); (1%nat, Abind_complete); (2%nat, Aerror_response e); (3%nat, Amessage_skipped)]
  end.

Definition query_steps : list request_message_type := [rt_parse; rt_bind; rt_describe; rt_execute; rt_sync].

Lemma response_one ac i t ts m c ms tr : reply ac t [m] [c] false -> response ac (S i) ts ms tr ->
  response ac i (t :: ts) (m :: ms) ((i, c) :: tr).
Proof. intros Hr Hs. exact (rs_ok ac i t ts [m] [c] ms tr Hr Hs). Qed.

Lemma response_sync ac i s : response ac i [rt_sync] [Mready_for_query s] [].
Proof. exact (rs_ok ac i rt_sync [] [Mready_for_query s] [] [] [] (rp_sync ac s) (rs_nil ac (S i))). Qed.

Lemma response_execute i rows fin s : response false i [rt_execute; rt_sync]
  (map Mdata_row rows ++ [rows_over fin; Mready_for_query s]) (calls_at i (map Adata_row rows ++ [rows_over_call fin])).
Proof.
  change [rows_over fin; Mready_for_query s] with ([rows_over fin] ++ [Mready_for_query s]). rewrite app_assoc.
  rewrite <- (app_nil_r (calls_at _ _)). destruct fin as [tag|e].
  - apply (rs_ok false i rt_execute [rt_sync]); [|apply response_sync]. apply rp_execute, er_rows, re_ok.
  - apply (rs_error false i rt_execute [] []); [|by intros ?%elem_of_nil|apply response_sync]. apply rp_execute, er_rows, re_error.
Qed.

Lemma rows_answer_grammar d rows fin s : response false 0 query_steps (rows_answer d rows fin s) (rows_calls d rows fin).
Proof.
  apply response_one; [constructor|]. apply response_one; [constructor|]. apply response_one; [constructor|]. apply response_execute.
Qed.

Lemma failed_at i t pre e s : t = rt_bind \/ t = rt_close \/ t = rt_parse \/ t = rt_describe -> rt_sync ∉ pre ->
  response false i (t :: pre ++ [rt_sync]) [Merror_response e; Mready_for_query s] ((i, Aerror_response e) :: skipped_calls (S i) pre).
Proof.
  intros Ht Hp. pose proof (rs_error false i t pre [] [Merror_response e] [Aerror_response e] _ [] (rp_error false t e Ht) Hp
    (response_sync false _ s)) as H. by rewrite app_nil_r in H.
Qed.

#[local] Ltac not_in := apply (bool_decide_unpack _); vm_compute; exact I.

Lemma failed_answer_grammar k e s : response false 0 query_steps (failed_answer k e s) (failed_calls k e).
Proof.
  destruct k.
  - apply (failed_at 0 rt_parse [rt_bind; rt_describe; rt_execute]); [by auto|not_in].
  - apply response_one; [constructor|]. apply (failed_at 1 rt_bind [rt_describe; rt_execute]); [by auto|not_in].
  - apply response_one; [constructor|]. apply response_one; [constructor|].
    apply (failed_at 2 rt_describe [rt_execute]); [by auto|not_in].
Qed.

(** ** What the handler makes of it *)

Section query.
Context {alloc : Allocator} {C : Type} (members : list member) (invoke : row members -> C -> C).

#[local] Abbreviation handler := (@resultset_callback C).
#[local] Existing Instance resultset_callback_handler.

(** The handler after [setup], whatever it was used for before. *)
Definition fresh_handler (h : handler) : handler :=
RC parsing_meta (rc_pos_map h) no_error (rc_cb h) (match rc_info h with Some info => Some (reset_info info) | None => None end).

Lemma query_setup q ps pf vs rf n h : @setup _ (resultset_callback_handler members invoke) (query_request q ps pf vs rf n) 0 h =
Some (setup_ok (length (rq_types (query_request q ps pf vs rf n))), fresh_handler h).
Proof. reflexivity. Qed.

(** The result of a call that ends with [fin] after the rows gave [ec]. *)
Definition query_result (ec : error_code) (fin : command_complete + error_notice_fields) : extended_error :=
match fin with inl _ => EE ec [] | inr e => maybe_store_error e (EE ec []) end.

Lemma rows_replay fields d rows cols fin h : NoDup (row_name_table members) -> length (rc_pos_map h) = length members ->
Forall total_member members -> fpv_range (field_descriptions d) = Some fields -> Z.of_nat (length fields) < SIZE_MAX ->
rows_columns fields rows cols ->
exists ec c h', delivered members invoke fields cols (rc_cb h) = Some (ec, c) /\
@replay _ (resultset_callback_handler members invoke) (rows_calls d rows fin) (fresh_handler h) = Some h' /\
rc_err h' = query_result ec fin /\ rc_cb h' = c /\
forall tag, fin = inl tag -> rc_info h' = (info ← rc_info h; Some (from_command_complete (reset_info info) tag)).
Proof.
intros Hnd Hl Ht Hf Hlen Hr.
destruct (run_description members invoke fields d rows cols (fresh_handler h) Hnd Hl Ht Hf Hlen Hr eq_refl eq_refl)
as (ec & c & pos_map & Hd & Hrun).
rewrite replay_run. assert (map snd (rows_calls d rows fin) =
[Aparse_complete; Abind_complete] ++ (Arow_description d :: map Adata_row rows) ++ [rows_over_call fin]) as ->.
{ unfold rows_calls, calls_at. cbn [map snd]. by rewrite map_map, map_id. }
rewrite run_app. cbn [run callback_message mbind option_bind]. rewrite run_app, Hrun. cbn [mbind option_bind run].
exists ec, c.
destruct fin as [tag|e]; eexists; (split; [exact Hd|]); cbn [rows_over_call callback_message on_done set_info mbind option_bind];
(split; [reflexivity|]).
- split_and!; [done..|]. intros t [= <-]. cbn. by destruct (rc_info h).
- by split_and!.
Qed.

(** A server error is always reported, one with the code of success as a step that was skipped. *)
Definition refused_result (e : error_notice_fields) : extended_error :=
match code (store_error e no_error) with Some _ => store_error e no_error | None => EE (Some (client step_skipped)) [] end.

Lemma failed_replay k e h : exists h', @replay _ (resultset_callback_handler members invoke) (failed_calls k e) (fresh_handler h) = Some h' /\
rc_err h' = refused_result e /\ rc_cb h' = rc_cb h.
Proof.
unfold refused_result, store_error. cbn [code].
destruct k; eexists; (split; [reflexivity|]); unfold rc_store_error, maybe_store_error, store_error; cbn [rc_err rc_cb code no_error fresh_handler];
by destruct (parse_sqlstate _).
Qed.
(** ** The query *)

(** Building the request and executing it, given what the handler makes of the answer. *)
Lemma query_runs q ps pf vs rf n (h h' : handler) st sizes ms answer calls response_bytes extra stream :
params_write pf ps vs -> Forall message_fits (query_messages q ps pf vs rf n) ->
vec_ok (concat (map frontend_wire (query_messages q ps pf vs rf n))) ->
response false 0 query_steps answer calls ->
@replay _ (resultset_callback_handler members invoke) calls (fresh_handler h) = Some h' ->
sync_part ms = answer -> ends_sync ms -> encodes ms response_bytes ->
rb_inv (st_read_buffer st) -> committed_area (st_read_buffer st) ++ stream = response_bytes ++ extra ->
Forall (fun n => 0 < n)%nat sizes -> (length stream <= length sizes)%nat ->
exists req es ops x rb rest,
run_op (Oadd_query q ps pf rf n) (make_request true) = (None, req) /\
reads_within sizes es /\ event_bytes es ++ rest = stream /\
op_writes ops = [concat (map frontend_wire (query_messages q ps pf vs rf n))] /\
@co_exec alloc _ (resultset_callback_handler members invoke) es req h st = Some (ops, Some (rc_err h'), (x, set_read_buffer rb st)) /\
handler_ (read_fsm_ x) = h' /\ rb_inv rb /\ committed_area rb ++ rest = extra.
Proof.
intros Hps Hfit Hv Hresp Hrep <- Hsync Henc Hrb Hstream Hpos Hlen.
set (req := query_request q ps pf vs rf n).
destruct (proj2 (@feed_response _ (resultset_callback_handler members invoke) req (fresh_handler h) h' false ms ltac:(done)))
as (f' & Hfeed & Hh); [split; [done|by exists calls]|].
destruct (@co_exec_delivers alloc _ (resultset_callback_handler members invoke) req h (fresh_handler h) None f' st sizes ms
response_bytes extra stream) as (es & ops & x & rb & rest & He & Hb & Hw & Hco & Hx & Hi & Hext); [done..|].
exists req, es, ops, x, rb, rest. unfold exec_get_result in Hco. cbn [result resultset_callback_handler] in Hco. rewrite Hx, Hh in Hco.
split_and!; [|done..|by rewrite Hx|done|done].
apply (op_appends true _ _ (em_query true q ps pf rf n vs Hps)); [done|exact Hfit|exact Hv].
Qed.

(** C2: A query works from its text to the rows of the user.  For parameters that
can be written and messages that fit the protocol, [add_query] builds the request;
when the server answers it with a description, rows no shorter than it and the tag
or an error, mixed with asynchronous messages, in a stream cut into reads of at most any given
sizes, [exec] with a [resultset_callback_t] of a row type of the user, whatever the
handler was used for before, writes the
five messages of the query, calls the callback with exactly the rows of the answer,
parsed from the columns of the members' names, up to the first that does not
parse, and reports the first error, if there is one; a byte after the response is never
consumed, and the info object has the tag. *)
Theorem query_rows q ps pf vs rf n fields d rows cols fin s (h : handler) st sizes ms response_bytes extra stream :
params_write pf ps vs -> Forall message_fits (query_messages q ps pf vs rf n) ->
vec_ok (concat (map frontend_wire (query_messages q ps pf vs rf n))) ->
NoDup (row_name_table members) -> length (rc_pos_map h) = length members -> Forall total_member members ->
fpv_range (field_descriptions d) = Some fields -> Z.of_nat (length fields) < SIZE_MAX -> rows_columns fields rows cols ->
sync_part ms = rows_answer d rows fin s -> ends_sync ms -> encodes ms response_bytes ->
rb_inv (st_read_buffer st) -> committed_area (st_read_buffer st) ++ stream = response_bytes ++ extra ->
Forall (fun n => 0 < n)%nat sizes -> (length stream <= length sizes)%nat ->
exists req ec c es ops x rb rest,
run_op (Oadd_query q ps pf rf n) (make_request true) = (None, req) /\
delivered members invoke fields cols (rc_cb h) = Some (ec, c) /\
reads_within sizes es /\ event_bytes es ++ rest = stream /\
op_writes ops = [concat (map frontend_wire (query_messages q ps pf vs rf n))] /\
@co_exec alloc _ (resultset_callback_handler members invoke) es req h st =
  Some (ops, Some (query_result ec fin), (x, set_read_buffer rb st)) /\
rc_cb (handler_ (read_fsm_ x)) = c /\ committed_area rb ++ rest = extra /\
forall tag, fin = inl tag -> rc_info (handler_ (read_fsm_ x)) = (info ← rc_info h; Some (from_command_complete (reset_info info) tag)).
Proof.
intros Hps Hfit Hv Hnd Hl Ht Hf Hlen Hr Hms Hsync Henc Hrb Hstream Hpos Hsz.
destruct (rows_replay fields d rows cols fin h Hnd Hl Ht Hf Hlen Hr) as (ec & c & h' & Hd & Hrep & He & Hc & Hi).
destruct (query_runs q ps pf vs rf n h h' st sizes ms _ _ response_bytes extra stream Hps Hfit Hv
(rows_answer_grammar d rows fin s) Hrep Hms Hsync Henc Hrb Hstream Hpos Hsz)
as (req & es & ops & x & rb & rest & Hop & Hes & Hb & Hw & Hco & <- & _ & Hext).
exists req, ec, c, es, ops, x, rb, rest. split_and!; [done..|by rewrite <- He|done|done|done].
Qed.

(** C12: A query that the server refuses is an error of the call and nothing else.  When
the server answers with an error in parsing, binding or describing the query, [exec]
reports that error with the server's text (or, for an error with the code of
success, that a step was skipped), the callback is not called, and the connection
is at the end of the response: what follows it is kept for the next request. *)
Theorem query_refused q ps pf vs rf n k e s (h : handler) st sizes ms response_bytes extra stream :
params_write pf ps vs -> Forall message_fits (query_messages q ps pf vs rf n) ->
vec_ok (concat (map frontend_wire (query_messages q ps pf vs rf n))) ->
sync_part ms = failed_answer k e s -> ends_sync ms -> encodes ms response_bytes ->
rb_inv (st_read_buffer st) -> committed_area (st_read_buffer st) ++ stream = response_bytes ++ extra ->
Forall (fun n => 0 < n)%nat sizes -> (length stream <= length sizes)%nat ->
exists req es ops x rb rest,
run_op (Oadd_query q ps pf rf n) (make_request true) = (None, req) /\
reads_within sizes es /\ event_bytes es ++ rest = stream /\
@co_exec alloc _ (resultset_callback_handler members invoke) es req h st =
  Some (ops, Some (refused_result e), (x, set_read_buffer rb st)) /\
code (refused_result e) <> None /\
rc_cb (handler_ (read_fsm_ x)) = rc_cb h /\ rb_inv rb /\ committed_area rb ++ rest = extra.
Proof.
intros Hps Hfit Hv Hms Hsync Henc Hrb Hstream Hpos Hsz.
destruct (failed_replay k e h) as (h' & Hrep & He & Hc).
destruct (query_runs q ps pf vs rf n h h' st sizes ms _ _ response_bytes extra stream Hps Hfit Hv
(failed_answer_grammar k e s) Hrep Hms Hsync Henc Hrb Hstream Hpos Hsz)
as (req & es & ops & x & rb & rest & Hop & Hes & Hb & _ & Hco & <- & Hi & Hext).
exists req, es, ops, x, rb, rest. split_and!; [done..|by rewrite <- He| |done|done|done].
unfold refused_result. destruct (code (store_error e no_error)) eqn:E; [by rewrite E|done].
Qed.
End query.

(** ** A query of two rows, and one that is refused *)

Lemma encodes_parsed m ms t body bs : parse_any_message t body = inr m -> Forall is_byte body ->
  Z.of_nat (length body) + 4 <= INT32_MAX -> encodes ms bs -> encodes (m :: ms) (frame t body ++ bs).
Proof. intros Hp Hb Hl He. apply encodes_cons; [by apply parse_any_message_sound|done..]. Qed.

(** The frames of a concrete answer. *)
#[local] Ltac encode_frames :=
  repeat first [exact encodes_nil | apply encodes_parsed;
    [vm_compute; reflexivity | apply (bool_decide_unpack _); vm_compute; exact I | vm_compute; discriminate |]].

Definition sample_text : bytes := str "SELECT id, n FROM t WHERE id > $1".
Definition sample_status : ready_for_query := {| status := idle |}.

Definition sample_answer : list any_backend_message :=
  [Mparse_complete; Mbind_complete; Mnotice_response no_fields; Mrow_description sample_description;
   Mdata_row (Resultsets.sample_row (Some (str "7")) None); Mdata_row (Resultsets.sample_row (Some (str "8")) (Some (str "-9")));
   Mcommand_complete {| tag := str "SELECT 2" |}; Mready_for_query sample_status].

Definition sample_answer_bytes : bytes :=
  frame (ch "1") [] ++ frame (ch "2") [] ++ frame (ch "N") [0] ++
  frame (ch "T") (be_encode 2 2 ++ items_enc [sample_column (str "id"); sample_column (str "n")]) ++
  frame (ch "D") (be_encode 2 2 ++ items_enc [Some (str "7"); None : field_view]) ++
  frame (ch "D") (be_encode 2 2 ++ items_enc [Some (str "8"); Some (str "-9") : field_view]) ++
  frame (ch "C") (str "SELECT 2" ++ [0]) ++ frame (ch "Z") [ch "I"] ++ [].

Lemma sample_answer_encodes : encodes sample_answer sample_answer_bytes.
Proof. unfold sample_answer, sample_answer_bytes. encode_frames. Qed.

Lemma sample_params_write : params_write fmt_text [sample_param] [str "1"].
Proof. repeat constructor. Qed.

Lemma sample_messages_fit : Forall message_fits (query_messages sample_text [sample_param] fmt_text [str "1"] fmt_text 0).
Proof. repeat constructor; vm_compute; discriminate. Qed.

Lemma query_rows_witness :
  exists req es ops x rb rest,
    run_op (Oadd_query sample_text [sample_param] fmt_text fmt_text 0) (make_request true) = (None, req) /\
    reads_within (replicate 200 4%nat) es /\ event_bytes es ++ rest = sample_answer_bytes ++ str "N" /\
    @co_exec zero_alloc _ (resultset_callback_handler sample_members collect) es req sample_handler sample_state =
      Some (ops, Some no_error, (x, set_read_buffer rb sample_state)) /\
    rc_cb (handler_ (read_fsm_ x)) = [(None, (7, tt)); (Some (-9), (8, tt))] /\ committed_area rb ++ rest = str "N" /\
    rc_info (handler_ (read_fsm_ x)) = Some (CI (str "SELECT 2") (Some 2) false).
Proof.
  destruct (@query_rows zero_alloc _ sample_members collect sample_text [sample_param] fmt_text [str "1"] fmt_text 0
    [sample_column (str "id"); sample_column (str "n")] sample_description
    [Resultsets.sample_row (Some (str "7")) None; Resultsets.sample_row (Some (str "8")) (Some (str "-9"))]
    [[Some (str "7"); None]; [Some (str "8"); Some (str "-9")]] (inl {| tag := str "SELECT 2" |}) sample_status sample_handler sample_state
    (replicate 200 4%nat) sample_answer sample_answer_bytes (str "N") (sample_answer_bytes ++ str "N"))
    as (req & ec & c & es & ops & x & rb & rest & Hop & Hd & He & Hb & _ & Hco & Hc & Hext & Hi).
  - exact sample_params_write.
  - exact sample_messages_fit.
  - vm_compute. reflexivity.
  - apply (bool_decide_unpack _). vm_compute. exact I.
  - reflexivity.
  - constructor; [|constructor; [|constructor]]; unfold total_member; apply _.
  - vm_compute. reflexivity.
  - vm_compute. reflexivity.
  - repeat constructor; vm_compute; reflexivity.
  - reflexivity.
  - reflexivity.
  - exact sample_answer_encodes.
  - exact sample_state_inv.
  - reflexivity.
  - apply (bool_decide_unpack _). vm_compute. exact I.
  - vm_compute. lia.
  - vm_compute in Hd. injection Hd as <- <-. specialize (Hi _ eq_refl). vm_compute in Hi.
    exists req, es, ops, x, rb, rest. repeat split; [exact Hop|exact He|exact Hb|exact Hco|exact Hc|exact Hext|exact Hi].
Defined.

Definition sample_refusal : bytes :=
  frame (ch "E") ([ch "C"] ++ str "42601" ++ [0; ch "M"] ++ str "syntax error" ++ [0; 0]) ++ frame (ch "Z") [ch "I"] ++ [].

Lemma query_refused_witness :
  exists req es ops x rb rest,
    run_op (Oadd_query sample_text [sample_param] fmt_text fmt_text 0) (make_request true) = (None, req) /\
    reads_within (replicate 50 4%nat) es /\ event_bytes es ++ rest = sample_refusal /\
    @co_exec zero_alloc _ (resultset_callback_handler sample_members collect) es req sample_handler sample_state =
      Some (ops, Some (refused_result syntax_error), (x, set_read_buffer rb sample_state)) /\
    rc_cb (handler_ (read_fsm_ x)) = [] /\ committed_area rb ++ rest = [].
Proof.
  destruct (@query_refused zero_alloc _ sample_members collect sample_text [sample_param] fmt_text [str "1"] fmt_text 0
    at_parse syntax_error sample_status sample_handler sample_state (replicate 50 4%nat)
    [Merror_response syntax_error; Mready_for_query sample_status] sample_refusal [] sample_refusal)
    as (req & es & ops & x & rb & rest & Hop & He & Hb & Hco & _ & Hc & _ & Hext).
  - exact sample_params_write.
  - exact sample_messages_fit.
  - vm_compute. reflexivity.
  - reflexivity.
  - reflexivity.
  - unfold sample_refusal. encode_frames.
  - exact sample_state_inv.
  - reflexivity.
  - apply (bool_decide_unpack _). vm_compute. exact I.
  - vm_compute. lia.
  - exists req, es, ops, x, rb, rest. repeat split; [exact Hop|exact He|exact Hb|exact Hco|exact Hc|exact Hext].
Defined.
