(* ===== verification/IoErrors.v ===== *)
(** * Failing I/O ([include/nativepg/connection.hpp], [src/src/co_connection.cpp])

    What [exec] and [connect] of a connection do when an operation that they have
    started fails, at whatever point that is: for the coroutines of [co_connection]
    and, since they agree with them, the composed operations of [connection]. *)

From stdpp Require Import base list option.
From Stdlib Require Import ZArith Lia.
From S2P Require Import Prelude Errors BackendMessages ParseMessage FrontendMessages Request ReadResponse ReadResponseSpec ReadResponseGrammar.
From S2P Require Import ReadBuffer MessagePump Exec Scram Startup StartupSession Connect Connection ConnectionSession.

#[local] Open Scope Z_scope.

(** The operation that is pending when a list of operations has been started. *)
Definition pending (ops : list io_op) : io_op := List.last ops Op_read.

Lemma pending_cons op ops : ops <> [] -> pending (op :: ops) = pending ops.
Proof. by destruct ops. Qed.

Section exec.
Context {alloc : Allocator} {H : Type} `{!ResponseHandler H}.

(** The machine that has asked for an operation is at the point that waits for it. *)
Definition exec_waits (res : io_result) (x : exec_fsm H) : Prop :=
match res with io_write _ => resume_point_ x = 1%nat | io_read => resume_point_ x = 2%nat | io_done _ => True end.

Lemma exec_loop_waits x st res x' st' : exec_loop x st = Some (res, x', st') -> exec_waits res x'.
Proof.
unfold exec_loop. destruct (pump _ _ _) as [[[r rb] f]|]; [|done]. destruct r; by intros [= <- <- <-].
Qed.

Lemma exec_resume_waits x st ec n res x' st' : exec_resume x st ec n = Some (res, x', st') -> exec_waits res x'.
Proof.
unfold exec_resume. destruct (resume_point_ x) as [|[|[|]]]; [| | |done].
- destruct (setup_request _ _) as [[[e|] h]|]; [| |done]; by intros [= <- <- _].
- destruct ec; [by intros [= <- <- _]|apply exec_loop_waits].
- destruct ec; [by intros [= <- <- _]|apply exec_loop_waits].
Qed.

Lemma exec_resume_error res x st ec n : exec_waits res x -> (forall e, res <> io_done e) ->
exec_resume x st (Some ec) n = Some (io_done (Some ec), x, st).
Proof. intros Hw Hr. unfold exec_resume. destruct res as [e| |]; [by destruct (Hr e)|..]; by rewrite Hw. Qed.

Lemma co_exec_loop_pending es : forall res x st t s, co_exec_loop es res x st = Some (t, None, s) -> t <> [].
Proof.
intros res x st t s. destruct res, es as [|[e bs] es]; cbn [co_exec_loop]; try (by intros [= <- _]);
destruct (exec_resume _ _ _ _) as [[[r x'] st']|]; try done; cbn [mbind option_bind];
destruct (co_exec_loop _ _ _ _) as [[[t' r'] s']|]; try done; by intros [= <- _ _].
Qed.

Lemma co_exec_loop_error ec bs later es : forall res x st t s, exec_waits res x ->
co_exec_loop es res x st = Some (t, None, s) ->
co_exec_loop (es ++ (Some ec, bs) :: later) res x st =
Some (t, Some (EE (Some ec) []), (s.1, op_received (pending t) (Some ec, bs) s.2)).
Proof.
induction es as [|[e bs0] es IH]; intros res x st t s Hw; destruct res as [e0|data|]; cbn [app co_exec_loop]; try done.
1, 2: intros [= <- <-]; erewrite (exec_resume_error _ x) by done; cbn [mbind option_bind]; by destruct later.
all: destruct (exec_resume x _ e _) as [[[res x1] st1]|] eqn:E; [|done]; cbn [mbind option_bind];
destruct (co_exec_loop es res x1 st1) as [[[t1 r1] s1]|] eqn:Ec; [|done]; intros [= <- -> ->];
rewrite (IH _ _ _ _ _ (exec_resume_waits _ _ _ _ _ _ _ E) Ec); cbn [mbind option_bind];
by rewrite pending_cons by (by eapply co_exec_loop_pending).
Qed.

Lemma co_exec_error ec bs later es req (h : H) st t s : co_exec es req h st = Some (t, None, s) ->
co_exec (es ++ (Some ec, bs) :: later) req h st =
Some (t, Some (EE (Some ec) []), (s.1, op_received (pending t) (Some ec, bs) s.2)).
Proof.
unfold co_exec. destruct (exec_resume _ _ _ _) as [[[res x] st1]|] eqn:E; [|done].
apply co_exec_loop_error. by eapply exec_resume_waits.
Qed.
End exec.

Section connect.
Context {ssl : OpenSSL} (char_signed : bool) {alloc : Allocator}.

Definition connect_waits (res : connect_result) (x : connect_fsm) : Prop :=
match res with
| connect_connect => cf_point x = 1%nat
| connect_write _ => cf_point x = 3%nat /\ sf_point (startup_ x) = 1%nat
| connect_read => cf_point x = 3%nat /\ sf_point (startup_ x) = 2%nat
| connect_close | connect_done _ => True
end.

Lemma connect_startup_waits x st ec n res x' st' :
connect_startup char_signed x st ec n = Some (res, x', st') -> connect_waits res x'.
Proof.
rewrite connect_startup_from. destruct (startup_resume _ _ _ _ _ _) as [[[[r s] st1] d]|] eqn:E; [|done].
apply startup_resume_waits in E. destruct r as [[e|]|data|]; by intros [= <- <- _].
Qed.

Lemma connect_resume_waits x st ec n res x' st' :
connect_resume char_signed x st ec n = Some (res, x', st') -> connect_waits res x'.
Proof.
unfold connect_resume. destruct (cf_point x) as [|[|[|[|[|]]]]]; try (by intros [= <- <- _]); [|apply connect_startup_waits].
destruct ec; [by intros [= <- <- _]|apply connect_startup_waits].
Qed.

(** A failure is followed by a close and the report of the error. *)
Lemma connect_resume_error res x st ec n : connect_waits res x -> (forall e, res <> connect_done e) -> res <> connect_close ->
exists x', connect_resume char_signed x st (Some ec) n = Some (connect_close, x', st) /\
forall st e n, connect_resume char_signed x' st e n = Some (connect_done (Some ec), x', st).
Proof.
intros Hw Hd Hc. destruct st as [wb rb pid key diag]. unfold connect_resume. destruct res as [e| |data| |]; [by destruct (Hd e)|..|done].
- destruct Hw as [-> Hp]. rewrite connect_startup_from. unfold startup_resume. rewrite Hp. by eexists.
- destruct Hw as [-> Hp]. rewrite connect_startup_from. unfold startup_resume. rewrite Hp. by eexists.
- cbn in Hw. rewrite Hw. by eexists.
Qed.

(** The operation that a result of the machine starts, and its iteration of the loop. *)
Definition started_op (res : connect_result) : option io_op :=
match res with
| connect_write data => Some (Op_write data)
| connect_read => Some Op_read
| connect_connect => Some Op_physical_connect
| connect_close | connect_done _ => None
end.

Lemma co_connect_loop_started fuel es res op x st : started_op res = Some op -> co_connect_loop char_signed (S fuel) es res x st =
match es with
| [] => Some ([op], None, (x, st))
| e :: es' =>
'(res, x, st) ← connect_resume char_signed x (op_received op e st) e.1
  (match op with Op_physical_connect => 0 | _ => Z.of_nat (length e.2) end);
'(t, r, s) ← co_connect_loop char_signed fuel es' res x st; Some (op :: t, r, s)
end.
Proof. by destruct res; intros [= <-]. Qed.

(** A pending operation was started by the machine. *)
Lemma co_connect_loop_pending fuel es res x st t s : sound_result char_signed res x ->
co_connect_loop char_signed fuel es res x st = Some (t, None, s) -> t <> [] /\ exists op, started_op res = Some op.
Proof.
intros Hs Hl. destruct fuel as [|fuel]; [done|]. destruct (started_op res) as [op|] eqn:Eo.
- split; [|by eexists]. rewrite (co_connect_loop_started _ _ _ _ _ _ Eo) in Hl. destruct es as [|e es]; [by injection Hl as <- _|].
destruct (connect_resume _ _ _ _ _) as [[[r x1] st1]|]; [|done]. cbn [mbind option_bind] in Hl.
destruct (co_connect_loop _ _ _ _ _ _) as [[[t1 r1] s1]|]; [|done]. by injection Hl as <- _ _.
- destruct res as [e| |data| |]; try done. cbn [co_connect_loop] in Hl. rewrite Hs in Hl by done. by destruct fuel.
Qed.

Lemma co_connect_loop_close fuel later x st ec : (2 <= fuel)%nat ->
(forall st e n, connect_resume char_signed x st e n = Some (connect_done (Some ec), x, st)) ->
co_connect_loop char_signed fuel later connect_close x st = Some ([], Some (EE (Some ec) (shared_diag st)), (x, st)).
Proof. intros Hf Hx. destruct fuel as [|[|fuel]]; try lia. cbn [co_connect_loop]. by rewrite Hx. Qed.

Lemma co_connect_loop_error ec bs later es : forall fuel fuel' res x st t s,
connect_waits res x -> sound_result char_signed res x -> (3 + length es <= fuel')%nat ->
co_connect_loop char_signed fuel es res x st = Some (t, None, s) ->
exists x', co_connect_loop char_signed fuel' (es ++ (Some ec, bs) :: later) res x st =
Some (t, Some (EE (Some ec) (shared_diag s.2)), (x', op_received (pending t) (Some ec, bs) s.2)).
Proof.
induction es as [|e es IH]; intros [|fuel] [|fuel'] res x st t s Hw Hs Hf Hl; try done; cbn [length] in Hf; try lia;
destruct (co_connect_loop_pending _ _ _ _ _ _ _ Hs Hl) as (_ & op & Hop);
rewrite (co_connect_loop_started _ _ _ _ _ _ Hop) in Hl; rewrite (co_connect_loop_started _ _ _ _ _ _ Hop); cbn [app].
- injection Hl as <- <-. cbn [fst snd pending List.last].
destruct (connect_resume_error res x (op_received op (Some ec, bs) st) ec
  (match op with Op_physical_connect => 0 | _ => Z.of_nat (length bs) end) Hw) as (x1 & -> & Hdone); [by destruct res..|].
cbn [mbind option_bind]. rewrite (co_connect_loop_close fuel' later x1 _ ec) by (lia || done). exists x1. by destruct op.
- destruct (connect_resume _ _ _ _ _) as [[[r x1] st1]|] eqn:E; [|done]. cbn [mbind option_bind] in *.
destruct (co_connect_loop _ fuel _ _ _ _) as [[[t1 r1] s1]|] eqn:Ec; [|done]. injection Hl as <- -> ->.
pose proof (resume_sound _ _ _ _ _ _ _ _ E) as Hs1. destruct (co_connect_loop_pending _ _ _ _ _ _ _ Hs1 Ec) as [Ht _].
destruct (IH fuel fuel' r x1 st1 t1 s (connect_resume_waits _ _ _ _ _ _ _ E) Hs1 ltac:(lia) Ec) as (x' & ->).
exists x'. cbn [mbind option_bind]. by rewrite pending_cons.
Qed.

Lemma co_connect_error ec bs later es params random st t s : co_connect char_signed es params random st = Some (t, None, s) ->
exists x', co_connect char_signed (es ++ (Some ec, bs) :: later) params random st =
Some (t, Some (EE (Some ec) (shared_diag s.2)), (x', op_received (pending t) (Some ec, bs) s.2)).
Proof.
unfold co_connect. destruct (connect_resume _ _ _ _ _) as [[[res x] st1]|] eqn:E; [|done]. cbn [mbind option_bind]. intros Hl.
eapply co_connect_loop_error; [by eapply connect_resume_waits|by eapply resume_sound| |exact Hl].
rewrite length_app. cbn [length]. lia.
Qed.
End connect.

(** ** The property *)

(** What a failing operation leaves of the state: the bytes of a read that failed are
    in the prepared area, but are not committed. *)
Definition after_failure (ops : list io_op) (ec : error) (bs : bytes) (st : connection_state) : connection_state :=
  op_received (pending ops) (Some ec, bs) st.


